(* ===== verification/_CoqProject ===== *)
-Q . S2P
Prelude.v
GoStr.v
GoErr.v
Api.v
ApiAlpha.v
Csi.v
Effects.v
ZfsArgs.v
ZfsArgsSpec.v
Kube.v
Clients.v
Builders.v
BuildersSpec.v
Lists.v
Responses.v
VolumeOps.v
ZfsOps.v
Laws.v
Sim.v
ZfsOpsSpec.v
PipeSpec.v
PoolSpec.v
Mount.v
NodeService.v
MountSpec.v
NodeSpec.v
Reconcilers.v
ReconcilersSpec.v
InformerFactory.v
InformerFactorySpec.v
Heap.v
HeapSpec.v
DeepCopies.v
HeapNode.v
Scheme.v
SchemeSpec.v
Clientset.v
FakeClientset.v
ClientsetSpec.v
Equality.v
Wiring.v
WiringSpec.v
Scheduler.v
RegexpSim.v
SchedulerSpec.v
Controller.v
ControllerSpec.v
ProvisionSpec.v
SnapshotSpec.v
Scenarios.v
Lifecycle.v
LifecycleSpec.v
LifecycleVol.v
LifecycleSnap.v
LifecycleRun.v
CapacitySpec.v
BackupGC.v
BackupGCSpec.v
Server.v
VolumeLock.v
Process.v
ProcessSpec.v
Witnesses.v
