(* ===== verification/Prelude.v ===== *)
(** * Verification of zfs-localpv

    zfs-localpv is a driver of the container storage interface that provisions
    local volumes in ZFS pools.  Its two halves share no memory: they talk through
    custom resources of the Kubernetes API server.

    - The CONTROLLER (src/pkg/driver: controller.go, schd_helper.go, volume_lock.go)
      answers the remote procedures that create, clone, expand, delete and snapshot
      volumes.  It chooses a node and a pool, writes a ZFSVolume or ZFSSnapshot
      resource, and waits for its status.
      Beside it a collector (backup_gc.go) deletes the incremental backups whose chain
      is broken.
    - The NODE AGENT (src/pkg/mgmt) runs one reconciler per kind of resource.  It
      watches the resources of its node and makes the node agree with them through
      the zfs tool (src/pkg/zfs), then reports in the resource: the status, and a
      finalizer that holds the resource until its dataset is gone.  It also answers
      the remote procedures that publish volumes on the node (agent.go, mount.go).
    - Both build the resources with the builders of src/pkg/builder, read and write
      them with the clients there, which use a generated clientset, and see changes of
      them through informers that a factory shares out (src/pkg/generated).
    - One process (src/cmd/main.go; driver.go, grpc.go of src/pkg/driver) is either of
      them: it starts the services of its type behind a gRPC server and stops on a signal.

    ** How the code is modelled

    A Go function without effects is a function, a fallible one returns [result] or
    an [option error].  A function that talks to a service is a program of the type
    [prog] of Effects: a tree of commands ([cmd]), each with the type of its answer,
    that ends in a value ([Ret]), an error ([Throw]), a panic ([Crash]) or lack of
    fuel ([Spin]).  The services (API server, informer caches, work queues, child
    processes, pipes, timers, the lock) are the environment: a relation between a
    command, a state, an answer and the next state.  [wp E p Q s] says that every run
    of [p] in [E] from [s] ends in an outcome and state that satisfy [Q]; [safe E G p s]
    that each command of each run satisfies the guard [G] in the state it is issued
    in.  [any_env] answers anything and records the trace: a theorem in it holds
    whatever the services do.  Other theorems assume laws of a service, as a class:
    [ZfsLaws] (what zfs(8) documents of list, create, clone, snapshot and destroy;
    [ZfsLawsAt] for one dataset while others are at work on the rest), [ClockLaws],
    [NodeCacheLaws] (the caches of nodes), [MountLaws] (the mount table of a node),
    [VolumesLaw], [ClusterLaws] (the node objects of the cluster), [RegexpLaws],
    [CacheKeysLaws], [SchemeLaws] (a scheme of types), [ListersLaws], [EqualityLaws].  Sim, RegexpSim and
    the simulated node and cluster of MountSpec and WiringSpec satisfy them and run the
    driver on concrete inputs.  Two programs are equivalent ([≡]) when no environment
    tells them apart.

    Where parts run side by side the model is a transition system whose threads are these
    programs, one command a step: the goroutines of the process (ProcessSpec), the clients,
    the API server and the agents around one resource (Lifecycle), the start of the agent's
    controllers (WiringSpec), the collector (BackupGCSpec), the lock (VolumeLock) and the
    users of an informer factory (InformerFactorySpec).  A resource is its value, except
    in Heap, where it is a struct in memory and the deep copies and changes in place are
    programs on the memory.

    Third-party packages are classes of functions ([ErrorsFmt], [LibHelpers],
    [Regexp], [CacheKeys], [LabelSelectors], [JsonMarshal], [Protosanitizer], [Cobra],
    [Scheme], [RestLib], [ListersLib], [TestingLib], [EqualityLib]); process-wide variables are
    the class [Globals], which [init] computes, and the settings of the agent the class
    [NodeConfig]; the order
    in which Go ranges over a map is the class [GoRange], any permutation of the
    entries, so that no theorem depends on it.  An int64 is a [Z] with its wrap-around
    written out ([wrap64]); strings are byte strings.  Log output is left out, and so
    are the deferred calls of a panic, which ends the process.

    ** The files

    - Prelude: machine integers, tactics, generic lemmas.  GoStr, GoErr: the parts of
      Go's strings, strconv, fmt and errors the driver uses, its typed errors
      (pkg/zfs/errors.go) and event messages (pkg/zfs/events.go).
    - Api: the custom resources (pkg/apis) and their validation; ApiAlpha: their first
      version.  Csi: the messages of the container storage interface.
    - Effects: commands, programs, environments, and the rules of [wp], [safe], [only]
      (the commands of a program) and [total] (no panic and no lack of fuel).
    - ZfsArgs, ZfsArgsSpec: the command lines of pkg/zfs/zfs_util.go.  A reader of
      argument vectors gives them their meaning, against which they are specified.
    - Kube: the clients as the driver uses them (pkg/builder/*/kubernetes.go, one program
      over five kinds).  Clients: the clients in full, with their options and cached
      clientset, and that Kube is what they do.  Builders, BuildersSpec: the object
      builders (pkg/builder/*/build.go, nodebuilder/node.go).  Lists: the list builders
      and predicates of the same packages.  Responses: the builders of pkg/response.
      VolumeOps: pkg/zfs/volume.go.
    - ZfsOps: the operations of pkg/zfs/zfs_util.go and resize.go.  Laws, Sim: the laws
      of the services, and a simulated node and API server.  ZfsOpsSpec: what the
      operations do to the datasets of the node, and that the waits end.  PipeSpec:
      the pipe of backups and restores, and resizing.  PoolSpec: the listing of pools.
    - Mount: pkg/zfs/mount.go and formatoptions.go.  NodeService: pkg/driver/agent.go.
      MountSpec: publishing and unpublishing against the mount table.  NodeSpec: format
      options, topology, usage and expansion.
    - Reconcilers, ReconcilersSpec: the reconcilers (pkg/mgmt), their event handlers
      and work queue.  InformerFactory, InformerFactorySpec: the factory and the informers
      of pkg/generated/informer.  Heap, HeapSpec: the objects in memory, their copying
      (zz_generated.deepcopy.go) and its law; DeepCopies: the copying of the first version,
      and the independence of the copies of both; HeapNode: the node reconciler in place.
      Wiring, WiringSpec: how the agent builds, starts and runs the reconcilers
      (start.go, builder.go and Run of pkg/mgmt, NewNode).
    - Scheme, SchemeSpec: the registration of the types (register.go of both versions, of
      the clientset and of its fake).  Clientset, FakeClientset, ClientsetSpec: the
      generated clientset, typed clients, listers, and the fakes of the first two.
      Equality: pkg/equality, and the reconciliation of a node with the quantities of Go.
    - Scheduler, RegexpSim, SchedulerSpec: schd_helper.go.
    - Controller, ControllerSpec, ProvisionSpec, SnapshotSpec, CapacitySpec: controller.go.
    - Lifecycle, LifecycleSpec: controller, API server and agents together, around one
      resource of a kind that stands for a dataset ([Lived]), and what follows from the
      promises of the parts ([Clients], [Worker]).  LifecycleVol, LifecycleSnap: the kinds,
      volumes and snapshots, keep the promises.  LifecycleRun: runs of both.
    - BackupGC, BackupGCSpec: backup_gc.go, and the collector beside the API server, the
      informer and the clients as a transition system.
    - Server: configuration and version (pkg/config, pkg/version), the identity service,
      the endpoint and the logging of requests (identity.go, grpc.go).  Process,
      ProcessSpec: main.go, driver.go, the gRPC server and the construction of the
      controller, and their goroutines as a transition system.
    - VolumeLock: volume_lock.go as a transition system of interleaved goroutines.
    - Scenarios: controller and agent run together.  Witnesses: the theorems with
      hypotheses, at concrete inputs.

    ** What the theorems show

    - The life of a volume (LifecycleVol) and of a snapshot (LifecycleSnap), with
      requests, API server, stale caches and workers interleaved in any way: what is shown
      as ready has its dataset and its finalizer, and the finalizer goes only after the
      dataset.  The parts are held together by the guards proved for each of them alone;
      the API server is assumed to refuse updates of old versions, the caches to follow the
      order of versions, and others not to touch the dataset.  For a snapshot the others
      include the agent's worker on its volume, and the assumption is needed:
      Scenarios has the run in which a volume is destroyed under a snapshot that is taken
      too late ([snapshot_of_deleted_volume]).
    - The process (ProcessSpec) serves with the services of its type only, ends well only
      after a signal and with the requests drained, and can always end once it got one.
    - Copies (DeepCopies) share no memory with what they copy, so that a reconciler that
      changes its copy in place (HeapNode) does what the function on values says and leaves
      the cache alone; a factory (InformerFactorySpec) runs each informer once and shares it.
    - The generated parts agree on the names, types and resources of each kind
      (ClientsetSpec); a clientset is made exactly from the configurations it can be made
      from, and every failure is an error ([NewForConfig_spec]); the types can be
      registered in any order and again (SchemeSpec), as the five controllers of an agent
      do.  Comparing quantities as numbers is what the code's comparison comes to
      (Equality).
    - The agent tells the truth (ReconcilersSpec): a volume is reported ready only
      with its dataset there, its finalizer is dropped only with the dataset gone,
      backups and restores are reported done only after their stream went through,
      node resources carry the pools that were listed; reconcilers return, items of
      the queue are settled, events lead to the reconciliation of their object.
    - The operations on datasets (ZfsOpsSpec, PipeSpec, PoolSpec) are idempotent, have
      exactly the effect they name, leave everything else alone, leak no process and
      no descriptor; their waits end; the listing is decoded faithfully.
    - The command lines (ZfsArgsSpec) say exactly what the resource declares.
    - The controller (ControllerSpec, ProvisionSpec, SnapshotSpec) writes only what its
      request and the answers of the API server justify: sizes, pools that fit,
      sources of clones and snapshots, deletions only without snapshots.  The capacity
      it reports (CapacitySpec) is that of the best matching pool of the nodes asked for.
    - Publishing (MountSpec) refines an abstract specification of the mount table: a
      volume that is not shared is mounted at one path at most, unpublishing undoes
      publishing, a failed request changes nothing.  NodeSpec: the codes and numbers the
      node service answers with, and when the agent's own identifier is the one it
      reports.
    - The collector (BackupGCSpec) deletes only what its indices showed to be orphaned,
      and in every interleaving leaves chains of backups intact once it is quiet.
    - The start of the agent (WiringSpec) serializes what must not run at once, starts
      no controller that is not complete, and gives the node resource to its own node.
    - Builders and clients (BuildersSpec, Clients, Lists): what is built is well formed,
      and what is listed is what the filters say.
    - The choice of nodes and pools (SchedulerSpec) is the documented optimum, and
      agrees with what the agent's command will reserve.
    - The lock (VolumeLock) excludes, loses no wake-up, and serves every request in
      every interleaving when snapshots are not named as volumes.
    - Behaviours that depart from what the code means to do are theorems too:
      [restore_drops_refreservation], [failed_thin_resize_drops_quota],
      [decodeListOutput_panics_on_text], [nil_capacity_panics],
      [getRoundedCapacity_overflow], [crossed_names_deadlock],
      [publish_without_access_type], [block_publish_unchecked],
      [failed_collection_leaves_orphan], [backup_key_collision], [upper_case_scheme],
      [short_commit_panics], [early_signal_panics], [signal_during_start_is_lost] and those
      of Scenarios.

    ** Fuel

    The loops that wait take fuel and end in [Spin] without it.  [getDevice] needs 6
    rounds for its five seconds and [checkVolCreation] 11 for its ten
    ([getDevice_terminates], [checkVolCreation_terminates]), one for each second that a
    round sleeps and one for the expiry.  [waitForVolDestroy] and [waitForReadySnapshot]
    have no bound of their own in the code; the theorems on their callers hold for
    every fuel.  So do those on [runWorker] and [poll], which run as long as the process.

    ** What is not modelled

    Every file of the driver is modelled, to the bounds of what it calls.  Of the generated
    clients the part that is of this repository is: what they are made of and from; their
    methods are those of client-go's generic client, which the rest reaches through the
    commands of Effects ([CGet], [CCreate], ...), as it does the reading of a lister
    ([CLister]).  The command [UAddToScheme] stands for [clientset_AddToScheme] on the
    scheme that client-go shares, of which SchemeSpec shows that it succeeds and can be
    repeated.  Declarations of interfaces say no more than the definitions of what
    implements them.  Log output is left out, except for what the interceptor of the
    requests logs. *)

From Stdlib Require Export ZArith Lia Ascii String.
From Stdlib Require Export List.
From stdpp Require Export base tactics list gmap strings.

#[export] Set Warnings "-clear-no-such-hyp,-register-all".

(** ** Machine integers

    Go's [int64] is a [Z] kept in range by [wrap64], applied after every
    arithmetic operation that the source performs on an [int64]. *)

Definition int64_min : Z := (-9223372036854775808)%Z.
Definition int64_max : Z := 9223372036854775807%Z.

Definition wrap64 (z : Z) : Z :=
  ((z + 9223372036854775808) mod 18446744073709551616 - 9223372036854775808)%Z.

(** Two's complement at 32 bits, [int32(x)]. *)
Definition wrap32 (x : Z) : Z := ((x + 2 ^ 31) mod 2 ^ 32 - 2 ^ 31)%Z.

(** The same for uint64. *)
Definition wrapu64 (z : Z) : Z := (z mod 18446744073709551616)%Z.

Definition in_int64 (z : Z) : Prop := (int64_min <= z <= int64_max)%Z.

Definition in_int64b (z : Z) : bool :=
  ((int64_min <=? z) && (z <=? int64_max))%Z.

(** ** Tactics of the development *)

(** Turn boolean comparisons of the context and the goal into propositions. *)
Ltac to_prop :=
  repeat match goal with
  | H : (_ && _)%bool = true |- _ => apply andb_true_iff in H as [? ?]
  | H : (_ || _)%bool = false |- _ => apply orb_false_iff in H as [? ?]
  | H : negb _ = true |- _ => apply negb_true_iff in H
  | H : negb _ = false |- _ => apply negb_false_iff in H
  | H : (_ =? _)%Z = true |- _ => apply Z.eqb_eq in H
  | H : (_ =? _)%Z = false |- _ => apply Z.eqb_neq in H
  | H : (_ <? _)%Z = true |- _ => apply Z.ltb_lt in H
  | H : (_ <? _)%Z = false |- _ => apply Z.ltb_ge in H
  | H : (_ <=? _)%Z = true |- _ => apply Z.leb_le in H
  | H : (_ <=? _)%Z = false |- _ => apply Z.leb_gt in H
  | H : (_ =? _)%string = true |- _ => apply String.eqb_eq in H
  | H : (_ =? _)%string = false |- _ => apply String.eqb_neq in H
  | H : bool_decide _ = true |- _ => apply bool_decide_eq_true in H
  | H : bool_decide _ = false |- _ => apply bool_decide_eq_false in H
  end.

(** ** Generic lemmas *)

Lemma wrap64_in_range z : in_int64 (wrap64 z).
Proof.
  unfold in_int64, wrap64, int64_min, int64_max.
  pose proof (Z.mod_pos_bound (z + 9223372036854775808) 18446744073709551616).
  lia.
Qed.

Lemma wrap64_id z : in_int64 z → wrap64 z = z.
Proof.
  unfold in_int64, wrap64, int64_min, int64_max. intros.
  rewrite Z.mod_small; lia.
Qed.

Lemma wrapu64_id z : (0 <= z < 18446744073709551616)%Z → wrapu64 z = z.
Proof. unfold wrapu64. intros. by rewrite Z.mod_small. Qed.

Lemma in_int64b_spec z : in_int64b z = true ↔ in_int64 z.
Proof. unfold in_int64b, in_int64. rewrite andb_true_iff, !Z.leb_le. tauto. Qed.
