(* ===== verification/GoStr.v ===== *)
(** * Go's [strings], [strconv] and [fmt], as the driver uses them

    Go strings are byte sequences; they are [String.string] here.  The functions
    below are the ones the driver calls, with the separators it passes.  The
    Unicode-aware ones ([ToLower], [TrimSpace], [Fields]) are modelled on their
    ASCII behaviour: Kubernetes names, label values, ZFS names and the outputs
    of the ZFS tools are ASCII. *)

From S2P Require Import Prelude.
From Stdlib Require Import DecimalN DecimalPos DecimalFacts.

Open Scope string_scope.
Open Scope list_scope.

(** Concatenation computes on a constructor (the library's default is opaque). *)
#[global] Arguments String.append !_ _ / : simpl nomatch.

Abbreviation tab := "009"%char.
Abbreviation newline := "010"%char.
Abbreviation dquote := "034"%char.
Abbreviation backslash := "092"%char.

Definition str1 (c : ascii) : string := String c "".

(** [len(s)] *)
Definition slen (s : string) : Z := Z.of_nat (String.length s).

(** [s == ""] *)
Definition is_empty (s : string) : bool := match s with "" => true | _ => false end.

(** ** strings *)

(** [strings.HasPrefix(s, p)] *)
Fixpoint HasPrefix (s p : string) : bool :=
  match p, s with
  | "", _ => true
  | String a p', String b s' => Ascii.eqb a b && HasPrefix s' p'
  | _, "" => false
  end.

(** [strings.Contains(s, sub)] *)
Fixpoint Contains (s sub : string) : bool :=
  HasPrefix s sub ||
  match s with
  | "" => false
  | String _ s' => Contains s' sub
  end.

(** Whether the byte [c] occurs in [s]: [strings.Contains(s, string(c))]. *)
Fixpoint has_char (c : ascii) (s : string) : bool :=
  match s with
  | "" => false
  | String a s' => Ascii.eqb a c || has_char c s'
  end.

(** [strings.Cut(s, sep)] for a one-byte separator: the text before and after
    the first separator, and whether there is one. *)
Fixpoint Cut (c : ascii) (s : string) : string * string * bool :=
  match s with
  | "" => ("", "", false)
  | String a s' =>
    if Ascii.eqb a c then ("", s', true)
    else let '(b, r, found) := Cut c s' in (String a b, r, found)
  end.

(** [strings.Split(s, sep)] for a one-byte separator; never the empty list. *)
Fixpoint Split (c : ascii) (s : string) : list string :=
  match s with
  | "" => [""]
  | String a s' =>
    if Ascii.eqb a c then "" :: Split c s'
    else match Split c s' with
         | f :: fs => String a f :: fs
         | [] => [str1 a]
         end
  end.

(** [strings.Join(l, sep)] *)
Fixpoint Join (l : list string) (sep : string) : string :=
  match l with
  | [] => ""
  | [x] => x
  | x :: l' => x +:+ sep +:+ Join l' sep
  end.

(** [strings.ToLower], on ASCII letters *)
Definition lower_char (c : ascii) : ascii :=
  let n := nat_of_ascii c in
  if (65 <=? n)%nat && (n <=? 90)%nat then ascii_of_nat (n + 32) else c.

Fixpoint ToLower (s : string) : string :=
  match s with
  | "" => ""
  | String a s' => String (lower_char a) (ToLower s')
  end.

(** ASCII white space: tab, newline, vertical tab, form feed, return, blank. *)
Definition is_space (c : ascii) : bool :=
  let n := nat_of_ascii c in ((9 <=? n)%nat && (n <=? 13)%nat) || (n =? 32)%nat.

Fixpoint trim_left (s : string) : string :=
  match s with
  | "" => ""
  | String a s' => if is_space a then trim_left s' else s
  end.

Fixpoint trim_right (s : string) : string :=
  match s with
  | "" => ""
  | String a s' =>
    match trim_right s' with
    | "" => if is_space a then "" else str1 a
    | r => String a r
    end
  end.

(** [strings.TrimSpace] *)
Definition TrimSpace (s : string) : string := trim_left (trim_right s).

(** [strings.Trim(s, cutset)] for a cutset of one byte. *)
Fixpoint drop_while (c : ascii) (s : string) : string :=
  match s with
  | String a s' => if Ascii.eqb a c then drop_while c s' else s
  | "" => ""
  end.

Fixpoint drop_end (c : ascii) (s : string) : string :=
  match s with
  | String a s' =>
    match drop_end c s' with
    | "" => if Ascii.eqb a c then "" else str1 a
    | r => String a r
    end
  | "" => ""
  end.

Definition Trim (s : string) (c : ascii) : string := drop_while c (drop_end c s).

(** [strings.Fields]: the maximal runs of non-space bytes. *)
Fixpoint fields_aux (cur : string) (s : string) : list string :=
  match s with
  | "" => match cur with "" => [] | _ => [cur] end
  | String a s' =>
    if is_space a
    then match cur with "" => fields_aux "" s' | _ => cur :: fields_aux "" s' end
    else fields_aux (cur +:+ str1 a) s'
  end.

Definition Fields (s : string) : list string := fields_aux "" s.

(** The first [n] bytes: [s[:n]], for [n <= len(s)]. *)
Fixpoint take_str (n : nat) (s : string) : string :=
  match n, s with
  | O, _ => ""
  | S _, "" => ""
  | S n', String a s' => String a (take_str n' s')
  end.

(** The rest after [n] bytes: [s[n:]]. *)
Fixpoint drop_str (n : nat) (s : string) : string :=
  match n, s with
  | S n', String _ s' => drop_str n' s'
  | _, _ => s
  end.

(** [filepath.Clean]: the elements of the path, without empty ones and single
    dots; a double dot drops the element before it, and is kept where there is
    none, unless the path starts at the root. *)
Fixpoint clean_elements (rooted : bool) (elements stack : list string) : list string :=
  match elements with
  | [] => rev stack
  | e :: rest =>
    if (e =? "") || (e =? ".") then clean_elements rooted rest stack
    else if e =? ".." then
      match stack with
      | top :: below =>
        if top =? ".." then clean_elements rooted rest (".." :: stack)
        else clean_elements rooted rest below
      | [] => clean_elements rooted rest (if rooted then [] else [".."])
      end
    else clean_elements rooted rest (e :: stack)
  end.

Definition Clean (path : string) : string :=
  let rooted := HasPrefix path "/" in
  let body := Join (clean_elements rooted (Split "/" path) []) "/" in
  if rooted then "/" +:+ body else if body =? "" then "." else body.

(** ** strconv *)

Fixpoint uint_to_string (d : Decimal.uint) : string :=
  match d with
  | Decimal.Nil => ""
  | Decimal.D0 d => String "0" (uint_to_string d)
  | Decimal.D1 d => String "1" (uint_to_string d)
  | Decimal.D2 d => String "2" (uint_to_string d)
  | Decimal.D3 d => String "3" (uint_to_string d)
  | Decimal.D4 d => String "4" (uint_to_string d)
  | Decimal.D5 d => String "5" (uint_to_string d)
  | Decimal.D6 d => String "6" (uint_to_string d)
  | Decimal.D7 d => String "7" (uint_to_string d)
  | Decimal.D8 d => String "8" (uint_to_string d)
  | Decimal.D9 d => String "9" (uint_to_string d)
  end.

Definition digit_cons (c : ascii) (d : Decimal.uint) : option Decimal.uint :=
  match c with
  | "0"%char => Some (Decimal.D0 d) | "1"%char => Some (Decimal.D1 d)
  | "2"%char => Some (Decimal.D2 d) | "3"%char => Some (Decimal.D3 d)
  | "4"%char => Some (Decimal.D4 d) | "5"%char => Some (Decimal.D5 d)
  | "6"%char => Some (Decimal.D6 d) | "7"%char => Some (Decimal.D7 d)
  | "8"%char => Some (Decimal.D8 d) | "9"%char => Some (Decimal.D9 d)
  | _ => None
  end.

Fixpoint string_to_uint (s : string) : option Decimal.uint :=
  match s with
  | "" => Some Decimal.Nil
  | String c s' => d ← string_to_uint s'; digit_cons c d
  end.

(** [strconv.FormatInt(z, 10)] *)
Definition FormatInt (z : Z) : string :=
  match z with
  | Z0 => "0"
  | Zpos p => uint_to_string (N.to_uint (Npos p))
  | Zneg p => String "-" (uint_to_string (N.to_uint (Npos p)))
  end.

(** The magnitude of a non-empty run of decimal digits. *)
Definition parse_digits (s : string) : option Z :=
  match s with
  | "" => None
  | _ => d ← string_to_uint s; Some (Z.of_N (N.of_uint d))
  end.

(** [strconv.ParseInt(s, 10, 64)]: an optional sign, at least one digit, and a
    value of [int64]; [None] is the error. *)
Definition parse_signed (s : string) : option Z :=
  match s with
  | String "-" s' => z ← parse_digits s'; Some (- z)%Z
  | String "+" s' => parse_digits s'
  | _ => parse_digits s
  end.

Definition ParseInt (s : string) : option Z :=
  z ← parse_signed s; if in_int64b z then Some z else None.

(** [strconv.Quote], the [%q] verb, for ASCII text: quotes and backslashes are
    escaped, the usual control characters by name and the others in hexadecimal. *)
Definition hex_digit (n : nat) : ascii :=
  if (n <? 10)%nat then ascii_of_nat (48 + n) else ascii_of_nat (87 + n).

Definition quote_char (c : ascii) : string :=
  let n := nat_of_ascii c in
  if Ascii.eqb c dquote || Ascii.eqb c backslash then String backslash (str1 c)
  else match n with
       | 7%nat => String backslash "a" | 8%nat => String backslash "b"
       | 9%nat => String backslash "t" | 10%nat => String backslash "n"
       | 11%nat => String backslash "v" | 12%nat => String backslash "f"
       | 13%nat => String backslash "r"
       | _ => if ((n <? 32) || (126 <? n))%nat
              then String backslash (String "x" (String (hex_digit (n / 16)) (str1 (hex_digit (n mod 16)))))
              else str1 c
       end.

Fixpoint quote_body (s : string) : string :=
  match s with
  | "" => ""
  | String a s' => quote_char a +:+ quote_body s'
  end.

Definition Quote (s : string) : string := str1 dquote +:+ quote_body s +:+ str1 dquote.

(** The text of the error of [strconv.ParseInt]: the digits are read from the left
    and the first that is none, or that exceeds 64 bits, decides. *)
Fixpoint parse_fault (s : string) (acc : N) : string :=
  match s with
  | "" => "value out of range"
  | String c s' =>
    match digit_cons c Decimal.Nil with
    | None => "invalid syntax"
    | Some d =>
      let acc := (acc * 10 + N.of_uint d)%N in
      if (18446744073709551615 <? acc)%N then "value out of range" else parse_fault s' acc
    end
  end.

Definition ParseInt_error (s : string) : string :=
  let digits := match s with String "-" s' | String "+" s' => s' | _ => s end in
  "strconv.ParseInt: parsing " +:+ Quote s +:+ ": " +:+
  (if is_empty digits then "invalid syntax" else parse_fault digits 0).

(** ** fmt *)

(** [fmt.Sprintf(format, args...)] for arguments given as the strings they print
    as: the verbs [%s], [%v], [%d], [%w] insert the argument, [%q] quotes it. *)
Fixpoint Sprintf (f : string) (args : list string) : string :=
  match f with
  | "" => ""
  | String "%" (String v f') =>
    match args with
    | [] => String "%" (String v (Sprintf f' []))
    | a :: args' => (if Ascii.eqb v "q" then Quote a else a) +:+ Sprintf f' args'
    end
  | String c f' => String c (Sprintf f' args)
  end.

(** A []string printed with %v. *)
Definition fmt_list (l : list string) : string := "[" +:+ Join l " " +:+ "]".

(** ** Lemmas *)

Lemma slen_zero s : slen s = 0%Z ↔ s = "".
Proof. unfold slen. destruct s; simpl; split; try done; lia. Qed.

Lemma is_empty_true s : is_empty s = true ↔ s = "".
Proof. destruct s; done. Qed.

Lemma is_empty_false s : is_empty s = false ↔ s ≠ "".
Proof. destruct s; done. Qed.

Lemma app_nil_r_str s : s +:+ "" = s.
Proof. induction s; simpl; congruence. Qed.

Lemma app_assoc_str s1 s2 s3 : (s1 +:+ s2) +:+ s3 = s1 +:+ s2 +:+ s3.
Proof. induction s1; simpl; congruence. Qed.

Lemma app_inj_l_str s t1 t2 : s +:+ t1 = s +:+ t2 → t1 = t2.
Proof. induction s; simpl; intros; simplify_eq; auto. Qed.

Lemma length_app_str s t : String.length (s +:+ t) = (String.length s + String.length t)%nat.
Proof. induction s; simpl; congruence. Qed.

Lemma has_char_app c s t : has_char c (s +:+ t) = has_char c s || has_char c t.
Proof. induction s; simpl; [done|]. rewrite IHs. by rewrite orb_assoc. Qed.

Lemma HasPrefix_app s t : HasPrefix (s +:+ t) s = true.
Proof. induction s as [|a s IH]; simpl; [by destruct t|]. by rewrite Ascii.eqb_refl. Qed.

Lemma HasPrefix_inv s p : HasPrefix s p = true → ∃ t, s = p +:+ t.
Proof.
  revert s. induction p as [|a p IH]; intros s; [by exists s|].
  destruct s as [|b s]; simpl; [done|].
  intros [->%Ascii.eqb_eq [t ->]%IH]%andb_true_iff. by exists t.
Qed.

Lemma Split_nonnil c s : Split c s ≠ [].
Proof. destruct s; simpl; [done|]. repeat case_match; done. Qed.

(** A piece without separators followed by a separator is the first field. *)
Lemma Split_app c f s :
  has_char c f = false → Split c (f +:+ String c s) = f :: Split c s.
Proof.
  induction f as [|a f IH]; simpl; [by rewrite Ascii.eqb_refl|].
  intros [Ha Hf]%orb_false_iff. rewrite Ha, IH by done. done.
Qed.

Lemma Split_nosep c s : has_char c s = false → Split c s = [s].
Proof.
  induction s as [|a s IH]; simpl; [done|].
  intros [Ha Hs]%orb_false_iff. by rewrite Ha, IH.
Qed.

Lemma Split_Join c l :
  l ≠ [] → Forall (λ f, has_char c f = false) l → Split c (Join l (str1 c)) = l.
Proof.
  intros Hne Hl. induction Hl as [|f l Hf Hl IH]; [done|].
  destruct l as [|g l]; [by apply Split_nosep|].
  change (Join (f :: g :: l) (str1 c)) with (f +:+ str1 c +:+ Join (g :: l) (str1 c)).
  change (str1 c +:+ ?x) with (String c x).
  rewrite Split_app, IH; done.
Qed.

Lemma Join_Split c s : Join (Split c s) (str1 c) = s.
Proof.
  induction s as [|a s IH]; [done|]. simpl.
  destruct (Ascii.eqb_spec a c) as [->|Hne].
  - destruct (Split c s) as [|f fs] eqn:E; [by apply Split_nonnil in E|].
    simpl in *. by rewrite IH.
  - destruct (Split c s) as [|f fs] eqn:E; [by apply Split_nonnil in E|].
    destruct fs; simpl in *; by rewrite <- IH.
Qed.

Lemma Split_fields c s : Forall (λ f, has_char c f = false) (Split c s).
Proof.
  induction s as [|a s IH]; simpl; [by repeat constructor|].
  destruct (Ascii.eqb a c) eqn:Ha; [by constructor|].
  destruct (Split c s) as [|f fs]; inversion IH; subst; constructor; simpl;
    rewrite ?Ha; done.
Qed.

Lemma Cut_found c b r : has_char c b = false → Cut c (b +:+ String c r) = (b, r, true).
Proof.
  induction b as [|a b IH]; simpl; [by rewrite Ascii.eqb_refl|].
  intros [-> ->%IH]%orb_false_iff. done.
Qed.

Lemma Cut_spec c s b r found :
  Cut c s = (b, r, found) →
  has_char c b = false ∧
  (if found then s = b +:+ String c r else s = b ∧ r = "").
Proof.
  revert b r found. induction s as [|a s IH]; simpl; intros b r found H; simplify_eq; [done|].
  destruct (Ascii.eqb_spec a c) as [->|Hne]; simplify_eq; [done|].
  destruct (Cut c s) as [[b' r'] f'] eqn:E. simplify_eq.
  destruct (IH _ _ _ eq_refl) as [Hb Hr]. simpl.
  rewrite (proj2 (Ascii.eqb_neq a c) Hne), Hb. split; [done|].
  destruct found; [by rewrite Hr|]. by destruct Hr as [-> ->].
Qed.

Lemma lower_char_idem c : lower_char (lower_char c) = lower_char c.
Proof. destruct c as [[] [] [] [] [] [] [] []]; reflexivity. Qed.

Lemma ToLower_idem s : ToLower (ToLower s) = ToLower s.
Proof. induction s; simpl; [done|]. by rewrite lower_char_idem, IHs. Qed.

Lemma ToLower_empty s : ToLower s = "" ↔ s = "".
Proof. by destruct s. Qed.

(** *** Decimal round trip *)

Lemma digit_uint_roundtrip d : string_to_uint (uint_to_string d) = Some d.
Proof. induction d; simpl; try rewrite IHd; done. Qed.

Lemma N_to_uint_nonnil n : N.to_uint n ≠ Decimal.Nil.
Proof. destruct n; [done|]. apply Unsigned.to_uint_nonnil. Qed.

Lemma uint_to_string_nonempty d : d ≠ Decimal.Nil → uint_to_string d ≠ "".
Proof. by destruct d. Qed.

Lemma parse_digits_N n : parse_digits (uint_to_string (N.to_uint n)) = Some (Z.of_N n).
Proof.
  unfold parse_digits.
  destruct (uint_to_string _) eqn:E.
  { exfalso. eapply uint_to_string_nonempty, E. apply N_to_uint_nonnil. }
  rewrite <- E, digit_uint_roundtrip. simpl.
  by rewrite DecimalN.Unsigned.of_to.
Qed.

Lemma uint_first_digit d a s :
  uint_to_string d = String a s → a ≠ "-"%char ∧ a ≠ "+"%char.
Proof. destruct d; simpl; intros; simplify_eq; done. Qed.

Lemma parse_signed_nosign a s :
  a ≠ "-"%char → a ≠ "+"%char → parse_signed (String a s) = parse_digits (String a s).
Proof. destruct a as [[] [] [] [] [] [] [] []]; done. Qed.

(** [strconv.ParseInt] inverts [strconv.FormatInt] on [int64]. *)
Lemma ParseInt_FormatInt z : in_int64 z → ParseInt (FormatInt z) = Some z.
Proof.
  intros Hz%in_int64b_spec. unfold ParseInt.
  assert (parse_signed (FormatInt z) = Some z) as ->; [|simpl; by rewrite Hz].
  destruct z as [|p|p]; [done|..]; unfold FormatInt.
  - pose proof (parse_digits_N (Npos p)) as Hp.
    destruct (uint_to_string (N.to_uint (Npos p))) as [|a s] eqn:E; [done|].
    apply uint_first_digit in E as [H1 H2].
    by rewrite parse_signed_nosign.
  - cbn -[N.to_uint]. by rewrite parse_digits_N.
Qed.

Lemma FormatInt_nonempty z : FormatInt z ≠ "".
Proof.
  destruct z as [|p|p]; simpl; try done.
  apply uint_to_string_nonempty, (N_to_uint_nonnil (Npos p)).
Qed.

Lemma FormatInt_inj z1 z2 : in_int64 z1 → in_int64 z2 → FormatInt z1 = FormatInt z2 → z1 = z2.
Proof.
  intros H1%ParseInt_FormatInt H2%ParseInt_FormatInt Heq.
  rewrite Heq in H1. congruence.
Qed.

Create Rewrite HintDb gostr.

#[export] Hint Rewrite app_nil_r_str app_assoc_str has_char_app : gostr.

(** *** Substrings *)

Lemma Contains_prefix s sub : HasPrefix s sub = true → Contains s sub = true.
Proof. intros H. unfold Contains. destruct s; fold Contains; by rewrite H. Qed.

Lemma Contains_intro a sub b : Contains (a +:+ sub +:+ b) sub = true.
Proof.
  induction a as [|c a IH]; simpl.
  - apply Contains_prefix, HasPrefix_app.
  - by rewrite IH, orb_true_r.
Qed.

Lemma Contains_spec s sub : Contains s sub = true ↔ ∃ a b, s = a +:+ sub +:+ b.
Proof.
  split; [|intros (a & b & ->); apply Contains_intro].
  induction s as [|c s IH]; intros H.
  - exists "", "". by destruct sub.
  - cbn [Contains] in H. apply orb_true_iff in H as [[t Ht]%HasPrefix_inv|(a & b & ->)%IH]; [by exists "", t|].
    by exists (String c a), b.
Qed.

Lemma trim_right_keeps s b : s ≠ "" → trim_right s = s → trim_right (s +:+ b) = s +:+ trim_right b.
Proof.
  induction s as [|c s IH]; [done|]. intros _ Hs. simpl in *.
  destruct s as [|c' s].
  - simpl in *. destruct (is_space c) eqn:Hc; [done|]. by destruct (trim_right b).
  - destruct (trim_right (String c' s)) as [|d t] eqn:Ht; [by destruct (is_space c)|].
    injection Hs as Hs. rewrite IH; [done|done|]. congruence.
Qed.

Lemma trim_right_app x y : trim_right y ≠ "" → trim_right (x +:+ y) = x +:+ trim_right y.
Proof.
  intros Hy. induction x as [|c x IH]; [done|]. simpl. rewrite IH.
  destruct (x +:+ trim_right y) eqn:E; [|done]. by destruct x.
Qed.

Lemma trim_left_app x y : trim_left y = y → ∃ x', trim_left (x +:+ y) = x' +:+ y.
Proof.
  intros Hy. induction x as [|c x IH]; simpl; [by exists ""|].
  destruct (is_space c); [done|]. by exists (String c x).
Qed.

(** A text that neither starts nor ends with white space is not affected by the
    trimming of what surrounds it. *)
Lemma Contains_TrimSpace s sub :
  sub ≠ "" → trim_right sub = sub → (∀ b, trim_left (sub +:+ b) = sub +:+ b) →
  Contains s sub = true → Contains (TrimSpace s) sub = true.
Proof.
  intros Hne Hr Hl (a & b & ->)%Contains_spec. unfold TrimSpace.
  assert (trim_right (sub +:+ b) = sub +:+ trim_right b) as Hsb by (by apply trim_right_keeps).
  rewrite trim_right_app by (rewrite Hsb; by destruct sub). rewrite Hsb.
  destruct (trim_left_app a (sub +:+ trim_right b)) as [x' ->]; [apply Hl|]. apply Contains_intro.
Qed.
