(* ===== verification/GoErr.v ===== *)
(** * Errors

    The error values the driver builds and inspects: plain and wrapped errors,
    gRPC status errors, Kubernetes API errors, exit errors of child processes and
    the driver's own [zfs.Error] (pkg/zfs/errors.go), with the event messages
    derived from them (pkg/zfs/events.go). *)

From S2P Require Import Prelude GoStr.

(** gRPC status codes the driver returns. *)
Inductive code :=
| InvalidArgument | DeadlineExceeded | NotFound | AlreadyExists
| ResourceExhausted | FailedPrecondition | Aborted | Unimplemented
| Internal | Unavailable.

#[export] Instance code_eq_dec : EqDecision code.
Proof. solve_decision. Defined.

Definition code_String (c : code) : string :=
  match c with
  | InvalidArgument => "InvalidArgument"
  | DeadlineExceeded => "DeadlineExceeded"
  | NotFound => "NotFound"
  | AlreadyExists => "AlreadyExists"
  | ResourceExhausted => "ResourceExhausted"
  | FailedPrecondition => "FailedPrecondition"
  | Aborted => "Aborted"
  | Unimplemented => "Unimplemented"
  | Internal => "Internal"
  | Unavailable => "Unavailable"
  end.

(** The reasons of a Kubernetes API error the driver tells apart. *)
Inductive api_reason := ReasonNotFound | ReasonAlreadyExists | ReasonConflict | ReasonOther.

(** The error numbers of the operating system the driver tells apart. *)
Inductive errno := EIO | EEXIST | ENOENT | EOTHER.

#[export] Instance errno_eq_dec : EqDecision errno.
Proof. solve_decision. Defined.

Inductive error :=
| ErrText (msg : string)                 (* errors.New, fmt.Errorf without wrapping *)
| ErrStatus (c : code) (msg : string)    (* status.Error *)
| ErrAPI (r : api_reason) (msg : string) (* an apimachinery StatusError *)
| ErrExit (msg : string)                 (* exec.ExitError *)
| ErrOS (n : errno) (msg : string)       (* fs.PathError and the like *)
| ErrWrap (cause : error) (msg : string) (* errors.Wrapf: "msg: cause" *)
| ErrW (msg : string) (cause : error)    (* fmt.Errorf with a wrapping verb, text in full *)
| ErrJoin (es : list error)              (* errors.Join *)
| ErrZFS (Op Dataset Stderr : string) (Err : error). (* *zfs.Error *)

(** [fmt.Errorf(format, args...)] without a wrapping verb *)
Definition Errorf (f : string) (args : list string) : error := ErrText (Sprintf f args).

(** [status.Errorf(code, format, args...)] *)
Definition StatusErrorf (c : code) (f : string) (args : list string) : error :=
  ErrStatus c (Sprintf f args).

(** ** pkg/zfs/errors.go *)

(** The text of [*zfs.Error], given the text of the underlying error. *)
Definition ZFSError_Error (Op Dataset Stderr : string) (errText : string) : string :=
  if negb (is_empty Dataset) && negb (is_empty Stderr)
  then Sprintf "%s on %q: %s" [Op; Dataset; Stderr]
  else if negb (is_empty Stderr) then Sprintf "%s: %s" [Op; Stderr]
  else if negb (is_empty Dataset) then Sprintf "%s on %q: %v" [Op; Dataset; errText]
  else Sprintf "%s: %v" [Op; errText].

(** [err.Error()] *)
Fixpoint Error (e : error) : string :=
  match e with
  | ErrText m => m
  | ErrStatus c m => Sprintf "rpc error: code = %s desc = %s" [code_String c; m]
  | ErrAPI _ m => m
  | ErrExit m => m
  | ErrOS _ m => m
  | ErrWrap c m => m +:+ ": " +:+ Error c
  | ErrW m _ => m
  | ErrJoin es => Join (map Error es) (str1 newline)
  | ErrZFS op ds se c => ZFSError_Error op ds se (Error c)
  end.

(** [errors.Unwrap] for the single-cause errors; [*zfs.Error] exposes its cause. *)
Definition Unwrap (e : error) : option error :=
  match e with
  | ErrWrap c _ | ErrW _ c | ErrZFS _ _ _ c => Some c
  | _ => None
  end.

(** [NewZFSError(op, dataset, err, stderr)]: nil for a nil error. *)
Definition NewZFSError (op dataset : string) (err : option error) (stderr : string) : option error :=
  match err with
  | None => None
  | Some e => Some (ErrZFS op dataset (TrimSpace stderr) e)
  end.

(** [k8serrors.IsNotFound(err)], which looks through wrapping. *)
Fixpoint IsNotFound (e : error) : bool :=
  match e with
  | ErrAPI ReasonNotFound _ => true
  | ErrWrap c _ | ErrW _ c | ErrZFS _ _ _ c => IsNotFound c
  | ErrJoin es => existsb IsNotFound es
  | _ => false
  end.

(** [errors.Is(err, errno)], which looks through wrapping. *)
Fixpoint Is (n : errno) (e : error) : bool :=
  match e with
  | ErrOS n' _ => bool_decide (n = n')
  | ErrW _ c | ErrWrap c _ | ErrZFS _ _ _ c => Is n c
  | ErrJoin es => existsb (Is n) es
  | _ => false
  end.

(** [os.IsExist(err)] and [os.IsNotExist(err)], which do not. *)
Definition IsExist (e : error) : bool :=
  match e with ErrOS EEXIST _ => true | _ => false end.

Definition IsNotExist (e : error) : bool :=
  match e with ErrOS ENOENT _ => true | _ => false end.

(** [status.Code(err)] of an error that is a gRPC status. *)
Definition status_code (e : error) : option code :=
  match e with
  | ErrStatus c _ => Some c
  | _ => None
  end.

(** ** pkg/zfs/events.go *)

Definition maxEventMessageLen : nat := 1024.

Definition truncateEventMessage (msg : string) : string :=
  if (String.length msg <=? maxEventMessageLen)%nat then msg
  else take_str (maxEventMessageLen - 3) msg +:+ "...".

(** ** Lemmas *)

Lemma length_take_str n s : String.length (take_str n s) = (n `min` String.length s)%nat.
Proof. revert s. induction n; intros [|a s]; simpl; auto. Qed.

Lemma take_str_prefix n s : HasPrefix s (take_str n s) = true.
Proof.
  revert s. induction n as [|n IH]; intros [|a s]; simpl; try done.
  by rewrite Ascii.eqb_refl, IH.
Qed.

Lemma NewZFSError_None op ds e out : NewZFSError op ds e out = None ↔ e = None.
Proof. destruct e; done. Qed.

#[export] Hint Resolve NewZFSError_None : core.
