(* ===== verification/Api.v ===== *)
(** * The custom resources (pkg/apis/openebs.io/zfs/v1)

    The five custom resources the driver works on, with their validation
    (VolumeInfo.Validate) and the user property check it relies on
    (pkg/zfs/util/userprop.go).  A Go map is a [gmap]: a nil map and an empty
    one are the same for every use the driver makes of them (length, range,
    lookup, maps.Equal, and the JSON encoding, which omits both). *)

From S2P Require Import Prelude GoStr GoErr.
From coqutil Require Export Datatypes.RecordSetters.
Export DoubleBraceUpdate.
Arguments constant /.

Abbreviation smap := (gmap string string).

(** [m[k]] on a map with string values: the empty string when [k] is absent. *)
Definition sget (m : smap) (k : string) : string := default "" (m !! k).

(** Go iterates over a map in an unspecified order, which may differ from one
    loop to the next.  [range m] is the sequence of entries one loop visits. *)
Class GoRange := {
  range : smap → list (string * string);
  range_perm m : range m ≡ₚ map_to_list m;
}.

(** ** Object metadata: the fields of metav1.ObjectMeta the driver uses, and the version
    by which the API server tells a stale update *)

Record OwnerReference := mkOwnerReference {
  ref_APIVersion : string;
  ref_Kind : string;
  ref_Name : string;
  ref_UID : string;
  ref_Controller : option bool;
}.

Record ObjectMeta := mkObjectMeta {
  Name : string;
  Namespace : string;
  ResourceVersion : string;
  Labels : smap;
  Annotations : smap;
  Finalizers : list string;
  DeletionTimestamp : option Z;
  OwnerReferences : list OwnerReference;
}.

Definition emptyMeta : ObjectMeta := mkObjectMeta "" "" "" ∅ ∅ [] None [].

(** ** ZFSVolume and ZFSSnapshot *)

Record VolumeInfo := mkVolumeInfo {
  OwnerNodeID : string;
  PoolName : string;
  SnapName : string;
  Capacity : string;
  RecordSize : string;
  VolBlockSize : string;
  Compression : string;
  Dedup : string;
  ATime : string;
  LogBias : string;
  Encryption : string;
  KeyLocation : string;
  KeyFormat : string;
  ThinProvision : string;
  VolumeType : string;
  QuotaType : string;
  FsType : string;
  Shared : string;
  UserProperties : smap;
}.

Definition emptyInfo : VolumeInfo :=
  mkVolumeInfo "" "" "" "" "" "" "" "" "" "" "" "" "" "" "" "" "" "" ∅.

Record ZFSVolume := mkZFSVolume {
  vol_Meta : ObjectMeta;
  vol_Spec : VolumeInfo;
  vol_State : string; (* Status.State *)
}.

Definition emptyVolume : ZFSVolume := mkZFSVolume emptyMeta emptyInfo "".

Record ZFSSnapshot := mkZFSSnapshot {
  snap_Meta : ObjectMeta;
  snap_Spec : VolumeInfo;
  snap_State : string; (* Status.State *)
}.

Definition emptySnapshot : ZFSSnapshot := mkZFSSnapshot emptyMeta emptyInfo "".

(** ** ZFSBackup and ZFSRestore *)

Inductive ZFSBackupStatus :=
| BKPZFSStatusDone | BKPZFSStatusFailed | BKPZFSStatusInit
| BKPZFSStatusPending | BKPZFSStatusInProgress | BKPZFSStatusInvalid
| BKPZFSStatusUnset. (* the empty string *)

Record ZFSBackupSpec := mkZFSBackupSpec {
  bkp_VolumeName : string;
  bkp_OwnerNodeID : string;
  bkp_SnapName : string;
  bkp_PrevSnapName : string;
  bkp_BackupDest : string;
}.

Record ZFSBackup := mkZFSBackup {
  bkp_Meta : ObjectMeta;
  bkp_Spec : ZFSBackupSpec;
  bkp_Status : ZFSBackupStatus;
}.

Inductive ZFSRestoreStatus :=
| RSTZFSStatusDone | RSTZFSStatusFailed | RSTZFSStatusInit
| RSTZFSStatusPending | RSTZFSStatusInProgress | RSTZFSStatusInvalid
| RSTZFSStatusUnset. (* the empty string *)

Record ZFSRestoreSpec := mkZFSRestoreSpec {
  rstr_VolumeName : string;
  rstr_OwnerNodeID : string;
  rstr_RestoreSrc : string;
}.

Record ZFSRestore := mkZFSRestore {
  rstr_Meta : ObjectMeta;
  rstr_Spec : ZFSRestoreSpec;
  rstr_VolSpec : VolumeInfo;
  rstr_Status : ZFSRestoreStatus;
}.

(** ** ZFSNode.  A resource.Quantity is the [int64] of its [Value()]. *)

Record Pool := mkPool {
  pool_Name : string;
  pool_UUID : string;
  pool_Free : Z;
  pool_Used : Z;
}.

Record ZFSNode := mkZFSNode {
  node_Meta : ObjectMeta;
  node_Pools : list Pool;
}.

#[export] Instance OwnerReference_eq_dec : EqDecision OwnerReference.
Proof. solve_decision. Defined.
#[export] Instance ObjectMeta_eq_dec : EqDecision ObjectMeta.
Proof. solve_decision. Defined.
#[export] Instance VolumeInfo_eq_dec : EqDecision VolumeInfo.
Proof. solve_decision. Defined.
#[export] Instance Pool_eq_dec : EqDecision Pool.
Proof. solve_decision. Defined.
#[export] Instance ZFSBackupStatus_eq_dec : EqDecision ZFSBackupStatus.
Proof. solve_decision. Defined.
#[export] Instance ZFSRestoreStatus_eq_dec : EqDecision ZFSRestoreStatus.
Proof. solve_decision. Defined.

(** ** pkg/zfs/util/userprop.go *)

Definition byte_in (lo hi : nat) (c : ascii) : bool :=
  let n := Ascii.nat_of_ascii c in ((lo <=? n) && (n <=? hi))%nat.

(** The classes of the byte switch: [Some true] for a colon, [Some false] for
    another permitted byte, [None] for the default branch. *)
Definition userprop_byte (b : ascii) : option bool :=
  if byte_in 97 122 b then Some false
  else if byte_in 48 57 b then Some false
  else if Ascii.eqb b "-" || Ascii.eqb b "." || Ascii.eqb b "_" then Some false
  else if Ascii.eqb b ":" then Some true
  else None.

(** The loop over the bytes of the name: [None] when a byte is invalid,
    otherwise whether a colon has been seen. *)
Fixpoint userprop_scan (name : string) (nameContainsColon : bool) : option bool :=
  match name with
  | "" => Some nameContainsColon
  | String b name' =>
    match userprop_byte b with
    | None => None
    | Some colon => userprop_scan name' (nameContainsColon || colon)
    end
  end.

Definition ValidateUserProperty (name value : string) : option error :=
  if (slen name =? 0)%Z then Some (ErrStatus InvalidArgument "name cannot be empty")
  else if (256 <? slen name)%Z then Some (ErrStatus InvalidArgument "name too long")
  else if HasPrefix name "-" then Some (ErrStatus InvalidArgument "name cannot begin with '-'")
  else match userprop_scan name false with
       | None => Some (ErrStatus InvalidArgument "name contains invalid byte(s)")
       | Some false => Some (ErrStatus InvalidArgument "name does not contain ':'")
       | Some true =>
         if (8192 <? slen value)%Z then Some (ErrStatus InvalidArgument "value too long")
         else None
       end.

(** ** VolumeInfo.Validate *)

(** The loop over the user properties; the first failing entry decides. *)
Fixpoint validate_props (props : list (string * string)) : option error :=
  match props with
  | [] => None
  | (name, value) :: props' =>
    match ValidateUserProperty name value with
    | Some err => Some err
    | None =>
      if HasPrefix name "openebs.io:" then validate_props props'
      else Some (Errorf "user property '%s' does not have prefix `openebs.io:`" [name])
    end
  end.

Definition Validate `{GoRange} (v : VolumeInfo) : option error :=
  validate_props (range (UserProperties v)).

(** ** Lemmas and properties *)

(** What zfsprops(7) allows for a user property name: bytes among lower-case
    letters, digits and [-._:]. *)
Definition userprop_ok_byte (b : ascii) : Prop :=
  (97 ≤ Ascii.nat_of_ascii b ≤ 122 ∨ 48 ≤ Ascii.nat_of_ascii b ≤ 57)%nat ∨
  b = "-"%char ∨ b = "."%char ∨ b = "_"%char ∨ b = ":"%char.

Fixpoint all_bytes (P : ascii → Prop) (s : string) : Prop :=
  match s with "" => True | String a s' => P a ∧ all_bytes P s' end.

Lemma byte_in_spec lo hi b :
  byte_in lo hi b = true ↔ (lo ≤ Ascii.nat_of_ascii b ≤ hi)%nat.
Proof. unfold byte_in. rewrite andb_true_iff, !Nat.leb_le. done. Qed.

Lemma userprop_byte_ok b : is_Some (userprop_byte b) ↔ userprop_ok_byte b.
Proof.
  unfold userprop_byte, userprop_ok_byte.
  destruct (byte_in 97 122 b) eqn:E1; [apply byte_in_spec in E1; naive_solver|].
  destruct (byte_in 48 57 b) eqn:E2; [apply byte_in_spec in E2; naive_solver|].
  apply not_true_iff_false in E1, E2. rewrite byte_in_spec in E1, E2.
  destruct (Ascii.eqb_spec b "-"); [naive_solver|].
  destruct (Ascii.eqb_spec b "."); [naive_solver|].
  destruct (Ascii.eqb_spec b "_"); [naive_solver|].
  destruct (Ascii.eqb_spec b ":"); [naive_solver|]. simpl.
  rewrite is_Some_alt. naive_solver.
Qed.

Lemma userprop_byte_colon b : userprop_byte b = Some true ↔ b = ":"%char.
Proof. destruct b as [[] [] [] [] [] [] [] []]; done. Qed.

Lemma userprop_scan_spec name acc r :
  userprop_scan name acc = Some r ↔
  all_bytes userprop_ok_byte name ∧ r = acc || has_char ":" name.
Proof.
  revert acc. induction name as [|b name IH]; intros acc; simpl.
  { rewrite orb_false_r. naive_solver. }
  pose proof (userprop_byte_ok b) as Hok. pose proof (userprop_byte_colon b) as Hcol.
  destruct (userprop_byte b) as [colon|].
  - rewrite IH, <- Hok.
    assert (colon = Ascii.eqb b ":") as ->.
    { destruct (Ascii.eqb_spec b ":"), colon; naive_solver. }
    rewrite orb_assoc. naive_solver.
  - rewrite <- Hok, is_Some_alt. naive_solver.
Qed.

(** The exact set of accepted user properties. *)
Definition userprop_valid (name value : string) : Prop :=
  (0 < slen name <= 256)%Z ∧ HasPrefix name "-" = false ∧
  all_bytes userprop_ok_byte name ∧ has_char ":" name = true ∧ (slen value <= 8192)%Z.

Lemma ValidateUserProperty_ok name value :
  ValidateUserProperty name value = None ↔ userprop_valid name value.
Proof.
  unfold ValidateUserProperty, userprop_valid.
  assert (0 <= slen name)%Z by (unfold slen; lia).
  destruct (Z.eqb_spec (slen name) 0); [split; [done|lia]|].
  destruct (Z.ltb_spec 256 (slen name)); [split; [done|lia]|].
  destruct (HasPrefix name "-"); [naive_solver|].
  destruct (userprop_scan name false) as [[]|] eqn:E.
  - apply userprop_scan_spec in E as [? ?].
    destruct (Z.ltb_spec 8192 (slen value)); split; try done; try lia.
    intros _. repeat split; auto; lia.
  - apply userprop_scan_spec in E as [_ Hc]. simpl in Hc. split; [done|].
    intros (_&_&_&Hc'&_). congruence.
  - split; [done|]. intros (_&_&Hb&_).
    by rewrite (proj2 (userprop_scan_spec name false _) (conj Hb eq_refl)) in E.
Qed.

Lemma validate_props_ok l :
  validate_props l = None ↔
  Forall (λ p, userprop_valid p.1 p.2 ∧ HasPrefix p.1 "openebs.io:" = true) l.
Proof.
  induction l as [|[n v] l IH]; simpl; [naive_solver|].
  rewrite Forall_cons. simpl. rewrite <- IH, <- ValidateUserProperty_ok.
  destruct (ValidateUserProperty n v); [naive_solver|].
  destruct (HasPrefix n _); naive_solver.
Qed.

Lemma Validate_ok `{GoRange} v :
  Validate v = None ↔
  map_Forall (λ n x, userprop_valid n x ∧ HasPrefix n "openebs.io:" = true) (UserProperties v).
Proof.
  unfold Validate. rewrite validate_props_ok, (range_perm (UserProperties v)).
  rewrite map_Forall_to_list. apply Forall_iff. intros []; done.
Qed.
