(* ===== verification/ApiAlpha.v ===== *)
(** * The first version of the resources (pkg/apis/openebs.io/zfs/v1alpha1)

    Volumes and snapshots as the first releases had them: no user properties, no quota
    type, and a specification that is flat.  No other package of the driver uses them. *)

From S2P Require Import Prelude GoStr GoErr Api.

Module v1alpha1.

Record alpha_VolumeInfo := mkAlphaVolumeInfo {
  OwnerNodeID : string;
  PoolName : string;
  SnapName : string;
  Capacity : string;
  RecordSize : string;
  VolBlockSize : string;
  Compression : string;
  Dedup : string;
  Encryption : string;
  KeyLocation : string;
  KeyFormat : string;
  ThinProvision : string;
  VolumeType : string;
  FsType : string;
}.

Definition alpha_emptyInfo : alpha_VolumeInfo := mkAlphaVolumeInfo "" "" "" "" "" "" "" "" "" "" "" "" "" "".

Record alpha_VolStatus := mkAlphaVolStatus { vol_State : string }.
Record alpha_SnapStatus := mkAlphaSnapStatus { snap_State : string }.

Record alpha_ZFSVolume := mkAlphaZFSVolume {
  vol_Meta : ObjectMeta;
  vol_Spec : alpha_VolumeInfo;
  vol_Status : alpha_VolStatus;
}.

Record alpha_ZFSSnapshot := mkAlphaZFSSnapshot {
  snap_Meta : ObjectMeta;
  snap_Spec : alpha_VolumeInfo;
  snap_Status : alpha_SnapStatus;
}.

End v1alpha1.
