(* ===== verification/Csi.v ===== *)
(** * The CSI messages the driver handles

    The requests of the container storage interface (the generated csi package,
    not part of the repository) as records of the fields the driver reads.  An
    optional message field is an [option]: Go's nil pointer is [None]. *)

From S2P Require Import Prelude GoStr GoErr Api.

Inductive AccessMode :=
| AM_UNKNOWN | SINGLE_NODE_WRITER | SINGLE_NODE_READER_ONLY | MULTI_NODE_READER_ONLY
| MULTI_NODE_SINGLE_WRITER | MULTI_NODE_MULTI_WRITER
| SINGLE_NODE_SINGLE_WRITER | SINGLE_NODE_MULTI_WRITER.

#[export] Instance AccessMode_eq_dec : EqDecision AccessMode.
Proof. solve_decision. Defined.

(** The access type of a capability: raw block, or a mount with a filesystem
    type and mount flags; [None] when the oneof is unset. *)
Inductive AccessType :=
| AccessBlock
| AccessMount (FsType : string) (MountFlags : list string).

Record VolumeCapability := mkVolumeCapability {
  vc_AccessMode : AccessMode; (* cap.AccessMode.GetMode() *)
  vc_AccessType : option AccessType;
}.

Inductive ContentSource :=
| SourceSnapshot (SnapshotId : string)
| SourceVolume (VolumeId : string).

(** [TopologyRequirement]: lists of label segments. *)
Record TopologyRequirement := mkTopologyRequirement {
  topo_Requisite : list smap;
  topo_Preferred : list smap;
}.

Record CreateVolumeRequest := mkCreateVolumeRequest {
  cv_Name : string;
  cv_RequiredBytes : option Z; (* None: the capacity range is nil *)
  cv_VolumeCapabilities : option (list VolumeCapability);
  cv_Parameters : smap;
  cv_ContentSource : option ContentSource;
  cv_Accessibility : option TopologyRequirement;
}.

Record CreateVolumeResponse := mkCreateVolumeResponse {
  cvr_VolumeId : string;
  cvr_CapacityBytes : Z;
  cvr_AccessibleTopology : list smap;
  cvr_VolumeContext : smap;
  cvr_ContentSource : option ContentSource;
}.

Record ExpandVolumeRequest := mkExpandVolumeRequest {
  ev_VolumeId : string;
  ev_RequiredBytes : option Z; (* None: the capacity range is nil *)
}.

Record ExpandVolumeResponse := mkExpandVolumeResponse {
  evr_CapacityBytes : Z;
  evr_NodeExpansionRequired : bool;
}.

Record CreateSnapshotRequest := mkCreateSnapshotRequest {
  cs_Name : string;
  cs_SourceVolumeId : string;
  cs_Parameters : smap;
}.

Record CreateSnapshotResponse := mkCreateSnapshotResponse {
  csr_SourceVolumeId : string;
  csr_SnapshotId : string;
  csr_SizeBytes : Z;
  csr_CreationTime : option (Z * Z); (* seconds and nanoseconds *)
  csr_ReadyToUse : bool;
}.

(** *** The node service *)

Record NodePublishVolumeRequest := mkNodePublishVolumeRequest {
  np_VolumeId : string;
  np_TargetPath : string;
  np_VolumeCapability : option VolumeCapability;
  np_Readonly : bool;
  np_VolumeContext : smap;
}.

Record NodeUnpublishVolumeRequest := mkNodeUnpublishVolumeRequest {
  nu_VolumeId : string;
  nu_TargetPath : string;
}.

Record NodeExpandVolumeRequest := mkNodeExpandVolumeRequest {
  ne_VolumeId : string;
  ne_VolumePath : string;
  ne_RequiredBytes : option Z; (* None: the capacity range is nil *)
}.

(** The capacity of the response. *)
Record NodeExpandVolumeResponse := mkNodeExpandVolumeResponse { ner_CapacityBytes : Z }.

Record NodeGetVolumeStatsRequest := mkNodeGetVolumeStatsRequest {
  ns_VolumeId : string;
  ns_VolumePath : string;
}.

Inductive UsageUnit := BYTES | INODES.

Record VolumeUsage := mkVolumeUsage {
  vu_Unit : UsageUnit;
  vu_Total : Z;
  vu_Used : Z;
  vu_Available : Z;
}.

Record NodeGetInfoResponse := mkNodeGetInfoResponse {
  ngi_NodeId : string;
  ngi_Segments : smap;
}.

Inductive NodeRPC := GET_VOLUME_STATS | EXPAND_VOLUME_ON_NODE.
