(* ===== verification/Effects.v ===== *)
(** * Effects

    The driver is code that talks to services: the Kubernetes API server, the
    informer caches and work queues of client-go, the zfs and mount tools, the
    clock.  None of these is part of the repository.  A Go function that talks to
    them is a [prog]: a tree that issues one [cmd] after the other and continues
    with the response, whatever that is.  A pure Go function is a plain function.

    An environment ([Env]) says which responses a command may get in a state, as
    a relation, so it may fail, time out or let other actors run at any call.
    [wp p Q s] says that every run of [p] from [s] in the environment ends in an
    outcome and state satisfying [Q]. *)

From S2P Require Import Prelude GoStr GoErr Api Csi.

(** The result of a call that can fail. *)
Inductive result (A : Type) :=
| Ok (a : A)
| Err (e : error).
Arguments Ok {A} a.
Arguments Err {A} e.

(** The kinds of custom resources. *)
Inductive kind := KVol | KSnap | KBkp | KRstr | KNode.

Definition obj (k : kind) : Type :=
  match k with
  | KVol => ZFSVolume | KSnap => ZFSSnapshot | KBkp => ZFSBackup
  | KRstr => ZFSRestore | KNode => ZFSNode
  end.

(** [metav1.ListOptions], as far as the driver fills it. *)
Definition ListOptions := string. (* LabelSelector *)

(** Output and error of a finished child process ([cmd.CombinedOutput]). *)
Record proc_out := mkProcOut { po_out : string; po_err : option error }.

(** The two children of a pipe, and the two ends of the pipe itself. *)
Inductive side := Source | Destination.
Inductive pipe_end := Reader | Writer.

#[export] Instance side_eq_dec : EqDecision side.
Proof. solve_decision. Defined.
#[export] Instance pipe_end_eq_dec : EqDecision pipe_end.
Proof. solve_decision. Defined.

Definition peer (s : side) : side :=
  match s with Source => Destination | Destination => Source end.

(** Which case of a [select] fires. *)
Inductive select := SelCtx | SelTimer | SelDefault.

Inductive event_type := EventNormal | EventWarning.

(** What comes off a work queue, which holds values of any type: a key, or
    something that is not a string. *)
Inductive queue_item := QKey (key : string) | QOther.

(** A node object of Kubernetes, as far as the start of the agent reads it. *)
Record k8s_node := mkK8sNode { kn_Name : string; kn_UID : string }.

(** The services a process registers with its gRPC server. *)
Inductive service := IdentityServer | ControllerServer | NodeServer.

(** The goroutines of a process: the one of [main], a reconciler, and the two of the
    gRPC server: one waits for the signal to stop it, the other serves the services that
    are there at the endpoint. *)
Inductive goroutine :=
| GoMain
| GoReconciler (k : kind)
| GoStopOnSignal
| GoServe (endpoint : string) (ids cs ns : bool).

#[export] Instance kind_eq_dec : EqDecision kind.
Proof. solve_decision. Defined.
#[export] Instance service_eq_dec : EqDecision service.
Proof. solve_decision. Defined.
#[export] Instance goroutine_eq_dec : EqDecision goroutine.
Proof. solve_decision. Defined.

(** The calls with which the driver's processes are set up, run and stopped. *)
Inductive up_cmd :=
(* the configuration of the cluster and the clients made from it *)
| UKubeConfig
| UKubeClient
| UOpenEBSClient
| UK8sNode (name : string)
| UK8sNodeList (selector : string)
(* the mutex the controllers share while they are built, and what it protects *)
| UMtxLock
| UMtxUnlock
| UAddToScheme
(* event recorder, event handlers and work queue of a controller *)
| UNewRecorder (component : string)
| UAddEventHandler (k : kind)
| UNewQueue (name : string)
(* the informers of a kind of resource, [None]: of Kubernetes' own *)
| UStartInformers (k : option kind)
| UWaitForCacheSync (k : kind)
(* a worker goroutine, the end of the queue, the stop channel, the polling timer *)
| UGoWorker (k : kind)
| UQueueShutDown
| URecvStop
| USelectTimer
| UTimerReset (seconds : Z)
(* the stop channel of a process, closed by its first signal *)
| USetupSignalHandler
(* the informers of the controller, [None]: of the nodes of Kubernetes *)
| UAddIndexers (k : option kind) (indices : list string)
| UGoInformer (k : option kind)
| UWaitForCaches (ks : list (option kind))
(* usage statistics: the event of the installation, and the periodic ones *)
| USendInstall (application : string)
| UGoPing (application event : string) (serverStarted : bool)
(* goroutines, and the wait group of the gRPC server *)
| UGo (g : goroutine)
| UWgAdd
| UWgDone
| UWgWait
(* the channel of signals of the gRPC server *)
| UNotify
| URecvSignal
(* the gRPC server: its creation, which sets the field, and reading the field; the two
   halves of Serve (false: it was stopped before) and of GracefulStop; Stop *)
| UNewServer
| ULoadServer
| URegister (svc : service)
| UServe
| UServed
| UStopAccepting
| UDrained
| UServerStop.

Definition up_resp (c : up_cmd) : Type :=
  match c with
  | UKubeConfig | UKubeClient | UOpenEBSClient | UAddToScheme => result unit
  | UK8sNode _ => result k8s_node
  | UK8sNodeList _ => result (list k8s_node)
  | UWaitForCacheSync _ | UWaitForCaches _ => bool
  | USelectTimer => bool (* true: the timer fired, false: stopped *)
  | UAddIndexers _ _ => result unit
  | ULoadServer | UServe => bool
  | UServed => option error
  | _ => unit
  end.

Inductive cmd :=
(* os/exec *)
| CExec (name : string) (args : list string)
(* os.Pipe, exec.Cmd.Start, File.Close, Process.Kill, Cmd.Wait, a goroutine that
   sends the result of Wait to a channel, receiving from it, reading a buffer *)
| COsPipe
| CStart (c : side) (name : string) (args : list string)
| CCloseEnd (e : pipe_end)
| CKill (c : side)
| CWaitProc (c : side)
| CGoWait (c : side)
| CRecvExit
| CReadBuf (c : side)
(* the API server, through the typed clients of a clientset *)
| CClientset
| CClientsetForPath (kubeConfigPath : string)
| CGet (k : kind) (ns name : string)
| CList (k : kind) (ns : string) (opts : ListOptions)
| CCreate (k : kind) (ns : string) (o : obj k)
| CUpdate (k : kind) (ns : string) (o : obj k)
| CDelete (k : kind) (ns name : string)
| CGetK8sNode (name : string)
(* informer caches and event recorder *)
| CLister (k : kind) (ns name : string)
| CEvent (k : kind) (o : obj k) (t : event_type) (reason msg : string)
(* the indexers of the controller's node caches: names and labels of nodes *)
| CK8sNodeKeys
| CK8sNodes
| CK8sHasIndex (index : string)
| CK8sByIndex (index value : string)
| CZfsNodeByKey (key : string)
(* the indices of the backup garbage collector's cache *)
| CBkpByIndex (index value : string)
(* the work queue of a controller: the next item, and what is done with it *)
| CQueueGet
| CQueueAdd (key : string)
| CQueueAddRateLimited (key : string)
| CQueueForget (item : queue_item)
| CQueueDone (item : queue_item)
| CHandleError (e : error)
(* the CSI scheduler of lib-csi *)
| CScheduler (req : CreateVolumeRequest) (nmap : gmap string Z)
(* the clock: a timer's deadline, sleeping, and selects with and without default *)
| CNewTimer (seconds : Z)
| CSleep (seconds : Z)
| CSelect (deadline : Z)
| CPoll (deadline : Z)
| CSelectAfter (seconds : Z)
| CUnixTime
(* the controller's volume lock *)
| CLock (name : string)
| CUnlock (name : string)
(* filesystem, devices and mounts *)
| CStat (path : string)
| CEvalSymlinks (path : string)
| CMkdirAll (path : string)
| CRemove (path : string)
| COpenFile (path : string)
| CMountList
| CGetMounts (dev : string)
| CGetDeviceNameFromMount (path : string)
| CPathExists (path : string)
| CFormatAndMount (dev path fstype : string) (opts fmtopts : list string)
| CMount (dev path fstype : string) (opts : list string)
| CUnmount (path : string)
| CIsMountPath (path : string)
| CStatfs (path : string)
| CGetenv (name : string)
| CReadFile (path : string)
| CListen (network address : string)
| CGenerateUUID (fs device : string)
(* usage statistics *)
| CAnalytics (pvcName pvName capacity method : string)
(* start of the node agent *)
| CUp (c : up_cmd).

(** What [os.Stat] reports: a directory or not. *)
Record file_info := mkFileInfo { fi_IsDir : bool }.

(** [unix.Statfs_t], as far as the driver reads it: the counts are of type
    uint64, the block size of type int64. *)
Record Statfs_t := mkStatfs {
  Blocks : Z; Bfree : Z; Bavail : Z; Files : Z; Ffree : Z; Bsize : Z;
}.

(** What an indexer holds, which is values of any type: a backup, or something
    else of the named type. *)
Inductive stored_backup := StoredBackup (b : ZFSBackup) | StoredOther (goType : string).

Definition resp (c : cmd) : Type :=
  match c with
  | CExec _ _ => proc_out
  | COsPipe => result unit
  | CStart _ _ _ => result unit
  | CCloseEnd _ | CKill _ | CGoWait _ => unit
  | CWaitProc _ => option error
  | CRecvExit => side * option error
  | CReadBuf _ => string
  | CClientset | CClientsetForPath _ => result unit
  | CGet k _ _ => result (obj k)
  | CList k _ _ => result (list (obj k))
  | CCreate k _ _ | CUpdate k _ _ => result (obj k)
  | CDelete _ _ _ => result unit
  | CGetK8sNode _ => result smap (* the labels of the node *)
  | CLister k _ _ => result (obj k)
  | CEvent _ _ _ _ _ => unit
  | CK8sNodeKeys => list string
  | CK8sNodes => list (string * smap)
  | CK8sHasIndex _ => bool
  | CK8sByIndex _ _ => result (list (string * smap))
  | CZfsNodeByKey _ => result (option ZFSNode)
  | CBkpByIndex _ _ => result (list stored_backup)
  | CQueueGet => option queue_item (* None: the queue is shut down *)
  | CQueueAdd _ | CQueueAddRateLimited _ | CQueueForget _ | CQueueDone _ => unit
  | CHandleError _ => unit
  | CScheduler _ _ => list string
  | CNewTimer _ => Z
  | CSleep _ => unit
  | CSelect _ | CSelectAfter _ => select
  | CPoll _ => bool
  | CUnixTime => Z
  | CLock _ | CUnlock _ => unit
  | CStat _ => result file_info
  | CEvalSymlinks _ => result string
  | CMkdirAll _ | CRemove _ | COpenFile _ => result unit
  | CMountList => result (list (string * string)) (* device, path *)
  | CGetMounts _ => result (list string)
  | CGetDeviceNameFromMount _ => result (string * Z)
  | CPathExists _ => result bool
  | CFormatAndMount _ _ _ _ _ | CMount _ _ _ _ | CUnmount _ => result unit
  | CIsMountPath _ => bool
  | CStatfs _ => result Statfs_t
  | CGetenv _ => string
  | CReadFile _ => result string
  | CListen _ _ => result unit
  | CGenerateUUID _ _ => result unit
  | CAnalytics _ _ _ _ => unit
  | CUp c => up_resp c
  end.

(** ** Programs *)

Inductive prog (A : Type) : Type :=
| Ret (a : A)          (* return a, nil *)
| Throw (e : error)    (* return an error *)
| Crash (why : string) (* a run-time panic *)
| Spin                 (* the fuel of a loop ran out *)
| Vis (c : cmd) (k : resp c → prog A).
Arguments Ret {A} a.
Arguments Throw {A} e.
Arguments Crash {A} why.
Arguments Spin {A}.
Arguments Vis {A} c k.

Fixpoint prog_bind {A B} (f : A → prog B) (p : prog A) : prog B :=
  match p with
  | Ret a => f a
  | Throw e => Throw e
  | Crash m => Crash m
  | Spin => Spin
  | Vis c k => Vis c (λ r, prog_bind f (k r))
  end.

#[export] Instance prog_mret : MRet prog := @Ret.
#[export] Instance prog_mbind : MBind prog := @prog_bind.

(** [v, err := p], with the error as a value. *)
Fixpoint attempt {A} (p : prog A) : prog (result A) :=
  match p with
  | Ret a => Ret (Ok a)
  | Throw e => Ret (Err e)
  | Crash m => Crash m
  | Spin => Spin
  | Vis c k => Vis c (λ r, attempt (k r))
  end.

(** Issue a command and take its response. *)
Definition call (c : cmd) : prog (resp c) := Vis c Ret.

(** [if err != nil { return err }] after a call that returned [r]. *)
Definition lift {A} (r : result A) : prog A :=
  match r with
  | Ok a => Ret a
  | Err e => Throw e
  end.

(** A nil error is [None]. *)
Definition lift_err (e : option error) : prog unit :=
  match e with
  | None => Ret tt
  | Some e => Throw e
  end.

(** Run [p], then the deferred [d], on the normal and on the error path.  (On a
    panic the process is going down: the deferred calls are not modelled.) *)
Definition deferred {A} (d : prog unit) (p : prog A) : prog A :=
  r ← attempt p; _ ← d; lift r.

(** Replace the error of [p]. *)
Definition map_err {A} (f : error → error) (p : prog A) : prog A :=
  r ← attempt p; match r with Ok a => Ret a | Err e => Throw (f e) end.

(** ** Outcomes, environments and weakest preconditions *)

Inductive outcome (A : Type) :=
| ORet (a : A)
| OErr (e : error)
| OPanic (why : string)
| OSpin.
Arguments ORet {A} a.
Arguments OErr {A} e.
Arguments OPanic {A} why.
Arguments OSpin {A}.

(** Which response a command may get, and the state it leads to. *)
Class Env (S : Type) := env_step : ∀ c : cmd, S → resp c → S → Prop.

Fixpoint wp {S} (E : Env S) {A} (p : prog A) (Q : outcome A → S → Prop) (s : S) : Prop :=
  match p with
  | Ret a => Q (ORet a) s
  | Throw e => Q (OErr e) s
  | Crash m => Q (OPanic m) s
  | Spin => Q OSpin s
  | Vis c k => ∀ r s', E c s r s' → wp E (k r) Q s'
  end.

(** A deterministic environment, and the interpreter it gives. *)
Definition handler (S : Type) := ∀ c : cmd, S → resp c * S.

Fixpoint run {S} (h : handler S) {A} (p : prog A) (s : S) : outcome A * S :=
  match p with
  | Ret a => (ORet a, s)
  | Throw e => (OErr e, s)
  | Crash m => (OPanic m, s)
  | Spin => (OSpin, s)
  | Vis c k => let '(r, s') := h c s in run h (k r) s'
  end.

Definition env_of {S} (h : handler S) : Env S := λ c s r s', h c s = (r, s').

(** The unconstrained environment: every response is possible, and the state is
    the sequence of commands issued so far with their responses. *)
Definition event := { c : cmd & resp c }.
Definition ev (c : cmd) (r : resp c) : event := existT c r.
Definition trace := list event.
Definition any_env : Env trace := λ c tr r tr', tr' = tr ++ [ev c r].

(** ** Rules *)

Section wp_rules.
Context {S : Type} (E : Env S).

Lemma wp_mono {A} (p : prog A) (Q Q' : outcome A → S → Prop) s :
  (∀ o s', Q o s' → Q' o s') → wp E p Q s → wp E p Q' s.
Proof. intros HQ. revert s. induction p; simpl; eauto. Qed.

(** A post-condition that holds of everything. *)
Lemma wp_any {A} (p : prog A) (Q : outcome A → S → Prop) s : (∀ o s', Q o s') → wp E p Q s.
Proof. intros HQ. revert s. induction p; simpl; eauto. Qed.

(** The continuation of a bind on each outcome. *)
Definition bind_post {A B} (f : A → prog B) (Q : outcome B → S → Prop)
    (o : outcome A) (s : S) : Prop :=
  match o with
  | ORet a => wp E (f a) Q s
  | OErr e => Q (OErr e) s
  | OPanic m => Q (OPanic m) s
  | OSpin => Q OSpin s
  end.

Lemma wp_bind {A B} (p : prog A) (f : A → prog B) Q s :
  wp E (p ≫= f) Q s ↔ wp E p (bind_post f Q) s.
Proof.
  revert s. induction p as [| | | |c k IH]; intros s; simpl; try done.
  by split; intros H r s' ?%H; apply IH.
Qed.

Lemma wp_attempt {A} (p : prog A) Q s :
  wp E (attempt p) Q s ↔
  wp E p (λ o s', match o with
                  | ORet a => Q (ORet (Ok a)) s'
                  | OErr e => Q (ORet (Err e)) s'
                  | OPanic m => Q (OPanic m) s'
                  | OSpin => Q OSpin s'
                  end) s.
Proof.
  revert s. induction p as [| | | |c k IH]; intros s; simpl; try done.
  by split; intros H r s' ?%H; apply IH.
Qed.

Lemma wp_call {A} (c : cmd) (f : resp c → prog A) Q s :
  (∀ r s', E c s r s' → wp E (f r) Q s') → wp E (call c ≫= f) Q s.
Proof. done. Qed.

(** An invariant of every step is an invariant of every run. *)
Lemma wp_invariant {A} (I : S → Prop) (p : prog A) s :
  (∀ c s r s', E c s r s' → I s → I s') → I s → wp E p (λ _ s', I s') s.
Proof. intros HI. revert s. induction p as [| | | |c k IH]; simpl; eauto. Qed.

Lemma wp_and {A} (p : prog A) Q1 Q2 s :
  wp E p Q1 s → wp E p Q2 s → wp E p (λ o s', Q1 o s' ∧ Q2 o s') s.
Proof. revert s. induction p as [| | | |c k IH]; simpl; eauto. Qed.
End wp_rules.

Lemma wp_run {S} (h : handler S) {A} (p : prog A) Q s :
  wp (env_of h) p Q s ↔ Q (run h p s).1 (run h p s).2.
Proof.
  revert s. induction p as [| | | |c k IH]; intros s; simpl; try done.
  destruct (h c s) as [r s1] eqn:Hr. rewrite <- IH. unfold env_of.
  split; [eauto|]. intros H r' s' Hr'. rewrite Hr in Hr'. by injection Hr' as -> ->.
Qed.

Lemma run_bind {S} (h : handler S) {A B} (p : prog A) (f : A → prog B) s :
  run h (p ≫= f) s =
  match run h p s with
  | (ORet a, s') => run h (f a) s'
  | (OErr e, s') => (OErr e, s')
  | (OPanic m, s') => (OPanic m, s')
  | (OSpin, s') => (OSpin, s')
  end.
Proof.
  revert s. induction p as [| | | |c k IH]; intros s; simpl; try done.
  destruct (h c s). apply IH.
Qed.

Create HintDb wp.

(** ** The commands of a program

    [only P p]: whatever the responses, [p] issues only commands in [P].
    [safe E G p s]: in every run of [p] from [s], each command is issued in a
    state in which the guard [G] allows it. *)

Fixpoint only (P : cmd → Prop) {A} (p : prog A) : Prop :=
  match p with
  | Vis c k => P c ∧ ∀ r, only P (k r)
  | _ => True
  end.

Fixpoint safe {S} (E : Env S) (G : cmd → S → Prop) {A} (p : prog A) (s : S) : Prop :=
  match p with
  | Vis c k => G c s ∧ ∀ r s', E c s r s' → safe E G (k r) s'
  | _ => True
  end.

Section only.
Context (P : cmd → Prop).

Lemma only_bind {A B} (p : prog A) (f : A → prog B) :
  only P p → (∀ a, only P (f a)) → only P (p ≫= f).
Proof. intros Hp Hf. induction p as [| | | |c k IH]; simpl in *; naive_solver. Qed.

Lemma only_attempt {A} (p : prog A) : only P p → only P (attempt p).
Proof. induction p as [| | | |c k IH]; simpl in *; naive_solver. Qed.

Lemma only_lift {A} (r : result A) : only P (lift r).
Proof. by destruct r. Qed.

Lemma only_lift_err (e : option error) : only P (lift_err e).
Proof. by destruct e. Qed.

Lemma only_map_err {A} f (p : prog A) : only P p → only P (map_err f p).
Proof. intros Hp. apply only_bind; [by apply only_attempt|]. by intros []. Qed.

End only.

Section safe.
Context {S : Type} (E : Env S) (G : cmd → S → Prop).

(** Commands the guard always allows are safe. *)
Lemma only_safe {A} (P : cmd → Prop) (p : prog A) s : (∀ c s, P c → G c s) → only P p → safe E G p s.
Proof.
  intros HG. revert s. induction p as [| | | |c k IH]; simpl; naive_solver.
Qed.

Lemma safe_bind {A B} (p : prog A) (f : A → prog B) s :
  safe E G p s →
  wp E p (λ o s', match o with ORet a => safe E G (f a) s' | _ => True end) s →
  safe E G (p ≫= f) s.
Proof.
  revert s. induction p as [| | | |c k IH]; intros s; simpl; try done.
  intros [HG Hk] Hf. split; [done|]. intros r s' Hstep. apply IH; eauto.
Qed.

Lemma safe_attempt {A} (p : prog A) s : safe E G p s → safe E G (attempt p) s.
Proof. revert s. induction p as [| | | |c k IH]; simpl; naive_solver. Qed.
End safe.

(** A program that returns or fails on every path: no panic, no exhausted loop. *)
Fixpoint total {A} (p : prog A) : Prop :=
  match p with
  | Ret _ | Throw _ => True
  | Crash _ | Spin => False
  | Vis c k => ∀ r, total (k r)
  end.

Lemma total_bind {A B} (p : prog A) (f : A → prog B) :
  total p → (∀ a, total (f a)) → total (p ≫= f).
Proof. intros Hp Hf. induction p as [| | | |c k IH]; simpl in *; naive_solver. Qed.

Lemma total_attempt {A} (p : prog A) : total p → total (attempt p).
Proof. induction p as [| | | |c k IH]; simpl in *; naive_solver. Qed.

Lemma total_map_err {A} f (p : prog A) : total p → total (map_err f p).
Proof. intros Hp. apply total_bind; [by apply total_attempt|]. by intros []. Qed.

Lemma total_deferred {A} d (p : prog A) : total d → total p → total (deferred d p).
Proof.
  intros Hd Hp. apply total_bind; [by apply total_attempt|]. intros r.
  apply total_bind; [done|]. by destruct r.
Qed.

Definition returned {A} (o : outcome A) : Prop :=
  match o with ORet _ | OErr _ => True | _ => False end.

Lemma total_wp {S} (E : Env S) {A} (p : prog A) s : total p → wp E p (λ o _, returned o) s.
Proof. revert s. induction p as [| | | |c k IH]; simpl in *; eauto. Qed.

#[export] Hint Resolve only_bind only_attempt only_lift only_lift_err only_map_err : wp.

(** In the unconstrained environment a run appends to the trace it starts with,
    and does not depend on it. *)
Lemma trace_shift {A} (p : prog A) (Q : outcome A → trace → Prop) tr0 tr :
  wp any_env p Q tr → wp any_env p (λ o tr', ∃ tr1, tr' = tr0 ++ tr1 ∧ Q o tr1) (tr0 ++ tr).
Proof.
  revert tr. induction p as [| | | |c k IH]; intros tr; simpl; eauto.
  intros Hk r tr' ->. rewrite <- (assoc_L (++)). apply IH, Hk. done.
Qed.

(** In the unconstrained environment a run only extends its trace. *)
Lemma trace_extends {A} (p : prog A) (Q : outcome A → trace → Prop) tr :
  (∀ o rest, Q o (tr ++ rest)) → wp any_env p Q tr.
Proof.
  intros HQ. eapply wp_mono, (wp_invariant any_env (λ tr', ∃ rest, tr' = tr ++ rest)).
  - intros o s' [rest ->]. apply HQ.
  - intros c tr1 r tr2 -> [rest ->]. exists (rest ++ [ev c r]). by rewrite (assoc_L (++)).
  - exists []. by rewrite app_nil_r.
Qed.

(** ** Equivalence of programs

    Two programs are equivalent when no environment tells them apart. *)

#[export] Instance prog_equiv {A} : Equiv (prog A) :=
  λ p q, ∀ (S : Type) (E : Env S) (Q : outcome A → S → Prop) (s : S), wp E p Q s ↔ wp E q Q s.

#[export] Instance prog_equivalence {A} : Equivalence (≡@{prog A}).
Proof.
  split.
  - by intros p S E Q s.
  - intros p q H S E Q s. by rewrite (H S E Q s).
  - intros p q r H1 H2 S E Q s. by rewrite (H1 S E Q s), (H2 S E Q s).
Qed.

#[export] Instance prog_bind_proper {A B} :
  Proper (pointwise_relation A (≡) ==> (≡) ==> (≡)) (@prog_bind A B).
Proof.
  intros f g Hf p q Hp S E Q s. change (prog_bind ?f ?p) with (p ≫= f).
  rewrite !wp_bind, (Hp S E _ s).
  split; apply wp_mono; intros [a|e|m|] s'; simpl; try done; apply (Hf a).
Qed.

#[export] Instance attempt_proper {A} : Proper ((≡) ==> (≡)) (@attempt A).
Proof. intros p q Hp S E Q s. by rewrite !wp_attempt, (Hp S E _ s). Qed.

(** A command and equivalent continuations. *)
Lemma Vis_equiv {A} c (k1 k2 : resp c → prog A) : (∀ r, k1 r ≡ k2 r) → Vis c k1 ≡ Vis c k2.
Proof. intros Hk S E Q s. simpl. split; intros H r s' Hs; apply (Hk r), (H r s' Hs). Qed.

(** ** Tactics: run a program symbolically, one command at a time *)

(** Reduce the program at the head of a [wp] goal to its next command. *)
Ltac wp_simpl :=
  cbn [wp prog_bind mbind prog_mbind mret prog_mret attempt call lift lift_err deferred
       map_err bind_post resp obj Nat.add].

(** Take one step of the environment, and split on the response. *)
Ltac wp_step r s H :=
  wp_simpl; intros r s H; wp_simpl.

(** Take one step of the unconstrained environment. *)
Ltac trace_step :=
  let s' := fresh "tr" in let H := fresh "H" in
  intros s' H; unfold any_env in H; subst s'; simpl.

(** Decompose a program into its commands. *)
Ltac solve_only :=
  repeat first
    [ done
    | apply only_bind; [|intros ?]
    | apply only_attempt
    | apply only_map_err
    | apply only_lift
    | apply only_lift_err
    | progress (unfold call, deferred)
    | case_match
    | split; [done|intros ?] ].

(** Decompose a program into its leaves. *)
Ltac solve_total :=
  repeat first
    [ done
    | apply total_bind; [|intros ?]
    | apply total_attempt
    | apply total_map_err
    | apply total_deferred
    | progress (unfold lift, lift_err, call)
    | case_match
    | intros ? ].
