(* ===== verification/ZfsArgs.v ===== *)
(** * Command lines (pkg/zfs/zfs_util.go, the builders of argument vectors)

    Every operation on a volume is one run of the zfs tool.  This file holds the
    functions that build the argument vectors, the predicates over volumes they
    go with, and the reading of such a vector back as properties and operands,
    against which the builders are specified. *)

From S2P Require Import Prelude GoStr GoErr Api.

(** ** Constants *)

Definition ZFSDevPath := "/dev/zvol/".
Definition FSTypeZFS := "zfs".
Definition ZFSVolCmd := "zfs".
Definition ZFSCreateArg := "create".
Definition ZFSCloneArg := "clone".
Definition ZFSDestroyArg := "destroy".
Definition ZFSSetArg := "set".
Definition ZFSGetArg := "get".
Definition ZFSListArg := "list".
Definition ZFSSnapshotArg := "snapshot".
Definition ZFSSendArg := "send".
Definition ZFSRecvArg := "recv".
Definition VolTypeDataset := "DATASET".
Definition VolTypeZVol := "ZVOL".
Definition NetCatCmd := "nc".

Definition ZFSFinalizer := "zfs.openebs.io/finalizer".
Definition ZFSVolKey := "openebs.io/persistent-volume".
Definition ZFSSrcVolKey := "openebs.io/source-volume".
Definition PoolNameKey := "openebs.io/poolname".
Definition ZFSNodeKey := "kubernetes.io/nodename".
Definition ZFSTopologyKey := "openebs.io/nodeid".
Definition ZFSTopoNodenameKey := "openebs.io/nodename".
Definition ZFSStatusPending := "Pending".
Definition ZFSStatusFailed := "Failed".
Definition ZFSStatusReady := "Ready".
Definition OpenEBSCasTypeKey := "openebs.io/cas-type".
Definition FormatOptionsKey := "openebs.io/format-options".
Definition ZFSCasTypeName := "localpv-zfs".

(** ** Names *)

(** [vol.Spec.PoolName + "/" + vol.Name] *)
Definition dataset_of (pool name : string) : string := pool +:+ "/" +:+ name.

Definition vol_dataset (vol : ZFSVolume) : string :=
  dataset_of (PoolName (vol_Spec vol)) (Name (vol_Meta vol)).

(** [snap.Spec.PoolName + "/" + volname + "@" + snap.Name] *)
Definition snap_dataset (snap : ZFSSnapshot) : string :=
  dataset_of (PoolName (snap_Spec snap)) (sget (Labels (snap_Meta snap)) ZFSVolKey)
  +:+ "@" +:+ Name (snap_Meta snap).

(** ** Predicates *)

(** [maps.Equal] is equality of the maps. *)
Definition PropertyChanged (oldVol newVol : ZFSVolume) : bool :=
  let o := vol_Spec oldVol in
  let n := vol_Spec newVol in
  if (VolumeType o =? VolTypeDataset) && (VolumeType n =? VolTypeDataset) &&
     (negb (RecordSize o =? RecordSize n) || negb (ATime o =? ATime n))
  then true
  else negb (Compression o =? Compression n) ||
       negb (Dedup o =? Dedup n) ||
       negb (LogBias o =? LogBias n) ||
       negb (bool_decide (UserProperties o = UserProperties n)).

Definition GetVolumeType (fstype : string) : string :=
  if fstype =? FSTypeZFS then VolTypeDataset else VolTypeZVol.

(** ** Quota and reservation property names *)

Definition quotaProperty (quotaType : string) : string :=
  if quotaType =? "refquota" then "refquota" else "quota".

Definition reservationPropertyName (quotaType : string) : string :=
  let validQuotaType := quotaProperty quotaType in
  sget {["quota" := "reservation"; "refquota" := "refreservation"]} validQuotaType.

Definition reservationProperty (quotaType capacity : string) : string :=
  reservationPropertyName quotaType +:+ "=" +:+ capacity.

(** ** Builders *)

(** [if cond { args = append(args, xs...) }] *)
Definition append_if (cond : bool) (xs : list string) : list string := if cond then xs else [].

(** [len(s) != 0] *)
Definition given (s : string) : bool := negb (slen s =? 0)%Z.

(** [for name, value := range props { append "-o", name=value }] *)
Definition user_prop_args (props : list (string * string)) : list string :=
  List.concat (map (λ '(name, value), ["-o"; Sprintf "%s=%s" [name; value]]) props).

Section builders.
Context `{GoRange}.

Definition buildZvolCreateArgs (vol : ZFSVolume) : list string :=
  let spec := vol_Spec vol in
  let volume := vol_dataset vol in
  [ZFSCreateArg]
  ++ append_if (ThinProvision spec =? "yes") ["-s"]
  ++ append_if (given (Capacity spec)) ["-V"; Capacity spec]
  ++ append_if (given (VolBlockSize spec)) ["-b"; VolBlockSize spec]
  ++ append_if (given (Dedup spec)) ["-o"; "dedup=" +:+ Dedup spec]
  ++ append_if (given (Compression spec)) ["-o"; "compression=" +:+ Compression spec]
  ++ append_if (given (LogBias spec)) ["-o"; "logbias=" +:+ LogBias spec]
  ++ append_if (given (Encryption spec)) ["-o"; "encryption=" +:+ Encryption spec]
  ++ append_if (given (KeyLocation spec)) ["-o"; "keylocation=" +:+ KeyLocation spec]
  ++ append_if (given (KeyFormat spec)) ["-o"; "keyformat=" +:+ KeyFormat spec]
  ++ user_prop_args (range (UserProperties spec))
  ++ [volume].

Definition buildCloneCreateArgs (vol : ZFSVolume) : list string :=
  let spec := vol_Spec vol in
  let volume := vol_dataset vol in
  let snapshot := dataset_of (PoolName spec) (SnapName spec) in
  [ZFSCloneArg]
  ++ append_if (VolumeType spec =? VolTypeDataset)
       (append_if (given (Capacity spec))
          ["-o"; quotaProperty (QuotaType spec) +:+ "=" +:+ Capacity spec]
        ++ append_if (given (RecordSize spec)) ["-o"; "recordsize=" +:+ RecordSize spec]
        ++ append_if (given (ATime spec)) ["-o"; "atime=" +:+ ATime spec]
        ++ append_if (ThinProvision spec =? "no")
             ["-o"; reservationProperty (QuotaType spec) (Capacity spec)]
        ++ ["-o"; "mountpoint=legacy"])
  ++ append_if (given (Dedup spec)) ["-o"; "dedup=" +:+ Dedup spec]
  ++ append_if (given (Compression spec)) ["-o"; "compression=" +:+ Compression spec]
  ++ append_if (given (LogBias spec)) ["-o"; "logbias=" +:+ LogBias spec]
  ++ user_prop_args (range (UserProperties spec))
  ++ [snapshot; volume].

Definition buildZFSSnapCreateArgs (snap : ZFSSnapshot) : list string :=
  [ZFSSnapshotArg]
  ++ user_prop_args (range (UserProperties (snap_Spec snap)))
  ++ [snap_dataset snap].

Definition buildZFSSnapDestroyArgs (snap : ZFSSnapshot) : list string :=
  [ZFSDestroyArg; snap_dataset snap].

Definition buildDatasetCreateArgs (vol : ZFSVolume) : list string :=
  let spec := vol_Spec vol in
  let volume := vol_dataset vol in
  [ZFSCreateArg]
  ++ append_if (given (Capacity spec))
       ["-o"; quotaProperty (QuotaType spec) +:+ "=" +:+ Capacity spec]
  ++ append_if (given (RecordSize spec)) ["-o"; "recordsize=" +:+ RecordSize spec]
  ++ append_if (given (ATime spec)) ["-o"; "atime=" +:+ ATime spec]
  ++ append_if (ThinProvision spec =? "no")
       ["-o"; reservationProperty (QuotaType spec) (Capacity spec)]
  ++ append_if (given (Dedup spec)) ["-o"; "dedup=" +:+ Dedup spec]
  ++ append_if (given (Compression spec)) ["-o"; "compression=" +:+ Compression spec]
  ++ append_if (given (LogBias spec)) ["-o"; "logbias=" +:+ LogBias spec]
  ++ append_if (given (Encryption spec)) ["-o"; "encryption=" +:+ Encryption spec]
  ++ append_if (given (KeyLocation spec)) ["-o"; "keylocation=" +:+ KeyLocation spec]
  ++ append_if (given (KeyFormat spec)) ["-o"; "keyformat=" +:+ KeyFormat spec]
  ++ user_prop_args (range (UserProperties spec))
  ++ ["-o"; "mountpoint=legacy"; volume].

Definition buildVolumeSetArgs (vol : ZFSVolume) : list string :=
  let spec := vol_Spec vol in
  let volume := vol_dataset vol in
  [ZFSSetArg]
  ++ append_if ((VolumeType spec =? VolTypeDataset) && given (RecordSize spec))
       ["recordsize=" +:+ RecordSize spec]
  ++ append_if ((VolumeType spec =? VolTypeDataset) && given (ATime spec))
       ["atime=" +:+ ATime spec]
  ++ append_if (given (Dedup spec)) ["dedup=" +:+ Dedup spec]
  ++ append_if (given (Compression spec)) ["compression=" +:+ Compression spec]
  ++ append_if (given (LogBias spec)) ["logbias=" +:+ LogBias spec]
  ++ map (λ '(name, value), Sprintf "%s=%s" [name; value]) (range (UserProperties spec))
  ++ [volume].
End builders.

Definition buildVolumeResizeArgs (vol : ZFSVolume) : list string :=
  let spec := vol_Spec vol in
  let volume := vol_dataset vol in
  [ZFSSetArg]
  ++ (if VolumeType spec =? VolTypeDataset
      then [quotaProperty (QuotaType spec) +:+ "=" +:+ Capacity spec]
      else ["volsize=" +:+ Capacity spec])
  ++ append_if (ThinProvision spec =? "no")
       [reservationProperty (QuotaType spec) (Capacity spec)]
  ++ [volume].

(** The argument vectors of the two children, or the error. *)
Definition buildVolumeBackupArgs (bkp : ZFSBackup) (vol : ZFSVolume)
    : list string * list string + error :=
  let backupDest := bkp_BackupDest (bkp_Spec bkp) in
  match Split ":" backupDest with
  | [host; port] =>
    let curSnap := vol_dataset vol +:+ "@" +:+ bkp_SnapName (bkp_Spec bkp) in
    let sendArgs :=
      [ZFSSendArg] ++
      (if (0 <? slen (bkp_PrevSnapName (bkp_Spec bkp)))%Z
       then ["-i"; vol_dataset vol +:+ "@" +:+ bkp_PrevSnapName (bkp_Spec bkp); curSnap]
       else [curSnap]) in
    inl (sendArgs, ["-w"; "3"; host; port])
  | _ => inr (Errorf "zfs: invalid backup server address %s" [backupDest])
  end.

Definition buildVolumeRestoreArgs (rstr : ZFSRestore)
    : list string * list string + error :=
  let restoreSrc := rstr_RestoreSrc (rstr_Spec rstr) in
  let spec := rstr_VolSpec rstr in
  let volume := dataset_of (PoolName spec) (rstr_VolumeName (rstr_Spec rstr)) in
  match Split ":" restoreSrc with
  | [host; port] =>
    let ncArgs := ["-w"; "3"; host; port] in
    let recvArgs :=
      [ZFSRecvArg]
      ++ append_if (VolumeType spec =? VolTypeDataset)
           (append_if (given (Capacity spec))
              ["-o"; quotaProperty (QuotaType spec) +:+ "=" +:+ Capacity spec]
            ++ append_if (given (RecordSize spec)) ["-o"; "recordsize=" +:+ RecordSize spec]
            ++ append_if (given (ATime spec)) ["-o"; "atime=" +:+ ATime spec]
            ++ append_if (ThinProvision spec =? "no") ["-o"; "reservation=" +:+ Capacity spec]
            ++ ["-o"; "mountpoint=legacy"])
      ++ append_if (given (Dedup spec)) ["-o"; "dedup=" +:+ Dedup spec]
      ++ append_if (given (Compression spec)) ["-o"; "compression=" +:+ Compression spec]
      ++ append_if (given (LogBias spec)) ["-o"; "logbias=" +:+ LogBias spec]
      ++ append_if (given (Encryption spec)) ["-o"; "encryption=" +:+ Encryption spec]
      ++ append_if (given (KeyLocation spec)) ["-o"; "keylocation=" +:+ KeyLocation spec]
      ++ append_if (given (KeyFormat spec)) ["-o"; "keyformat=" +:+ KeyFormat spec]
      ++ ["-F"; volume] in
    inl (ncArgs, recvArgs)
  | _ => inr (Errorf "zfs: invalid restore server address %s" [restoreSrc])
  end.

Definition buildVolumeDestroyArgs (vol : ZFSVolume) : list string :=
  [ZFSDestroyArg; "-r"; vol_dataset vol].
