(* ===== verification/ZfsArgsSpec.v ===== *)
(** * What the command lines mean

    [read_args] reads an argument vector the way the zfs tool does: options
    first, each property in its own [-o name=value] pair, split at the first [=],
    then the operands.  The theorems say that reading back what the builders of
    [ZfsArgs] produce gives exactly the properties the resource declares, each
    once, and the intended operand, whatever bytes the values hold. *)

From S2P Require Import Prelude GoStr GoErr Api ZfsArgs.

(** ** Reading a command line *)

Record cmdline := mkCmdline {
  cl_flags : list string;
  cl_values : list (string * string);
  cl_props : list (string * string);
  cl_operands : list string;
}.

Definition add_flag (f : string) (c : cmdline) : cmdline :=
  mkCmdline (f :: cl_flags c) (cl_values c) (cl_props c) (cl_operands c).
Definition add_value (f v : string) (c : cmdline) : cmdline :=
  mkCmdline (cl_flags c) ((f, v) :: cl_values c) (cl_props c) (cl_operands c).
Definition add_prop (p : string * string) (c : cmdline) : cmdline :=
  mkCmdline (cl_flags c) (cl_values c) (p :: cl_props c) (cl_operands c).

Definition is_flag (a : string) : bool := (a =? "-s") || (a =? "-r") || (a =? "-F").
Definition is_valued (a : string) : bool := (a =? "-V") || (a =? "-b") || (a =? "-i").

Fixpoint read_args (args : list string) : option cmdline :=
  match args with
  | [] => Some (mkCmdline [] [] [] [])
  | a :: rest =>
    if a =? "-o" then
      match rest with
      | kv :: rest' =>
        match Cut "=" kv with
        | (k, v, true) => add_prop (k, v) <$> read_args rest'
        | _ => None
        end
      | [] => None
      end
    else if is_flag a then add_flag a <$> read_args rest
    else if is_valued a then
      match rest with
      | v :: rest' => add_value a v <$> read_args rest'
      | [] => None
      end
    else if HasPrefix a "-" then None
    else Some (mkCmdline [] [] [] args)
  end.

(** ** What a resource declares *)

(** Properties every kind of volume takes. *)
Inductive common_prop (spec : VolumeInfo) : string → string → Prop :=
| cp_dedup : Dedup spec ≠ "" → common_prop spec "dedup" (Dedup spec)
| cp_compression : Compression spec ≠ "" → common_prop spec "compression" (Compression spec)
| cp_logbias : LogBias spec ≠ "" → common_prop spec "logbias" (LogBias spec).

(** Encryption, settable only when the dataset comes into being. *)
Inductive key_prop (spec : VolumeInfo) : string → string → Prop :=
| kp_encryption : Encryption spec ≠ "" → key_prop spec "encryption" (Encryption spec)
| kp_keylocation : KeyLocation spec ≠ "" → key_prop spec "keylocation" (KeyLocation spec)
| kp_keyformat : KeyFormat spec ≠ "" → key_prop spec "keyformat" (KeyFormat spec).

(** Properties of a filesystem dataset; [resv] is the reservation property. *)
Inductive fs_prop (resv : string) (spec : VolumeInfo) : string → string → Prop :=
| fp_quota : Capacity spec ≠ "" →
    fs_prop resv spec (quotaProperty (QuotaType spec)) (Capacity spec)
| fp_recordsize : RecordSize spec ≠ "" → fs_prop resv spec "recordsize" (RecordSize spec)
| fp_atime : ATime spec ≠ "" → fs_prop resv spec "atime" (ATime spec)
| fp_reservation : ThinProvision spec = "no" → fs_prop resv spec resv (Capacity spec)
| fp_mountpoint : fs_prop resv spec "mountpoint" "legacy".

Definition user_prop (spec : VolumeInfo) (k v : string) : Prop :=
  UserProperties spec !! k = Some v.

(** ** Lemmas *)

(** The property list of the [-o] arguments built from a list of pairs. *)
Definition o_args (l : list (string * string)) : list string :=
  user_prop_args l.

Definition prop_if (b : bool) (k v : string) : list (string * string) :=
  if b then [(k, v)] else [].

Lemma Sprintf_prop k v : Sprintf "%s=%s" [k; v] = k +:+ "=" +:+ v.
Proof. cbn -[String.append]. by rewrite app_nil_r_str. Qed.

Lemma given_true s : given s = true ↔ s ≠ "".
Proof.
  unfold given. rewrite negb_true_iff, Z.eqb_neq, slen_zero. done.
Qed.

(** The [-o] arguments of a conditional property. *)
Lemma append_if_prop b k v :
  append_if b ["-o"; k +:+ "=" +:+ v] = o_args (prop_if b k v).
Proof. destruct b; [|done]. unfold o_args. cbn -[Sprintf]. by rewrite Sprintf_prop. Qed.

Lemma o_args_app l1 l2 : o_args l1 ++ o_args l2 = o_args (l1 ++ l2).
Proof. unfold o_args, user_prop_args. by rewrite map_app, concat_app. Qed.

Lemma o_args_one k v : ["-o"; k +:+ "=" +:+ v] = o_args [(k, v)].
Proof. apply (append_if_prop true). Qed.

Definition names_ok (l : list (string * string)) : Prop :=
  Forall (λ p, has_char "=" p.1 = false) l.

Lemma read_args_props l args c :
  names_ok l → read_args args = Some c →
  read_args (o_args l ++ args) =
  Some (mkCmdline (cl_flags c) (cl_values c) (l ++ cl_props c) (cl_operands c)).
Proof.
  intros Hl Hargs. induction Hl as [|[k v] l Hk Hl IH].
  { simpl. by destruct c. }
  change (o_args ((k, v) :: l)) with ("-o" :: Sprintf "%s=%s" [k; v] :: o_args l).
  rewrite Sprintf_prop. simpl. rewrite Cut_found by done.
  change (user_prop_args l) with (o_args l). by rewrite IH.
Qed.

Lemma read_args_operands a l :
  HasPrefix a "-" = false → read_args (a :: l) = Some (mkCmdline [] [] [] (a :: l)).
Proof.
  intros Ha. simpl.
  assert (∀ x, HasPrefix x "-" = true → (a =? x) = false) as Hne.
  { intros x Hx. destruct (String.eqb_spec a x); congruence. }
  unfold is_flag, is_valued. rewrite !Hne by done. simpl. by rewrite Ha.
Qed.

Lemma read_args_flag b f args c :
  is_flag f = true → f ≠ "-o" → read_args args = Some c →
  read_args (append_if b [f] ++ args) =
  Some (mkCmdline (append_if b [f] ++ cl_flags c) (cl_values c) (cl_props c) (cl_operands c)).
Proof.
  intros Hf Ho Hargs. destruct b; simpl; [|by destruct c].
  rewrite (proj2 (String.eqb_neq f "-o")) by done. by rewrite Hf, Hargs.
Qed.

Lemma read_args_valued b f v args c :
  is_flag f = false → is_valued f = true → f ≠ "-o" → read_args args = Some c →
  read_args (append_if b [f; v] ++ args) =
  Some (mkCmdline (cl_flags c) (prop_if b f v ++ cl_values c) (cl_props c) (cl_operands c)).
Proof.
  intros Hf Hv Ho Hargs. destruct b; simpl; [|by destruct c].
  rewrite (proj2 (String.eqb_neq f "-o")) by done. by rewrite Hf, Hv, Hargs.
Qed.

Lemma HasPrefix_dash_app pool t :
  HasPrefix pool "-" = false → pool ≠ "" → HasPrefix (pool +:+ t) "-" = false.
Proof. destruct pool as [|a pool]; [done|]. by destruct pool, t. Qed.

Lemma dataset_not_option pool name :
  HasPrefix pool "-" = false → HasPrefix (dataset_of pool name) "-" = false.
Proof.
  intros Hp. unfold dataset_of. destruct pool as [|a pool]; [done|].
  by apply HasPrefix_dash_app.
Qed.

(** *** User properties *)

Section user_props.
Context `{GoRange}.

Lemma userprop_byte_not_eq b : userprop_ok_byte b → Ascii.eqb b "=" = false.
Proof. intros Hb%userprop_byte_ok. by destruct b as [[] [] [] [] [] [] [] []]; destruct Hb. Qed.

Lemma userprop_no_eq name : all_bytes userprop_ok_byte name → has_char "=" name = false.
Proof.
  induction name as [|a name IH]; simpl; [done|].
  intros [Ha Hn]. by rewrite (userprop_byte_not_eq _ Ha), IH.
Qed.

Lemma range_elem m k v : (k, v) ∈ range m ↔ m !! k = Some v.
Proof. by rewrite (range_perm m), elem_of_map_to_list. Qed.

Lemma range_NoDup m : NoDup (range m).*1.
Proof. rewrite (range_perm m). apply NoDup_fst_map_to_list. Qed.

Lemma valid_range spec k v :
  Validate spec = None → (k, v) ∈ range (UserProperties spec) →
  has_char "=" k = false ∧ has_char ":" k = true.
Proof.
  intros HV%Validate_ok Hk%range_elem.
  destruct (HV _ _ Hk) as [(_&_&Hb&Hc&_) _]. split; [|done].
  by apply userprop_no_eq.
Qed.

Lemma range_names_ok spec : Validate spec = None → names_ok (range (UserProperties spec)).
Proof.
  intros HV. apply Forall_forall. intros [k v] Hk%(valid_range spec); [|done].
  by destruct Hk.
Qed.
End user_props.

(** *** Distinct names *)

(** Native property names hold no colon, so they differ from user properties. *)
Definition native (l : list (string * string)) : Prop :=
  Forall (λ p, has_char ":" p.1 = false) l.

Lemma NoDup_native_user `{GoRange} l spec l' :
  NoDup (l ++ l').*1 → native (l ++ l') → Validate spec = None →
  NoDup (l ++ range (UserProperties spec) ++ l').*1.
Proof.
  intros Hnd Hnat HV. rewrite Permutation_app_swap_app, fmap_app.
  apply NoDup_app. split; [apply range_NoDup|]. split; [|done].
  intros k [[k' v] [-> Hk]]%list_elem_of_fmap [[k'' v'] [Heq Hk'']]%list_elem_of_fmap.
  simpl in *. subst. apply (valid_range spec) in Hk as [_ Hc]; [|done].
  unfold native in Hnat. rewrite Forall_forall in Hnat. apply Hnat in Hk''. simpl in *. congruence.
Qed.

Lemma elem_of_prop_if b k v k' v' :
  (k', v') ∈ prop_if b k v ↔ b = true ∧ k' = k ∧ v' = v.
Proof.
  destruct b; simpl.
  - rewrite list_elem_of_singleton. naive_solver.
  - rewrite elem_of_nil. naive_solver.
Qed.

Lemma prop_if_sub b k v : (prop_if b k v).*1 `sublist_of` [k].
Proof. destruct b; simpl; [done|]. apply sublist_nil_l. Qed.

Lemma prop_if_sub_cons b k v l ks :
  l.*1 `sublist_of` ks → (prop_if b k v ++ l).*1 `sublist_of` k :: ks.
Proof. intros Hl. destruct b; simpl; by constructor. Qed.

Lemma sub_cons (k v : string) (l : list (string * string)) ks :
  l.*1 `sublist_of` ks → ((k, v) :: l).*1 `sublist_of` k :: ks.
Proof. simpl. by constructor. Qed.

Lemma NoDup_sub {A} (l k : list A) : l `sublist_of` k → NoDup k → NoDup l.
Proof. intros. by eapply sublist_NoDup. Qed.

Lemma native_sub (l : list (string * string)) ks :
  l.*1 `sublist_of` ks → Forall (λ k, has_char ":" k = false) ks → native l.
Proof.
  intros Hs Hks. apply Forall_forall. intros p Hp.
  rewrite Forall_forall in Hks. apply Hks.
  eapply elem_of_sublist; [|exact Hs]. by apply list_elem_of_fmap_2.
Qed.

Create HintDb args.
#[export] Hint Resolve prop_if_sub prop_if_sub_cons sub_cons sublist_nil_l : args.

Lemma quota_cases q :
  (quotaProperty q = "quota" ∧ reservationPropertyName q = "reservation") ∨
  (quotaProperty q = "refquota" ∧ reservationPropertyName q = "refreservation").
Proof. unfold reservationPropertyName, quotaProperty. case_match; [right|left]; done. Qed.

(** ** The builders against their specification *)

(** The builders are a list of options and one [o_args] over the declared list. *)
Ltac args_eq :=
  rewrite <- ?o_args_app, <- ?app_assoc;
  repeat first
    [ reflexivity
    | apply (f_equal2 (@app string));
      [first [ reflexivity
             | match goal with
               | |- _ = o_args (prop_if ?b ?k ?v) => exact (append_if_prop b k v)
               end ]|] ].

(** Closed lists of distinct names. *)
Ltac solve_nodup := apply (bool_decide_unpack _); vm_compute; exact I.

Section specs.
Context `{GoRange}.

Definition common_list (spec : VolumeInfo) : list (string * string) :=
  prop_if (given (Dedup spec)) "dedup" (Dedup spec)
  ++ prop_if (given (Compression spec)) "compression" (Compression spec)
  ++ prop_if (given (LogBias spec)) "logbias" (LogBias spec).

Definition key_list (spec : VolumeInfo) : list (string * string) :=
  prop_if (given (Encryption spec)) "encryption" (Encryption spec)
  ++ prop_if (given (KeyLocation spec)) "keylocation" (KeyLocation spec)
  ++ prop_if (given (KeyFormat spec)) "keyformat" (KeyFormat spec).

Definition fs_list (resv : string) (spec : VolumeInfo) : list (string * string) :=
  prop_if (given (Capacity spec)) (quotaProperty (QuotaType spec)) (Capacity spec)
  ++ prop_if (given (RecordSize spec)) "recordsize" (RecordSize spec)
  ++ prop_if (given (ATime spec)) "atime" (ATime spec)
  ++ prop_if (ThinProvision spec =? "no") resv (Capacity spec).

Lemma common_list_spec spec k v : (k, v) ∈ common_list spec ↔ common_prop spec k v.
Proof.
  unfold common_list. rewrite !elem_of_app, !elem_of_prop_if, !given_true.
  split; [intros [|[|]]; destruct_and!; subst; by constructor|destruct 1; tauto].
Qed.

Lemma key_list_spec spec k v : (k, v) ∈ key_list spec ↔ key_prop spec k v.
Proof.
  unfold key_list. rewrite !elem_of_app, !elem_of_prop_if, !given_true.
  split; [intros [|[|]]; destruct_and!; subst; by constructor|destruct 1; tauto].
Qed.

Lemma fs_list_spec resv spec k v :
  (k, v) ∈ fs_list resv spec ++ [("mountpoint", "legacy")] ↔ fs_prop resv spec k v.
Proof.
  unfold fs_list.
  rewrite !elem_of_app, list_elem_of_singleton, !elem_of_prop_if, !given_true, String.eqb_eq.
  split; [intros [[|[|[|]]]|]; destruct_and?; simplify_eq; by constructor|].
  destruct 1; tauto.
Qed.

Lemma zvol_args_eq vol :
  buildZvolCreateArgs vol =
  ZFSCreateArg ::
    append_if (ThinProvision (vol_Spec vol) =? "yes") ["-s"]
    ++ append_if (given (Capacity (vol_Spec vol))) ["-V"; Capacity (vol_Spec vol)]
    ++ append_if (given (VolBlockSize (vol_Spec vol))) ["-b"; VolBlockSize (vol_Spec vol)]
    ++ o_args (common_list (vol_Spec vol) ++ key_list (vol_Spec vol)
               ++ range (UserProperties (vol_Spec vol)))
    ++ [vol_dataset vol].
Proof.
  unfold buildZvolCreateArgs, common_list, key_list.
  apply (f_equal (cons ZFSCreateArg)). args_eq.
Qed.

Lemma dataset_args_eq vol :
  buildDatasetCreateArgs vol =
  ZFSCreateArg ::
    o_args (fs_list (reservationPropertyName (QuotaType (vol_Spec vol))) (vol_Spec vol)
            ++ common_list (vol_Spec vol) ++ key_list (vol_Spec vol)
            ++ range (UserProperties (vol_Spec vol)) ++ [("mountpoint", "legacy")])
    ++ [vol_dataset vol].
Proof.
  unfold buildDatasetCreateArgs, fs_list, common_list, key_list.
  apply (f_equal (cons ZFSCreateArg)). args_eq.
Qed.

Lemma clone_args_eq vol :
  buildCloneCreateArgs vol =
  ZFSCloneArg ::
    o_args ((if VolumeType (vol_Spec vol) =? VolTypeDataset
             then fs_list (reservationPropertyName (QuotaType (vol_Spec vol))) (vol_Spec vol)
                  ++ [("mountpoint", "legacy")]
             else [])
            ++ common_list (vol_Spec vol) ++ range (UserProperties (vol_Spec vol)))
    ++ [dataset_of (PoolName (vol_Spec vol)) (SnapName (vol_Spec vol)); vol_dataset vol].
Proof.
  unfold buildCloneCreateArgs, fs_list, common_list.
  apply (f_equal (cons ZFSCloneArg)). destruct (VolumeType _ =? _); simpl append_if; args_eq.
Qed.

Lemma names_ok_sub (l : list (string * string)) ks :
  l.*1 `sublist_of` ks → Forall (λ k, has_char "=" k = false) ks → names_ok l.
Proof.
  intros Hs Hks. apply Forall_forall. intros p Hp.
  rewrite Forall_forall in Hks. apply Hks.
  eapply elem_of_sublist; [|exact Hs]. by apply list_elem_of_fmap_2.
Qed.

Definition native_name (k : string) : bool := negb (has_char "=" k) && negb (has_char ":" k).

(** Reading options over native properties [l], [l'] around the user properties. *)
Lemma read_declared l l' spec ks a ops :
  (l ++ l').*1 `sublist_of` ks → NoDup ks → forallb native_name ks = true →
  Validate spec = None → HasPrefix a "-" = false →
  let props := l ++ range (UserProperties spec) ++ l' in
  read_args (o_args props ++ a :: ops) = Some (mkCmdline [] [] props (a :: ops)) ∧
  NoDup props.*1.
Proof.
  intros Hsub Hnd Hks HV Ha props.
  assert (Forall (λ k, has_char "=" k = false ∧ has_char ":" k = false) ks) as Hks'.
  { apply Forall_forall. intros k Hk%list_elem_of_In.
    rewrite forallb_forall in Hks. apply Hks in Hk.
    unfold native_name in Hk. to_prop. done. }
  assert (native (l ++ l') ∧ names_ok (l ++ l')) as [Hnat Hok].
  { split; [eapply native_sub|eapply names_ok_sub]; try done;
      (eapply Forall_impl; [done|]; naive_solver). }
  split; [|apply NoDup_native_user; [by eapply NoDup_sub|done..]].
  rewrite (read_args_props props _ (mkCmdline [] [] [] (a :: ops)));
    [simpl; by rewrite app_nil_r| |by apply read_args_operands].
  unfold names_ok, props in *. rewrite !Forall_app in *.
  split_and!; [apply Hok|by apply range_names_ok|apply Hok].
Qed.

(** [zfs create] for a zvol *)
Lemma zvol_create_spec vol :
  Validate (vol_Spec vol) = None → HasPrefix (PoolName (vol_Spec vol)) "-" = false →
  ∃ args props,
    buildZvolCreateArgs vol = ZFSCreateArg :: args ∧
    read_args args =
      Some (mkCmdline
              (append_if (ThinProvision (vol_Spec vol) =? "yes") ["-s"])
              (prop_if (given (Capacity (vol_Spec vol))) "-V" (Capacity (vol_Spec vol))
               ++ prop_if (given (VolBlockSize (vol_Spec vol))) "-b" (VolBlockSize (vol_Spec vol)))
              props [vol_dataset vol]) ∧
    NoDup props.*1 ∧
    ∀ k v, (k, v) ∈ props ↔
           common_prop (vol_Spec vol) k v ∨ key_prop (vol_Spec vol) k v ∨ user_prop (vol_Spec vol) k v.
Proof.
  intros HV Hpool. set (spec := vol_Spec vol) in *.
  destruct (read_declared (common_list spec ++ key_list spec) [] spec
    ["dedup"; "compression"; "logbias"; "encryption"; "keylocation"; "keyformat"]
    (vol_dataset vol) []) as [Hread Hnd]; try done.
  { rewrite app_nil_r. unfold common_list, key_list. rewrite <- !app_assoc. auto 10 with args. }
  { solve_nodup. }
  { by apply dataset_not_option. }
  rewrite app_nil_r, <- app_assoc in Hread, Hnd.
  eexists _, _. split; [apply zvol_args_eq|]. split; [|split].
  - apply (read_args_valued (given (VolBlockSize spec)) "-b" (VolBlockSize spec)) in Hread; try done.
    apply (read_args_valued (given (Capacity spec)) "-V" (Capacity spec)) in Hread; try done.
    apply (read_args_flag (ThinProvision spec =? "yes") "-s") in Hread; try done.
    etrans; [exact Hread|]. simpl. by rewrite !app_nil_r.
  - done.
  - intros k v. rewrite !elem_of_app, common_list_spec, key_list_spec, range_elem. done.
Qed.

Definition fs_names (q : string) : list string :=
  [quotaProperty q; "recordsize"; "atime"; reservationPropertyName q].

Lemma fs_names_NoDup q ks :
  NoDup (["quota"; "recordsize"; "atime"; "reservation"; "refquota"; "refreservation"] ++ ks) →
  NoDup (fs_names q ++ ks).
Proof.
  intros Hnd. unfold fs_names. eapply NoDup_sub in Hnd; [|reflexivity].
  rewrite !NoDup_app in Hnd. destruct Hnd as (_ & Hd & Hks).
  apply NoDup_app. split_and!; [|intros k Hk; apply Hd|done].
  - destruct (quota_cases q) as [[-> ->]|[-> ->]];
      solve_nodup.
  - destruct (quota_cases q) as [[E1 E2]|[E1 E2]]; rewrite E1, E2 in Hk; set_solver.
Qed.

Lemma fs_names_native q ks :
  forallb native_name ks = true → forallb native_name (fs_names q ++ ks) = true.
Proof.
  intros Hks. rewrite forallb_app, Hks. unfold fs_names.
  by destruct (quota_cases q) as [[-> ->]|[-> ->]].
Qed.

(** [zfs create] for a dataset: the reservation goes with the quota type *)
Lemma dataset_create_spec vol :
  Validate (vol_Spec vol) = None → HasPrefix (PoolName (vol_Spec vol)) "-" = false →
  ∃ args props,
    buildDatasetCreateArgs vol = ZFSCreateArg :: args ∧
    read_args args = Some (mkCmdline [] [] props [vol_dataset vol]) ∧
    NoDup props.*1 ∧
    ∀ k v, (k, v) ∈ props ↔
           fs_prop (reservationPropertyName (QuotaType (vol_Spec vol))) (vol_Spec vol) k v ∨
           common_prop (vol_Spec vol) k v ∨ key_prop (vol_Spec vol) k v ∨ user_prop (vol_Spec vol) k v.
Proof.
  intros HV Hpool. set (spec := vol_Spec vol) in *.
  set (resv := reservationPropertyName (QuotaType spec)).
  destruct (read_declared (fs_list resv spec ++ common_list spec ++ key_list spec)
    [("mountpoint", "legacy")] spec
    (fs_names (QuotaType spec) ++ ["dedup"; "compression"; "logbias"; "encryption"; "keylocation";
     "keyformat"; "mountpoint"]) (vol_dataset vol) []) as [Hread Hnd]; try done.
  { unfold fs_list, common_list, key_list, fs_names. rewrite <- !app_assoc. simpl app.
    auto 15 with args. }
  { apply fs_names_NoDup. solve_nodup. }
  { by apply fs_names_native. }
  { by apply dataset_not_option. }
  rewrite <- !app_assoc in Hread, Hnd.
  eexists _, _. split; [apply dataset_args_eq|]. split; [exact Hread|]. split; [done|].
  intros k v. rewrite <- fs_list_spec.
  rewrite !elem_of_app, common_list_spec, key_list_spec, range_elem. tauto.
Qed.

(** The command line of a new zvol, read back, is exactly what the volume
    declares: sparse when thin, its size and block size, each declared property once
    and no other, and the dataset as the only operand. *)
Theorem buildZvolCreateArgs_spec vol :
  Validate (vol_Spec vol) = None → HasPrefix (PoolName (vol_Spec vol)) "-" = false →
  ∃ args props,
    buildZvolCreateArgs vol = ZFSCreateArg :: args ∧
    read_args args =
      Some (mkCmdline
              (append_if (ThinProvision (vol_Spec vol) =? "yes") ["-s"])
              (prop_if (given (Capacity (vol_Spec vol))) "-V" (Capacity (vol_Spec vol))
               ++ prop_if (given (VolBlockSize (vol_Spec vol))) "-b" (VolBlockSize (vol_Spec vol)))
              props [vol_dataset vol]) ∧
    NoDup props.*1 ∧
    ∀ k v, (k, v) ∈ props ↔
           common_prop (vol_Spec vol) k v ∨ key_prop (vol_Spec vol) k v ∨ user_prop (vol_Spec vol) k v.
Proof. apply zvol_create_spec. Qed.

(** C26: the command line of a new dataset, read back, has each declared property
    once and no other: the quota and, for a thick volume, the reservation that goes
    with the quota type, and a legacy mount point. *)
Theorem buildDatasetCreateArgs_spec vol :
  Validate (vol_Spec vol) = None → HasPrefix (PoolName (vol_Spec vol)) "-" = false →
  ∃ args props,
    buildDatasetCreateArgs vol = ZFSCreateArg :: args ∧
    read_args args = Some (mkCmdline [] [] props [vol_dataset vol]) ∧
    NoDup props.*1 ∧
    ∀ k v, (k, v) ∈ props ↔
           fs_prop (reservationPropertyName (QuotaType (vol_Spec vol))) (vol_Spec vol) k v ∨
           common_prop (vol_Spec vol) k v ∨ key_prop (vol_Spec vol) k v ∨ user_prop (vol_Spec vol) k v.
Proof. apply dataset_create_spec. Qed.

(** The command line of a clone, read back, names the snapshot and the new
    dataset in this order, and has the declared properties of the volume, but for
    those of encryption, which a clone takes from its origin. *)
Theorem buildCloneCreateArgs_spec vol :
  Validate (vol_Spec vol) = None → HasPrefix (PoolName (vol_Spec vol)) "-" = false →
  ∃ args props,
    buildCloneCreateArgs vol = ZFSCloneArg :: args ∧
    read_args args =
      Some (mkCmdline [] [] props
              [dataset_of (PoolName (vol_Spec vol)) (SnapName (vol_Spec vol)); vol_dataset vol]) ∧
    NoDup props.*1 ∧
    ∀ k v, (k, v) ∈ props ↔
           (VolumeType (vol_Spec vol) = VolTypeDataset ∧
            fs_prop (reservationPropertyName (QuotaType (vol_Spec vol))) (vol_Spec vol) k v) ∨
           common_prop (vol_Spec vol) k v ∨ user_prop (vol_Spec vol) k v.
Proof.
  intros HV Hpool. set (spec := vol_Spec vol) in *.
  set (resv := reservationPropertyName (QuotaType spec)).
  set (fs := if VolumeType spec =? VolTypeDataset
             then fs_list resv spec ++ [("mountpoint", "legacy")] else []).
  destruct (read_declared (fs ++ common_list spec) [] spec
    (fs_names (QuotaType spec) ++ ["mountpoint"; "dedup"; "compression"; "logbias"])
    (dataset_of (PoolName spec) (SnapName spec)) [vol_dataset vol]) as [Hread Hnd]; try done.
  { rewrite app_nil_r. unfold fs, fs_list, common_list, fs_names.
    destruct (_ =? VolTypeDataset); rewrite <- ?app_assoc; simpl app;
      [auto 15 with args|]. do 5 apply sublist_cons. auto 15 with args. }
  { apply fs_names_NoDup. solve_nodup. }
  { by apply fs_names_native. }
  { by apply dataset_not_option. }
  rewrite app_nil_r, <- app_assoc in Hread, Hnd.
  eexists _, _. split; [apply clone_args_eq|]. split; [exact Hread|]. split; [done|].
  intros k v. rewrite !elem_of_app, common_list_spec, range_elem. unfold fs.
  rewrite <- fs_list_spec, <- String.eqb_eq.
  destruct (_ =? VolTypeDataset); rewrite ?elem_of_nil; naive_solver.
Qed.

(** An update the change detection drops would have issued the command that is
    already in force: same dataset, same properties. *)
Theorem PropertyChanged_complete oldVol newVol :
  Name (vol_Meta oldVol) = Name (vol_Meta newVol) →
  PoolName (vol_Spec oldVol) = PoolName (vol_Spec newVol) →
  VolumeType (vol_Spec oldVol) = VolumeType (vol_Spec newVol) →
  PropertyChanged oldVol newVol = false →
  buildVolumeSetArgs oldVol = buildVolumeSetArgs newVol.
Proof.
  unfold PropertyChanged, buildVolumeSetArgs, vol_dataset.
  intros -> -> -> Hch. case_match eqn:Hrs; [done|]. to_prop.
  repeat match goal with
  | Hq : ?f (vol_Spec oldVol) = ?f (vol_Spec newVol) |- _ => rewrite Hq; clear Hq
  end.
  destruct (VolumeType _ =? VolTypeDataset); [|done]. simpl in Hrs. to_prop.
  repeat match goal with
  | Hq : ?f (vol_Spec oldVol) = ?f (vol_Spec newVol) |- _ => rewrite Hq; clear Hq
  end. done.
Qed.
End specs.

(** ** Backup and restore *)

Lemma one_colon_split s host port :
  Split ":" s = [host; port] ↔
  s = host +:+ ":" +:+ port ∧ has_char ":" host = false ∧ has_char ":" port = false.
Proof.
  split.
  - intros Hs. pose proof (Join_Split ":" s) as Hj. pose proof (Split_fields ":" s) as Hf.
    rewrite Hs in Hj, Hf. simpl in Hj. split; [done|].
    by inversion Hf as [|?? H1 H2]; inversion H2.
  - intros (-> & Hh & Hp). change (host +:+ ":" +:+ port) with (host +:+ String ":" port).
    by rewrite Split_app, Split_nosep.
Qed.

Lemma two_fields_dec (l : list string) : (∃ a b, l = [a; b]) ∨ (∀ a b, l ≠ [a; b]).
Proof. destruct l as [|a [|b [|c l]]]; try (right; done). left. by exists a, b. Qed.

(** The two command lines of a backup, and the address check: the pipeline is
    built exactly for an address with one colon, and sends incrementally exactly
    when a previous snapshot is named. *)
Theorem buildVolumeBackupArgs_spec bkp vol :
  (∀ sendArgs ncArgs,
     buildVolumeBackupArgs bkp vol = inl (sendArgs, ncArgs) ↔
     ∃ host port,
       bkp_BackupDest (bkp_Spec bkp) = host +:+ ":" +:+ port ∧
       has_char ":" host = false ∧ has_char ":" port = false ∧
       ncArgs = ["-w"; "3"; host; port] ∧
       sendArgs =
         if is_empty (bkp_PrevSnapName (bkp_Spec bkp))
         then [ZFSSendArg; vol_dataset vol +:+ "@" +:+ bkp_SnapName (bkp_Spec bkp)]
         else [ZFSSendArg; "-i"; vol_dataset vol +:+ "@" +:+ bkp_PrevSnapName (bkp_Spec bkp);
               vol_dataset vol +:+ "@" +:+ bkp_SnapName (bkp_Spec bkp)]) ∧
  (∀ e, buildVolumeBackupArgs bkp vol = inr e →
        e = Errorf "zfs: invalid backup server address %s" [bkp_BackupDest (bkp_Spec bkp)]).
Proof.
  unfold buildVolumeBackupArgs.
  assert ((0 <? slen (bkp_PrevSnapName (bkp_Spec bkp)))%Z =
          negb (is_empty (bkp_PrevSnapName (bkp_Spec bkp)))) as ->.
  { unfold slen. by destruct (bkp_PrevSnapName _). }
  destruct (two_fields_dec (Split ":" (bkp_BackupDest (bkp_Spec bkp)))) as [(h & p & Hs)|Hs].
  - rewrite Hs. split; [|done]. intros send nc.
    apply one_colon_split in Hs as Ha. split.
    + intros [= <- <-]. exists h, p. destruct (is_empty _); naive_solver.
    + intros (h' & p' & H1 & H2 & H3 & -> & ->).
      assert (Split ":" (bkp_BackupDest (bkp_Spec bkp)) = [h'; p']) as Hs'
        by by apply one_colon_split.
      rewrite Hs in Hs'. simplify_eq. by destruct (is_empty _).
  - split.
    + intros send nc. split.
      * intros E. by repeat (case_match; simplify_eq; try by edestruct Hs).
      * intros (h & p & H1 & H2 & H3 & _). edestruct Hs. by apply one_colon_split.
    + intros e E. by repeat (case_match; simplify_eq; try by edestruct Hs).
Qed.

Lemma restore_args_eq rstr host port :
  Split ":" (rstr_RestoreSrc (rstr_Spec rstr)) = [host; port] →
  buildVolumeRestoreArgs rstr =
  inl (["-w"; "3"; host; port],
       ZFSRecvArg ::
         o_args ((if VolumeType (rstr_VolSpec rstr) =? VolTypeDataset
                  then fs_list "reservation" (rstr_VolSpec rstr) ++ [("mountpoint", "legacy")]
                  else []) ++ common_list (rstr_VolSpec rstr) ++ key_list (rstr_VolSpec rstr))
         ++ ["-F"; dataset_of (PoolName (rstr_VolSpec rstr)) (rstr_VolumeName (rstr_Spec rstr))]).
Proof.
  intros Hs. unfold buildVolumeRestoreArgs. rewrite Hs.
  unfold fs_list, common_list, key_list. apply f_equal, f_equal.
  apply (f_equal (cons ZFSRecvArg)). destruct (VolumeType _ =? _); simpl append_if; args_eq.
Qed.

(** The properties a restore passes to [zfs recv]. *)
Definition restore_list (spec : VolumeInfo) : list (string * string) :=
  (if VolumeType spec =? VolTypeDataset
   then fs_list "reservation" spec ++ [("mountpoint", "legacy")] else [])
  ++ common_list spec ++ key_list spec.

Lemma restore_read spec volume :
  HasPrefix volume "-" = false →
  read_args (o_args (restore_list spec) ++ ["-F"; volume]) =
  Some (mkCmdline ["-F"] [] (restore_list spec) [volume]).
Proof.
  intros Hv.
  rewrite (read_args_props _ _ (mkCmdline ["-F"] [] [] [volume])); [simpl; by rewrite app_nil_r| |].
  - apply (names_ok_sub _ ([quotaProperty (QuotaType spec); "recordsize"; "atime"; "reservation";
      "mountpoint"; "dedup"; "compression"; "logbias"; "encryption"; "keylocation"; "keyformat"])).
    + unfold restore_list, fs_list, common_list, key_list.
      destruct (_ =? VolTypeDataset); rewrite <- ?app_assoc; simpl app;
        [auto 15 with args|]. do 5 apply sublist_cons. auto 15 with args.
    + destruct (quota_cases (QuotaType spec)) as [[-> _]|[-> _]]; by repeat constructor.
  - apply (read_args_flag true "-F" _ (mkCmdline [] [] [] _)); [done..|].
    by apply read_args_operands.
Qed.

Lemma restore_list_spec spec k v :
  (k, v) ∈ restore_list spec ↔
  (VolumeType spec = VolTypeDataset ∧ fs_prop "reservation" spec k v) ∨
  common_prop spec k v ∨ key_prop spec k v.
Proof.
  unfold restore_list. rewrite !elem_of_app, common_list_spec, key_list_spec.
  rewrite <- fs_list_spec, <- String.eqb_eq.
  destruct (_ =? VolTypeDataset); rewrite ?elem_of_nil; naive_solver.
Qed.

(** What a restore receives the stream with, read back: for a dataset the reservation
    property is [reservation] whatever the quota type. *)
Theorem buildVolumeRestoreArgs_spec rstr host port :
  rstr_RestoreSrc (rstr_Spec rstr) = host +:+ ":" +:+ port →
  has_char ":" host = false → has_char ":" port = false →
  HasPrefix (PoolName (rstr_VolSpec rstr)) "-" = false →
  ∃ args props,
    buildVolumeRestoreArgs rstr = inl (["-w"; "3"; host; port], ZFSRecvArg :: args) ∧
    read_args args =
      Some (mkCmdline ["-F"] [] props
              [dataset_of (PoolName (rstr_VolSpec rstr)) (rstr_VolumeName (rstr_Spec rstr))]) ∧
    ∀ k v, (k, v) ∈ props ↔
           (VolumeType (rstr_VolSpec rstr) = VolTypeDataset ∧
            fs_prop "reservation" (rstr_VolSpec rstr) k v) ∨
           common_prop (rstr_VolSpec rstr) k v ∨ key_prop (rstr_VolSpec rstr) k v.
Proof.
  intros Hsrc Hh Hp Hpool. eexists _, (restore_list (rstr_VolSpec rstr)). split_and!.
  - by apply restore_args_eq, one_colon_split.
  - by apply restore_read, dataset_not_option.
  - apply restore_list_spec.
Qed.

(** So a thick dataset with a refquota, which its creation gives a
    refreservation, is restored with a plain reservation and no refreservation. *)
Theorem restore_drops_refreservation `{GoRange} rstr vol ncArgs args :
  vol_Spec vol = rstr_VolSpec rstr →
  VolumeType (rstr_VolSpec rstr) = VolTypeDataset →
  QuotaType (rstr_VolSpec rstr) = "refquota" → ThinProvision (rstr_VolSpec rstr) = "no" →
  HasPrefix (PoolName (rstr_VolSpec rstr)) "-" = false →
  buildVolumeRestoreArgs rstr = inl (ncArgs, ZFSRecvArg :: args) →
  ("refreservation=" +:+ Capacity (rstr_VolSpec rstr)) ∈ buildDatasetCreateArgs vol ∧
  ∃ cl, read_args args = Some cl ∧
        ("reservation", Capacity (rstr_VolSpec rstr)) ∈ cl_props cl ∧
        ∀ v, ("refreservation", v) ∉ cl_props cl.
Proof.
  intros Hspec Hvt Hq Htp Hpool Hb. split.
  - unfold buildDatasetCreateArgs. rewrite Hspec, Htp, Hq. simpl.
    rewrite ?elem_of_cons, ?elem_of_app, ?elem_of_cons. tauto.
  - destruct (two_fields_dec (Split ":" (rstr_RestoreSrc (rstr_Spec rstr)))) as [(h & p & Hs)|Hs];
      [|by unfold buildVolumeRestoreArgs in Hb; repeat (case_match; simplify_eq; try by edestruct Hs)].
    rewrite (restore_args_eq rstr h p Hs) in Hb. injection Hb as <- <-.
    eexists. split; [by apply restore_read, dataset_not_option|]. simpl. split.
    + apply restore_list_spec. left. split; [done|]. by constructor.
    + intros v [[_ Hf]|[Hc|Hk]]%restore_list_spec.
      * inversion Hf as [Hc Hn Hv| | | |]. by rewrite Hq in Hn.
      * inversion Hc.
      * inversion Hk.
Qed.
