(* ===== verification/Kube.v ===== *)
(** * The typed clients (pkg/builder/*/kubernetes.go)

    One client per kind of resource, written out five times in the source with
    different messages: the operations are stated once, over the kind, with a
    table of the messages.  An operation rejects an empty name, obtains the
    clientset and issues the request.  (The arms for a nil object are not
    reachable from the driver, which passes objects it holds.) *)

From S2P Require Import Prelude GoStr GoErr Api Csi Effects.

(** The process-wide settings, read from the environment at start-up. *)
Class Globals := {
  OpenEBSNamespace : string;
  NodeID : string;
  GoogleAnalyticsEnabled : string;
  ZFSBackupGCEnabled : bool;
}.

(** The messages of one client. *)
Record client_messages := mkClientMessages {
  cm_create : string;
  cm_get_missing : string;
  cm_get : string;
  cm_list : string;
  cm_delete_missing : string;
  cm_delete : string;
  cm_update : string;
}.

Definition messages (k : kind) : client_messages :=
  match k with
  | KVol => mkClientMessages
      "failed to create zfs volume {%s} in namespace {%s}"
      "failed to get zfs volume: missing zfs volume name"
      "failed to get zfs volume {%s} in namespace {%s}"
      "failed to list zfs volumes in namespace {%s}"
      "failed to delete csivolume: missing vol name"
      "failed to delete csivolume {%s} in namespace {%s}"
      "failed to update csivolume {%s} in namespace {%s}"
  | KSnap => mkClientMessages
      "failed to create zfssnap volume {%s} in namespace {%s}"
      "failed to get zfssnap volume: missing zfssnap volume name"
      "failed to get zfssnap volume {%s} in namespace {%s}"
      "failed to list zfssnap volumes in namespace {%s}"
      "failed to delete csivolume: missing vol name"
      "failed to delete csivolume {%s} in namespace {%s}"
      "failed to update csivolume {%s} in namespace {%s}"
  | KBkp => mkClientMessages
      "failed to create zfsbkp bkpume {%s} in namespace {%s}"
      "failed to get zfsbkp bkpume: missing zfsbkp bkpume name"
      "failed to get zfsbkp bkpume {%s} in namespace {%s}"
      "failed to list zfsbkp bkpumes in namespace {%s}"
      "failed to delete csibkpume: missing bkp name"
      "failed to delete csibkpume {%s} in namespace {%s}"
      "failed to update csibkpume {%s} in namespace {%s}"
  | KRstr => mkClientMessages
      "failed to create zfsrstr rstrume {%s} in namespace {%s}"
      "failed to get zfsrstr rstrume: missing zfsrstr rstrume name"
      "failed to get zfsrstr rstrume {%s} in namespace {%s}"
      "failed to list zfsrstr rstrumes in namespace {%s}"
      "failed to delete csirstrume: missing rstr name"
      "failed to delete csirstrume {%s} in namespace {%s}"
      "failed to update csirstrume {%s} in namespace {%s}"
  | KNode => mkClientMessages
      "failed to create zfs node {%s} in namespace {%s}"
      "failed to get zfs node: missing zfs node name"
      "failed to get zfs node {%s} in namespace {%s}"
      "failed to list zfs nodes in namespace {%s}"
      "failed to delete zfsnode: missing node name"
      "failed to delete zfsnode {%s} in namespace {%s}"
      "failed to update zfsnode {%s} in namespace {%s}"
  end.

(** The metadata of an object of any kind. *)
Definition meta (k : kind) : obj k → ObjectMeta :=
  match k with
  | KVol => vol_Meta | KSnap => snap_Meta | KBkp => bkp_Meta
  | KRstr => rstr_Meta | KNode => node_Meta
  end.

Definition getClientOrCached : prog unit :=
  r ← call CClientset;
  match r with
  | Ok _ => Ret tt
  | Err err => Throw (ErrWrap err "failed to get clientset")
  end.

Definition Kubeclient_Create (k : kind) (ns : string) (o : obj k) : prog (obj k) :=
  _ ← map_err (λ err, ErrWrap err (Sprintf (cm_create (messages k)) [Name (meta k o); ns]))
        getClientOrCached;
  r ← call (CCreate k ns o);
  lift r.

Definition Kubeclient_Get (k : kind) (ns name : string) : prog (obj k) :=
  if name =? "" then Throw (ErrText (cm_get_missing (messages k))) else
  _ ← map_err (λ err, ErrWrap err (Sprintf (cm_get (messages k)) [name; ns]))
        getClientOrCached;
  r ← call (CGet k ns name);
  lift r.

Definition Kubeclient_List (k : kind) (ns : string) (opts : ListOptions) : prog (list (obj k)) :=
  _ ← map_err (λ err, ErrWrap err (Sprintf (cm_list (messages k)) [ns])) getClientOrCached;
  r ← call (CList k ns opts);
  lift r.

Definition Kubeclient_Delete (k : kind) (ns name : string) : prog unit :=
  if name =? "" then Throw (ErrText (cm_delete_missing (messages k))) else
  _ ← map_err (λ err, ErrWrap err (Sprintf (cm_delete (messages k)) [name; ns]))
        getClientOrCached;
  r ← call (CDelete k ns name);
  lift r.

Definition Kubeclient_Update (k : kind) (ns : string) (o : obj k) : prog (obj k) :=
  _ ← map_err (λ err, ErrWrap err (Sprintf (cm_update (messages k))
                                     [Name (meta k o); Namespace (meta k o)]))
        getClientOrCached;
  r ← call (CUpdate k ns o);
  lift r.

(** ** Reasoning about the clients

    In an environment whose clientset requests change nothing, a client operation
    either fails before any request, in the same state, or is the request. *)

Class ClientsetFrame {S} (E : Env S) :=
  clientset_frame : ∀ s r s', E CClientset s r s' → s' = s.

Section client_rules.
Context {S : Type} (E : Env S) `{!ClientsetFrame E}.

Lemma wp_getClientOrCached (f : error → error) (Q : outcome unit → S → Prop) s :
  (∀ e, Q (OErr (f e)) s) → Q (ORet tt) s → wp E (map_err f getClientOrCached) Q s.
Proof.
  intros He Hok. simpl. intros [[]|e] s' ->%clientset_frame; simpl; auto.
Qed.

Lemma wp_Kubeclient_Get k ns name (Q : outcome (obj k) → S → Prop) s :
  (∀ e, Q (OErr e) s) →
  (∀ r s', name ≠ "" → E (CGet k ns name) s r s' →
     Q (match r with Ok o => ORet o | Err e => OErr e end) s') →
  wp E (Kubeclient_Get k ns name) Q s.
Proof.
  intros He Hr. unfold Kubeclient_Get. destruct (String.eqb_spec name ""); [apply He|].
  apply wp_bind, wp_getClientOrCached; [intros; apply He|].
  simpl. intros r s' Hg. specialize (Hr r s' ltac:(done) Hg). by destruct r.
Qed.

Lemma wp_Kubeclient_List k ns opts (Q : outcome (list (obj k)) → S → Prop) s :
  (∀ e, Q (OErr e) s) →
  (∀ r s', E (CList k ns opts) s r s' →
     Q (match r with Ok o => ORet o | Err e => OErr e end) s') →
  wp E (Kubeclient_List k ns opts) Q s.
Proof.
  intros He Hr. apply wp_bind, wp_getClientOrCached; [intros; apply He|].
  simpl. intros r s' Hg. specialize (Hr r s' Hg). by destruct r.
Qed.

Lemma wp_Kubeclient_Create k ns o (Q : outcome (obj k) → S → Prop) s :
  (∀ e, Q (OErr e) s) →
  (∀ r s', E (CCreate k ns o) s r s' →
     Q (match r with Ok o => ORet o | Err e => OErr e end) s') →
  wp E (Kubeclient_Create k ns o) Q s.
Proof.
  intros He Hr. apply wp_bind, wp_getClientOrCached; [intros; apply He|].
  simpl. intros r s' Hg. specialize (Hr r s' Hg). by destruct r.
Qed.

Lemma wp_Kubeclient_Update k ns o (Q : outcome (obj k) → S → Prop) s :
  (∀ e, Q (OErr e) s) →
  (∀ r s', E (CUpdate k ns o) s r s' →
     Q (match r with Ok o => ORet o | Err e => OErr e end) s') →
  wp E (Kubeclient_Update k ns o) Q s.
Proof.
  intros He Hr. apply wp_bind, wp_getClientOrCached; [intros; apply He|].
  simpl. intros r s' Hg. specialize (Hr r s' Hg). by destruct r.
Qed.

Lemma wp_Kubeclient_Delete k ns name (Q : outcome unit → S → Prop) s :
  (∀ e, Q (OErr e) s) →
  (∀ r s', name ≠ "" → E (CDelete k ns name) s r s' →
     Q (match r with Ok o => ORet o | Err e => OErr e end) s') →
  wp E (Kubeclient_Delete k ns name) Q s.
Proof.
  intros He Hr. unfold Kubeclient_Delete. destruct (String.eqb_spec name ""); [apply He|].
  apply wp_bind, wp_getClientOrCached; [intros; apply He|].
  simpl. intros r s' Hg. specialize (Hr r s' ltac:(done) Hg). by destruct r.
Qed.
End client_rules.
