(* ===== verification/Clients.v ===== *)
(** * The typed clients in full (pkg/builder/*/kubernetes.go)

    A client is a value with a cached clientset, the functions it works with, which
    tests replace, and options.  The source has it five times, once per package, with
    the messages of each kind.  [Kube] has the operations as the driver uses them, on a
    client made for one request; the theorem below says that this is what they are. *)

From S2P Require Import Prelude GoStr GoErr Api Csi Effects Kube.

(** [json.Marshal] of an object. *)
Class JsonMarshal := json_marshal : ∀ k : kind, obj k → result string.

(** The messages that [Kube.messages] lacks. *)
Record raw_messages := mkRawMessages {
  rm_create_nil : string;
  rm_raw_missing : string;
  rm_update_nil : string;
}.

Definition more_messages (k : kind) : raw_messages :=
  match k with
  | KVol => mkRawMessages
      "failed to create csivolume: nil vol object"
      "failed to get raw zfs volume: missing vol name"
      "failed to update csivolume: nil vol object"
  | KSnap => mkRawMessages
      "failed to create csivolume: nil vol object"
      "failed to get raw zfssnap volume: missing vol name"
      "failed to update csivolume: nil vol object"
  | KBkp => mkRawMessages
      "failed to create csibkpume: nil bkp object"
      "failed to get raw zfsbkp bkpume: missing bkp name"
      "failed to update csibkpume: nil bkp object"
  | KRstr => mkRawMessages
      "failed to create csirstrume: nil rstr object"
      "failed to get raw zfsrstr rstrume: missing rstr name"
      "failed to update csirstrume: nil rstr object"
  | KNode => mkRawMessages
      "failed to create zfs node: nil node object"
      "failed to get raw zfs node: missing node name"
      "failed to update zfsnode: nil node object"
  end.

(** ** The functions a client works with

    A clientset is a handle. *)
Definition getClientsetFn : Type := prog unit.
Definition getClientsetForPathFn : Type := string → prog unit.
Definition createFn (k : kind) : Type := unit → obj k → string → prog (obj k).
Definition getFn (k : kind) : Type := unit → string → string → prog (obj k).
Definition listFn (k : kind) : Type := unit → string → ListOptions → prog (list (obj k)).
Definition delFn : Type := unit → string → string → prog unit.
Definition updateFn (k : kind) : Type := unit → obj k → string → prog (obj k).

(** A function field that is nil is [None]. *)
Record Kubeclient (k : kind) := mkKubeclient {
  kc_clientset : option unit;
  kc_kubeConfigPath : string;
  kc_namespace : string;
  kc_getClientset : option getClientsetFn;
  kc_getClientsetForPath : option getClientsetForPathFn;
  kc_get : option (getFn k);
  kc_list : option (listFn k);
  kc_del : option delFn;
  kc_create : option (createFn k);
  kc_update : option (updateFn k);
}.
Arguments mkKubeclient {k}.
Arguments kc_clientset {k}.
Arguments kc_kubeConfigPath {k}.
Arguments kc_namespace {k}.
Arguments kc_getClientset {k}.
Arguments kc_getClientsetForPath {k}.
Arguments kc_get {k}.
Arguments kc_list {k}.
Arguments kc_del {k}.
Arguments kc_create {k}.
Arguments kc_update {k}.

(** Calling a function field. *)
Definition fn {F A} (f : option F) (call_ : F → prog A) : prog A :=
  match f with
  | Some f => call_ f
  | None => Crash "nil pointer dereference"
  end.

(** ** The default functions *)

Definition defaultGetClientset : prog unit := r ← call CClientset; lift r.

Definition defaultGetClientsetForPath (kubeConfigPath : string) : prog unit :=
  r ← call (CClientsetForPath kubeConfigPath); lift r.

Section clients.
Context {k : kind}.

Definition defaultGet (cli : unit) (name namespace : string) : prog (obj k) :=
  r ← call (CGet k namespace name); lift r.

Definition defaultList (cli : unit) (namespace : string) (opts : ListOptions) : prog (list (obj k)) :=
  r ← call (CList k namespace opts); lift r.

Definition defaultDel (cli : unit) (name namespace : string) : prog unit :=
  r ← call (CDelete k namespace name); lift r.

Definition defaultCreate (cli : unit) (o : obj k) (namespace : string) : prog (obj k) :=
  r ← call (CCreate k namespace o); lift r.

Definition defaultUpdate (cli : unit) (o : obj k) (namespace : string) : prog (obj k) :=
  r ← call (CUpdate k namespace o); lift r.

(** ** Construction *)

Definition or_default {A} (f : option A) (d : A) : option A :=
  match f with Some _ => f | None => Some d end.

Definition withDefaults (c : Kubeclient k) : Kubeclient k :=
  {| kc_clientset := kc_clientset c;
     kc_kubeConfigPath := kc_kubeConfigPath c;
     kc_namespace := kc_namespace c;
     kc_getClientset := or_default (kc_getClientset c) defaultGetClientset;
     kc_getClientsetForPath := or_default (kc_getClientsetForPath c) defaultGetClientsetForPath;
     kc_get := or_default (kc_get c) defaultGet;
     kc_list := or_default (kc_list c) defaultList;
     kc_del := or_default (kc_del c) defaultDel;
     kc_create := or_default (kc_create c) defaultCreate;
     kc_update := or_default (kc_update c) defaultUpdate |}.

Definition KubeclientBuildOption := Kubeclient k → Kubeclient k.

Definition client_WithClientSet (cs : option unit) : KubeclientBuildOption :=
  λ c, c {{ kc_clientset := cs }}.

Definition client_WithNamespace (namespace : string) : KubeclientBuildOption :=
  λ c, c {{ kc_namespace := namespace }}.

Definition client_WithKubeConfigPath (path : string) : KubeclientBuildOption :=
  λ c, c {{ kc_kubeConfigPath := path }}.

Definition emptyKubeclient : Kubeclient k :=
  mkKubeclient None "" "" None None None None None None None.

Definition NewKubeclient (opts : list KubeclientBuildOption) : Kubeclient k :=
  withDefaults (foldl (λ c o, o c) emptyKubeclient opts).

(** The method, as opposed to the option. *)
Definition Kubeclient_WithNamespace (namespace : string) (c : Kubeclient k) : Kubeclient k :=
  c {{ kc_namespace := namespace }}.

(** ** Operations

    The result, with its error as a value, and the client as the call leaves it. *)

Definition getClientsetForPathOrDirect (c : Kubeclient k) : prog unit :=
  if negb (kc_kubeConfigPath c =? "") then
    fn (kc_getClientsetForPath c) (λ f, f (kc_kubeConfigPath c))
  else fn (kc_getClientset c) id.

Definition getClientOrCached (c : Kubeclient k) : prog (result unit * Kubeclient k) :=
  match kc_clientset c with
  | Some cs => Ret (Ok cs, c)
  | None =>
    r ← attempt (getClientsetForPathOrDirect c);
    match r with
    | Err err => Ret (Err (ErrWrap err "failed to get clientset"), c)
    | Ok cs => Ret (Ok cs, c {{ kc_clientset := Some cs }})
    end
  end.

(** A request: the client, and with it the call [f]; [msg] wraps the failure to get one. *)
Definition request {A} (c : Kubeclient k) (msg : string) (f : unit → prog A)
    : prog (result A * Kubeclient k) :=
  '(cs, c) ← getClientOrCached c;
  match cs with
  | Err err => Ret (Err (ErrWrap err msg), c)
  | Ok cs => r ← attempt (f cs); Ret (r, c)
  end.

Definition Create (c : Kubeclient k) (o : option (obj k)) : prog (result (obj k) * Kubeclient k) :=
  match o with
  | None => Ret (Err (ErrText (rm_create_nil (more_messages k))), c)
  | Some o =>
    request c (Sprintf (cm_create (messages k)) [Name (meta k o); kc_namespace c])
      (λ cs, fn (kc_create c) (λ f, f cs o (kc_namespace c)))
  end.

Definition Get (c : Kubeclient k) (name : string) : prog (result (obj k) * Kubeclient k) :=
  if name =? "" then Ret (Err (ErrText (cm_get_missing (messages k))), c) else
  request c (Sprintf (cm_get (messages k)) [name; kc_namespace c])
    (λ cs, fn (kc_get c) (λ f, f cs name (kc_namespace c))).

Definition GetRaw `{!JsonMarshal} (c : Kubeclient k) (name : string)
    : prog (result string * Kubeclient k) :=
  if name =? "" then Ret (Err (ErrText (rm_raw_missing (more_messages k))), c) else
  '(r, c) ← Get c name;
  Ret (match r with
       | Err err => Err (ErrWrap err (Sprintf (cm_get (messages k)) [name; kc_namespace c]))
       | Ok o => json_marshal k o
       end, c).

Definition List_ (c : Kubeclient k) (opts : ListOptions) : prog (result (list (obj k)) * Kubeclient k) :=
  request c (Sprintf (cm_list (messages k)) [kc_namespace c])
    (λ cs, fn (kc_list c) (λ f, f cs (kc_namespace c) opts)).

Definition Delete (c : Kubeclient k) (name : string) : prog (result unit * Kubeclient k) :=
  if name =? "" then Ret (Err (ErrText (cm_delete_missing (messages k))), c) else
  request c (Sprintf (cm_delete (messages k)) [name; kc_namespace c])
    (λ cs, fn (kc_del c) (λ f, f cs name (kc_namespace c))).

Definition Update (c : Kubeclient k) (o : option (obj k)) : prog (result (obj k) * Kubeclient k) :=
  match o with
  | None => Ret (Err (ErrText (rm_update_nil (more_messages k))), c)
  | Some o =>
    request c (Sprintf (cm_update (messages k)) [Name (meta k o); Namespace (meta k o)])
      (λ cs, fn (kc_update c) (λ f, f cs o (kc_namespace c)))
  end.
End clients.
Arguments KubeclientBuildOption : clear implicits.

(** ** The packages

    Each package has the client for its kind; the code is the same text with the type of
    the objects and the messages exchanged. *)

(** [snapbuilder] *)
Definition snap_Kubeclient := Kubeclient KSnap.
Definition snap_createFn := createFn KSnap.
Definition snap_getFn := getFn KSnap.
Definition snap_listFn := listFn KSnap.
Definition snap_delFn := delFn.
Definition snap_updateFn := updateFn KSnap.
Definition snap_defaultGetClientset : getClientsetFn := defaultGetClientset.
Definition snap_defaultGetClientsetForPath : getClientsetForPathFn := defaultGetClientsetForPath.
Definition snap_WithClientSet : option unit → KubeclientBuildOption KSnap := client_WithClientSet.
Definition snap_client_WithNamespace : string → KubeclientBuildOption KSnap := client_WithNamespace.
Definition snap_Kubeclient_WithNamespace : string → snap_Kubeclient → snap_Kubeclient :=
  Kubeclient_WithNamespace.
Definition snap_WithKubeConfigPath : string → KubeclientBuildOption KSnap := client_WithKubeConfigPath.
Definition snap_defaultGet : unit → string → string → prog ZFSSnapshot := defaultGet (k := KSnap).
Definition snap_defaultList : unit → string → ListOptions → prog (list ZFSSnapshot) := defaultList (k := KSnap).
Definition snap_defaultDel : unit → string → string → prog unit := defaultDel (k := KSnap).
Definition snap_defaultCreate : unit → ZFSSnapshot → string → prog ZFSSnapshot := defaultCreate (k := KSnap).
Definition snap_defaultUpdate : unit → ZFSSnapshot → string → prog ZFSSnapshot := defaultUpdate (k := KSnap).
Definition snap_withDefaults : snap_Kubeclient → snap_Kubeclient := withDefaults.
Definition snap_NewKubeclient : list (KubeclientBuildOption KSnap) → snap_Kubeclient := NewKubeclient.
Definition snap_getClientsetForPathOrDirect : snap_Kubeclient → prog unit :=
  getClientsetForPathOrDirect.
Definition snap_getClientOrCached : snap_Kubeclient → prog (result unit * snap_Kubeclient) :=
  getClientOrCached.
Definition snap_Create : snap_Kubeclient → option ZFSSnapshot → prog (result ZFSSnapshot * snap_Kubeclient) :=
  Create (k := KSnap).
Definition snap_Get : snap_Kubeclient → string → prog (result ZFSSnapshot * snap_Kubeclient) :=
  Get (k := KSnap).
Definition snap_GetRaw `{!JsonMarshal} : snap_Kubeclient → string → prog (result string * snap_Kubeclient) :=
  GetRaw.
Definition snap_List : snap_Kubeclient → ListOptions → prog (result (list ZFSSnapshot) * snap_Kubeclient) :=
  List_ (k := KSnap).
Definition snap_Delete : snap_Kubeclient → string → prog (result unit * snap_Kubeclient) := Delete.
Definition snap_Update : snap_Kubeclient → option ZFSSnapshot → prog (result ZFSSnapshot * snap_Kubeclient) :=
  Update (k := KSnap).

(** [bkpbuilder] *)
Definition bkp_Kubeclient := Kubeclient KBkp.
Definition bkp_createFn := createFn KBkp.
Definition bkp_getFn := getFn KBkp.
Definition bkp_listFn := listFn KBkp.
Definition bkp_delFn := delFn.
Definition bkp_updateFn := updateFn KBkp.
Definition bkp_defaultGetClientset : getClientsetFn := defaultGetClientset.
Definition bkp_defaultGetClientsetForPath : getClientsetForPathFn := defaultGetClientsetForPath.
Definition bkp_WithClientSet : option unit → KubeclientBuildOption KBkp := client_WithClientSet.
Definition bkp_client_WithNamespace : string → KubeclientBuildOption KBkp := client_WithNamespace.
Definition bkp_Kubeclient_WithNamespace : string → bkp_Kubeclient → bkp_Kubeclient :=
  Kubeclient_WithNamespace.
Definition bkp_WithKubeConfigPath : string → KubeclientBuildOption KBkp := client_WithKubeConfigPath.
Definition bkp_defaultGet : unit → string → string → prog ZFSBackup := defaultGet (k := KBkp).
Definition bkp_defaultList : unit → string → ListOptions → prog (list ZFSBackup) := defaultList (k := KBkp).
Definition bkp_defaultDel : unit → string → string → prog unit := defaultDel (k := KBkp).
Definition bkp_defaultCreate : unit → ZFSBackup → string → prog ZFSBackup := defaultCreate (k := KBkp).
Definition bkp_defaultUpdate : unit → ZFSBackup → string → prog ZFSBackup := defaultUpdate (k := KBkp).
Definition bkp_withDefaults : bkp_Kubeclient → bkp_Kubeclient := withDefaults.
Definition bkp_NewKubeclient : list (KubeclientBuildOption KBkp) → bkp_Kubeclient := NewKubeclient.
Definition bkp_getClientsetForPathOrDirect : bkp_Kubeclient → prog unit :=
  getClientsetForPathOrDirect.
Definition bkp_getClientOrCached : bkp_Kubeclient → prog (result unit * bkp_Kubeclient) :=
  getClientOrCached.
Definition bkp_Create : bkp_Kubeclient → option ZFSBackup → prog (result ZFSBackup * bkp_Kubeclient) :=
  Create (k := KBkp).
Definition bkp_Get : bkp_Kubeclient → string → prog (result ZFSBackup * bkp_Kubeclient) :=
  Get (k := KBkp).
Definition bkp_GetRaw `{!JsonMarshal} : bkp_Kubeclient → string → prog (result string * bkp_Kubeclient) :=
  GetRaw.
Definition bkp_List : bkp_Kubeclient → ListOptions → prog (result (list ZFSBackup) * bkp_Kubeclient) :=
  List_ (k := KBkp).
Definition bkp_Delete : bkp_Kubeclient → string → prog (result unit * bkp_Kubeclient) := Delete.
Definition bkp_Update : bkp_Kubeclient → option ZFSBackup → prog (result ZFSBackup * bkp_Kubeclient) :=
  Update (k := KBkp).

(** [restorebuilder] *)
Definition rstr_Kubeclient := Kubeclient KRstr.
Definition rstr_createFn := createFn KRstr.
Definition rstr_getFn := getFn KRstr.
Definition rstr_listFn := listFn KRstr.
Definition rstr_delFn := delFn.
Definition rstr_updateFn := updateFn KRstr.
Definition rstr_defaultGetClientset : getClientsetFn := defaultGetClientset.
Definition rstr_defaultGetClientsetForPath : getClientsetForPathFn := defaultGetClientsetForPath.
Definition rstr_WithClientSet : option unit → KubeclientBuildOption KRstr := client_WithClientSet.
Definition rstr_client_WithNamespace : string → KubeclientBuildOption KRstr := client_WithNamespace.
Definition rstr_Kubeclient_WithNamespace : string → rstr_Kubeclient → rstr_Kubeclient :=
  Kubeclient_WithNamespace.
Definition rstr_WithKubeConfigPath : string → KubeclientBuildOption KRstr := client_WithKubeConfigPath.
Definition rstr_defaultGet : unit → string → string → prog ZFSRestore := defaultGet (k := KRstr).
Definition rstr_defaultList : unit → string → ListOptions → prog (list ZFSRestore) := defaultList (k := KRstr).
Definition rstr_defaultDel : unit → string → string → prog unit := defaultDel (k := KRstr).
Definition rstr_defaultCreate : unit → ZFSRestore → string → prog ZFSRestore := defaultCreate (k := KRstr).
Definition rstr_defaultUpdate : unit → ZFSRestore → string → prog ZFSRestore := defaultUpdate (k := KRstr).
Definition rstr_withDefaults : rstr_Kubeclient → rstr_Kubeclient := withDefaults.
Definition rstr_NewKubeclient : list (KubeclientBuildOption KRstr) → rstr_Kubeclient := NewKubeclient.
Definition rstr_getClientsetForPathOrDirect : rstr_Kubeclient → prog unit :=
  getClientsetForPathOrDirect.
Definition rstr_getClientOrCached : rstr_Kubeclient → prog (result unit * rstr_Kubeclient) :=
  getClientOrCached.
Definition rstr_Create : rstr_Kubeclient → option ZFSRestore → prog (result ZFSRestore * rstr_Kubeclient) :=
  Create (k := KRstr).
Definition rstr_Get : rstr_Kubeclient → string → prog (result ZFSRestore * rstr_Kubeclient) :=
  Get (k := KRstr).
Definition rstr_GetRaw `{!JsonMarshal} : rstr_Kubeclient → string → prog (result string * rstr_Kubeclient) :=
  GetRaw.
Definition rstr_List : rstr_Kubeclient → ListOptions → prog (result (list ZFSRestore) * rstr_Kubeclient) :=
  List_ (k := KRstr).
Definition rstr_Delete : rstr_Kubeclient → string → prog (result unit * rstr_Kubeclient) := Delete.
Definition rstr_Update : rstr_Kubeclient → option ZFSRestore → prog (result ZFSRestore * rstr_Kubeclient) :=
  Update (k := KRstr).

(** [nodebuilder] *)
Definition node_Kubeclient := Kubeclient KNode.
Definition node_createFn := createFn KNode.
Definition node_getFn := getFn KNode.
Definition node_listFn := listFn KNode.
Definition node_delFn := delFn.
Definition node_updateFn := updateFn KNode.
Definition node_defaultGetClientset : getClientsetFn := defaultGetClientset.
Definition node_defaultGetClientsetForPath : getClientsetForPathFn := defaultGetClientsetForPath.
Definition node_WithClientSet : option unit → KubeclientBuildOption KNode := client_WithClientSet.
Definition node_client_WithNamespace : string → KubeclientBuildOption KNode := client_WithNamespace.
Definition node_Kubeclient_WithNamespace : string → node_Kubeclient → node_Kubeclient :=
  Kubeclient_WithNamespace.
Definition node_WithKubeConfigPath : string → KubeclientBuildOption KNode := client_WithKubeConfigPath.
Definition node_defaultGet : unit → string → string → prog ZFSNode := defaultGet (k := KNode).
Definition node_defaultList : unit → string → ListOptions → prog (list ZFSNode) := defaultList (k := KNode).
Definition node_defaultDel : unit → string → string → prog unit := defaultDel (k := KNode).
Definition node_defaultCreate : unit → ZFSNode → string → prog ZFSNode := defaultCreate (k := KNode).
Definition node_defaultUpdate : unit → ZFSNode → string → prog ZFSNode := defaultUpdate (k := KNode).
Definition node_withDefaults : node_Kubeclient → node_Kubeclient := withDefaults.
Definition node_NewKubeclient : list (KubeclientBuildOption KNode) → node_Kubeclient := NewKubeclient.
Definition node_getClientsetForPathOrDirect : node_Kubeclient → prog unit :=
  getClientsetForPathOrDirect.
Definition node_getClientOrCached : node_Kubeclient → prog (result unit * node_Kubeclient) :=
  getClientOrCached.
Definition node_Create : node_Kubeclient → option ZFSNode → prog (result ZFSNode * node_Kubeclient) :=
  Create (k := KNode).
Definition node_Get : node_Kubeclient → string → prog (result ZFSNode * node_Kubeclient) :=
  Get (k := KNode).
Definition node_GetRaw `{!JsonMarshal} : node_Kubeclient → string → prog (result string * node_Kubeclient) :=
  GetRaw.
Definition node_List : node_Kubeclient → ListOptions → prog (result (list ZFSNode) * node_Kubeclient) :=
  List_ (k := KNode).
Definition node_Delete : node_Kubeclient → string → prog (result unit * node_Kubeclient) := Delete.
Definition node_Update : node_Kubeclient → option ZFSNode → prog (result ZFSNode * node_Kubeclient) :=
  Update (k := KNode).

(** ** The client of one request *)

(** The outcome of an operation, when the client is not used again. *)
Definition once {k A} (p : prog (result A * Kubeclient k)) : prog A :=
  '(r, _) ← p; lift r.

(** The client the driver makes for a request. *)
Definition client_for (k : kind) (ns : string) : Kubeclient k :=
  Kubeclient_WithNamespace ns (NewKubeclient []).

(** The functions of a client are the default ones. *)
Definition defaulted {k} (c : Kubeclient k) : Prop :=
  kc_getClientset c = Some defaultGetClientset ∧ kc_kubeConfigPath c = "" ∧
  kc_get c = Some defaultGet ∧ kc_list c = Some defaultList ∧ kc_del c = Some (defaultDel (k := k)) ∧
  kc_create c = Some defaultCreate ∧ kc_update c = Some defaultUpdate.

Lemma request_once {k A} (c : Kubeclient k) msg (f : unit → prog A) :
  defaulted c → kc_clientset c = None →
  once (request c msg f) ≡
  (_ ← map_err (λ err, ErrWrap err msg) Kube.getClientOrCached; f tt).
Proof.
  intros (Hg & Hp & _) Hc. unfold once, request, getClientOrCached, getClientsetForPathOrDirect.
  rewrite Hc, Hp. cbn. rewrite Hg. cbn.
  apply Vis_equiv. intros [[]|e]; cbn; [|done].
  intros S E Q s. rewrite wp_bind. change (prog_bind ?g ?p) with (p ≫= g).
  rewrite wp_bind, wp_attempt.
  split; apply wp_mono; by intros [a|e|m|] s'.
Qed.

Lemma client_for_defaulted k ns : defaulted (client_for k ns).
Proof. by repeat split. Qed.

(** A client made for one request does what the operations of [Kube] say: it
    rejects an empty name, obtains a clientset and issues the one request, in the
    namespace it was given, with the messages of its kind. *)
Theorem client_operations k ns :
  (∀ name, once (Get (client_for k ns) name) ≡ Kubeclient_Get k ns name) ∧
  (∀ opts, once (List_ (client_for k ns) opts) ≡ Kubeclient_List k ns opts) ∧
  (∀ o, once (Create (client_for k ns) (Some o)) ≡ Kubeclient_Create k ns o) ∧
  (∀ o, once (Update (client_for k ns) (Some o)) ≡ Kubeclient_Update k ns o) ∧
  (∀ name, once (Delete (client_for k ns) name) ≡ Kubeclient_Delete k ns name).
Proof.
  pose proof (client_for_defaulted k ns) as Hd.
  split_and!; intros x; unfold Get, List_, Create, Update, Delete,
    Kubeclient_Get, Kubeclient_Delete; try case_match; try done;
    by apply (request_once (client_for k ns)).
Qed.

(** A client that has its clientset issues the request and nothing else, and one that
    obtained it keeps it. *)
Lemma client_cached {k A} (c : Kubeclient k) msg (f : unit → prog A) :
  kc_clientset c = Some tt → request c msg f = (r ← attempt (f tt); Ret (r, c)).
Proof. intros Hc. unfold request, getClientOrCached. by rewrite Hc. Qed.

Lemma client_keeps {S} (E : Env S) {k A} (c : Kubeclient k) msg (f : unit → prog A) s :
  kc_clientset c = None →
  wp E (request c msg f)
    (λ o _, ∀ r c', o = ORet (r, c') →
            c' = c {{ kc_clientset := Some tt }} ∨ (c' = c ∧ ∃ e, r = Err e)) s.
Proof.
  intros Hc. unfold request, getClientOrCached. rewrite Hc.
  apply wp_bind, wp_bind, wp_attempt.
  eapply wp_mono; [|apply (wp_invariant E (λ _, True)); done].
  intros [[]|e|m|] s1 _; simpl; try done.
  - apply wp_bind, wp_attempt.
    eapply wp_mono; [|apply (wp_invariant E (λ _, True)); done].
    intros [a|e|m|] s2 _; simpl; try done; intros r c' [= _ <-]; by left.
  - intros r c' [= <- <-]. right. eauto.
Qed.
