(* ===== verification/Builders.v ===== *)
(** * Object builders (pkg/builder/*/build.go)

    A builder holds the object under construction and the errors met so far; it
    ends in [Build], which fails when there is any error.  Its methods change the
    object in place and return the builder: here they are functions from builder
    to builder, chained with [b .> WithName name .> ...]. *)

From S2P Require Import Prelude GoStr GoErr Api Csi Effects Kube ZfsArgs.

(** The text of [errors.Errorf("%+v", errs)], by lib-csi's errors package. *)
Class ErrorsFmt := errors_text : list error → string.

Notation "b .> f" := (f b) (at level 40, left associativity, only parsing).

Definition MarkForDeletionAnnotation := "openebs.io/marked-for-deletion".

(** ** Volumes *)

Record Builder := mkBuilder { b_volume : ZFSVolume; b_errs : list error }.

Definition NewBuilder : Builder := mkBuilder emptyVolume [].

Definition BuildFrom (volume : option ZFSVolume) : Builder :=
  match volume with
  | None => mkBuilder emptyVolume [ErrText "failed to build volume object: nil volume"]
  | Some v => mkBuilder v []
  end.

(** Append to the errors; assign to the spec, the metadata. *)
Definition b_fail (e : error) (b : Builder) : Builder := b {{ b_errs := b_errs b ++ [e] }}.

Definition b_spec (f : VolumeInfo → VolumeInfo) (b : Builder) : Builder :=
  b {{ b_volume := (b_volume b) {{ vol_Spec := f (vol_Spec (b_volume b)) }} }}.

Definition b_meta (f : ObjectMeta → ObjectMeta) (b : Builder) : Builder :=
  b {{ b_volume := (b_volume b) {{ vol_Meta := f (vol_Meta (b_volume b)) }} }}.

Definition WithNamespace (namespace : string) (b : Builder) : Builder :=
  if namespace =? "" then
    b .> b_fail (ErrText "failed to build zfs volume object: missing namespace")
  else b .> b_meta (λ m, m {{ Namespace := namespace }}).

Definition WithName (name : string) (b : Builder) : Builder :=
  if name =? "" then b .> b_fail (ErrText "failed to build zfs volume object: missing name")
  else b .> b_meta (λ m, m {{ Name := name }}).

Definition WithCapacity (capacity : string) (b : Builder) : Builder :=
  if capacity =? "" then
    b .> b_fail (ErrText "failed to build zfs volume object: missing capacity")
  else b .> b_spec (λ s, s {{ Capacity := capacity }}).

Definition WithEncryption (encr : string) : Builder → Builder :=
  b_spec (λ s, s {{ Encryption := encr }}).

Definition WithKeyLocation (kl : string) : Builder → Builder :=
  b_spec (λ s, s {{ KeyLocation := kl }}).

Definition WithKeyFormat (kf : string) : Builder → Builder :=
  b_spec (λ s, s {{ KeyFormat := kf }}).

Definition WithCompression (compression : string) : Builder → Builder :=
  b_spec (λ s, s {{ Compression := compression }}).

Definition WithDedup (dedup : string) : Builder → Builder :=
  b_spec (λ s, s {{ Dedup := dedup }}).

Definition WithATime (atime : string) : Builder → Builder :=
  b_spec (λ s, s {{ ATime := atime }}).

Definition WithLogBias (logbias : string) : Builder → Builder :=
  b_spec (λ s, s {{ LogBias := logbias }}).

Definition WithThinProv (thinprov : string) : Builder → Builder :=
  b_spec (λ s, s {{ ThinProvision := thinprov }}).

Definition WithOwnerNodeID (nodeid : string) : Builder → Builder :=
  b_spec (λ s, s {{ OwnerNodeID := nodeid }}).

Definition WithRecordSize (rs : string) : Builder → Builder :=
  b_spec (λ s, s {{ RecordSize := rs }}).

Definition WithVolBlockSize (bs : string) : Builder → Builder :=
  b_spec (λ s, s {{ VolBlockSize := bs }}).

Definition WithAnnotation (b : Builder) : Builder :=
  b .> b_meta (λ m, m {{ Annotations := <[MarkForDeletionAnnotation := "true"]> (Annotations m) }}).

Definition WithVolumeType (vtype : string) : Builder → Builder :=
  b_spec (λ s, s {{ VolumeType := vtype }}).

Definition WithVolumeStatus (status : string) (b : Builder) : Builder :=
  b {{ b_volume := (b_volume b) {{ vol_State := status }} }}.

Definition WithFsType (fstype : string) : Builder → Builder :=
  b_spec (λ s, s {{ FsType := fstype }}).

Definition WithQuotaType (quotatype : string) : Builder → Builder :=
  b_spec (λ s, s {{ QuotaType := if quotatype =? "" then "quota" else quotatype }}).

Definition WithShared (shared : string) : Builder → Builder :=
  b_spec (λ s, s {{ Shared := shared }}).

Definition WithSnapshot (snap : string) : Builder → Builder :=
  b_spec (λ s, s {{ SnapName := snap }}).

Definition WithPoolName (pool : string) (b : Builder) : Builder :=
  if pool =? "" then b .> b_fail (ErrText "failed to build zfs volume object: missing pool name")
  else b .> b_spec (λ s, s {{ PoolName := pool }}).

Definition WithNodeName (name : string) (b : Builder) : Builder :=
  if name =? "" then b .> b_fail (ErrText "failed to build zfs volume object: missing node name")
  else b .> b_spec (λ s, s {{ OwnerNodeID := name }}).

(** Entries of [labels] replace those of the object; with no labels there is
    nothing to do. *)
Definition WithLabels (labels : smap) : Builder → Builder :=
  b_meta (λ m, m {{ Labels := labels ∪ Labels m }}).

Definition WithFinalizer (finalizer : list string) : Builder → Builder :=
  b_meta (λ m, m {{ Finalizers := Finalizers m ++ finalizer }}).

Definition set_user_prop (name value : string) : Builder → Builder :=
  b_spec (λ s, s {{ UserProperties := <[name := value]> (UserProperties s) }}).

(** One iteration of the loop of [WithUserProperties]. *)
Definition with_user_prop (b : Builder) (p : string * string) : Builder :=
  let '(name, value) := p in
  match ValidateUserProperty name value with
  | Some err =>
    b .> b_fail (ErrWrap err "failed to build zfs volume object: invalid user property")
  | None =>
    if HasPrefix name "openebs.io:" then
      b .> b_fail (Errorf "failed to build zfs volume object: user property '%s' is reserved" [name])
    else b .> set_user_prop name value
  end.

Definition WithUserProperties `{GoRange} (props : smap) (b : Builder) : Builder :=
  fold_left with_user_prop (range props) b.

(** The property is set even when it is invalid. *)
Definition WithReservedUserProp (name value : string) (b : Builder) : Builder :=
  let b := match ValidateUserProperty name value with
           | Some err =>
             b .> b_fail (ErrWrap err "failed to build zfs volume object: invalid user property")
           | None => b
           end in
  b .> set_user_prop name value.

Definition WithPVCName (pvc : string) : Builder → Builder :=
  WithReservedUserProp "openebs.io:pvc-name" pvc.

Definition WithPVCNamespace (pvc : string) : Builder → Builder :=
  WithReservedUserProp "openebs.io:pvc-namespace" pvc.

Definition WithPVName (pvc : string) : Builder → Builder :=
  WithReservedUserProp "openebs.io:pv-name" pvc.

Definition Build `{ErrorsFmt} (b : Builder) : result ZFSVolume :=
  match b_errs b with
  | [] => Ok (b_volume b)
  | errs => Err (ErrText (errors_text errs))
  end.

(** ** Snapshots *)

Record SnapBuilder := mkSnapBuilder { sb_snap : ZFSSnapshot; sb_errs : list error }.

Definition snap_NewBuilder : SnapBuilder := mkSnapBuilder emptySnapshot [].

Definition snap_BuildFrom (snap : option ZFSSnapshot) : SnapBuilder :=
  match snap with
  | None => mkSnapBuilder emptySnapshot [ErrText "failed to build snap object: nil snap"]
  | Some s => mkSnapBuilder s []
  end.

Definition sb_fail (e : error) (b : SnapBuilder) : SnapBuilder :=
  b {{ sb_errs := sb_errs b ++ [e] }}.

Definition sb_meta (f : ObjectMeta → ObjectMeta) (b : SnapBuilder) : SnapBuilder :=
  b {{ sb_snap := (sb_snap b) {{ snap_Meta := f (snap_Meta (sb_snap b)) }} }}.

Definition sb_spec (f : VolumeInfo → VolumeInfo) (b : SnapBuilder) : SnapBuilder :=
  b {{ sb_snap := (sb_snap b) {{ snap_Spec := f (snap_Spec (sb_snap b)) }} }}.

Definition snap_WithNamespace (namespace : string) (b : SnapBuilder) : SnapBuilder :=
  if namespace =? "" then
    b .> sb_fail (ErrText "failed to build csi snap object: missing namespace")
  else b .> sb_meta (λ m, m {{ Namespace := namespace }}).

Definition snap_WithName (name : string) (b : SnapBuilder) : SnapBuilder :=
  if name =? "" then b .> sb_fail (ErrText "failed to build csi snap object: missing name")
  else b .> sb_meta (λ m, m {{ Name := name }}).

Definition snap_WithLabels (labels : smap) : SnapBuilder → SnapBuilder :=
  sb_meta (λ m, m {{ Labels := labels ∪ Labels m }}).

Definition snap_WithFinalizer (finalizer : list string) : SnapBuilder → SnapBuilder :=
  sb_meta (λ m, m {{ Finalizers := Finalizers m ++ finalizer }}).

Definition snap_WithReservedUserProp (name value : string) (b : SnapBuilder) : SnapBuilder :=
  let b := match ValidateUserProperty name value with
           | Some err =>
             b .> sb_fail (ErrWrap err "failed to build zfs snapshot object: invalid user property")
           | None => b
           end in
  b .> sb_spec (λ s, s {{ UserProperties := <[name := value]> (UserProperties s) }}).

Definition WithVSName (pvc : string) : SnapBuilder → SnapBuilder :=
  snap_WithReservedUserProp "openebs.io:vs-name" pvc.

Definition WithVSNamespace (pvc : string) : SnapBuilder → SnapBuilder :=
  snap_WithReservedUserProp "openebs.io:vs-namespace" pvc.

Definition WithVSCName (pvc : string) : SnapBuilder → SnapBuilder :=
  snap_WithReservedUserProp "openebs.io:vsc-name" pvc.

Definition snap_Build `{ErrorsFmt} (b : SnapBuilder) : result ZFSSnapshot :=
  match sb_errs b with
  | [] => Ok (sb_snap b)
  | errs => Err (ErrText (errors_text errs))
  end.

Definition snap_set_user_prop (name value : string) : SnapBuilder → SnapBuilder :=
  sb_spec (λ s, s {{ UserProperties := <[name := value]> (UserProperties s) }}).

(** One iteration of the loop of the snapshot builder's [WithUserProperties]. *)
Definition snap_with_user_prop (b : SnapBuilder) (p : string * string) : SnapBuilder :=
  let '(name, value) := p in
  match ValidateUserProperty name value with
  | Some err =>
    b .> sb_fail (ErrWrap err "failed to build zfs snapshot object: invalid user property")
  | None =>
    if HasPrefix name "openebs.io:" then
      b .> sb_fail (Errorf "failed to build zfs snapshot object: user property '%s' is reserved" [name])
    else b .> snap_set_user_prop name value
  end.

Definition snap_WithUserProperties `{GoRange} (props : smap) (b : SnapBuilder) : SnapBuilder :=
  fold_left snap_with_user_prop (range props) b.

(** ** Backups *)

Definition emptyBackup : ZFSBackup :=
  mkZFSBackup emptyMeta (mkZFSBackupSpec "" "" "" "" "") BKPZFSStatusUnset.

Record BkpBuilder := mkBkpBuilder { bb_bkp : ZFSBackup; bb_errs : list error }.

Definition bkp_NewBuilder : BkpBuilder := mkBkpBuilder emptyBackup [].

Definition bkp_BuildFrom (bkp : option ZFSBackup) : BkpBuilder :=
  match bkp with
  | None => mkBkpBuilder emptyBackup [ErrText "failed to build bkp object: nil bkp"]
  | Some o => mkBkpBuilder o []
  end.

Definition bb_fail (e : error) (b : BkpBuilder) : BkpBuilder :=
  b {{ bb_errs := bb_errs b ++ [e] }}.

Definition bb_meta (f : ObjectMeta → ObjectMeta) (b : BkpBuilder) : BkpBuilder :=
  b {{ bb_bkp := (bb_bkp b) {{ bkp_Meta := f (bkp_Meta (bb_bkp b)) }} }}.

Definition bb_spec (f : ZFSBackupSpec → ZFSBackupSpec) (b : BkpBuilder) : BkpBuilder :=
  b {{ bb_bkp := (bb_bkp b) {{ bkp_Spec := f (bkp_Spec (bb_bkp b)) }} }}.

Definition bkp_WithNamespace (namespace : string) (b : BkpBuilder) : BkpBuilder :=
  if namespace =? "" then
    b .> bb_fail (ErrText "failed to build csi bkp object: missing namespace")
  else b .> bb_meta (λ m, m {{ Namespace := namespace }}).

Definition bkp_WithName (name : string) (b : BkpBuilder) : BkpBuilder :=
  if name =? "" then b .> bb_fail (ErrText "failed to build csi bkp object: missing name")
  else b .> bb_meta (λ m, m {{ Name := name }}).

Definition bkp_WithPrevSnap (snap : string) : BkpBuilder → BkpBuilder :=
  bb_spec (λ s, s {{ bkp_PrevSnapName := snap }}).

Definition bkp_WithSnap (snap : string) : BkpBuilder → BkpBuilder :=
  bb_spec (λ s, s {{ bkp_SnapName := snap }}).

Definition bkp_WithVolume (volume : string) (b : BkpBuilder) : BkpBuilder :=
  if volume =? "" then
    b .> bb_fail (ErrText "failed to build csi bkp object: missing volume name")
  else b .> bb_spec (λ s, s {{ bkp_VolumeName := volume }}).

Definition bkp_WithNode (node : string) (b : BkpBuilder) : BkpBuilder :=
  if node =? "" then b .> bb_fail (ErrText "failed to build bkp object: missing node id")
  else b .> bb_spec (λ s, s {{ bkp_OwnerNodeID := node }}).

Definition bkp_WithStatus (status : ZFSBackupStatus) (b : BkpBuilder) : BkpBuilder :=
  if bool_decide (status = BKPZFSStatusUnset) then
    b .> bb_fail (ErrText "failed to build bkp object: missing snap name")
  else b {{ bb_bkp := (bb_bkp b) {{ bkp_Status := status }} }}.

Definition bkp_WithRemote (server : string) (b : BkpBuilder) : BkpBuilder :=
  if server =? "" then b .> bb_fail (ErrText "failed to build bkp object: missing remote")
  else b .> bb_spec (λ s, s {{ bkp_BackupDest := server }}).

Definition bkp_WithLabels (labels : smap) : BkpBuilder → BkpBuilder :=
  bb_meta (λ m, m {{ Labels := labels ∪ Labels m }}).

Definition bkp_WithFinalizer (finalizer : list string) : BkpBuilder → BkpBuilder :=
  bb_meta (λ m, m {{ Finalizers := Finalizers m ++ finalizer }}).

Definition bkp_Build `{ErrorsFmt} (b : BkpBuilder) : result ZFSBackup :=
  match bb_errs b with
  | [] => Ok (bb_bkp b)
  | errs => Err (ErrText (errors_text errs))
  end.

(** ** Restores *)

Definition emptyRestore : ZFSRestore :=
  mkZFSRestore emptyMeta (mkZFSRestoreSpec "" "" "") emptyInfo RSTZFSStatusUnset.

Record RestoreBuilder := mkRestoreBuilder { rb_rstr : ZFSRestore; rb_errs : list error }.

Definition rstr_NewBuilder : RestoreBuilder := mkRestoreBuilder emptyRestore [].

Definition rstr_BuildFrom (rstr : option ZFSRestore) : RestoreBuilder :=
  match rstr with
  | None => mkRestoreBuilder emptyRestore [ErrText "failed to build rstr object: nil rstr"]
  | Some o => mkRestoreBuilder o []
  end.

Definition rb_fail (e : error) (b : RestoreBuilder) : RestoreBuilder :=
  b {{ rb_errs := rb_errs b ++ [e] }}.

Definition rb_meta (f : ObjectMeta → ObjectMeta) (b : RestoreBuilder) : RestoreBuilder :=
  b {{ rb_rstr := (rb_rstr b) {{ rstr_Meta := f (rstr_Meta (rb_rstr b)) }} }}.

Definition rb_spec (f : ZFSRestoreSpec → ZFSRestoreSpec) (b : RestoreBuilder) : RestoreBuilder :=
  b {{ rb_rstr := (rb_rstr b) {{ rstr_Spec := f (rstr_Spec (rb_rstr b)) }} }}.

Definition rstr_WithNamespace (namespace : string) (b : RestoreBuilder) : RestoreBuilder :=
  if namespace =? "" then
    b .> rb_fail (ErrText "failed to build csi rstr object: missing namespace")
  else b .> rb_meta (λ m, m {{ Namespace := namespace }}).

Definition rstr_WithName (name : string) (b : RestoreBuilder) : RestoreBuilder :=
  if name =? "" then b .> rb_fail (ErrText "failed to build csi rstr object: missing name")
  else b .> rb_meta (λ m, m {{ Name := name }}).

Definition rstr_WithVolume (name : string) (b : RestoreBuilder) : RestoreBuilder :=
  if name =? "" then
    b .> rb_fail (ErrText "failed to build csi rstr object: missing volume name")
  else b .> rb_spec (λ s, s {{ rstr_VolumeName := name }}).

Definition rstr_WithVolSpec (vspec : VolumeInfo) (b : RestoreBuilder) : RestoreBuilder :=
  b {{ rb_rstr := (rb_rstr b) {{ rstr_VolSpec := vspec }} }}.

Definition rstr_WithNode (node : string) (b : RestoreBuilder) : RestoreBuilder :=
  if node =? "" then b .> rb_fail (ErrText "failed to build csi rstr object: missing node name")
  else b .> rb_spec (λ s, s {{ rstr_OwnerNodeID := node }}).

Definition rstr_WithStatus (status : ZFSRestoreStatus) (b : RestoreBuilder) : RestoreBuilder :=
  b {{ rb_rstr := (rb_rstr b) {{ rstr_Status := status }} }}.

Definition rstr_WithRemote (server : string) (b : RestoreBuilder) : RestoreBuilder :=
  if server =? "" then b .> rb_fail (ErrText "failed to build csi rstr object: missing node name")
  else b .> rb_spec (λ s, s {{ rstr_RestoreSrc := server }}).

Definition rstr_WithLabels (labels : smap) : RestoreBuilder → RestoreBuilder :=
  rb_meta (λ m, m {{ Labels := labels ∪ Labels m }}).

Definition rstr_WithFinalizer (finalizer : list string) : RestoreBuilder → RestoreBuilder :=
  rb_meta (λ m, m {{ Finalizers := Finalizers m ++ finalizer }}).

Definition rstr_Build `{ErrorsFmt} (b : RestoreBuilder) : result ZFSRestore :=
  match rb_errs b with
  | [] => Ok (rb_rstr b)
  | errs => Err (ErrText (errors_text errs))
  end.

(** ** Nodes *)

Record NodeBuilder := mkNodeBuilder { nb_node : ZFSNode; nb_errs : list error }.

Definition emptyNode : ZFSNode := mkZFSNode emptyMeta [].

Definition node_NewBuilder : NodeBuilder := mkNodeBuilder emptyNode [].

Definition node_BuildFrom (node : option ZFSNode) : NodeBuilder :=
  match node with
  | None => mkNodeBuilder emptyNode [ErrText "failed to build zfs node object: nil node"]
  | Some n => mkNodeBuilder n []
  end.

Definition nb_fail (e : error) (b : NodeBuilder) : NodeBuilder :=
  b {{ nb_errs := nb_errs b ++ [e] }}.

Definition nb_meta (f : ObjectMeta → ObjectMeta) (b : NodeBuilder) : NodeBuilder :=
  b {{ nb_node := (nb_node b) {{ node_Meta := f (node_Meta (nb_node b)) }} }}.

Definition node_WithNamespace (namespace : string) (b : NodeBuilder) : NodeBuilder :=
  if namespace =? "" then
    b .> nb_fail (ErrText "failed to build zfs node object: missing namespace")
  else b .> nb_meta (λ m, m {{ Namespace := namespace }}).

Definition node_WithName (name : string) (b : NodeBuilder) : NodeBuilder :=
  if name =? "" then b .> nb_fail (ErrText "failed to build zfs node object: missing name")
  else b .> nb_meta (λ m, m {{ Name := name }}).

Definition node_WithPools (pools : list Pool) (b : NodeBuilder) : NodeBuilder :=
  b {{ nb_node := (nb_node b) {{ node_Pools := pools }} }}.

Definition node_WithOwnerReferences (ownerRefs : list OwnerReference) : NodeBuilder → NodeBuilder :=
  nb_meta (λ m, m {{ OwnerReferences := ownerRefs }}).

Definition node_Build `{ErrorsFmt} (b : NodeBuilder) : result ZFSNode :=
  match nb_errs b with
  | [] => Ok (nb_node b)
  | errs => Err (ErrText (errors_text errs))
  end.

(** ** Properties *)

Lemma Build_ok `{ErrorsFmt} b vol : Build b = Ok vol ↔ b_errs b = [] ∧ b_volume b = vol.
Proof. unfold Build. destruct (b_errs b); naive_solver. Qed.

Lemma snap_Build_ok `{ErrorsFmt} b snap :
  snap_Build b = Ok snap ↔ sb_errs b = [] ∧ sb_snap b = snap.
Proof. unfold snap_Build. destruct (sb_errs b); naive_solver. Qed.

(** The invariant that makes a built object acceptable to the node agent: as
    long as no error was recorded, every user property is valid and reserved. *)
Definition props_reserved (props : smap) : Prop :=
  map_Forall (λ n x, userprop_valid n x ∧ HasPrefix n "openebs.io:" = true) props.

Lemma props_reserved_insert name value props :
  ValidateUserProperty name value = None → HasPrefix name "openebs.io:" = true →
  props_reserved props → props_reserved (<[name := value]> props).
Proof.
  intros Hv Hp Hm. apply map_Forall_insert_2; [|done].
  split; [by apply ValidateUserProperty_ok|done].
Qed.

Definition b_ok (b : Builder) : Prop :=
  b_errs b = [] → props_reserved (UserProperties (vol_Spec (b_volume b))).

Lemma WithReservedUserProp_ok name value b :
  HasPrefix name "openebs.io:" = true → b_ok b → b_ok (WithReservedUserProp name value b).
Proof.
  intros Hp Hb. unfold WithReservedUserProp, b_ok.
  destruct (ValidateUserProperty name value) eqn:Hv; simpl.
  - intros Hn. by destruct (b_errs b).
  - intros Hn. apply props_reserved_insert; auto.
Qed.

(** A property that [WithUserProperties] accepts is one the agent rejects. *)
Lemma with_user_prop_rejected b name value :
  b_errs b = [] → b_errs (with_user_prop b (name, value)) = [] →
  let spec := vol_Spec (b_volume (with_user_prop b (name, value))) in
  UserProperties spec !! name = Some value ∧ ¬ props_reserved (UserProperties spec).
Proof.
  intros Hb. unfold with_user_prop.
  destruct (ValidateUserProperty name value) eqn:Hv; simpl;
    [by rewrite Hb|]. destruct (HasPrefix name "openebs.io:") eqn:Hp; simpl; [by rewrite Hb|].
  intros _. unfold set_user_prop, b_spec. simpl. split; [by rewrite lookup_insert_eq|].
  intros Hr. specialize (Hr name value (lookup_insert_eq _ _ _)) as [_ Hr]. congruence.
Qed.
