(* ===== verification/BuildersSpec.v ===== *)
(** * What the builder of volumes guarantees

    The calls of the builder as data, so that the theorem is about every sequence of
    them: an object is built exactly when every call got valid arguments, and is then
    well formed. *)

From S2P Require Import Prelude GoStr GoErr Api Csi Effects Builders.

Inductive vol_call :=
| CallNamespace (x : string) | CallName (x : string) | CallCapacity (x : string)
| CallPoolName (x : string) | CallNodeName (x : string)
| CallEncryption (x : string) | CallKeyLocation (x : string) | CallKeyFormat (x : string)
| CallCompression (x : string) | CallDedup (x : string) | CallATime (x : string)
| CallLogBias (x : string) | CallThinProv (x : string) | CallOwnerNodeID (x : string)
| CallRecordSize (x : string) | CallVolBlockSize (x : string) | CallVolumeType (x : string)
| CallFsType (x : string) | CallQuotaType (x : string) | CallShared (x : string)
| CallSnapshot (x : string) | CallVolumeStatus (x : string) | CallAnnotation
| CallLabels (m : smap) | CallFinalizer (l : list string)
| CallPVCName (x : string) | CallPVCNamespace (x : string) | CallPVName (x : string)
| CallUserProperties (m : smap).

Section builder.
Context `{!GoRange} `{!ErrorsFmt}.

Definition call_on (b : Builder) (c : vol_call) : Builder :=
  match c with
  | CallNamespace x => WithNamespace x b | CallName x => WithName x b
  | CallCapacity x => WithCapacity x b | CallPoolName x => WithPoolName x b
  | CallNodeName x => WithNodeName x b | CallEncryption x => WithEncryption x b
  | CallKeyLocation x => WithKeyLocation x b | CallKeyFormat x => WithKeyFormat x b
  | CallCompression x => WithCompression x b | CallDedup x => WithDedup x b
  | CallATime x => WithATime x b | CallLogBias x => WithLogBias x b
  | CallThinProv x => WithThinProv x b | CallOwnerNodeID x => WithOwnerNodeID x b
  | CallRecordSize x => WithRecordSize x b | CallVolBlockSize x => WithVolBlockSize x b
  | CallVolumeType x => WithVolumeType x b | CallFsType x => WithFsType x b
  | CallQuotaType x => WithQuotaType x b | CallShared x => WithShared x b
  | CallSnapshot x => WithSnapshot x b | CallVolumeStatus x => WithVolumeStatus x b
  | CallAnnotation => WithAnnotation b | CallLabels m => WithLabels m b
  | CallFinalizer l => WithFinalizer l b | CallPVCName x => WithPVCName x b
  | CallPVCNamespace x => WithPVCNamespace x b | CallPVName x => WithPVName x b
  | CallUserProperties m => WithUserProperties m b
  end.

(** The arguments a call accepts. *)
Definition valid_call (c : vol_call) : Prop :=
  match c with
  | CallNamespace x | CallName x | CallCapacity x | CallPoolName x | CallNodeName x => x ≠ ""
  | CallPVCName x => userprop_valid "openebs.io:pvc-name" x
  | CallPVCNamespace x => userprop_valid "openebs.io:pvc-namespace" x
  | CallPVName x => userprop_valid "openebs.io:pv-name" x
  | CallUserProperties m =>
    map_Forall (λ n v, userprop_valid n v ∧ HasPrefix n "openebs.io:" = false) m
  | _ => True
  end.

(** A volume that was built by these calls. *)
Definition wf_volume (calls : list vol_call) (v : ZFSVolume) : Prop :=
  map_Forall userprop_valid (UserProperties (vol_Spec v)) ∧
  ((∃ x, CallName x ∈ calls) → Name (vol_Meta v) ≠ "") ∧
  ((∃ x, CallNamespace x ∈ calls) → Namespace (vol_Meta v) ≠ "") ∧
  ((∃ x, CallCapacity x ∈ calls) → Capacity (vol_Spec v) ≠ "") ∧
  ((∃ x, CallPoolName x ∈ calls) → PoolName (vol_Spec v) ≠ "") ∧
  ((∃ x, CallQuotaType x ∈ calls) → QuotaType (vol_Spec v) ≠ "").

(** Errors stay, and an invalid argument adds one. *)
Lemma errs_app (es : list error) e : es ++ [e] = [] ↔ False.
Proof. by destruct es. Qed.

Lemma reserved_errs name value b :
  b_errs (WithReservedUserProp name value b) = [] ↔ b_errs b = [] ∧ userprop_valid name value.
Proof.
  unfold WithReservedUserProp. rewrite <- ValidateUserProperty_ok.
  destruct (ValidateUserProperty name value); simpl; [rewrite errs_app|]; naive_solver.
Qed.

Lemma with_user_prop_errs b p :
  b_errs (with_user_prop b p) = [] ↔
  b_errs b = [] ∧ userprop_valid p.1 p.2 ∧ HasPrefix p.1 "openebs.io:" = false.
Proof.
  destruct p as [n v]. unfold with_user_prop. rewrite <- ValidateUserProperty_ok. simpl.
  destruct (ValidateUserProperty n v); simpl; [rewrite errs_app; naive_solver|].
  destruct (HasPrefix n _); simpl; [rewrite errs_app|]; naive_solver.
Qed.

Lemma user_props_errs l b :
  b_errs (fold_left with_user_prop l b) = [] ↔
  b_errs b = [] ∧ Forall (λ p, userprop_valid p.1 p.2 ∧ HasPrefix p.1 "openebs.io:" = false) l.
Proof.
  revert b. induction l as [|p l IH]; intros b; simpl.
  - split; [|naive_solver]. intros Hb. by split.
  - rewrite IH, with_user_prop_errs, Forall_cons. naive_solver.
Qed.

Lemma call_errs b c : b_errs (call_on b c) = [] ↔ b_errs b = [] ∧ valid_call c.
Proof.
  destruct c; simpl; try naive_solver;
    try (unfold WithNamespace, WithName, WithCapacity, WithPoolName, WithNodeName;
         destruct (String.eqb_spec x ""); simpl; [rewrite errs_app|]; naive_solver);
    try apply reserved_errs.
  unfold WithUserProperties. rewrite user_props_errs, (range_perm m), map_Forall_to_list.
  apply and_iff_compat_l, Forall_iff. by intros [].
Qed.

Lemma calls_errs calls b :
  b_errs (foldl call_on b calls) = [] ↔ b_errs b = [] ∧ Forall valid_call calls.
Proof.
  revert b. induction calls as [|c calls IH]; intros b; simpl.
  - split; [|naive_solver]. intros Hb. by split.
  - rewrite IH, call_errs, Forall_cons. naive_solver.
Qed.

(** What [wf_volume] reads of a volume beside its user properties. *)
Definition fields (v : ZFSVolume) : list string :=
  [Name (vol_Meta v); Namespace (vol_Meta v); Capacity (vol_Spec v); PoolName (vol_Spec v);
   QuotaType (vol_Spec v)].

Lemma user_prop_step b p :
  userprop_valid p.1 p.2 → HasPrefix p.1 "openebs.io:" = false →
  fields (b_volume (with_user_prop b p)) = fields (b_volume b) ∧
  (map_Forall userprop_valid (UserProperties (vol_Spec (b_volume b))) →
   map_Forall userprop_valid (UserProperties (vol_Spec (b_volume (with_user_prop b p))))).
Proof.
  destruct p as [n v]. simpl. intros Hv%ValidateUserProperty_ok Hp. unfold with_user_prop.
  rewrite Hv, Hp. split; [done|]. intros Hm. apply map_Forall_insert_2; [|done].
  by apply ValidateUserProperty_ok.
Qed.

Lemma user_props_step l b :
  Forall (λ p, userprop_valid p.1 p.2 ∧ HasPrefix p.1 "openebs.io:" = false) l →
  let b' := fold_left with_user_prop l b in
  fields (b_volume b') = fields (b_volume b) ∧
  (map_Forall userprop_valid (UserProperties (vol_Spec (b_volume b))) →
   map_Forall userprop_valid (UserProperties (vol_Spec (b_volume b')))).
Proof.
  intros Hl. revert b. induction Hl as [|p l [Hv Hp] _ IH]; intros b; simpl; [done|].
  destruct (user_prop_step b p Hv Hp) as [Hf Hu], (IH (with_user_prop b p)) as [Hf' Hu'].
  split; [congruence|auto].
Qed.

(** A call that leaves the fields alone, and is none of those that set them. *)
Lemma wf_frame calls c v v' :
  wf_volume calls v → fields v' = fields v →
  map_Forall userprop_valid (UserProperties (vol_Spec v')) →
  (∀ x, c ≠ CallName x ∧ c ≠ CallNamespace x ∧ c ≠ CallCapacity x ∧ c ≠ CallPoolName x ∧
        c ≠ CallQuotaType x) →
  wf_volume (calls ++ [c]) v'.
Proof.
  intros (_ & H1 & H2 & H3 & H4 & H5) Hf Hu Hc. unfold wf_volume.
  injection Hf as E1 E2 E3 E4 E5. rewrite E1, E2, E3, E4, E5.
  assert (∀ d, d ∈ calls ++ [c] → d ≠ c → d ∈ calls) as Hin.
  { intros d [?|Hd%list_elem_of_singleton]%elem_of_app Hne; done. }
  split_and!; [done|intros [x Hx]; specialize (Hc x) as (? & ? & ? & ? & ?)..];
    [apply H1|apply H2|apply H3|apply H4|apply H5]; exists x; apply Hin; congruence.
Qed.

Lemma wf_reserved calls c name value b :
  userprop_valid name value → wf_volume calls (b_volume b) →
  (∀ x, c ≠ CallName x ∧ c ≠ CallNamespace x ∧ c ≠ CallCapacity x ∧ c ≠ CallPoolName x ∧
        c ≠ CallQuotaType x) →
  wf_volume (calls ++ [c]) (b_volume (WithReservedUserProp name value b)).
Proof.
  intros Hv Hw Hc. unfold WithReservedUserProp.
  rewrite (proj2 (ValidateUserProperty_ok name value) Hv). eapply wf_frame; try done.
  apply map_Forall_insert_2; [done|apply Hw].
Qed.

Lemma wf_user_props calls m b :
  valid_call (CallUserProperties m) → wf_volume calls (b_volume b) →
  wf_volume (calls ++ [CallUserProperties m]) (b_volume (WithUserProperties m b)).
Proof.
  intros Hv Hw. destruct (user_props_step (range m) b) as [Hf Hu].
  - rewrite (range_perm m). simpl in Hv. rewrite map_Forall_to_list in Hv.
    eapply Forall_impl; [exact Hv|]. by intros [].
  - eapply wf_frame; [done|done| |done]. apply Hu, Hw.
Qed.

(** Every call keeps a volume well formed. *)
Lemma call_wf calls b c :
  valid_call c → wf_volume calls (b_volume b) →
  wf_volume (calls ++ [c]) (b_volume (call_on b c)).
Proof.
  intros Hv Hw. destruct c; simpl in *;
    try (by apply wf_reserved); try (by apply wf_user_props);
    try (eapply wf_frame; [exact Hw|done|apply Hw|done]).
  all: destruct Hw as (Hu & H1 & H2 & H3 & H4 & H5).
  all: unfold WithNamespace, WithName, WithCapacity, WithPoolName, WithNodeName, WithQuotaType;
    rewrite ?(proj2 (String.eqb_neq x "") Hv).
  all: split_and!; simpl; try done.
  all: try (intros [y Hy]; apply elem_of_app in Hy as [Hy|Hy%list_elem_of_singleton]; simplify_eq; eauto).
  all: by destruct (String.eqb_spec x "").
Qed.

Lemma calls_wf calls0 calls b :
  Forall valid_call calls → wf_volume calls0 (b_volume b) →
  wf_volume (calls0 ++ calls) (b_volume (foldl call_on b calls)).
Proof.
  intros Hc. revert calls0 b. induction Hc as [|c calls Hv _ IH]; intros calls0 b Hw; simpl.
  - by rewrite app_nil_r.
  - replace (calls0 ++ c :: calls) with ((calls0 ++ [c]) ++ calls) by (by rewrite <- (assoc_L (++))).
    apply IH. by apply call_wf.
Qed.

(** C32: whatever sequence of calls a builder gets, it builds a volume exactly when every
    call had valid arguments, and that volume is well formed: its user properties are
    properties zfs accepts, and the name, namespace, capacity, pool and quota type that
    were set are not empty. *)
Theorem builder_well_formed calls :
  match Build (foldl call_on NewBuilder calls) with
  | Ok vol => Forall valid_call calls ∧ wf_volume calls vol
  | Err _ => ¬ Forall valid_call calls
  end.
Proof.
  destruct (Build (foldl call_on NewBuilder calls)) as [vol|e] eqn:Hb.
  - apply Build_ok in Hb as [He <-]. apply calls_errs in He as [_ Hc]. split; [done|].
    apply (calls_wf [] calls NewBuilder Hc).
    split; [apply map_Forall_empty|]. by split_and!; intros [x Hx%elem_of_nil].
  - intros Hc. assert (b_errs (foldl call_on NewBuilder calls) = []) as He by (by apply calls_errs).
    unfold Build in Hb. by rewrite He in Hb.
Qed.
End builder.
