(* ===== verification/Lists.v ===== *)
(** * Lists of resources and predicates on them (pkg/builder/*/buildlist.go and volume.go, snapshot.go, backup.go, restore.go)

    Four packages have the same helpers for their kind of resource: a wrapper of the
    object, predicates on it, and a builder of filtered lists.  A predicate that reads
    the labels of a nil object panics, which is [None] here. *)

From S2P Require Import Prelude GoStr GoErr Api Csi Effects Kube.

Section lists.
Context {k : kind} `{!GoRange}.

(** The wrapper holds a pointer: [None] is nil. *)
Record wrapped := mkWrapped { Object : option (obj k) }.

Definition wrap (o : option (obj k)) : wrapped := mkWrapped o.

Definition GetAPIObject (o : wrapped) : option (obj k) := Object o.

(** ** Predicates *)

Definition Predicate := wrapped → option bool.

Definition obj_IsNil (o : wrapped) : bool := bool_decide (Object o = None).

Definition IsNil : Predicate := λ o, Some (obj_IsNil o).

Definition obj_HasLabel (key value : string) (o : wrapped) : option bool :=
  match Object o with
  | None => None
  | Some o => Some (match Labels (meta k o) !! key with
                    | Some val => val =? value
                    | None => false
                    end)
  end.

Definition HasLabel (key value : string) : Predicate := obj_HasLabel key value.

Fixpoint has_labels (l : list (string * string)) : Predicate := λ o,
  match l with
  | [] => Some true
  | (key, value) :: l =>
    match obj_HasLabel key value o with
    | Some true => has_labels l o
    | r => r
    end
  end.

(** The labels are visited in the order of the map's iteration. *)
Definition HasLabels (keyValuePair : smap) : Predicate := has_labels (range keyValuePair).

(** [predicateList.all] *)
Fixpoint pred_all (l : list Predicate) (o : wrapped) : option bool :=
  match l with
  | [] => Some true
  | pred :: l =>
    match pred o with
    | Some true => pred_all l o
    | r => r
    end
  end.

(** ** List builder *)

Record ListBuilder := mkListBuilder {
  lb_list : list (obj k);
  lb_filters : list Predicate;
}.

Definition list_Len (l : list (obj k)) : Z := Z.of_nat (length l).

Definition NewListBuilder : ListBuilder := mkListBuilder [] [].

Definition ListBuilderFrom (items : list (obj k)) : ListBuilder :=
  if (length items =? 0)%nat then mkListBuilder [] []
  else mkListBuilder ([] ++ items) [].

Definition WithFilter (pred : list Predicate) (b : ListBuilder) : ListBuilder :=
  mkListBuilder (lb_list b) (lb_filters b ++ pred).

Fixpoint filter_items (filters : list Predicate) (items filtered : list (obj k))
    : option (list (obj k)) :=
  match items with
  | [] => Some filtered
  | o :: items =>
    match pred_all filters (wrap (Some o)) with
    | None => None
    | Some true => filter_items filters items (filtered ++ [o])
    | Some false => filter_items filters items filtered
    end
  end.

Definition ListBuilder_List (b : ListBuilder) : option (list (obj k)) :=
  if (length (lb_filters b) =? 0)%nat then Some (lb_list b)
  else filter_items (lb_filters b) (lb_list b) [].
End lists.
Arguments wrapped : clear implicits.
Arguments Predicate : clear implicits.
Arguments ListBuilder : clear implicits.

(** ** The packages *)

(** [snapbuilder] *)
Definition snap_wrapped := wrapped KSnap.
Definition snap_Predicate := Predicate KSnap.
Definition snap_ListBuilder := ListBuilder KSnap.
Definition snap_GetAPIObject : wrapped KSnap → option ZFSSnapshot := GetAPIObject (k := KSnap).
Definition snap_obj_IsNil : wrapped KSnap → bool := obj_IsNil.
Definition snap_Len : list ZFSSnapshot → Z := list_Len (k := KSnap).
Definition snap_NewListBuilder : ListBuilder KSnap := NewListBuilder.
Definition snap_From : option ZFSSnapshot → wrapped KSnap := wrap (k := KSnap).
Definition snap_HasLabel_of : string → string → wrapped KSnap → option bool := obj_HasLabel.
Definition snap_HasLabel : string → string → Predicate KSnap := HasLabel.
Definition snap_HasLabels `{!GoRange} : smap → Predicate KSnap := HasLabels.
Definition snap_IsNil : Predicate KSnap := IsNil.
Definition snap_all : list (Predicate KSnap) → wrapped KSnap → option bool := pred_all.
Definition snap_ListBuilderFrom : list ZFSSnapshot → ListBuilder KSnap := ListBuilderFrom (k := KSnap).
Definition snap_WithFilter : list (Predicate KSnap) → ListBuilder KSnap → ListBuilder KSnap := WithFilter.
Definition snap_List_of : ListBuilder KSnap → option (list ZFSSnapshot) := ListBuilder_List (k := KSnap).

(** [bkpbuilder] *)
Definition bkp_wrapped := wrapped KBkp.
Definition bkp_Predicate := Predicate KBkp.
Definition bkp_ListBuilder := ListBuilder KBkp.
Definition bkp_GetAPIObject : wrapped KBkp → option ZFSBackup := GetAPIObject (k := KBkp).
Definition bkp_obj_IsNil : wrapped KBkp → bool := obj_IsNil.
Definition bkp_Len : list ZFSBackup → Z := list_Len (k := KBkp).
Definition bkp_NewListBuilder : ListBuilder KBkp := NewListBuilder.
Definition bkp_From : option ZFSBackup → wrapped KBkp := wrap (k := KBkp).
Definition bkp_HasLabel_of : string → string → wrapped KBkp → option bool := obj_HasLabel.
Definition bkp_HasLabel : string → string → Predicate KBkp := HasLabel.
Definition bkp_HasLabels `{!GoRange} : smap → Predicate KBkp := HasLabels.
Definition bkp_IsNil : Predicate KBkp := IsNil.
Definition bkp_all : list (Predicate KBkp) → wrapped KBkp → option bool := pred_all.
Definition bkp_ListBuilderFrom : list ZFSBackup → ListBuilder KBkp := ListBuilderFrom (k := KBkp).
Definition bkp_WithFilter : list (Predicate KBkp) → ListBuilder KBkp → ListBuilder KBkp := WithFilter.
Definition bkp_List_of : ListBuilder KBkp → option (list ZFSBackup) := ListBuilder_List (k := KBkp).

(** [restorebuilder] *)
Definition rstr_wrapped := wrapped KRstr.
Definition rstr_Predicate := Predicate KRstr.
Definition rstr_ListBuilder := ListBuilder KRstr.
Definition rstr_GetAPIObject : wrapped KRstr → option ZFSRestore := GetAPIObject (k := KRstr).
Definition rstr_obj_IsNil : wrapped KRstr → bool := obj_IsNil.
Definition rstr_Len : list ZFSRestore → Z := list_Len (k := KRstr).
Definition rstr_NewListBuilder : ListBuilder KRstr := NewListBuilder.
Definition rstr_From : option ZFSRestore → wrapped KRstr := wrap (k := KRstr).
Definition rstr_HasLabel_of : string → string → wrapped KRstr → option bool := obj_HasLabel.
Definition rstr_HasLabel : string → string → Predicate KRstr := HasLabel.
Definition rstr_HasLabels `{!GoRange} : smap → Predicate KRstr := HasLabels.
Definition rstr_IsNil : Predicate KRstr := IsNil.
Definition rstr_all : list (Predicate KRstr) → wrapped KRstr → option bool := pred_all.
Definition rstr_ListBuilderFrom : list ZFSRestore → ListBuilder KRstr := ListBuilderFrom (k := KRstr).
Definition rstr_WithFilter : list (Predicate KRstr) → ListBuilder KRstr → ListBuilder KRstr := WithFilter.
Definition rstr_List_of : ListBuilder KRstr → option (list ZFSRestore) := ListBuilder_List (k := KRstr).

(** [nodebuilder] has the wrapper only. *)
Definition node_wrapped := wrapped KNode.
Definition node_From : option ZFSNode → wrapped KNode := wrap (k := KNode).

(** ** Filtering *)

Section filtering.
Context {k : kind} `{!GoRange}.
Implicit Types (o : obj k) (items : list (obj k)).

Lemma obj_HasLabel_true key value o :
  obj_HasLabel key value (wrap (Some o)) = Some (bool_decide (Labels (meta k o) !! key = Some value)).
Proof.
  unfold obj_HasLabel. simpl. destruct (Labels (meta k o) !! key) as [v|] eqn:E.
  - f_equal. destruct (String.eqb_spec v value) as [->|Hn]; symmetry.
    + by apply bool_decide_true.
    + apply bool_decide_false. congruence.
  - by rewrite bool_decide_false.
Qed.

Lemma has_labels_spec l o :
  has_labels l (wrap (Some o)) =
  Some (bool_decide (Forall (λ kv, Labels (meta k o) !! kv.1 = Some kv.2) l)).
Proof.
  induction l as [|[key value] l IH]; [done|]. cbn [has_labels fst snd]. rewrite obj_HasLabel_true, IH.
  destruct (decide (Labels (meta k o) !! key = Some value)) as [Hl|Hl].
  - rewrite bool_decide_true by done. f_equal. apply bool_decide_ext.
    rewrite Forall_cons. naive_solver.
  - rewrite (bool_decide_false (_ = _)) by done. f_equal. symmetry. apply bool_decide_false.
    rewrite Forall_cons. naive_solver.
Qed.

(** The order of the iteration does not matter. *)
Lemma HasLabels_spec m o :
  HasLabels m (wrap (Some o)) = Some (bool_decide (m ⊆ Labels (meta k o))).
Proof.
  unfold HasLabels. rewrite has_labels_spec. f_equal. apply bool_decide_ext.
  rewrite Forall_forall, map_subseteq_spec. split.
  - intros Hl i x Hi. apply (Hl (i, x)). rewrite range_perm. by apply elem_of_map_to_list.
  - intros Hl [i x] Hi. rewrite range_perm in Hi. apply elem_of_map_to_list in Hi. by apply Hl.
Qed.

Lemma pred_all_labels (ms : list smap) o :
  pred_all (map HasLabels ms) (wrap (Some o)) =
  Some (bool_decide (Forall (λ m, m ⊆ Labels (meta k o)) ms)).
Proof.
  induction ms as [|m ms IH]; [done|]. cbn [map pred_all]. rewrite HasLabels_spec, IH.
  destruct (decide (m ⊆ Labels (meta k o))) as [Hl|Hl].
  - rewrite bool_decide_true by done. f_equal. apply bool_decide_ext.
    rewrite Forall_cons. naive_solver.
  - rewrite (bool_decide_false (_ ⊆ _)) by done. f_equal. symmetry. apply bool_decide_false.
    rewrite Forall_cons. naive_solver.
Qed.

Lemma filter_items_spec filters (f : obj k → bool) items done_ :
  (∀ o, o ∈ items → pred_all filters (wrap (Some o)) = Some (f o)) →
  filter_items filters items done_ = Some (done_ ++ List.filter f items).
Proof.
  revert done_. induction items as [|o items IH]; intros done_ Hf; simpl; [by rewrite app_nil_r|].
  rewrite Hf by (by left). destruct (f o); rewrite IH by (intros; apply Hf; by right); [|done].
  by rewrite <- (assoc_L (++)).
Qed.

(** A list built with sets of labels as filters has the items that carry all of them,
    in their order, whatever the order in which the maps are visited; it never
    panics. *)
Theorem labelled_items items (ms : list smap) :
  ListBuilder_List (foldl (λ b m, WithFilter [HasLabels m] b) (ListBuilderFrom items) ms) =
  Some (List.filter (λ o, bool_decide (Forall (λ m, m ⊆ Labels (meta k o)) ms)) items).
Proof.
  assert (∀ b, foldl (λ b m, WithFilter [HasLabels m] b) b ms =
               mkListBuilder (lb_list b) (lb_filters b ++ map HasLabels ms)) as ->.
  { induction ms as [|m ms IH]; intros b; simpl; [by rewrite app_nil_r; destruct b|].
    rewrite IH. simpl. by rewrite <- (assoc_L (++)). }
  assert (ListBuilderFrom items = mkListBuilder items []) as ->
    by (unfold ListBuilderFrom; by destruct items).
  unfold ListBuilder_List. cbn [lb_list lb_filters app]. rewrite length_map.
  destruct ms as [|m ms]; simpl length; cbn [Nat.eqb].
  - f_equal. induction items as [|o items IH]; [done|]. cbn [List.filter].
    rewrite bool_decide_true by constructor. by f_equal.
  - rewrite (filter_items_spec _ (λ o, bool_decide (Forall (λ m, m ⊆ Labels (meta k o)) (m :: ms))));
      [done|]. intros o _. apply (pred_all_labels (m :: ms)).
Qed.
End filtering.
