(* ===== verification/Responses.v ===== *)
(** * Builders of the responses (pkg/response)

    The controller service assembles its answers with a builder per message; a builder
    is the message so far. *)

From S2P Require Import Prelude GoStr GoErr Api Csi Effects Builders.

(** ** CreateVolume *)

Record CreateVolumeResponseBuilder := mkCreateVolumeResponseBuilder {
  cvb_response : CreateVolumeResponse;
}.

Definition NewCreateVolumeResponseBuilder : CreateVolumeResponseBuilder :=
  mkCreateVolumeResponseBuilder (mkCreateVolumeResponse "" 0 [] ∅ None).

Definition cvb_WithName (name : string) (b : CreateVolumeResponseBuilder) :=
  b {{ cvb_response := (cvb_response b) {{ cvr_VolumeId := name }} }}.

Definition cvb_WithCapacity (capacity : Z) (b : CreateVolumeResponseBuilder) :=
  b {{ cvb_response := (cvb_response b) {{ cvr_CapacityBytes := capacity }} }}.

Definition cvb_WithContext (ctx : smap) (b : CreateVolumeResponseBuilder) :=
  b {{ cvb_response := (cvb_response b) {{ cvr_VolumeContext := ctx }} }}.

Definition cvb_WithContentSource (cnt : option ContentSource) (b : CreateVolumeResponseBuilder) :=
  b {{ cvb_response := (cvb_response b) {{ cvr_ContentSource := cnt }} }}.

Definition cvb_WithTopology (topology : smap) (b : CreateVolumeResponseBuilder) :=
  b {{ cvb_response := (cvb_response b) {{ cvr_AccessibleTopology := [topology] }} }}.

Definition cvb_Build (b : CreateVolumeResponseBuilder) : CreateVolumeResponse := cvb_response b.

(** ** ControllerExpandVolume *)

Record ControllerExpandVolumeResponseBuilder := mkExpandResponseBuilder {
  evb_response : ExpandVolumeResponse;
}.

Definition NewControllerExpandVolumeResponseBuilder : ControllerExpandVolumeResponseBuilder :=
  mkExpandResponseBuilder (mkExpandVolumeResponse 0 false).

Definition evb_WithCapacityBytes (capacity : Z) (b : ControllerExpandVolumeResponseBuilder) :=
  b {{ evb_response := (evb_response b) {{ evr_CapacityBytes := capacity }} }}.

Definition evb_WithNodeExpansionRequired (required : bool)
    (b : ControllerExpandVolumeResponseBuilder) :=
  b {{ evb_response := (evb_response b) {{ evr_NodeExpansionRequired := required }} }}.

Definition evb_Build (b : ControllerExpandVolumeResponseBuilder) : ExpandVolumeResponse :=
  evb_response b.

(** ** CreateSnapshot *)

Record CreateSnapshotResponseBuilder := mkSnapshotResponseBuilder {
  csb_response : CreateSnapshotResponse;
}.

Definition NewCreateSnapshotResponseBuilder : CreateSnapshotResponseBuilder :=
  mkSnapshotResponseBuilder (mkCreateSnapshotResponse "" "" 0 None false).

Definition csb_WithSize (size : Z) (b : CreateSnapshotResponseBuilder) :=
  b {{ csb_response := (csb_response b) {{ csr_SizeBytes := size }} }}.

Definition csb_WithSnapshotID (snapshotID : string) (b : CreateSnapshotResponseBuilder) :=
  b {{ csb_response := (csb_response b) {{ csr_SnapshotId := snapshotID }} }}.

Definition csb_WithSourceVolumeID (volumeID : string) (b : CreateSnapshotResponseBuilder) :=
  b {{ csb_response := (csb_response b) {{ csr_SourceVolumeId := volumeID }} }}.

(** The nanoseconds are cut to 32 bits. *)
Definition csb_WithCreationTime (tsec tnsec : Z) (b : CreateSnapshotResponseBuilder) :=
  b {{ csb_response := (csb_response b) {{ csr_CreationTime := Some (tsec, wrap32 tnsec) }} }}.

Definition csb_WithReadyToUse (readyToUse : bool) (b : CreateSnapshotResponseBuilder) :=
  b {{ csb_response := (csb_response b) {{ csr_ReadyToUse := readyToUse }} }}.

Definition csb_Build (b : CreateSnapshotResponseBuilder) : CreateSnapshotResponse := csb_response b.

(** ** DeleteVolume and DeleteSnapshot

    The messages have no fields. *)

Record DeleteVolumeResponse := mkDeleteVolumeResponse {}.
Record DeleteVolumeResponseBuilder := mkDeleteVolumeResponseBuilder {
  dvb_response : DeleteVolumeResponse;
}.

Definition NewDeleteVolumeResponseBuilder : DeleteVolumeResponseBuilder :=
  mkDeleteVolumeResponseBuilder mkDeleteVolumeResponse.

Definition dvb_Build (b : DeleteVolumeResponseBuilder) : DeleteVolumeResponse := dvb_response b.

Record DeleteSnapshotResponse := mkDeleteSnapshotResponse {}.
Record DeleteSnapshotResponseBuilder := mkDeleteSnapshotResponseBuilder {
  dsb_response : DeleteSnapshotResponse;
}.

Definition NewDeleteSnapshotResponseBuilder : DeleteSnapshotResponseBuilder :=
  mkDeleteSnapshotResponseBuilder mkDeleteSnapshotResponse.

Definition dsb_Build (b : DeleteSnapshotResponseBuilder) : DeleteSnapshotResponse := dsb_response b.
