(* ===== verification/VolumeOps.v ===== *)
(** * Operations on the custom resources (pkg/zfs/volume.go, pkg/zfs/events.go)

    What the controller and the node agent do to the custom resources through the
    API server: provisioning with its wait loop, status and finalizer updates, the
    deletion mark, and the predicates on volumes. *)

From S2P Require Import Prelude GoStr GoErr Api Csi Effects Kube ZfsArgs Builders.

(** ** Start-up *)

Definition OpenEBSNamespaceKey := "OPENEBS_NAMESPACE".
Definition GoogleAnalyticsKey := "OPENEBS_IO_ENABLE_ANALYTICS".
Definition ZFSBackupGCEnabledKey := "OPENEBS_IO_ENABLE_BACKUP_GC".

(** The labels of the node object are read through lib-csi's k8sapi. *)
Definition GetNodeID (nodename : string) : prog string :=
  r ← call (CGetK8sNode nodename);
  match r with
  | Err err =>
    Throw (ErrW (Sprintf "failed to get the node %s: %w" [nodename; Error err]) err)
  | Ok labels =>
    match labels !! ZFSTopologyKey with
    | None => Ret nodename
    | Some nodeid => Ret nodeid
    end
  end.

(** [init], which fills in the variables of the package; a fatal error ends the
    process. *)
Definition init : prog Globals :=
  namespace ← call (CGetenv OpenEBSNamespaceKey);
  nodeDriver ← call (CGetenv "OPENEBS_NODE_DRIVER");
  nodeID ←
    (if negb (nodeDriver =? "") then
       if (namespace : string) =? "" then
         Crash "OPENEBS_NAMESPACE environment variable not set for daemonset" else
       nodename ← call (CGetenv "OPENEBS_NODE_NAME");
       if nodename =? "" then Crash "OPENEBS_NODE_NAME environment variable not set" else
       r ← attempt (GetNodeID nodename);
       match r with
       | Err err => Crash (Sprintf "GetNodeID failed for node=%s err: %s" [nodename; Error err])
       | Ok id => Ret id
       end
     else
       controllerDriver ← call (CGetenv "OPENEBS_CONTROLLER_DRIVER");
       if negb (controllerDriver =? "") && (namespace =? "") then
         Crash "OPENEBS_NAMESPACE environment variable not set for controller"
       else Ret "");
  analytics ← call (CGetenv GoogleAnalyticsKey);
  gc ← call (CGetenv ZFSBackupGCEnabledKey);
  Ret {| OpenEBSNamespace := namespace; NodeID := nodeID;
         GoogleAnalyticsEnabled := analytics; ZFSBackupGCEnabled := gc =? "true" |}.

Section volume_ops.
Context `{!Globals} `{!ErrorsFmt}.

(** ** Getting and deleting *)

Definition GetZFSVolume (volumeID : string) : prog ZFSVolume :=
  Kubeclient_Get KVol OpenEBSNamespace volumeID.

Definition GetZFSSnapshot (snapID : string) : prog ZFSSnapshot :=
  Kubeclient_Get KSnap OpenEBSNamespace snapID.

(** The node name and the state. *)
Definition GetZFSVolumeState (volID : string) : prog (string * string) :=
  vol ← Kubeclient_Get KVol OpenEBSNamespace volID;
  Ret (OwnerNodeID (vol_Spec vol), vol_State vol).

(** The error arm logs [snap.Name]: the pointer is nil when the client failed
    before the request, and an object of the server's otherwise. *)
Definition GetZFSSnapshotStatus (snapID : string) : prog string :=
  if snapID =? "" then Crash "nil pointer dereference" else
  c ← attempt getClientOrCached;
  match c with
  | Err _ => Crash "nil pointer dereference"
  | Ok _ =>
    r ← call (CGet KSnap OpenEBSNamespace snapID);
    match r with
    | Err err => Throw err
    | Ok snap => Ret (snap_State snap)
    end
  end.

Definition GetVolList : prog (list ZFSVolume) :=
  Kubeclient_List KVol OpenEBSNamespace (ZFSNodeKey +:+ "=" +:+ NodeID).

Definition GetSnapshotForVolume (volumeID : string) : prog (list ZFSSnapshot) :=
  Kubeclient_List KSnap OpenEBSNamespace (ZFSVolKey +:+ "=" +:+ volumeID).

Definition DeleteSnapshot (snapname : string) : prog unit :=
  Kubeclient_Delete KSnap OpenEBSNamespace snapname.

Definition DeleteVolume (volumeID : string) : prog unit :=
  Kubeclient_Delete KVol OpenEBSNamespace volumeID.

(** ** Provisioning *)

(** The body of the wait loop; [timeout] is the deadline of the timer.  The flag
    of the result says that the wait was cut short. *)
Fixpoint checkVolCreation_loop (fuel : nat) (timeout : Z) (volname : string)
    : prog (bool * option error) :=
  match fuel with
  | O => Spin
  | S fuel =>
    sel ← call (CSelect timeout);
    match sel with
    | SelCtx =>
      Ret (true, Some (StatusErrorf DeadlineExceeded
                         "volume %s creation: context deadline reached" [volname]))
    | SelTimer =>
      Ret (true, Some (StatusErrorf DeadlineExceeded "volume %s creation timed out" [volname]))
    | SelDefault =>
      r ← attempt (GetZFSVolume volname);
      match r with
      | Err err =>
        Ret (false, Some (StatusErrorf Internal
               "volume creation wait failed, not able to get the volume %s: %s"
               [volname; Error err]))
      | Ok vol =>
        if vol_State vol =? ZFSStatusReady then Ret (false, None)
        else if vol_State vol =? ZFSStatusFailed then
          Ret (false, Some (StatusErrorf Internal "volume %s creation failed on node %s"
                              [volname; OwnerNodeID (vol_Spec vol)]))
        else
          _ ← call (CSleep 1);
          checkVolCreation_loop fuel timeout volname
      end
    end
  end.

Definition checkVolCreation (fuel : nat) (volname : string) : prog (bool * option error) :=
  timeout ← call (CNewTimer 10);
  checkVolCreation_loop fuel timeout volname.

(** The [(bool, error)] pair of the source. *)
Definition ProvisionVolume (fuel : nat) (vol : ZFSVolume) : prog (bool * option error) :=
  zv ← attempt (GetZFSVolume (Name (vol_Meta vol)));
  r ← attempt (match zv with
               | Ok zv =>
                 Kubeclient_Update KVol OpenEBSNamespace
                   (zv {{ vol_Spec := vol_Spec vol }} {{ vol_State := vol_State vol }})
               | Err _ => Kubeclient_Create KVol OpenEBSNamespace vol
               end);
  match r with
  | Ok _ => checkVolCreation fuel (Name (vol_Meta vol))
  | Err err => Ret (false, Some err)
  end.

Definition ResizeVolume (vol : ZFSVolume) (newSize : Z) : prog unit :=
  let vol := vol {{ vol_Spec := (vol_Spec vol) {{ Capacity := FormatInt newSize }} }} in
  _ ← Kubeclient_Update KVol OpenEBSNamespace vol;
  Ret tt.

Definition ProvisionSnapshot (snap : ZFSSnapshot) : prog unit :=
  _ ← Kubeclient_Create KSnap OpenEBSNamespace snap;
  Ret tt.

(** ** Updates of the resources *)

Definition UpdateZFSVolumeAnnotation (vol : ZFSVolume) : prog unit :=
  newVol ← lift (Build (BuildFrom (Some vol) .> WithAnnotation));
  _ ← Kubeclient_Update KVol OpenEBSNamespace newVol;
  Ret tt.

Definition UpdateZvolInfo (vol : ZFSVolume) (status : string) : prog unit :=
  let finalizers := if status =? ZFSStatusReady then [ZFSFinalizer] else [] in
  let labels := {[ZFSNodeKey := NodeID]} in
  newVol ← lift (Build (BuildFrom (Some vol)
                        .> WithFinalizer finalizers
                        .> WithVolumeStatus status
                        .> WithLabels labels));
  _ ← Kubeclient_Update KVol OpenEBSNamespace newVol;
  Ret tt.

Definition RemoveVolumeFinalizer (vol : ZFSVolume) : prog unit :=
  let vol := vol {{ vol_Meta := (vol_Meta vol) {{ Finalizers := [] }} }} in
  _ ← Kubeclient_Update KVol OpenEBSNamespace vol;
  Ret tt.

(** The status is assigned before the error is looked at: with a failed build
    the object is nil. *)
Definition UpdateSnapInfo (snap : ZFSSnapshot) : prog unit :=
  let labels := {[ZFSNodeKey := NodeID]} in
  match snap_Build (snap_BuildFrom (Some snap)
                    .> snap_WithFinalizer [ZFSFinalizer]
                    .> snap_WithLabels labels) with
  | Err _ => Crash "nil pointer dereference"
  | Ok newSnap =>
    _ ← Kubeclient_Update KSnap OpenEBSNamespace (newSnap {{ snap_State := ZFSStatusReady }});
    Ret tt
  end.

Definition RemoveSnapFinalizer (snap : ZFSSnapshot) : prog unit :=
  let snap := snap {{ snap_Meta := (snap_Meta snap) {{ Finalizers := [] }} }} in
  _ ← Kubeclient_Update KSnap OpenEBSNamespace snap;
  Ret tt.

Definition RemoveBkpFinalizer (bkp : ZFSBackup) : prog unit :=
  let bkp := bkp {{ bkp_Meta := (bkp_Meta bkp) {{ Finalizers := [] }} }} in
  _ ← Kubeclient_Update KBkp OpenEBSNamespace bkp;
  Ret tt.

Definition UpdateBkpInfo (bkp : ZFSBackup) (status : ZFSBackupStatus) : prog unit :=
  match bkp_Build (bkp_BuildFrom (Some bkp) .> bkp_WithFinalizer [ZFSFinalizer]) with
  | Err _ => Crash "nil pointer dereference"
  | Ok newBkp =>
    _ ← Kubeclient_Update KBkp OpenEBSNamespace (newBkp {{ bkp_Status := status }});
    Ret tt
  end.

Definition UpdateRestoreInfo (rstr : ZFSRestore) (status : ZFSRestoreStatus) : prog unit :=
  match rstr_Build (rstr_BuildFrom (Some rstr)) with
  | Err _ => Crash "nil pointer dereference"
  | Ok newRstr =>
    _ ← Kubeclient_Update KRstr OpenEBSNamespace (newRstr {{ rstr_Status := status }});
    Ret tt
  end.

Definition MarkForDeletion (volumeName : string) : prog unit :=
  zv ← GetZFSVolume volumeName;
  UpdateZFSVolumeAnnotation zv.

Definition IsVolumeEligibleForDeletion (volumeName : string) : prog bool :=
  r ← attempt (GetZFSVolume volumeName);
  match r with
  | Err err =>
    Throw (StatusErrorf Internal "failed to get ZFSVolume %s: %v" [volumeName; Error err])
  | Ok zfsVol =>
    Ret (sget (Annotations (vol_Meta zfsVol)) MarkForDeletionAnnotation =? "true")
  end.

End volume_ops.

(** ** Pure operations *)

(** A nil snapshot is [None]. *)
Definition GetZFSSnapshotCapacity (snap : option ZFSSnapshot) : result Z :=
  match snap with
  | None => Err (ErrText "expect non-nil snapshot")
  | Some snap =>
    if Capacity (snap_Spec snap) =? "" then Ok 0%Z
    else match ParseInt (Capacity (snap_Spec snap)) with
         | None => Err (Errorf "convert %s to integer failed" [Capacity (snap_Spec snap)])
         | Some capacity => Ok capacity
         end
  end.

Definition GetUserFinalizers (finalizers : list string) : list string :=
  filter (λ fin, fin ≠ ZFSFinalizer ∧ fin ≠ "foregroundDeletion") finalizers.

Definition IsVolumeReady (vol : ZFSVolume) : bool :=
  if negb (vol_State vol =? "") then vol_State vol =? ZFSStatusReady
  else existsb (λ fin, fin =? ZFSFinalizer) (Finalizers (vol_Meta vol)).

(** ** Events *)

Definition EmitFailureEvent (k : kind) (o : obj k) (reason : string) (err : error) : prog unit :=
  call (CEvent k o EventWarning reason (truncateEventMessage (Error err))).

Definition EmitSuccessEvent (k : kind) (o : obj k) (reason message : string) : prog unit :=
  call (CEvent k o EventNormal reason (truncateEventMessage message)).
