(* ===== verification/ZfsOps.v ===== *)
(** * Operations on datasets (pkg/zfs/zfs_util.go, pkg/zfs/resize.go)

    The operations the node agent runs with the zfs tool: creating, cloning,
    setting, resizing and destroying volumes, snapshots, backups and restores
    through a pipe, and the listing of the pools of the node. *)

From S2P Require Import Prelude GoStr GoErr Api Csi Effects Kube ZfsArgs Builders VolumeOps.

(** ** Running commands *)

(** [cmd.CombinedOutput()] of [exec.Command(name, args...)]; the dataset is for
    the log only. *)
Definition runCmd (name : string) (args : list string) (dataset : string) : prog proc_out :=
  call (CExec name args).

(** [cmd.Args], which starts with the command's name, printed with %v. *)
Definition fmt_args (name : string) (args : list string) : string := fmt_list (name :: args).

(** The loop that observes the two exits, in the order they happen, and kills
    the other child on a failure.  [desc] is the text of [exit.side] and
    [exit.cmd.Args]. *)
Fixpoint observe_exits (n : nat) (desc : side → string * string) (waitErrors : list error)
    : prog (list error) :=
  match n with
  | O => Ret waitErrors
  | S n =>
    exit ← call CRecvExit;
    match exit with
    | (_, None) => observe_exits n desc waitErrors
    | (c, Some err) =>
      _ ← call (CKill (peer c));
      observe_exits n desc
        (waitErrors ++
         [ErrW (Sprintf "zfs: pipe %s %v: %w" [(desc c).1; (desc c).2; Error err]) err])
    end
  end.

(** [errors.Join(errs...)] of non-nil errors *)
Definition errors_Join (errs : list error) : option error :=
  match errs with [] => None | _ => Some (ErrJoin errs) end.

(** The captured output and the error.  The deferred calls run in the reverse of
    the order they were deferred in. *)
Definition runPipe (src : string) (srcArgs : list string) (dst : string) (dstArgs : list string)
    (dataset : string) : prog (string * option error) :=
  pipe ← call COsPipe;
  match pipe with
  | Err err => Ret ("", Some err)
  | Ok _ =>
    deferred (_ ← call (CCloseEnd Writer); call (CCloseEnd Reader)) (
    st ← call (CStart Source src srcArgs);
    match st with
    | Err err =>
      Ret ("", Some (ErrW (Sprintf "zfs: pipe source start %v: %w"
                             [fmt_args src srcArgs; Error err]) err))
    | Ok _ =>
      _ ← call (CCloseEnd Writer);
      dt ← call (CStart Destination dst dstArgs);
      match dt with
      | Err err =>
        _ ← call (CCloseEnd Reader);
        _ ← call (CKill Source);
        _ ← call (CWaitProc Source);
        srcErr ← call (CReadBuf Source);
        Ret (srcErr, Some (ErrW (Sprintf "zfs: pipe destination start %v: %w"
                                   [fmt_args dst dstArgs; Error err]) err))
      | Ok _ =>
        _ ← call (CCloseEnd Reader);
        _ ← call (CGoWait Source);
        _ ← call (CGoWait Destination);
        waitErrors ← observe_exits 2
          (λ c, match c with
                | Source => ("source", fmt_args src srcArgs)
                | Destination => ("destination", fmt_args dst dstArgs)
                end) [];
        srcErr ← call (CReadBuf Source);
        dstOut ← call (CReadBuf Destination);
        Ret (srcErr +:+ dstOut, errors_Join waitErrors)
      end
    end)
  end.

(** Run the zfs tool and turn a failure into an error of [op] on [dataset]:
    the common tail of the operations below. *)
Definition zfs_exec (args : list string) (op dataset : string) : prog unit :=
  po ← runCmd ZFSVolCmd args dataset;
  lift_err (NewZFSError op dataset (po_err po) (po_out po)).

Definition getVolume (volume : string) : prog unit :=
  zfs_exec [ZFSListArg; volume] "zfs list" volume.

(** ** Volumes and snapshots *)

(** The snapshot a clone of a volume is taken from: named after the clone. *)
Definition clone_snap (vol : ZFSVolume) (srcVol : string) : ZFSSnapshot :=
  mkZFSSnapshot
    (emptyMeta {{ Name := Name (vol_Meta vol) }} {{ Labels := {[ZFSVolKey := srcVol]} }})
    (vol_Spec vol) "".

(** The snapshot of a backup. *)
Definition backup_snap (bkp : ZFSBackup) (vol : ZFSVolume) : ZFSSnapshot :=
  mkZFSSnapshot
    (emptyMeta {{ Name := bkp_SnapName (bkp_Spec bkp) }}
               {{ Labels := {[ZFSVolKey := Name (vol_Meta vol)]} }})
    (emptyInfo {{ PoolName := PoolName (vol_Spec vol) }}) "".

Section zfs_ops.
Context `{!GoRange} `{!Globals}.

Definition CreateVolume (vol : ZFSVolume) : prog unit :=
  let volume := vol_dataset vol in
  r ← attempt (getVolume volume);
  match r with
  | Err _ =>
    let args := if VolumeType (vol_Spec vol) =? VolTypeDataset
                then buildDatasetCreateArgs vol else buildZvolCreateArgs vol in
    zfs_exec args "zfs create" volume
  | Ok _ => Ret tt
  end.

Definition CreateSnapshot (snap : ZFSSnapshot) : prog unit :=
  let snapDataset := snap_dataset snap in
  r ← attempt (getVolume snapDataset);
  match r with
  | Ok _ => Ret tt
  | Err _ => zfs_exec (buildZFSSnapCreateArgs snap) "zfs snapshot" snapDataset
  end.

Definition CreateClone (vol : ZFSVolume) : prog unit :=
  let volume := vol_dataset vol in
  _ ← match Labels (vol_Meta vol) !! ZFSSrcVolKey with
      | Some srcVol => CreateSnapshot (clone_snap vol srcVol)
      | None => Ret tt
      end;
  r ← attempt (getVolume volume);
  _ ← match r with
      | Err _ => zfs_exec (buildCloneCreateArgs vol) "zfs clone" volume
      | Ok _ => Ret tt
      end;
  if FsType (vol_Spec vol) =? "xfs" then
    u ← call (CGenerateUUID "xfs" (ZFSDevPath +:+ volume)); lift u
  else if FsType (vol_Spec vol) =? "btrfs" then
    u ← call (CGenerateUUID "btrfs" (ZFSDevPath +:+ volume)); lift u
  else Ret tt.

Definition DestroySnapshot (snap : ZFSSnapshot) : prog unit :=
  let snapDataset := snap_dataset snap in
  let parentDataset := PoolName (snap_Spec snap) in
  _ ← getVolume parentDataset;
  r ← attempt (getVolume snapDataset);
  match r with
  | Err _ => Ret tt
  | Ok _ => zfs_exec (buildZFSSnapDestroyArgs snap) "zfs destroy snapshot" snapDataset
  end.

(** The error of destroying the snapshot of a clone is dropped. *)
Definition DestroyVolume (vol : ZFSVolume) : prog unit :=
  let volume := vol_dataset vol in
  let parentDataset := PoolName (vol_Spec vol) in
  _ ← getVolume parentDataset;
  r ← attempt (getVolume volume);
  match r with
  | Err _ => Ret tt
  | Ok _ =>
    _ ← zfs_exec (buildVolumeDestroyArgs vol) "zfs destroy" volume;
    match Labels (vol_Meta vol) !! ZFSSrcVolKey with
    | Some srcVol => _ ← attempt (DestroySnapshot (clone_snap vol srcVol)); Ret tt
    | None => Ret tt
    end
  end.

(** ** Properties of datasets *)

Definition SetDatasetMountProp (volume mountpath : string) : prog unit :=
  zfs_exec [ZFSSetArg; "mountpoint=" +:+ mountpath; volume] "zfs set mountpoint" volume.

(** [out[:len(out)-1]] panics on an empty output. *)
Definition GetVolumeProperty (vol : ZFSVolume) (prop : string) : prog string :=
  let volume := vol_dataset vol in
  po ← runCmd ZFSVolCmd [ZFSGetArg; "-pH"; "-o"; "value"; prop; volume] volume;
  match NewZFSError (Sprintf "zfs get %s" [prop]) volume (po_err po) (po_out po) with
  | Some zerr => Throw zerr
  | None =>
    if po_out po =? "" then Crash "slice bounds out of range"
    else Ret (take_str (String.length (po_out po) - 1) (po_out po))
  end.

Definition MountZFSDataset (vol : ZFSVolume) (mountpath : string) : prog unit :=
  let volume := vol_dataset vol in
  _ ← SetDatasetMountProp volume mountpath;
  mounted ← GetVolumeProperty vol "mounted";
  if mounted =? "no" then zfs_exec ["mount"; volume] "zfs mount" volume
  else Ret tt.

Definition SetDatasetLegacyMount (vol : ZFSVolume) : prog unit :=
  if negb (VolumeType (vol_Spec vol) =? VolTypeDataset) then Ret tt else
  prop ← GetVolumeProperty vol "mountpoint";
  if negb (prop =? "legacy") then SetDatasetMountProp (vol_dataset vol) "legacy"
  else Ret tt.

Definition SetVolumeProp (vol : ZFSVolume) : prog unit :=
  let spec := vol_Spec vol in
  let volume := vol_dataset vol in
  if negb (given (Compression spec)) && negb (given (Dedup spec)) &&
     negb (given (LogBias spec)) && bool_decide (UserProperties spec = ∅) &&
     (negb (VolumeType spec =? VolTypeDataset) ||
      (negb (given (RecordSize spec)) && negb (given (ATime spec))))
  then Ret tt
  else zfs_exec (buildVolumeSetArgs vol) "zfs set" volume.

(** ** Resizing *)

Definition GetVolumeDevPath (vol : ZFSVolume) : prog string :=
  let volume := vol_dataset vol in
  if VolumeType (vol_Spec vol) =? VolTypeDataset then Ret volume
  else dev ← call (CEvalSymlinks (ZFSDevPath +:+ volume)); lift dev.

Definition ResizeExtn (devpath : string) : prog unit :=
  po ← call (CExec "resize2fs" [devpath]); lift_err (po_err po).

Definition ResizeXFS (path : string) : prog unit :=
  po ← call (CExec "xfs_growfs" [path]); lift_err (po_err po).

(** The loop over the mount points stops at the first at [volumePath]; with an
    error of the listing there are none. *)
Definition handleVolResize (vol : ZFSVolume) (volumePath : string) : prog unit :=
  devpath ← GetVolumeDevPath vol;
  list ← call CMountList;
  let list := match list with Ok l => l | Err _ => [] end in
  if existsb (λ mpt, mpt.2 =? volumePath) list then
    if FsType (vol_Spec vol) =? "xfs" then ResizeXFS volumePath
    else if FsType (vol_Spec vol) =? "zfs" then Ret tt
    else ResizeExtn devpath
  else Ret tt.

(** [revertedVol]: the volume with the old reservation as its capacity. *)
Definition reverted (vol : ZFSVolume) (oldReservation : string) : ZFSVolume :=
  vol {{ vol_Spec := (vol_Spec vol) {{ Capacity := oldReservation }} }}.

Definition ResizeZFSVolume (vol : ZFSVolume) (mountpath : string) (resizefs : bool) : prog unit :=
  oldReservation ← GetVolumeProperty vol (reservationPropertyName (QuotaType (vol_Spec vol)));
  let volume := vol_dataset vol in
  r ← attempt (zfs_exec (buildVolumeResizeArgs vol) "zfs set quota" volume);
  match r with
  | Err zerr =>
    _ ← attempt (zfs_exec (buildVolumeResizeArgs (reverted vol oldReservation))
                   "zfs set quota (revert)" volume);
    Throw zerr
  | Ok _ => if resizefs then handleVolResize vol mountpath else Ret tt
  end.

(** ** Backups and restores *)

Definition CreateBackup (bkp : ZFSBackup) : prog unit :=
  vol ← GetZFSVolume (bkp_VolumeName (bkp_Spec bkp));
  let volume := vol_dataset vol in
  _ ← CreateSnapshot (backup_snap bkp vol);
  match buildVolumeBackupArgs bkp vol with
  | inr err => Throw err
  | inl (sendArgs, ncArgs) =>
    res ← runPipe ZFSVolCmd sendArgs NetCatCmd ncArgs volume;
    lift_err (NewZFSError "zfs send (backup)" volume res.2 res.1)
  end.

Definition DestoryBackup (bkp : ZFSBackup) : prog unit :=
  r ← attempt (GetZFSVolume (bkp_VolumeName (bkp_Spec bkp)));
  match r with
  | Err err => if IsNotFound err then Ret tt else Throw err
  | Ok vol => DestroySnapshot (backup_snap bkp vol)
  end.

(** The wait for the device node: poll once a second for five seconds. *)
Fixpoint getDevice_loop (fuel : nat) (timeout : Z) (device : string) : prog string :=
  match fuel with
  | O => Spin
  | S fuel =>
    fired ← call (CPoll timeout);
    if (fired : bool) then Throw (Errorf "zfs: not able to get the device: %s" [device])
    else
      st ← call (CStat device);
      match st with
      | Ok _ => Ret device
      | Err _ => _ ← call (CSleep 1); getDevice_loop fuel timeout device
      end
  end.

Definition getDevice (fuel : nat) (volume : string) : prog string :=
  let device := ZFSDevPath +:+ volume in
  timeout ← call (CNewTimer 5);
  getDevice_loop fuel timeout device.

(** The part of [CreateRestore] after the spec is filled in. *)
Definition restore_volume (fuel : nat) (rstr : ZFSRestore) : prog unit :=
  match buildVolumeRestoreArgs rstr with
  | inr err => Throw err
  | inl (ncArgs, recvArgs) =>
    let volume := dataset_of (PoolName (rstr_VolSpec rstr)) (rstr_VolumeName (rstr_Spec rstr)) in
    res ← runPipe NetCatCmd ncArgs ZFSVolCmd recvArgs volume;
    _ ← lift_err (NewZFSError "zfs recv (restore)" volume res.2 res.1);
    if FsType (rstr_VolSpec rstr) =? "xfs" then
      device ← getDevice fuel volume;
      u ← call (CGenerateUUID "xfs" device); lift u
    else if FsType (rstr_VolSpec rstr) =? "btrfs" then
      device ← getDevice fuel volume;
      u ← call (CGenerateUUID "btrfs" device); lift u
    else Ret tt
  end.

(** The spec is filled in in the caller's object: the result is that object as the
    call leaves it, with the error. *)
Definition CreateRestore (fuel : nat) (rstr : ZFSRestore) : prog (ZFSRestore * option error) :=
  filled ← attempt (if (slen (PoolName (rstr_VolSpec rstr)) =? 0)%Z then
                      vol ← GetZFSVolume (rstr_VolumeName (rstr_Spec rstr));
                      Ret (rstr {{ rstr_VolSpec := vol_Spec vol }})
                    else Ret rstr);
  match filled with
  | Err err => Ret (rstr, Some err)
  | Ok rstr =>
    r ← attempt (restore_volume fuel rstr);
    Ret (rstr, match r with Ok _ => None | Err err => Some err end)
  end.
End zfs_ops.

(** ** Pools *)

(** bufio.ScanLines: the lines of the text, a final empty one excepted, without a
    trailing carriage return. *)
Definition drop_cr (line : string) : string :=
  let n := String.length line in
  if (if String.get (n - 1) line is Some c then Ascii.eqb c "013" else false)
  then take_str (n - 1) line else line.

Fixpoint drop_last_empty (lines : list string) : list string :=
  match lines with
  | [] => []
  | [l] => if l =? "" then [] else [l]
  | l :: lines => l :: drop_last_empty lines
  end.

(** A line that does not fit in the scanner's buffer of 64 KiB ends the scan. *)
Definition MaxScanTokenSize : Z := 65536.

Fixpoint until_too_long (lines : list string) : list string :=
  match lines with
  | [] => []
  | l :: lines => if (slen l <? MaxScanTokenSize)%Z then l :: until_too_long lines else []
  end.

Definition scan_lines (raw : string) : list string :=
  map drop_cr (until_too_long (drop_last_empty (Split newline raw))).

(** One iteration on a line: [Ret None] for a name with a slash, a panic where the
    code indexes past the fields. *)
Definition decode_line (line : string) : prog (option Pool) :=
  let items := Split tab (TrimSpace line) in
  let name := default "" (items !! 0%nat) in
  if Contains name "/" then Ret None else
  match items !! 1%nat with
  | None => Crash "index out of range"
  | Some uuid =>
    match items !! 2%nat with
    | None => Crash "index out of range"
    | Some free =>
      match ParseInt free with
      | None => Throw (Errorf "cannot get free size for pool %v: %v" [name; ParseInt_error free])
      | Some sizeBytes =>
        match items !! 3%nat with
        | None => Crash "index out of range"
        | Some used =>
          match ParseInt used with
          | None => Throw (Errorf "cannot get free size for pool %v: %v" [name; ParseInt_error used])
          | Some usedBytes => Ret (Some (mkPool name uuid sizeBytes usedBytes))
          end
        end
      end
    end
  end.

Fixpoint decode_lines (lines : list string) (pools : list Pool) : prog (list Pool) :=
  match lines with
  | [] => Ret pools
  | l :: lines =>
    p ← decode_line l;
    decode_lines lines (pools ++ match p with Some p => [p] | None => [] end)
  end.

Definition decodeListOutput (raw : string) : prog (list Pool) :=
  decode_lines (scan_lines raw) [].

Definition ListZFSPool : prog (list Pool) :=
  po ← runCmd ZFSVolCmd
         [ZFSListArg; "-d"; "1"; "-s"; "name"; "-o"; "name,guid,available,used"; "-H"; "-p"] "";
  match NewZFSError "zfs list (pools)" "" (po_err po) (po_out po) with
  | Some zerr => Throw zerr
  | None => decodeListOutput (po_out po)
  end.
