(* ===== verification/Laws.v ===== *)
(** * The laws of the environment

    What the theorems assume of the services the driver talks to, each as a class
    of documented laws over an environment: the zfs tool, the clock, the mount table
    and the volume resources.  [Sim] and [MountSpec] hold environments that satisfy
    them. *)

From S2P Require Import Prelude GoStr GoErr Api Csi Effects Kube ZfsArgs.

(** ** The zfs tool *)

(** [x] is the dataset [d] or one of its snapshots or descendants. *)
Definition below (d x : string) : Prop :=
  x = d ∨ HasPrefix x (d +:+ "/") = true ∨ HasPrefix x (d +:+ "@") = true.

#[export] Instance below_dec d x : Decision (below d x).
Proof. unfold below. apply _. Defined.

(** The commands that may change which datasets exist. *)
Definition may_change_datasets (c : cmd) : bool :=
  match c with
  | CExec name (sub :: _) =>
    (name =? "zfs") && existsb (String.eqb sub) ["create"; "clone"; "snapshot"; "destroy"]
  | CStart _ _ _ | CKill _ | CWaitProc _ | CGoWait _ | CRecvExit => true
  | _ => false
  end.

(** zfs(8), with [ds s] the names of the datasets and snapshots of the node in
    state [s]: [list] succeeds on the ones that exist; [create], [clone] and
    [snapshot] add their last operand, or fail and change nothing; [destroy]
    removes a snapshot; [destroy -r] removes a dataset with all that is below it,
    and may have removed some of that when it fails.  Nobody else changes the
    datasets in the meantime. *)
Class ZfsLaws {S} (E : Env S) (ds : S → gset string) := {
  zfs_list d s r s' :
    E (CExec "zfs" ["list"; d]) s r s' →
    ds s' = ds s ∧ (po_err r = None ↔ d ∈ ds s);
  zfs_add sub args d s r s' :
    sub ∈ ["create"; "clone"; "snapshot"] → last args = Some d →
    E (CExec "zfs" (sub :: args)) s r s' →
    ds s' = match po_err r with None => {[d]} ∪ ds s | Some _ => ds s end;
  zfs_destroy d s r s' :
    E (CExec "zfs" ["destroy"; d]) s r s' →
    ds s' = match po_err r with None => ds s ∖ {[d]} | Some _ => ds s end;
  zfs_destroy_r d s r s' :
    E (CExec "zfs" ["destroy"; "-r"; d]) s r s' →
    ds s' ⊆ ds s ∧ (∀ x, x ∈ ds s → x ∉ ds s' → below d x) ∧
    (po_err r = None → ∀ x, below d x → x ∉ ds s');
  zfs_frame c s r s' :
    may_change_datasets c = false → E c s r s' → ds s' = ds s;
}.

(** The same for one dataset [D], with [has s] when it exists in state [s]: what holds of
    it whoever else is at work on the other datasets of the node. *)
Class ZfsLawsAt {S} (E : Env S) (D : string) (has : S → Prop) := {
  at_list s r s' :
    E (CExec "zfs" ["list"; D]) s r s' → po_err r = None ↔ has s;
  at_add sub args d s r s' :
    sub ∈ ["create"; "clone"; "snapshot"] → last args = Some d →
    E (CExec "zfs" (sub :: args)) s r s' →
    (has s → has s') ∧ (d = D → po_err r = None → has s');
  at_destroy d s r s' :
    E (CExec "zfs" ["destroy"; d]) s r s' →
    (has s' → has s) ∧ (d = D → po_err r = None → ¬ has s');
  at_destroy_r d s r s' :
    E (CExec "zfs" ["destroy"; "-r"; d]) s r s' →
    (has s' → has s) ∧ (d = D → po_err r = None → ¬ has s');
  at_frame c s r s' :
    may_change_datasets c = false → E c s r s' → has s' ↔ has s;
}.

#[export] Instance zfs_laws_at {S} (E : Env S) ds D : ZfsLaws E ds → ZfsLawsAt E D (λ s, D ∈ ds s).
Proof.
  intros HE. split.
  - intros s r s' [_ Hr]%(zfs_list (ds := ds)). exact Hr.
  - intros sub args d s r s' Hsub Hlast Hstep. rewrite (zfs_add (ds := ds) sub args d s r s' Hsub Hlast Hstep).
    destruct (po_err r); set_solver.
  - intros d s r s' Hstep. rewrite (zfs_destroy (ds := ds) d s r s' Hstep).
    destruct (po_err r); (split; [set_solver|]); [done|]. intros -> _. set_solver.
  - intros d s r s' (Hsub & _ & Hgone)%(zfs_destroy_r (ds := ds)). split; [set_solver|].
    intros -> Hok. apply Hgone; [done|]. by left.
  - intros c s r s' Hc Hstep. by rewrite (zfs_frame (ds := ds) c s r s' Hc Hstep).
Qed.

(** ** The clock *)

(** Time does not go backwards; a timer of [n] seconds has a deadline at most [n]
    seconds away; sleeping lasts at least as long as asked; a select takes its
    default case only before the deadline. *)
Class ClockLaws {S} (E : Env S) (now : S → Z) := {
  clock_monotone c s r s' : E c s r s' → (now s <= now s')%Z;
  clock_timer n s d s' : E (CNewTimer n) s d s' → (d <= now s' + n)%Z;
  clock_sleep n s r s' : E (CSleep n) s r s' → (now s + n <= now s')%Z;
  clock_poll d s s' : E (CPoll d) s false s' → (now s' < d)%Z;
  clock_select d s s' : E (CSelect d) s SelDefault s' → (now s' < d)%Z;
}.

(** ** The mount table *)

(** Taking away the last mount at a path, if there is one. *)
Fixpoint unmounted (p : string) (l : list (string * string)) : list (string * string) :=
  match l with
  | [] => []
  | e :: l => if e.2 =? p then l else e :: unmounted p l
  end.

(** The commands that may change what is mounted. *)
Definition may_change_mounts (c : cmd) : bool :=
  match c with
  | CExec name (sub :: _) =>
    (name =? "mount") || (name =? "umount") ||
    ((name =? "zfs") && existsb (String.eqb sub) ["mount"; "unmount"; "set"; "destroy"])
  | CExec _ [] | CStart _ _ _ | CKill _ | CWaitProc _ | CGoWait _ | CRecvExit => true
  | CFormatAndMount _ _ _ _ _ | CMount _ _ _ _ | CUnmount _ => true
  | _ => false
  end.

(** The mounts of a node, [mtab s], as pairs of a device and a mount point, the
    last mount first; [resolve] is where the symbolic link of a device leads, and
    [devfs] the file system that holds the device nodes, which is what a bind mount
    of a node shows as its device.  A mount adds an entry, or fails and adds none;
    unmounting a path takes away the last mount there; the queries tell the table;
    a mount point exists.  Datasets have [mountpoint=legacy], with which the driver
    creates them, so that zfs mounts nothing of its own accord.  Nobody else mounts
    or unmounts in the meantime. *)
Class MountLaws {S} (E : Env S) (mtab : S → list (string * string))
    (resolve : string → string) (devfs : string) := {
  mnt_mounts d s ms s' :
    E (CGetMounts d) s (Ok ms) s' → ∀ p, p ∈ ms ↔ (d, p) ∈ mtab s;
  mnt_device p s d n s' :
    E (CGetDeviceNameFromMount p) s (Ok (d, n)) s' →
    (d ≠ "" ∧ n ≠ 0%Z) ↔ ∃ d', (d', p) ∈ mtab s;
  mnt_resolve l s d s' : E (CEvalSymlinks l) s (Ok d) s' → d = resolve l;
  mnt_exists p s s' : E (CPathExists p) s (Ok false) s' → ∀ d, (d, p) ∉ mtab s;
  mnt_legacy d s r s' :
    E (CExec "zfs" ["get"; "-pH"; "-o"; "value"; "mountpoint"; d]) s r s' →
    po_err r = None → po_out r = "legacy" +:+ str1 newline;
  mnt_format d p fs o f s r s' :
    E (CFormatAndMount d p fs o f) s r s' →
    mtab s' = match r with Ok _ => (resolve d, p) :: mtab s | Err _ => mtab s end;
  mnt_mount o d p s r s' :
    E (CExec "mount" ["-o"; o; "-t"; "zfs"; d; p]) s r s' →
    mtab s' = match po_err r with None => (d, p) :: mtab s | Some _ => mtab s end;
  mnt_bind d p s r s' :
    E (CMount d p "" ["bind"]) s r s' →
    mtab s' = match r with Ok _ => (devfs, p) :: mtab s | Err _ => mtab s end;
  mnt_unmount p s r s' :
    E (CUnmount p) s r s' →
    mtab s' = match r with Ok _ => unmounted p (mtab s) | Err _ => mtab s end;
  mnt_frame c s r s' :
    may_change_mounts c = false → E c s r s' → mtab s' = mtab s;
}.

(** The volume resources the API server answers with, which stay as they are. *)
Class VolumesLaw `{!Globals} {S} (E : Env S) (vols : gmap string ZFSVolume) :=
  volume_got : ∀ n s v s', E (CGet KVol OpenEBSNamespace n) s (Ok v) s' → vols !! n = Some v.
