(* ===== verification/Sim.v ===== *)
(** * A simulated environment

    An executable environment: a node with datasets, a clock and an API server,
    all of whose calls succeed when they can.  It satisfies the laws of [Laws],
    and runs the driver on concrete inputs. *)

From S2P Require Import Prelude GoStr GoErr Api Csi Effects Kube ZfsArgs Laws.

(** Map iteration in the order of [map_to_list]. *)
#[export] Instance sim_range : GoRange := {| range := map_to_list; range_perm m := reflexivity _ |}.

#[export] Instance sim_globals : Globals :=
  {| OpenEBSNamespace := "openebs"; NodeID := "node-1";
     GoogleAnalyticsEnabled := "false"; ZFSBackupGCEnabled := true |}.

Record sim := mkSim {
  sim_ds : gset string;
  sim_now : Z;
  sim_vols : gmap string ZFSVolume;
  sim_snaps : gmap string ZFSSnapshot;
  sim_bkps : gmap string ZFSBackup;
  sim_rstrs : gmap string ZFSRestore;
  sim_nodes : gmap string ZFSNode;
  sim_mtab : list (string * string); (* devices and mount points, the last mount first *)
}.

Definition sim_init (datasets : list string) : sim :=
  mkSim (list_to_set datasets) 0 ∅ ∅ ∅ ∅ ∅ [].

Definition sim_get (k : kind) : sim → gmap string (obj k) :=
  match k with
  | KVol => sim_vols | KSnap => sim_snaps | KBkp => sim_bkps
  | KRstr => sim_rstrs | KNode => sim_nodes
  end.

Definition sim_put (k : kind) : gmap string (obj k) → sim → sim :=
  match k with
  | KVol => λ m s, s {{ sim_vols := m }}
  | KSnap => λ m s, s {{ sim_snaps := m }}
  | KBkp => λ m s, s {{ sim_bkps := m }}
  | KRstr => λ m s, s {{ sim_rstrs := m }}
  | KNode => λ m s, s {{ sim_nodes := m }}
  end.

(** The label selectors the driver uses: empty, or [key=value]. *)
Definition selected (k : kind) (opts : ListOptions) (o : obj k) : bool :=
  match Cut "=" opts with
  | (key, value, true) => bool_decide (Labels (meta k o) !! key = Some value)
  | _ => true
  end.

(** One run of the zfs tool. *)
Definition sim_zfs (args : list string) (s : sim) : proc_out * sim :=
  let fail := (mkProcOut "failed" (Some (ErrExit "exit status 1")), s) in
  let done s := (mkProcOut "" None, s) in
  match args with
  | sub :: rest =>
    match last rest with
    | None => fail
    | Some d =>
      if sub =? "list" then
        if decide (rest = [d]) then if decide (d ∈ sim_ds s) then done s else fail else done s
      else if existsb (String.eqb sub) ["create"; "clone"; "snapshot"] then
        if decide (d ∈ sim_ds s) then fail else done (s {{ sim_ds := {[d]} ∪ sim_ds s }})
      else if sub =? "destroy" then
        if decide (d ∈ sim_ds s) then
          if decide (rest = [d]) then done (s {{ sim_ds := sim_ds s ∖ {[d]} }})
          else done (s {{ sim_ds := filter (λ x, ¬ below d x) (sim_ds s) }})
        else fail
      else if sub =? "get" then
        (mkProcOut (if existsb (String.eqb "mountpoint") rest then "legacy" +:+ str1 newline
                    else "0" +:+ str1 newline) None, s)
      else done s
    end
  | [] => fail
  end.

(** mount(8), with the device and the path as its last operands. *)
Definition sim_mount (args : list string) (s : sim) : proc_out * sim :=
  match rev args with
  | p :: d :: _ => (mkProcOut "" None, s {{ sim_mtab := (d, p) :: sim_mtab s }})
  | _ => (mkProcOut "mount: bad usage" (Some (ErrExit "exit status 1")), s)
  end.

Definition sim_unmount (p : string) (s : sim) : result unit * sim :=
  if existsb (λ e, e.2 =? p) (sim_mtab s)
  then (Ok tt, s {{ sim_mtab := unmounted p (sim_mtab s) }})
  else (Err (ErrExit "umount: not mounted"), s).

Definition set_meta (k : kind) : ObjectMeta → obj k → obj k :=
  match k with
  | KVol => λ m o, o {{ vol_Meta := m }}
  | KSnap => λ m o, o {{ snap_Meta := m }}
  | KBkp => λ m o, o {{ bkp_Meta := m }}
  | KRstr => λ m o, o {{ rstr_Meta := m }}
  | KNode => λ m o, o {{ node_Meta := m }}
  end.

(** An object that is being deleted goes once it has no finalizers. *)
Definition sim_store (k : kind) (o : obj k) (m : gmap string (obj k)) : gmap string (obj k) :=
  match DeletionTimestamp (meta k o), Finalizers (meta k o) with
  | Some _, [] => delete (Name (meta k o)) m
  | _, _ => <[Name (meta k o) := o]> m
  end.

Definition not_found {A} : result A := Err (ErrAPI ReasonNotFound "not found").

(** The start of the agent succeeds, and it is stopped at once. *)
Definition sim_up (c : up_cmd) : up_resp c :=
  match c as c return up_resp c with
  | UKubeConfig | UKubeClient | UOpenEBSClient | UAddToScheme => Ok tt
  | UK8sNode name => Ok (mkK8sNode name ("uid-" +:+ name))
  | UK8sNodeList _ => Ok []
  | UWaitForCacheSync _ | UWaitForCaches _ => true
  | USelectTimer => false
  | UAddIndexers _ _ => Ok tt
  | ULoadServer | UServe => true
  | UServed => None
  | _ => tt
  end.

Definition sim_handler : handler sim := λ c s,
  match c as c return resp c * sim with
  | CExec name args =>
    if name =? "zfs" then sim_zfs args s
    else if name =? "mount" then sim_mount args s
    else (mkProcOut "" None, s)
  | COsPipe => (Ok tt, s)
  | CStart _ _ _ => (Ok tt, s)
  | CCloseEnd _ | CKill _ | CGoWait _ => (tt, s)
  | CWaitProc _ => (None, s)
  | CRecvExit => ((Source, None), s)
  | CReadBuf _ => ("", s)
  | CClientset | CClientsetForPath _ => (Ok tt, s)
  | CGet k _ name =>
    (match sim_get k s !! name with Some o => Ok o | None => not_found end, s)
  | CList k _ opts => (Ok (List.filter (selected k opts) (map snd (map_to_list (sim_get k s)))), s)
  | CCreate k _ o =>
    let n := Name (meta k o) in
    match sim_get k s !! n with
    | Some _ => (Err (ErrAPI ReasonAlreadyExists "already exists"), s)
    | None => (Ok o, sim_put k (<[n := o]> (sim_get k s)) s)
    end
  | CUpdate k _ o =>
    let n := Name (meta k o) in
    match sim_get k s !! n with
    | Some _ => (Ok o, sim_put k (sim_store k o (sim_get k s)) s)
    | None => (not_found, s)
    end
  | CDelete k _ name =>
    match sim_get k s !! name with
    | Some o =>
      let o := set_meta k ((meta k o) {{ DeletionTimestamp := Some (sim_now s) }}) o in
      (Ok tt, sim_put k (sim_store k o (sim_get k s)) s)
    | None => (not_found, s)
    end
  | CGetK8sNode _ => (Ok ∅, s)
  | CLister k _ name =>
    (match sim_get k s !! name with Some o => Ok o | None => not_found end, s)
  | CEvent _ _ _ _ _ => (tt, s)
  | CK8sNodeKeys => (map fst (map_to_list (sim_nodes s)), s)
  | CK8sNodes => (map (λ '(n, _), (n, ∅)) (map_to_list (sim_nodes s)), s)
  | CK8sHasIndex _ => (false, s)
  | CK8sByIndex _ _ => (Ok [], s)
  | CZfsNodeByKey key => (Ok (sim_nodes s !! (Cut "/" key).1.2), s)
  | CBkpByIndex _ _ => (Ok [], s)
  | CQueueGet => (None, s)
  | CQueueAdd _ | CQueueAddRateLimited _ | CQueueForget _ | CQueueDone _ | CHandleError _ => (tt, s)
  | CScheduler _ nmap => (map fst (map_to_list nmap), s)
  | CNewTimer n => ((sim_now s + n)%Z, s)
  | CSleep n => (tt, s {{ sim_now := (sim_now s + Z.max 0 n)%Z }})
  | CSelect d => (if (sim_now s <? d)%Z then SelDefault else SelTimer, s)
  | CPoll d => (negb (sim_now s <? d)%Z, s)
  | CSelectAfter _ => (SelTimer, s)
  | CUnixTime => (sim_now s, s)
  | CLock _ | CUnlock _ => (tt, s)
  | CStat _ => (Err (ErrOS EOTHER "no such file or directory"), s)
  | CEvalSymlinks p => (Ok p, s)
  | CMkdirAll _ | CRemove _ | COpenFile _ => (Ok tt, s)
  | CMountList => (Ok (sim_mtab s), s)
  | CGetMounts d => (Ok (map snd (List.filter (λ e, e.1 =? d) (sim_mtab s))), s)
  | CGetDeviceNameFromMount p =>
    (Ok (match List.find (λ e, e.2 =? p) (sim_mtab s) with
         | Some e => (if e.1 =? "" then "none" else e.1, Z.of_nat (length (List.filter (λ e', e'.1 =? e.1) (sim_mtab s))))
         | None => ("", 0%Z)
         end), s)
  | CPathExists _ => (Ok true, s)
  | CFormatAndMount d p _ _ _ => (Ok tt, s {{ sim_mtab := (d, p) :: sim_mtab s }})
  | CMount _ p _ _ => (Ok tt, s {{ sim_mtab := ("devtmpfs", p) :: sim_mtab s }})
  | CUnmount p => sim_unmount p s
  | CIsMountPath p => (existsb (λ e, e.2 =? p) (sim_mtab s), s)
  | CStatfs _ => (Err (ErrOS EOTHER "no such file or directory"), s)
  | CGetenv _ => ("", s)
  | CReadFile _ => (Err (ErrOS ENOENT "no such file or directory"), s)
  | CListen _ _ => (Ok tt, s)
  | CGenerateUUID _ _ => (Ok tt, s)
  | CAnalytics _ _ _ _ => (tt, s)
  | CUp c => (sim_up c, s)
  end.

Definition sim_env : Env sim := env_of sim_handler.

(** ** The simulator satisfies the laws *)

Lemma sim_step c s r s' : sim_env c s r s' → r = (sim_handler c s).1 ∧ s' = (sim_handler c s).2.
Proof. unfold sim_env, env_of. intros ->. done. Qed.

#[export] Instance sim_clientset : ClientsetFrame sim_env.
Proof. intros s r s' [_ ->]%sim_step. done. Qed.

Lemma sim_put_frame k m s : sim_ds (sim_put k m s) = sim_ds s ∧ sim_now (sim_put k m s) = sim_now s.
Proof. by destruct k. Qed.

Lemma sim_mount_frame args s :
  sim_ds (sim_mount args s).2 = sim_ds s ∧ sim_now (sim_mount args s).2 = sim_now s.
Proof. unfold sim_mount. by repeat case_match. Qed.

Lemma sim_unmount_frame p s :
  sim_ds (sim_unmount p s).2 = sim_ds s ∧ sim_now (sim_unmount p s).2 = sim_now s.
Proof. unfold sim_unmount. by repeat case_match. Qed.

#[export] Instance sim_zfs_laws : ZfsLaws sim_env sim_ds.
Proof.
  split.
  - intros d s r s' [-> ->]%sim_step. simpl. rewrite decide_True by done.
    by destruct (decide (d ∈ sim_ds s)); simpl.
  - intros sub args d s r s' Hsub Hlast [-> ->]%sim_step.
    rewrite !elem_of_cons, elem_of_nil in Hsub.
    destruct Hsub as [->|[->|[->|[]]]]; simpl; rewrite Hlast;
      by destruct (decide (d ∈ sim_ds s)); simpl.
  - intros d s r s' [-> ->]%sim_step. simpl. rewrite (decide_True _ _ (eq_refl [d])).
    by destruct (decide (d ∈ sim_ds s)); simpl.
  - intros d s r s' [-> ->]%sim_step. simpl. destruct (decide (d ∈ sim_ds s)); simpl; [|done].
    rewrite decide_False by done. simpl.
    split_and!; [set_solver|..]; [intros x ? Hx|intros _ x Hx];
      rewrite elem_of_filter in *; destruct (decide (below d x)); tauto.
  - intros c s r s' Hc [-> ->]%sim_step.
    destruct c; try done; simpl; repeat case_match; simpl;
      try apply sim_put_frame; try apply sim_unmount_frame; try apply sim_mount_frame; try done.
    to_prop. subst. unfold sim_zfs.
    destruct args as [|sub rest]; [done|]. simpl in Hc.
    repeat case_match; simplify_eq/=; try done; to_prop; subst; try done.
    rewrite !orb_true_iff, !String.eqb_eq in *. naive_solver.
Qed.

Lemma sim_zfs_now args s : sim_now (sim_zfs args s).2 = sim_now s.
Proof. unfold sim_zfs. repeat case_match; done. Qed.

#[export] Instance sim_clock_laws : ClockLaws sim_env sim_now.
Proof.
  split.
  - intros c s r s' [-> ->]%sim_step. destruct c; cbn [sim_handler snd]; repeat case_match; cbn [snd];
      rewrite ?sim_zfs_now, ?(proj2 (sim_put_frame _ _ _)), ?(proj2 (sim_mount_frame _ _)),
        ?(proj2 (sim_unmount_frame _ _)); simpl; try lia; by destruct s.
  - intros n s d s' [-> ->]%sim_step. simpl. lia.
  - intros n s d s' [-> ->]%sim_step. simpl. lia.
  - intros d s s' [Hr ->]%sim_step. simpl in *. destruct (Z.ltb_spec (sim_now s) d); [lia|done].
  - intros d s s' [Hr ->]%sim_step. simpl in *. destruct (Z.ltb_spec (sim_now s) d); [lia|done].
Qed.
