(* ===== verification/ZfsOpsSpec.v ===== *)
(** * What the dataset operations guarantee

    The operations of [ZfsOps] against a specification of the zfs tool: which
    datasets exist on the node before and after ([ZfsLaws]), and how long the
    operations wait ([ClockLaws]). *)

From S2P Require Import Prelude GoStr GoErr Api Csi Effects Kube ZfsArgs Builders VolumeOps ZfsOps Laws.

Section datasets.
Context {St : Type} (E : Env St) (ds : St → gset string) `{!ZfsLaws E ds}.
Context `{!GoRange}.

(** *** Rules for the building blocks *)

Lemma wp_getVolume d (Q : outcome unit → St → Prop) s :
  (∀ s', ds s' = ds s → d ∈ ds s → Q (ORet tt) s') →
  (∀ e s', ds s' = ds s → d ∉ ds s → Q (OErr e) s') →
  wp E (getVolume d) Q s.
Proof.
  intros Hok Herr. simpl. intros r s' [Hds Hr]%zfs_list.
  destruct (po_err r) as [e|]; simpl.
  - apply Herr; [done|]. rewrite <- Hr. done.
  - apply Hok; [done|]. by apply Hr.
Qed.

Lemma zfs_frame' c s r s' :
  E c s r s' → may_change_datasets c = false → ds s' = ds s.
Proof. intros ??. by eapply zfs_frame. Qed.

Lemma wp_zfs_add sub args d op dataset (Q : outcome unit → St → Prop) s :
  sub ∈ ["create"; "clone"; "snapshot"] → last args = Some d →
  (∀ s', ds s' = {[d]} ∪ ds s → Q (ORet tt) s') →
  (∀ e s', ds s' = ds s → Q (OErr e) s') →
  wp E (zfs_exec (sub :: args) op dataset) Q s.
Proof.
  intros Hsub Hlast Hok Herr. simpl. intros r s' Hstep.
  eapply zfs_add in Hstep; [|done..]. destruct (po_err r); simpl; auto.
Qed.

(** The operand of each builder is its last argument. *)
Lemma last_cons_app (x d : string) l : last (x :: l ++ [d]) = Some d.
Proof. by rewrite app_comm_cons, last_snoc. Qed.

Lemma create_args_shape vol :
  ∃ args, (if VolumeType (vol_Spec vol) =? VolTypeDataset
           then buildDatasetCreateArgs vol else buildZvolCreateArgs vol) = "create" :: args ∧
          last args = Some (vol_dataset vol).
Proof.
  destruct (_ =? _); eexists; (split; [reflexivity|]).
  - change ["-o"; "mountpoint=legacy"; vol_dataset vol]
      with (["-o"; "mountpoint=legacy"] ++ [vol_dataset vol]).
    rewrite !(assoc_L (++)). apply last_snoc.
  - rewrite !(assoc_L (++)). apply last_snoc.
Qed.

Lemma clone_args_shape vol :
  ∃ args, buildCloneCreateArgs vol = "clone" :: args ∧ last args = Some (vol_dataset vol).
Proof.
  eexists. split; [reflexivity|].
  change [dataset_of (PoolName (vol_Spec vol)) (SnapName (vol_Spec vol)); vol_dataset vol]
    with ([dataset_of (PoolName (vol_Spec vol)) (SnapName (vol_Spec vol))] ++ [vol_dataset vol]).
  rewrite !(assoc_L (++)). apply last_snoc.
Qed.

Lemma snap_args_shape snap :
  ∃ args, buildZFSSnapCreateArgs snap = "snapshot" :: args ∧
          last args = Some (snap_dataset snap).
Proof. eexists. split; [reflexivity|]. apply last_snoc. Qed.

(** *** Creation *)

(** The outcome of an operation that ensures a dataset exists. *)
Definition ensured (d : string) (s : St) (o : outcome unit) (s' : St) : Prop :=
  match o with
  | ORet _ => ds s' = {[d]} ∪ ds s
  | OErr _ => (d ∉ ds s) ∧ ds s' = ds s
  | _ => False
  end.

Lemma wp_ensure d sub args op dataset s :
  sub ∈ ["create"; "clone"; "snapshot"] → last args = Some d →
  wp E (r ← (attempt (getVolume d));
        match r with Err _ => zfs_exec (sub :: args) op dataset | Ok _ => Ret tt end)
    (ensured d s) s.
Proof.
  intros Hsub Hlast. apply wp_bind, wp_attempt, wp_getVolume; simpl.
  - intros s' Hs' Hin. simpl. rewrite Hs'. set_solver.
  - intros e s' Hs' Hnin. eapply wp_zfs_add; [done..| |]; simpl.
    + intros s'' Hs''. congruence.
    + intros e' s'' Hs''. split; congruence.
Qed.

Lemma wp_CreateVolume vol s : wp E (CreateVolume vol) (ensured (vol_dataset vol) s) s.
Proof.
  unfold CreateVolume. destruct (create_args_shape vol) as (args & -> & Hlast).
  by apply wp_ensure; [set_solver|].
Qed.

Lemma wp_CreateSnapshot snap s : wp E (CreateSnapshot snap) (ensured (snap_dataset snap) s) s.
Proof.
  unfold CreateSnapshot. destruct (snap_args_shape snap) as (args & -> & Hlast).
  by apply wp_ensure; [set_solver|].
Qed.

(** A clone needs its source snapshot first when it is made of a volume. *)
Definition clone_source (vol : ZFSVolume) : gset string :=
  match Labels (vol_Meta vol) !! ZFSSrcVolKey with
  | Some srcVol => {[snap_dataset (clone_snap vol srcVol)]}
  | None => ∅
  end.

Lemma wp_clone_source vol s :
  wp E (match Labels (vol_Meta vol) !! ZFSSrcVolKey with
        | Some srcVol => CreateSnapshot (clone_snap vol srcVol)
        | None => Ret tt
        end)
    (λ o s', match o with
             | ORet _ => ds s' = clone_source vol ∪ ds s
             | OErr _ => ds s' = ds s
             | _ => False
             end) s.
Proof.
  unfold clone_source. destruct (_ !! _) as [srcVol|].
  - eapply wp_mono, wp_CreateSnapshot. intros [] s'; simpl; naive_solver.
  - simpl. set_solver.
Qed.

(** What is common to all outcomes of cloning: nothing disappears and only the
    clone and its source snapshot appear. *)
Definition clone_frame (vol : ZFSVolume) (s s' : St) : Prop :=
  ds s ⊆ ds s' ∧ ds s' ⊆ {[vol_dataset vol]} ∪ clone_source vol ∪ ds s.

Lemma wp_CreateClone vol s :
  wp E (CreateClone vol)
    (λ o s', clone_frame vol s s' ∧
             match o with
             | ORet _ => ds s' = {[vol_dataset vol]} ∪ clone_source vol ∪ ds s
             | OErr _ => True
             | _ => False
             end) s.
Proof.
  unfold CreateClone. apply wp_bind. eapply wp_mono, wp_clone_source.
  intros [[]|e| |] s1; simpl; [|unfold clone_frame; set_solver|done..].
  intros H1. unfold clone_frame.
  destruct (clone_args_shape vol) as (args & Hargs & Hlast).
  apply (wp_bind E (attempt (getVolume (vol_dataset vol)))).
  assert (Hens := wp_ensure (vol_dataset vol) "clone" args "zfs clone" (vol_dataset vol) s1
                    ltac:(set_solver) Hlast).
  rewrite <- Hargs in Hens. apply wp_bind in Hens.
  eapply wp_mono; [|exact Hens]. intros [r|e| |] s2; simpl; [|set_solver|done..].
  intros H2. apply wp_bind. eapply wp_mono; [|exact H2].
  intros [[]|e| |] s3; simpl; [|set_solver|done..]. intros H3.
  assert (ds s3 = {[vol_dataset vol]} ∪ clone_source vol ∪ ds s) by set_solver.
  destruct (_ =? "xfs"); [|destruct (_ =? "btrfs"); [|simpl; set_solver]];
    simpl; intros r' s4 H4%zfs_frame'; [|done| |done]; destruct r'; simpl; set_solver.
Qed.

(** *** Destruction *)

Lemma wp_zfs_destroy d op dataset (Q : outcome unit → St → Prop) s :
  (∀ s', ds s' = ds s ∖ {[d]} → Q (ORet tt) s') →
  (∀ e s', ds s' = ds s → Q (OErr e) s') →
  wp E (zfs_exec ["destroy"; d] op dataset) Q s.
Proof.
  intros Hok Herr. simpl. intros r s' Hstep%zfs_destroy.
  destruct (po_err r); simpl; auto.
Qed.

Lemma wp_zfs_destroy_r d op dataset (Q : outcome unit → St → Prop) s :
  (∀ o s', ds s' ⊆ ds s → (∀ x, x ∈ ds s → x ∉ ds s' → below d x) →
           match o with
           | ORet _ => ∀ x, below d x → x ∉ ds s'
           | OErr _ => True
           | _ => False
           end → Q o s') →
  wp E (zfs_exec ["destroy"; "-r"; d] op dataset) Q s.
Proof.
  intros HQ. simpl. intros r s' (Hsub & Hout & Hgone)%zfs_destroy_r.
  destruct (po_err r); simpl; apply HQ; auto.
Qed.

(** The outcome of removing one snapshot, in the state it was called in. *)
Definition snap_removed (pool d : string) (s : St) (o : outcome unit) (s' : St) : Prop :=
  match o with
  | ORet _ => pool ∈ ds s ∧ ds s' = ds s ∖ {[d]}
  | OErr _ => ds s' = ds s
  | _ => False
  end.

Lemma wp_DestroySnapshot snap s :
  wp E (DestroySnapshot snap) (snap_removed (PoolName (snap_Spec snap)) (snap_dataset snap) s) s.
Proof.
  apply wp_bind, wp_getVolume; cbn [bind_post]; [|done].
  intros s1 H1 Hpool. apply wp_bind, wp_attempt, wp_getVolume; cbn [bind_post].
  - intros s2 H2 Hin. apply wp_zfs_destroy.
    + intros s3 H3. split; [done|congruence].
    + intros e3 s3 H3. congruence.
  - intros e2 s2 H2 Hnin. split; [done|]. set_solver.
Qed.

(** What destroying a volume may take away. *)
Definition volume_doomed (vol : ZFSVolume) (x : string) : Prop :=
  below (vol_dataset vol) x ∨ x ∈ clone_source vol.

Definition volume_removed (vol : ZFSVolume) (s : St) (o : outcome unit) (s' : St) : Prop :=
  ds s' ⊆ ds s ∧ (∀ x, x ∈ ds s → x ∉ ds s' → volume_doomed vol x) ∧
  match o with
  | ORet _ => PoolName (vol_Spec vol) ∈ ds s ∧ (vol_dataset vol ∉ ds s') ∧
              (vol_dataset vol ∈ ds s → ∀ x, below (vol_dataset vol) x → x ∉ ds s')
  | OErr _ => PoolName (vol_Spec vol) ∈ ds s → vol_dataset vol ∈ ds s
  | _ => False
  end.

(** The destruction proper, with the dataset present in [s]. *)
Lemma wp_destroy_present vol s :
  vol_dataset vol ∈ ds s → PoolName (vol_Spec vol) ∈ ds s →
  wp E (_ ← zfs_exec (buildVolumeDestroyArgs vol) "zfs destroy" (vol_dataset vol);
        match Labels (vol_Meta vol) !! ZFSSrcVolKey with
        | Some srcVol => _ ← attempt (DestroySnapshot (clone_snap vol srcVol)); Ret tt
        | None => Ret tt
        end) (volume_removed vol s) s.
Proof.
  intros Hin Hpool. unfold volume_removed, volume_doomed, clone_source.
  assert (below (vol_dataset vol) (vol_dataset vol)) as Hself by by left.
  apply wp_bind, wp_zfs_destroy_r. intros [[]|e| |] s1 Hsub Hout Hgone;
    cbn [bind_post]; [|naive_solver|done..].
  destruct (_ !! _) as [srcVol|]; [|simpl; naive_solver].
  apply wp_bind, wp_attempt. eapply wp_mono, wp_DestroySnapshot.
  intros [[]|e| |] s2; simpl; [intros [_ H2]|intros H2|done..]; rewrite H2; clear H2;
    (split; [set_solver|]); (split; [|set_solver]).
  - intros x Hx. rewrite elem_of_difference, elem_of_singleton.
    destruct (decide (x = snap_dataset (clone_snap vol srcVol))); set_solver.
  - set_solver.
Qed.

Lemma volume_removed_proper vol s1 s2 o s' :
  ds s1 = ds s2 → volume_removed vol s1 o s' → volume_removed vol s2 o s'.
Proof. unfold volume_removed. intros ->. done. Qed.

Lemma wp_DestroyVolume vol s : wp E (DestroyVolume vol) (volume_removed vol s) s.
Proof.
  apply wp_bind, wp_getVolume; cbn [bind_post].
  - intros s1 H1 Hpool. apply wp_bind, wp_attempt, wp_getVolume; cbn [bind_post].
    + intros s2 H2 Hin. eapply wp_mono, wp_destroy_present; [|congruence..].
      intros o s'. apply volume_removed_proper. congruence.
    + intros e2 s2 H2 Hnin. unfold volume_removed. simpl. set_solver.
  - intros e s1 H1 Hpool. unfold volume_removed. rewrite H1. set_solver.
Qed.

(** *** Properties *)

(** C11: creating a volume succeeds only with its dataset there and nothing else
    changed, fails only with the dataset absent and nothing changed, and creating it
    again after a success succeeds and changes nothing. *)
Theorem CreateVolume_ensures vol s :
  wp E (CreateVolume vol)
    (λ o s', ensured (vol_dataset vol) s o s' ∧
             (o = ORet tt →
              wp E (CreateVolume vol) (λ o' s'', o' = ORet tt ∧ ds s'' = ds s') s')) s.
Proof.
  eapply wp_mono, wp_CreateVolume. intros o s' Hens. split; [done|]. intros ->.
  eapply wp_mono, wp_CreateVolume. intros [[]|e| |] s''; simpl in *; set_solver.
Qed.

(** Cloning a volume or a snapshot never removes a dataset and adds none but the
    clone and, for a clone of a volume, the snapshot it is made of; after a success
    both are there. *)
Theorem CreateClone_ensures vol s :
  wp E (CreateClone vol)
    (λ o s', clone_frame vol s s' ∧
             match o with
             | ORet _ => ds s' = {[vol_dataset vol]} ∪ clone_source vol ∪ ds s
             | OErr _ => True
             | _ => False
             end) s.
Proof. apply wp_CreateClone. Qed.


(** Destroying a snapshot is the inverse of creating it: together they succeed
    only with the datasets and snapshots as they were; a failure of the creation
    changes nothing. *)
Theorem snapshot_roundtrip snap s :
  snap_dataset snap ∉ ds s →
  wp E (_ ← CreateSnapshot snap; DestroySnapshot snap)
    (λ o s', match o with
             | ORet _ => ds s' = ds s
             | OErr _ => ds s' = ds s ∨ ds s' = {[snap_dataset snap]} ∪ ds s
             | _ => False
             end) s.
Proof.
  intros Hn. apply wp_bind. eapply wp_mono, wp_CreateSnapshot.
  intros [[]|e| |] s1 H1; cbn [bind_post]; try done; simpl in H1; [|by left; apply H1].
  eapply wp_mono, wp_DestroySnapshot.
  intros [[]|e| |] s2 H2; try done; simpl in H2; [|right; congruence].
  destruct H2 as [_ ->]. rewrite H1. set_solver.
Qed.
End datasets.

(** ** One dataset among others

    What the operations do to one dataset [D], whoever is at work on the other datasets
    of the node. *)

Section one_dataset.
Context {St : Type} (E : Env St) (D : string) (has : St → Prop).
Context `{Hat : !ZfsLawsAt E D has} `{!GoRange}.

Lemma at_quiet c s r s' : E c s r s' → may_change_datasets c = false → has s' ↔ has s.
Proof. intros ??. by eapply at_frame. Qed.

Lemma wp_at_getVolume d s :
  wp E (getVolume d)
    (λ o s', (has s' ↔ has s) ∧ (d = D → o = ORet tt ↔ has s')) s.
Proof.
  simpl. intros r s' Hstep. pose proof (at_quiet _ _ _ _ Hstep eq_refl) as Hs.
  destruct (po_err r) as [e|] eqn:He; simpl; (split; [done|]); intros ->;
    pose proof (at_list _ _ _ Hstep) as Hl; rewrite He in Hl; rewrite Hs; naive_solver.
Qed.

(** An operation that ensures a dataset exists keeps this one. *)
Lemma wp_at_ensure d sub args op dataset s :
  sub ∈ ["create"; "clone"; "snapshot"] → last args = Some d →
  wp E (r ← attempt (getVolume d);
        match r with Err _ => zfs_exec (sub :: args) op dataset | Ok _ => Ret tt end)
    (λ o s', d = D → o = ORet tt → has s') s.
Proof.
  intros Hsub Hlast. apply wp_bind, wp_attempt. eapply wp_mono, wp_at_getVolume.
  intros [[]|e| |] s1 [_ Hd]; simpl; try done.
  - intros Heq _. by apply Hd.
  - intros r s2 Hstep. destruct (at_add _ _ _ _ _ _ Hsub Hlast Hstep) as [_ Hok].
    destruct (po_err r) eqn:He; simpl; naive_solver.
Qed.

(** Removing a snapshot brings nothing back. *)
Lemma wp_at_DestroySnapshot snap s : wp E (DestroySnapshot snap) (λ _ s', has s' → has s) s.
Proof.
  apply wp_bind. eapply wp_mono, wp_at_getVolume. intros [[]|e| |] s1 [H1 _]; cbn [bind_post]; try tauto.
  apply wp_bind, wp_attempt. eapply wp_mono, wp_at_getVolume.
  intros [[]|e| |] s2 [H2 _]; cbn [bind_post]; try (simpl; tauto).
  simpl. intros r s3 Hstep. destruct (at_destroy _ _ _ _ Hstep). destruct (po_err r); simpl; tauto.
Qed.

(** Removing the snapshot itself takes it away. *)
Lemma wp_at_snapshot_destroyed snap s :
  snap_dataset snap = D → wp E (DestroySnapshot snap) (λ o s', o = ORet tt → ¬ has s') s.
Proof.
  intros HD. apply wp_bind, wp_any. intros [[]|e| |] s1; cbn [bind_post]; try done.
  apply wp_bind, wp_attempt. eapply wp_mono, wp_at_getVolume.
  intros [[]|e| |] s2 [_ H2]; cbn [bind_post]; try done.
  - simpl. intros r s3 Hstep. destruct (at_destroy _ _ _ _ Hstep) as [_ Hgone].
    destruct (po_err r); simpl; [done|]. intros _. by apply Hgone.
  - intros _ Hs2. by apply H2 in Hs2.
Qed.

Lemma wp_at_CreateSnapshot snap s :
  snap_dataset snap = D → wp E (CreateSnapshot snap) (λ o s', o = ORet tt → has s') s.
Proof.
  intros HD. unfold CreateSnapshot. destruct (snap_args_shape snap) as (args & -> & Hlast).
  eapply wp_mono, wp_at_ensure; [auto|set_solver|done].
Qed.
End one_dataset.

(** The dataset of a volume. *)

Section volume_dataset.
Context {St : Type} (E : Env St) (vol : ZFSVolume) (has : St → Prop).
Context `{Hat : !ZfsLawsAt E (vol_dataset vol) has} `{!GoRange}.

Lemma wp_at_CreateVolume s : wp E (CreateVolume vol) (λ o s', o = ORet tt → has s') s.
Proof.
  unfold CreateVolume. destruct (create_args_shape vol) as (args & -> & Hlast).
  eapply wp_mono, (wp_at_ensure E (vol_dataset vol) has); [auto|set_solver|done].
Qed.

Lemma wp_at_CreateClone s : wp E (CreateClone vol) (λ o s', o = ORet tt → has s') s.
Proof.
  unfold CreateClone. apply wp_bind, wp_any. intros [[]|e| |] s1; try done; cbn [bind_post].
  destruct (clone_args_shape vol) as (args & Hargs & Hlast). apply (wp_bind E (attempt _)).
  assert (Hens := wp_at_ensure E (vol_dataset vol) has (vol_dataset vol) "clone" args "zfs clone" (vol_dataset vol) s1
                    ltac:(set_solver) Hlast).
  rewrite <- Hargs in Hens. apply wp_bind in Hens.
  eapply wp_mono; [|exact Hens]. intros [r|e| |] s2 H2; simpl in *; try done.
  apply wp_bind. eapply wp_mono; [|exact H2]. intros [[]|e| |] s3 H3; try done; cbn [bind_post].
  specialize (H3 eq_refl eq_refl).
  destruct (_ =? "xfs"); [|destruct (_ =? "btrfs"); [|simpl; auto]];
    simpl; intros r' s4 H4%(at_quiet E (vol_dataset vol) has); [|done| |done]; destruct r'; simpl; tauto.
Qed.

Lemma wp_at_destroyed op dataset s :
  wp E (zfs_exec (buildVolumeDestroyArgs vol) op dataset) (λ o s', o = ORet tt → ¬ has s') s.
Proof.
  simpl. intros r s' Hstep. destruct (at_destroy_r _ _ _ _ Hstep) as [_ Hgone].
  destruct (po_err r); simpl; [done|]. intros _. by apply Hgone.
Qed.

Lemma wp_at_DestroyVolume s : wp E (DestroyVolume vol) (λ o s', o = ORet tt → ¬ has s') s.
Proof.
  apply wp_bind, wp_any. intros [[]|e| |] s1; cbn [bind_post]; try done.
  apply wp_bind, wp_attempt. eapply wp_mono, (wp_at_getVolume E (vol_dataset vol) has).
  intros [[]|e| |] s2 [_ H2]; cbn [bind_post]; try done.
  - apply wp_bind. eapply wp_mono, wp_at_destroyed. intros [[]|e| |] s3 Hgone; try done; cbn [bind_post].
    specialize (Hgone eq_refl). destruct (_ !! _) as [srcVol|]; [|simpl; auto].
    apply wp_bind, wp_attempt. eapply wp_mono, (wp_at_DestroySnapshot E (vol_dataset vol) has).
    intros [[]|e| |] s4 H4; simpl; auto.
  - intros _ Hs2. by apply H2 in Hs2.
Qed.
End volume_dataset.

(** ** Bounded waiting *)

Section clock.
Context {St : Type} (E : Env St) (now : St → Z) `{!ClockLaws E now}.

(** [n] seconds to the deadline need [n + 1] polls. *)
Lemma wp_getDevice_loop n fuel timeout device s :
  (timeout <= now s + Z.of_nat n)%Z → (n < fuel)%nat →
  wp E (getDevice_loop fuel timeout device)
    (λ o _, match o with
            | ORet dev => dev = device
            | OErr e => e = Errorf "zfs: not able to get the device: %s" [device]
            | _ => False
            end) s.
Proof.
  revert fuel s. induction n as [|n IH]; intros [|fuel] s Ht Hf; try lia;
    simpl; intros fired s1 Hp; pose proof (clock_monotone _ _ _ _ Hp);
    (destruct fired; [done|]); apply clock_poll in Hp; [lia|].
  intros st s2 H2%clock_monotone. destruct st as [fi|e]; simpl; [done|].
  intros [] s3 H3%clock_sleep. apply IH; lia.
Qed.

Context `{!Globals}.

(** Reading a volume takes some time, and returns or fails. *)
Lemma wp_GetZFSVolume_now name s (Q : outcome ZFSVolume → St → Prop) :
  (∀ e s', (now s <= now s')%Z → Q (OErr e) s') →
  (∀ vol s1 s', (now s <= now s')%Z →
     E (CGet KVol OpenEBSNamespace name) s1 (Ok vol) s' → Q (ORet vol) s') →
  wp E (GetZFSVolume name) Q s.
Proof.
  intros Herr Hok. unfold GetZFSVolume, Kubeclient_Get.
  destruct (name =? ""); [apply Herr; lia|]. simpl.
  intros [[]|e] s1 H1%clock_monotone; simpl; [|apply Herr; lia].
  intros [vol|e] s2 H2; pose proof (clock_monotone _ _ _ _ H2); simpl;
    [eapply Hok; [lia|done]|apply Herr; lia].
Qed.

(** What the wait for a volume reports: success only after the API server said
    the volume is ready, and the flag only with an error of the deadline. *)
Definition wait_result (volname : string) (o : outcome (bool * option error)) : Prop :=
  match o with
  | ORet (false, None) =>
    ∃ vol s1 s2, E (CGet KVol OpenEBSNamespace volname) s1 (Ok vol) s2 ∧
                 vol_State vol = ZFSStatusReady
  | ORet (timeout, Some e) =>
    status_code e = Some (if timeout then DeadlineExceeded else Internal)
  | _ => False
  end.

Lemma wp_checkVolCreation_loop n fuel timeout volname s :
  (timeout <= now s + Z.of_nat n)%Z → (n < fuel)%nat →
  wp E (checkVolCreation_loop fuel timeout volname) (λ o _, wait_result volname o) s.
Proof.
  revert fuel s. induction n as [|n IH]; intros [|fuel] s Ht Hf; try lia;
    cbn [checkVolCreation_loop]; apply wp_call; intros sel s1 Hp;
    pose proof (clock_monotone _ _ _ _ Hp);
    (destruct sel; [done|done|]); apply clock_select in Hp; [lia|].
  apply wp_bind, wp_attempt, wp_GetZFSVolume_now; cbn [bind_post]; [done|].
  intros vol s2 s3 H3 Hget.
  destruct (vol_State vol =? ZFSStatusReady) eqn:Hr; [simpl; to_prop; by eexists _, _, _|].
  destruct (vol_State vol =? ZFSStatusFailed); [done|].
  apply wp_call. intros [] s4 H4%clock_sleep. apply IH; lia.
Qed.

(** The wait for the device of a zvol ends: with a clock that keeps its promises,
    six rounds of the loop are enough for its five seconds, and the answer is the
    path of the device or the error that names it. *)
Theorem getDevice_terminates fuel volume s :
  (6 <= fuel)%nat →
  wp E (getDevice fuel volume)
    (λ o _, match o with
            | ORet dev => dev = ZFSDevPath +:+ volume
            | OErr e => e = Errorf "zfs: not able to get the device: %s" [ZFSDevPath +:+ volume]
            | _ => False
            end) s.
Proof.
  intros Hf. apply wp_bind, wp_call. intros timeout s1 H1%clock_timer.
  apply (wp_getDevice_loop 5); lia.
Qed.

(** C39: the wait for a volume to be created ends: eleven rounds of the loop are
    enough for its ten seconds; it reports success only after the API server said
    the volume is ready, and the timeout only with the error of the deadline. *)
Theorem checkVolCreation_terminates fuel volname s :
  (11 <= fuel)%nat →
  wp E (checkVolCreation fuel volname) (λ o _, wait_result volname o) s.
Proof.
  intros Hf. apply wp_bind, wp_call. intros timeout s1 H1%clock_timer.
  apply (wp_checkVolCreation_loop 10); lia.
Qed.
End clock.
