(* ===== verification/PipeSpec.v ===== *)
(** * The pipe of a backup or restore

    What [runPipe] and [ResizeZFSVolume] do against an arbitrary operating system:
    theorems over every trace of commands and responses. *)

From S2P Require Import Prelude GoStr GoErr Api Csi Effects Kube ZfsArgs Builders VolumeOps ZfsOps.

(** Does a trace hold an event that satisfies [p]? *)
Definition happened (p : event → bool) (tr : trace) : bool := existsb p tr.

Definition started (c : side) (e : event) : bool :=
  let 'existT c0 r := e in
  (match c0 as c0 return resp c0 → bool with
   | CStart c' _ _ => λ r, match r with Ok _ => bool_decide (c = c') | Err _ => false end
   | _ => λ _, false
   end) r.

Definition pipe_made (e : event) : bool :=
  let 'existT c0 r := e in
  (match c0 as c0 return resp c0 → bool with
   | COsPipe => λ r, match r with Ok _ => true | Err _ => false end
   | _ => λ _, false
   end) r.

Definition end_closed (en : pipe_end) (e : event) : bool :=
  match projT1 e with CCloseEnd en' => bool_decide (en = en') | _ => false end.

(** Somebody waits for the child: the parent, or a goroutine of its own. *)
Definition waited (c : side) (e : event) : bool :=
  match projT1 e with
  | CWaitProc c' | CGoWait c' => bool_decide (c = c')
  | _ => false
  end.

Definition killed (c : side) (e : event) : bool :=
  match projT1 e with CKill c' => bool_decide (c = c') | _ => false end.

(** An exit of child [c] received from the channel, with or without an error. *)
Definition exited (c : side) (ok : bool) (e : event) : bool :=
  let 'existT c0 r := e in
  (match c0 as c0 return resp c0 → bool with
   | CRecvExit => λ r, bool_decide (r.1 = c) &&
                       eqb ok (match r.2 with None => true | Some _ => false end)
   | _ => λ _, false
   end) r.

(** The two goroutines send one exit each. *)
Definition exits_distinct (tr : trace) : Prop :=
  ∀ tr1 tr2 r1 r2, tr = tr1 ++ ev CRecvExit r1 :: tr2 → ev CRecvExit r2 ∈ tr2 → r2.1 = peer r1.1.

Definition pipe_post (o : outcome (string * option error)) (tr : trace) : Prop :=
  match o with
  | ORet (_, err) =>
    (* the ends of the pipe do not leak *)
    (happened pipe_made tr = true →
     happened (end_closed Reader) tr = true ∧ happened (end_closed Writer) tr = true) ∧
    (* no child is left behind *)
    (∀ c, happened (started c) tr = true → happened (waited c) tr = true) ∧
    (* a failure of one child cancels the other *)
    (∀ c, happened (exited c false) tr = true → happened (killed (peer c)) tr = true) ∧
    (* a kill only follows a failure *)
    (err = None → happened (killed Source) tr = false ∧ happened (killed Destination) tr = false) ∧
    (* success is both children started and exited without an error *)
    (exits_distinct tr → err = None →
     ∀ c, happened (started c) tr = true ∧ happened (exited c true) tr = true)
  | _ => False
  end.

Lemma exits_distinct_two tr1 tr2 tr3 r1 r2 :
  exits_distinct (tr1 ++ ev CRecvExit r1 :: tr2 ++ ev CRecvExit r2 :: tr3) → r2.1 = peer r1.1.
Proof. intros H. eapply H; [done|]. rewrite elem_of_app, elem_of_cons. auto. Qed.

Lemma wp_runPipe src srcArgs dst dstArgs dataset :
  wp any_env (runPipe src srcArgs dst dstArgs dataset) pipe_post [].
Proof.
  simpl. intros [[]|e]; trace_step; [|by split_and!; try done; intros []].
  intros [[]|e]; trace_step.
  2: { do 2 (intros []; trace_step). by split_and!; try done; intros []. }
  intros []; trace_step. intros [[]|e]; trace_step.
  2: { do 2 (intros []; trace_step). do 2 (intros ?; trace_step).
       do 2 (intros []; trace_step). by split_and!; try done; intros []. }
  do 3 (intros []; trace_step). intros [c1 [e1|]]; trace_step.
  - intros []; trace_step. intros [c2 [e2|]]; trace_step; do 2 try (intros []; trace_step);
      repeat (intros ?; trace_step); split_and!; try done; by destruct c1, c2; intros [].
  - intros [c2 [e2|]]; trace_step; repeat (intros ?; trace_step); split_and!; try done;
      try by destruct c1, c2; intros [].
    intros Hd _ c.
    apply (exits_distinct_two [_; _; _; _; _; _; _] []) in Hd. simpl in Hd. subst c2.
    by destruct c1, c.
Qed.

(** ** Resizing *)

(** The child processes run to completion in a trace: command lines and results. *)
Definition exec_of (e : event) : option (list string * proc_out) :=
  let 'existT c0 r := e in
  (match c0 as c0 return resp c0 → option (list string * proc_out) with
   | CExec name args => λ r, Some (name :: args, r)
   | _ => λ _, None
   end) r.

Definition execs (tr : trace) : list (list string * proc_out) := omap exec_of tr.

Definition get_reservation (vol : ZFSVolume) : list string :=
  ["zfs"; "get"; "-pH"; "-o"; "value";
   reservationPropertyName (QuotaType (vol_Spec vol)); vol_dataset vol].

(** When the [zfs set] of a resize fails, it is followed by exactly one more, with
    the reservation that was read before it as the size, and its own error is
    returned. *)
Definition resize_reverted (vol : ZFSVolume) (o : outcome unit) (tr : trace) : Prop :=
  ∀ old c getErr setPo err rest,
    execs tr = (get_reservation vol, mkProcOut (old +:+ str1 c) getErr)
               :: ("zfs" :: buildVolumeResizeArgs vol, setPo) :: rest →
    po_err setPo = Some err →
    o = OErr (ErrZFS "zfs set quota" (vol_dataset vol) (TrimSpace (po_out setPo)) err) ∧
    ∃ revPo, rest = [("zfs" :: buildVolumeResizeArgs (reverted vol old), revPo)].

Lemma take_str_snoc s c : take_str (String.length (s +:+ str1 c) - 1) (s +:+ str1 c) = s.
Proof.
  rewrite length_app_str. simpl. rewrite Nat.add_sub.
  induction s as [|a s IH]; simpl; congruence.
Qed.

Lemma wp_ResizeZFSVolume vol mountpath resizefs :
  wp any_env (ResizeZFSVolume vol mountpath resizefs) (resize_reverted vol) [].
Proof.
  unfold ResizeZFSVolume, GetVolumeProperty, zfs_exec, runCmd. simpl.
  intros [gout [gerr|]]; trace_step; [by intros ?????? [=]|].
  destruct (gout =? "") eqn:Hg; [by intros ?????? [=]|]. simpl.
  intros [sout [serr|]]; trace_step.
  - intros revPo; trace_step. destruct (po_err revPo); simpl.
    all: intros old c gerr setPo err rest Heq Herr; simplify_eq/=;
      split; [done|]; exists revPo; by rewrite take_str_snoc.
  - apply trace_extends. intros o rest old c gerr setPo err rest' Heq Herr.
    by simplify_eq/=.
Qed.

(** So a thin dataset, whose reservation is 0, loses its quota when a resize
    fails. *)
Lemma thin_revert_args vol :
  VolumeType (vol_Spec vol) = VolTypeDataset → ThinProvision (vol_Spec vol) ≠ "no" →
  buildVolumeResizeArgs (reverted vol "0") =
  ["set"; quotaProperty (QuotaType (vol_Spec vol)) +:+ "=0"; vol_dataset vol].
Proof.
  intros Hvt Htp%String.eqb_neq. destruct vol as [m [] st]. simpl in *. subst.
  unfold buildVolumeResizeArgs. simpl. by rewrite Htp.
Qed.

(** ** Properties *)

(** C9: whatever the operating system answers, the pipe of a backup or restore
    returns; no end of the pipe leaks and no child is left without a wait; a child
    is killed when the other fails and only then; and it reports success only when
    both children were started and exited without an error. *)
Theorem runPipe_correct src srcArgs dst dstArgs dataset :
  wp any_env (runPipe src srcArgs dst dstArgs dataset) pipe_post [].
Proof. apply wp_runPipe. Qed.

(** When the [zfs set] of a resize fails, it is followed by exactly one more,
    with the reservation that was read before it in place of the size, and the error
    of the first is returned whatever the second does. *)
Theorem ResizeZFSVolume_reverts vol mountpath resizefs :
  wp any_env (ResizeZFSVolume vol mountpath resizefs) (resize_reverted vol) [].
Proof. apply wp_ResizeZFSVolume. Qed.

(** The reservation of a thin dataset is 0, so the second command of a failed resize
    takes its quota away: [quota=0] is no quota. *)
Theorem failed_thin_resize_drops_quota vol o tr getErr setPo err rest :
  VolumeType (vol_Spec vol) = VolTypeDataset → ThinProvision (vol_Spec vol) ≠ "no" →
  resize_reverted vol o tr →
  execs tr = (get_reservation vol, mkProcOut ("0" +:+ str1 newline) getErr)
             :: ("zfs" :: buildVolumeResizeArgs vol, setPo) :: rest →
  po_err setPo = Some err →
  ∃ po, rest = [(["zfs"; "set"; quotaProperty (QuotaType (vol_Spec vol)) +:+ "=0"; vol_dataset vol], po)].
Proof.
  intros Hvt Htp Hrev Htr Herr. destruct (Hrev _ _ _ _ _ _ Htr Herr) as [_ [po ->]].
  exists po. by rewrite (thin_revert_args vol Hvt Htp).
Qed.
