(* ===== verification/PoolSpec.v ===== *)
(** * Reading the listing of pools

    [decodeListOutput] inverts the output format of [zfs list -H -p -o
    name,guid,available,used]: it returns the rows whose name has no slash, in
    order, whatever the other rows are. *)

From S2P Require Import Prelude GoStr GoErr Api Csi Effects Kube ZfsArgs Builders VolumeOps ZfsOps.

(** One row as zfs prints it, and the whole listing. *)
Definition render_row (p : Pool) : string :=
  Join [pool_Name p; pool_UUID p; FormatInt (pool_Free p); FormatInt (pool_Used p)] (str1 tab).

Fixpoint render (rows : list Pool) : string :=
  match rows with
  | [] => ""
  | p :: rows => render_row p +:+ String newline (render rows)
  end.

(** No byte of [s] is white space. *)
Fixpoint no_space (s : string) : bool :=
  match s with "" => true | String a s => negb (is_space a) && no_space s end.

(** What zfs guarantees of a row: a name and a guid without white space, sizes of
    64 bits, and a line that fits in the buffer of the scanner. *)
Record row_ok (p : Pool) : Prop := mkRowOk {
  row_name : no_space (pool_Name p) = true;
  row_name_nonempty : pool_Name p ≠ "";
  row_uuid : no_space (pool_UUID p) = true;
  row_free : in_int64 (pool_Free p);
  row_used : in_int64 (pool_Used p);
  row_len : (slen (render_row p) < MaxScanTokenSize)%Z;
}.

(** ** White space *)

Lemma no_space_has_char s c : no_space s = true → is_space c = true → has_char c s = false.
Proof.
  intros Hs Hc. induction s as [|a s IH]; simpl in *; [done|]. to_prop.
  rewrite IH by done. destruct (Ascii.eqb_spec a c); [congruence|done].
Qed.

Lemma trim_right_nil s : trim_right s = "" → no_space s = true → s = "".
Proof.
  destruct s as [|a s]; simpl; [done|]. intros Ht Hn. to_prop.
  rewrite H in Ht. by destruct (trim_right s).
Qed.

Lemma trim_right_id s : no_space s = true → trim_right s = s.
Proof.
  induction s as [|a s IH]; simpl; [done|]. intros Hn. to_prop.
  rewrite IH by done. by destruct s; rewrite ?H.
Qed.

Lemma trim_right_word t u : u ≠ "" → no_space u = true → trim_right (t +:+ u) = t +:+ u.
Proof. intros Hu Hs. rewrite trim_right_app; by rewrite trim_right_id by done. Qed.

Lemma trim_left_id s u : s ≠ "" → no_space s = true → trim_left (s +:+ u) = s +:+ u.
Proof. destruct s; simpl; [done|]. intros _ ?. to_prop. by rewrite H. Qed.

Lemma drop_cr_app t u : u ≠ "" → no_space u = true → drop_cr (t +:+ u) = t +:+ u.
Proof.
  intros Hu Hs. unfold drop_cr.
  assert (∃ c, String.get (String.length (t +:+ u) - 1) (t +:+ u) = Some c ∧ is_space c = false)
    as (c & -> & Hc).
  { induction t as [|a t IH]; simpl.
    - induction u as [|a u IHu]; simpl in *; [done|]. to_prop.
      destruct u as [|b u]; [by exists a|]. rewrite Nat.sub_0_r. simpl in *.
      rewrite Nat.sub_0_r in IHu. by apply IHu.
    - destruct IH as (c & Hg & Hc). exists c. split; [|done].
      rewrite Nat.sub_0_r. destruct (t +:+ u) as [|b v] eqn:E; [by destruct t|].
      simpl in Hg |- *. by rewrite Nat.sub_0_r in Hg. }
  destruct (Ascii.eqb_spec c "013"); [by subst|done].
Qed.

Lemma digits_no_space d : no_space (uint_to_string d) = true.
Proof. induction d; simpl; auto. Qed.

Lemma FormatInt_no_space z : no_space (FormatInt z) = true.
Proof. destruct z; simpl; rewrite ?digits_no_space; done. Qed.

(** ** One row *)

Lemma render_row_eq p :
  render_row p =
  pool_Name p +:+ (str1 tab +:+ pool_UUID p +:+ str1 tab +:+ FormatInt (pool_Free p) +:+ str1 tab
                   +:+ FormatInt (pool_Used p)).
Proof. done. Qed.

Lemma render_row_end p :
  ∃ t, render_row p = t +:+ FormatInt (pool_Used p).
Proof.
  eexists (pool_Name p +:+ str1 tab +:+ pool_UUID p +:+ str1 tab +:+ FormatInt (pool_Free p)
           +:+ str1 tab).
  rewrite render_row_eq, !app_assoc_str. done.
Qed.

Lemma TrimSpace_row p : row_ok p → TrimSpace (render_row p) = render_row p.
Proof.
  intros Hp. unfold TrimSpace. destruct (render_row_end p) as [t Ht].
  rewrite Ht, trim_right_word, <- Ht by auto using FormatInt_nonempty, FormatInt_no_space.
  rewrite render_row_eq. apply trim_left_id; apply Hp.
Qed.

Lemma no_newline p : row_ok p → has_char newline (render_row p) = false.
Proof.
  intros []. rewrite render_row_eq, !has_char_app.
  by rewrite (no_space_has_char (pool_Name p)), (no_space_has_char (pool_UUID p)),
    !(no_space_has_char (FormatInt _)) by auto using FormatInt_no_space.
Qed.

(** Is it a pool, to the decoder? *)
Definition is_pool (p : Pool) : bool := negb (Contains (pool_Name p) "/").

Lemma decode_row p : row_ok p → decode_line (render_row p) = Ret (if is_pool p then Some p else None).
Proof.
  intros Hp. unfold decode_line. rewrite TrimSpace_row by done.
  unfold render_row. rewrite Split_Join; [|done|].
  2: { destruct Hp. repeat constructor; apply no_space_has_char; auto using FormatInt_no_space. }
  simpl. unfold is_pool. destruct (Contains (pool_Name p) "/"); [done|]. simpl.
  rewrite !ParseInt_FormatInt by apply Hp. by destruct p.
Qed.

(** ** The listing *)

Lemma scan_render rows : Forall row_ok rows → scan_lines (render rows) = map render_row rows.
Proof.
  intros Hrows. unfold scan_lines.
  assert (Split newline (render rows) = map render_row rows ++ [""]) as ->.
  { induction Hrows as [|p rows Hp _ IH]; [done|]. simpl.
    by rewrite Split_app, IH by by apply no_newline. }
  assert (drop_last_empty (map render_row rows ++ [""]) = map render_row rows) as ->.
  { clear. induction rows as [|p rows IH]; [done|]. simpl. rewrite IH.
    destruct (map render_row rows); done. }
  induction Hrows as [|p rows Hp _ IH]; [done|]. simpl.
  apply row_len in Hp as Hlen. apply Z.ltb_lt in Hlen. rewrite Hlen. simpl. f_equal; [|done].
  destruct (render_row_end p) as [t ->].
  apply drop_cr_app; auto using FormatInt_nonempty, FormatInt_no_space.
Qed.

Lemma decode_lines_render rows pools :
  Forall row_ok rows →
  decode_lines (map render_row rows) pools = Ret (pools ++ List.filter is_pool rows).
Proof.
  intros Hrows. revert pools. induction Hrows as [|p rows Hp _ IH]; intros pools; simpl.
  { by rewrite app_nil_r. }
  rewrite decode_row by done. simpl. rewrite IH.
  destruct (is_pool p); simpl; by rewrite <- (assoc_L (++)).
Qed.

(** ** Properties *)

(** C33: decoding inverts the format of the listing: of any rows that zfs can print,
    the decoder returns the pools, that is the rows whose name has no slash, in
    order and with their names, guids and sizes. *)
Theorem decodeListOutput_roundtrip rows :
  Forall row_ok rows → decodeListOutput (render rows) = Ret (List.filter is_pool rows).
Proof.
  intros Hrows. unfold decodeListOutput. rewrite scan_render by done.
  by rewrite decode_lines_render by done.
Qed.

(** The output that is decoded holds what the tool writes to its standard error too:
    a line of text without the four fields, such as a warning, is read past the end
    of the slice of its fields, after any rows. *)
Theorem decodeListOutput_panics_on_text :
  decodeListOutput ("zpool" +:+ str1 tab +:+ "1" +:+ str1 tab +:+ "2" +:+ str1 tab +:+ "3" +:+ str1 newline
                    +:+ "warning: module and tool versions differ" +:+ str1 newline)
  = Crash "index out of range".
Proof. reflexivity. Qed.
