(* ===== verification/Mount.v ===== *)
(** * Mounting (pkg/zfs/mount.go, pkg/zfs/formatoptions.go)

    The mount and unmount operations of the node agent: the checks before a mount,
    the mount of a dataset with mount(8) or the zfs tool, of a formatted zvol with
    the formatter of k8s.io/mount-utils, of a raw zvol as a bind mount, and the
    options of mkfs. *)

From S2P Require Import Prelude GoStr GoErr Api Csi Effects Kube ZfsArgs Builders VolumeOps ZfsOps.

(** ** Format options *)

Definition fsTypeDefault := "ext4".

Definition formattableFsTypes : list string := ["ext2"; "ext3"; "ext4"; "xfs"; "btrfs"].

(** The variable [defaultFormatOptions]: the options of each file system. *)
Abbreviation format_defaults := (gmap string (list string)).

(** The loop over the entries; [options] is the map built so far. *)
Fixpoint parse_format_entries (entries : list string) (options : format_defaults)
    : result format_defaults :=
  match entries with
  | [] => Ok options
  | entry :: entries =>
    match Cut "=" entry with
    | (_, _, false) =>
      Err (Errorf "format options %q are not in the <fstype>=<options> form" [entry])
    | (fstype, value, true) =>
      let fstype := ToLower (TrimSpace fstype) in
      if negb (existsb (String.eqb fstype) formattableFsTypes) then
        Err (Errorf "format options %q are for %q, which is not one of the formatted filesystems"
               [entry; fstype])
      else
        match Fields value with
        | [] => parse_format_entries entries options
        | opts => parse_format_entries entries (<[fstype := opts]> options)
        end
    end
  end.

(** The new value of the variable, and the error: the variable is assigned after
    the last entry. *)
Definition SetDefaultFormatOptions (entries : list string) (defaultFormatOptions : format_defaults)
    : format_defaults * option error :=
  match parse_format_entries entries ∅ with
  | Ok options => (options, None)
  | Err err => (defaultFormatOptions, Some err)
  end.

Definition FormatOptions (defaultFormatOptions : format_defaults) (fstype scOptions : string)
    : list string :=
  match Fields scOptions with
  | [] =>
    let fstype := ToLower (TrimSpace fstype) in
    let fstype := if fstype =? "" then fsTypeDefault else fstype in
    default [] (defaultFormatOptions !! fstype)
  | options => options
  end.

(** ** Mounting *)

Record MountInfo := mkMountInfo {
  mi_FSType : string;
  mi_AccessModes : list string;
  mi_MountPath : string;
  mi_MountOptions : list string;
  mi_FormatOptions : list string;
}.

Section mount.
Context `{!Globals} `{!ErrorsFmt}.

Definition FormatAndMountZvol (devicePath : string) (mountInfo : MountInfo) : prog unit :=
  r ← call (CFormatAndMount devicePath (mi_MountPath mountInfo) (mi_FSType mountInfo)
              (mi_MountOptions mountInfo) (mi_FormatOptions mountInfo));
  lift r.

Definition isBrokenMount (mountPath : string) : prog bool :=
  st ← call (CStat mountPath);
  Ret (match st with Err err => Is EIO err | Ok _ => false end).

Definition UmountVolume (vol : ZFSVolume) (targetPath : string) : prog unit :=
  d ← call (CGetDeviceNameFromMount targetPath);
  '(dev, ref) ← lift d;
  if (slen dev =? 0)%Z || (ref =? 0)%Z then Ret tt else
  pathExists ← call (CPathExists targetPath);
  skip ← match pathExists with
         | Err pathErr =>
           broken ← isBrokenMount targetPath;
           if (broken : bool) then Ret false
           else Throw (Errorf "Error checking if path exists: %v" [Error pathErr])
         | Ok exists_ => Ret (negb exists_)
         end;
  if (skip : bool) then Ret tt else
  u ← call (CUnmount targetPath);
  _ ← lift u;
  _ ← attempt (SetDatasetLegacyMount vol);
  _ ← call (CRemove targetPath);
  Ret tt.

(** Whether the volume is mounted at the path already. *)
Definition verifyMountRequest (vol : ZFSVolume) (mountpath : string) : prog bool :=
  if (slen mountpath =? 0)%Z then
    Throw (ErrStatus InvalidArgument "verifyMount: mount path missing in request") else
  if (0 <? slen (OwnerNodeID (vol_Spec vol)))%Z && negb (OwnerNodeID (vol_Spec vol) =? NodeID) then
    Throw (ErrStatus Internal "verifyMount: volume is owned by different node") else
  if negb (IsVolumeReady vol) then
    Throw (ErrStatus Internal "verifyMount: volume is not ready to be mounted") else
  devicePath ← map_err (λ err, StatusErrorf Internal "verifyMount: GetVolumePath failed %s"
                                 [Error err])
                 (GetVolumeDevPath vol);
  r ← call (CGetMounts devicePath);
  match r with
  | Err err => Throw (StatusErrorf Internal "verifyMount: Getmounts failed %s" [Error err])
  | Ok currentMounts =>
    if existsb (λ mp, mp =? mountpath) currentMounts then Ret true
    else if (1 <=? Z.of_nat (length currentMounts))%Z && negb (Shared (vol_Spec vol) =? "yes") then
      Throw (StatusErrorf Internal "verifyMount: device already mounted at %s"
               [fmt_list currentMounts])
    else Ret false
  end.

Definition MountZvol (vol : ZFSVolume) (mount : MountInfo) : prog unit :=
  mounted ← verifyMountRequest vol (mi_MountPath mount);
  if (mounted : bool) then Ret tt else
  map_err (λ _, ErrStatus Internal "not able to format and mount the zvol")
    (FormatAndMountZvol (ZFSDevPath +:+ vol_dataset vol) mount).

(** The loop that appends each option and a comma. *)
Fixpoint mount_option_arg (options : list string) : string :=
  match options with
  | [] => ""
  | option :: options => option +:+ "," +:+ mount_option_arg options
  end.

Definition MountDataset (vol : ZFSVolume) (mount : MountInfo) : prog unit :=
  let volume := vol_dataset vol in
  mounted ← verifyMountRequest vol (mi_MountPath mount);
  if (mounted : bool) then Ret tt else
  val ← GetVolumeProperty vol "mountpoint";
  if val =? "legacy" then
    po ← call (CExec "mount" ["-o"; mount_option_arg (mi_MountOptions mount); "-t"; "zfs";
                              volume; mi_MountPath mount]);
    match po_err po with
    | Some _ => Throw (StatusErrorf Internal "dataset: mount failed err : %s" [po_out po])
    | None => Ret tt
    end
  else
    map_err (λ err, StatusErrorf Internal "zfs: mount failed err : %s" [Error err])
      (MountZFSDataset vol (mi_MountPath mount)).

Definition MountFilesystem (vol : ZFSVolume) (mount : MountInfo) : prog unit :=
  m ← call (CMkdirAll (mi_MountPath mount));
  _ ← match m with
      | Ok _ => Ret tt
      | Err err =>
        broken ← isBrokenMount (mi_MountPath mount);
        if (broken : bool) then Ret tt
        else Throw (StatusErrorf Internal "Could not create dir {%q}, err: %v"
                      [mi_MountPath mount; Error err])
      end;
  if VolumeType (vol_Spec vol) =? VolTypeDataset then MountDataset vol mount
  else MountZvol vol mount.

(** The file is closed again in any case. *)
Definition makeFile (pathname : string) : prog unit :=
  f ← call (COpenFile (Clean pathname));
  match f with
  | Err err => if negb (IsExist err) then Throw err else Ret tt
  | Ok _ => Ret tt
  end.

Definition MountBlock (vol : ZFSVolume) (mountinfo : MountInfo) : prog unit :=
  let target := mi_MountPath mountinfo in
  let devicePath := ZFSDevPath +:+ PoolName (vol_Spec vol) +:+ "/" +:+ Name (vol_Meta vol) in
  _ ← map_err (λ err, StatusErrorf Internal "Could not create target file %q: %v"
                        [target; Error err])
        (makeFile target);
  r ← call (CMount devicePath target "" ["bind"]);
  match r with
  | Ok _ => Ret tt
  | Err err =>
    rm ← call (CRemove target);
    match rm with
    | Err removeErr =>
      Throw (StatusErrorf Internal "Could not remove mount target %q: %v"
               [target; Error removeErr])
    | Ok _ => Throw (StatusErrorf Internal "mount failed at %v err : %v" [target; Error err])
    end
  end.
End mount.
