(* ===== verification/NodeService.v ===== *)
(** * The node service (pkg/driver/agent.go)

    The remote procedures of the node agent: publishing a volume at a path and
    unpublishing it, expanding its file system, its usage, the topology of the node.
    [NewNode], which starts the reconcilers, is part of Wiring. *)

From S2P Require Import Prelude GoStr GoErr Api Csi Effects Kube ZfsArgs Builders VolumeOps ZfsOps Mount.

(** What the agent is started with: [ns.driver.config.Nodename], and the format
    options of the node ([zfs.defaultFormatOptions]). *)
Class NodeConfig := {
  Nodename : string;
  defaultFormatOptions : format_defaults;
}.

Section node_service.
Context `{!Globals} `{!ErrorsFmt} `{!NodeConfig}.

(** ** Publishing *)

(** [GetMount().GetFsType()] and [GetMount().GetMountFlags()], which are empty for
    a capability that is not a mount. *)
Definition mount_of (c : option VolumeCapability) : string * list string :=
  match c with
  | Some c => match vc_AccessType c with
              | Some (AccessMount fs flags) => (fs, flags)
              | _ => ("", [])
              end
  | None => ("", [])
  end.

Definition mount_info (req : NodePublishVolumeRequest) : MountInfo :=
  let '(fs, flags) := mount_of (np_VolumeCapability req) in
  {| mi_FSType := fs;
     mi_AccessModes := [];
     mi_MountPath := np_TargetPath req;
     mi_MountOptions := flags ++ (if np_Readonly req then ["ro"] else []);
     mi_FormatOptions := FormatOptions defaultFormatOptions fs
                           (sget (np_VolumeContext req) FormatOptionsKey) |}.

Definition GetVolAndMountInfo (req : NodePublishVolumeRequest) : prog (ZFSVolume * MountInfo) :=
  let mountinfo := mount_info req in
  let volName := ToLower (np_VolumeId req) in
  vol ← Kubeclient_Get KVol OpenEBSNamespace volName;
  Ret (vol, mountinfo).

Definition validateNodePublishReq (req : NodePublishVolumeRequest) : option error :=
  if bool_decide (np_VolumeCapability req = None) then
    Some (ErrStatus InvalidArgument "Volume capability missing in request")
  else if (slen (np_VolumeId req) =? 0)%Z then
    Some (ErrStatus InvalidArgument "Volume ID missing in request")
  else None.

Definition NodePublishVolume (req : NodePublishVolumeRequest) : prog unit :=
  _ ← lift_err (validateNodePublishReq req);
  '(vol, mountInfo) ← map_err (λ err, ErrStatus Internal (Error err)) (GetVolAndMountInfo req);
  map_err (λ err, ErrStatus Internal (Error err))
    (match np_VolumeCapability req ≫= vc_AccessType with
     | Some AccessBlock => MountBlock vol mountInfo
     | Some (AccessMount _ _) => MountFilesystem vol mountInfo
     | None => Ret tt
     end).

Definition validateNodeUnpublishReq (req : NodeUnpublishVolumeRequest) : option error :=
  if nu_VolumeId req =? "" then
    Some (ErrStatus InvalidArgument "Volume ID missing in request")
  else if nu_TargetPath req =? "" then
    Some (ErrStatus InvalidArgument "Target path missing in request")
  else None.

Definition NodeUnpublishVolume (req : NodeUnpublishVolumeRequest) : prog unit :=
  _ ← lift_err (validateNodeUnpublishReq req);
  let targetPath := nu_TargetPath req in
  let volumeID := nu_VolumeId req in
  vol ← map_err (λ err, StatusErrorf Internal "not able to get the ZFSVolume %s err : %s"
                          [volumeID; Error err])
          (GetZFSVolume volumeID);
  map_err (λ err, StatusErrorf Internal "unable to umount the volume %s err : %s"
                    [volumeID; Error err])
    (UmountVolume vol targetPath).

(** ** The node *)

(** The loop over the allowed keys. *)
Fixpoint allowed_labels (allowedKeys : list string) (labels topology : smap) : smap :=
  match allowedKeys with
  | [] => topology
  | key :: allowedKeys =>
    let topology :=
      if negb (key =? "") then
        match labels !! key with
        | Some value => <[key := value]> topology
        | None => topology
        end
      else topology in
    allowed_labels allowedKeys labels topology
  end.

(** The two keys of the driver, added to a map that is not nil. *)
Definition add_driver_keys (topology : smap) : smap :=
  let topology := match topology !! ZFSTopologyKey with
                  | Some _ => topology
                  | None => <[ZFSTopologyKey := Nodename]> topology
                  end in
  <[ZFSTopoNodenameKey := Nodename]> topology.

(** With all topologies allowed the map is the one of the node object, which is nil
    for a node without labels: a field without entries is not transmitted. *)
Definition NodeGetInfo : prog NodeGetInfoResponse :=
  node ← call (CGetK8sNode Nodename);
  labels ← lift node;
  allowed ← call (CGetenv "ALLOWED_TOPOLOGIES");
  let allowedTopologies := Trim allowed " " in
  topology ← (if ToLower allowedTopologies =? "all" then
                if bool_decide (labels = ∅) then Crash "assignment to entry in nil map"
                else Ret labels
              else Ret (allowed_labels (Split "," allowedTopologies) labels ∅));
  Ret {| ngi_NodeId := Nodename; ngi_Segments := add_driver_keys topology |}.

Definition NodeGetCapabilities : list NodeRPC := [GET_VOLUME_STATS; EXPAND_VOLUME_ON_NODE].

Definition NodeStageVolume : prog unit := Throw (ErrStatus Unimplemented "").
Definition NodeUnstageVolume : prog unit := Throw (ErrStatus Unimplemented "").

(** ** Expansion and usage *)

Definition expand_code (err : error) : code :=
  if Contains (Error err) "size is greater than available space" then ResourceExhausted
  else Internal.

Definition NodeExpandVolume (req : NodeExpandVolumeRequest) : prog NodeExpandVolumeResponse :=
  let volumeID := ne_VolumeId req in
  if (ne_VolumePath req =? "") || (volumeID =? "") then
    Throw (StatusErrorf InvalidArgument "path not provided for NodeExpandVolume Request %s"
             [volumeID]) else
  vol ← map_err (λ err, StatusErrorf NotFound
                          "failed to handle NodeExpandVolume Request for %s, {%s}"
                          [volumeID; Error err])
          (GetZFSVolume volumeID);
  st ← call (CStat (ne_VolumePath req));
  match st with
  | Err err => Throw (StatusErrorf Internal "failed to stat mountpath %s" [Error err])
  | Ok st =>
    let resizefs := fi_IsDir st in
    _ ← map_err (λ err, StatusErrorf (expand_code err)
                          "failed to handle NodeExpandVolume Request for %s, {%s}"
                          [volumeID; Error err])
          (ResizeZFSVolume vol (ne_VolumePath req) resizefs);
    Ret (mkNodeExpandVolumeResponse (default 0%Z (ne_RequiredBytes req)))
  end.

(** The usage of a file system: the products are of type int64, the differences of
    type uint64 before they are converted. *)
Definition usage_of (sfs : Statfs_t) : list VolumeUsage :=
  [ {| vu_Unit := BYTES;
       vu_Total := wrap64 (wrap64 (Blocks sfs) * Bsize sfs);
       vu_Used := wrap64 (wrap64 (wrapu64 (Blocks sfs - Bfree sfs)) * Bsize sfs);
       vu_Available := wrap64 (wrap64 (Bavail sfs) * Bsize sfs) |};
    {| vu_Unit := INODES;
       vu_Total := wrap64 (Files sfs);
       vu_Used := wrap64 (wrapu64 (Files sfs - Ffree sfs));
       vu_Available := wrap64 (Ffree sfs) |} ].

Definition NodeGetVolumeStats (req : NodeGetVolumeStatsRequest) : prog (list VolumeUsage) :=
  let path := ns_VolumePath req in
  if (slen (ns_VolumeId req) =? 0)%Z then
    Throw (ErrStatus InvalidArgument "volume id is not provided") else
  if (slen path =? 0)%Z then
    Throw (ErrStatus InvalidArgument "path is not provided") else
  mounted ← call (CIsMountPath path);
  if negb mounted then Throw (ErrStatus NotFound "path is not a mount path") else
  r ← call (CStatfs path);
  match r with
  | Err err => Throw (StatusErrorf Internal "statfs on %s failed: %v" [path; Error err])
  | Ok sfs => Ret (usage_of sfs)
  end.
End node_service.
