(* ===== verification/MountSpec.v ===== *)
(** * What mounting and the node service guarantee

    Publishing and unpublishing volumes as operations on the mount table of the
    node: what a request does to it, that a volume which is not shared is mounted at
    one path, and that unpublishing undoes publishing. *)

From S2P Require Import Prelude GoStr GoErr Api Csi Effects Kube ZfsArgs Builders VolumeOps ZfsOps Laws Sim.
From S2P Require Import Mount NodeService.

(** ** The mount table *)

(** The device under which a volume appears in the mount table. *)
Definition vol_device (resolve : string → string) (vol : ZFSVolume) : string :=
  if VolumeType (vol_Spec vol) =? VolTypeDataset then vol_dataset vol
  else resolve (ZFSDevPath +:+ vol_dataset vol).

(** The paths a device is mounted at. *)
Definition mounts_of (d : string) (l : list (string * string)) : list string :=
  map snd (List.filter (λ e, e.1 =? d) l).

Lemma elem_of_mounts_of d p l : p ∈ mounts_of d l ↔ (d, p) ∈ l.
Proof.
  unfold mounts_of. rewrite !list_elem_of_In.
  rewrite in_map_iff. setoid_rewrite filter_In. setoid_rewrite String.eqb_eq.
  split; [intros ([d' p'] & <- & ? & <-); done|]. intros. by exists (d, p).
Qed.

Lemma unmounted_sublist p l : unmounted p l `sublist_of` l.
Proof.
  induction l as [|e l IH]; simpl; [done|]. destruct (e.2 =? p); by constructor.
Qed.

Lemma unmounted_head d p l : unmounted p ((d, p) :: l) = l.
Proof. simpl. by rewrite String.eqb_refl. Qed.

Lemma unmounted_absent p l : (∀ d, (d, p) ∉ l) → unmounted p l = l.
Proof.
  induction l as [|[d' p'] l IH]; simpl; intros H; [done|].
  destruct (String.eqb_spec p' p) as [->|].
  - exfalso. apply (H d'). by left.
  - f_equal. apply IH. intros d Hd. apply (H d). by right.
Qed.

Lemma sublist_mounts_of d l1 l2 :
  l1 `sublist_of` l2 → (length (mounts_of d l1) <= length (mounts_of d l2))%nat.
Proof.
  unfold mounts_of. rewrite !length_map.
  induction 1 as [|e l1 l2 _ IH|e l1 l2 _ IH]; simpl; [done|..]; case_match; simpl; lia.
Qed.

Section mounts.
Context `{!Globals} `{!ErrorsFmt}.
Context {St : Type} (E : Env St) (mtab : St → list (string * string)).
Context (resolve : string → string) (devfs : string) `{!MountLaws E mtab resolve devfs}.

Abbreviation device := (vol_device resolve).

(** A command that leaves the mount table alone, and one of the laws. *)
Ltac frame H := apply (mnt_frame _) in H; [|reflexivity].

(** What the checks before a mount establish. *)
Definition may_mount (vol : ZFSVolume) (p : string) : Prop :=
  (OwnerNodeID (vol_Spec vol) = "" ∨ OwnerNodeID (vol_Spec vol) = NodeID) ∧
  IsVolumeReady vol = true ∧ p ≠ "".

Definition verify_post (vol : ZFSVolume) (p : string) (s : St) (o : outcome bool) (s' : St) : Prop :=
  mtab s' = mtab s ∧
  match o with
  | ORet true => may_mount vol p ∧ (device vol, p) ∈ mtab s
  | ORet false => may_mount vol p ∧ ((device vol, p) ∉ mtab s) ∧
                  (Shared (vol_Spec vol) = "yes" ∨ mounts_of (device vol) (mtab s) = [])
  | OErr _ => True
  | _ => False
  end.

Lemma wp_GetVolumeDevPath vol s :
  wp E (GetVolumeDevPath vol)
    (λ o s', mtab s' = mtab s ∧
             match o with ORet d => d = device vol | OErr _ => True | _ => False end) s.
Proof.
  unfold GetVolumeDevPath, vol_device. destruct (_ =? VolTypeDataset); [done|].
  simpl. intros [d|e] s' Hs; simpl; split; [by frame Hs| |by frame Hs|done].
  by apply mnt_resolve in Hs.
Qed.

Lemma wp_verifyMountRequest vol p s :
  wp E (verifyMountRequest vol p) (verify_post vol p s) s.
Proof.
  unfold verifyMountRequest.
  destruct (Z.eqb_spec (slen p) 0) as [|Hp]; [done|].
  destruct (andb _ _) eqn:Ho; [done|].
  destruct (negb (IsVolumeReady vol)) eqn:Hr; [done|].
  assert (may_mount vol p) as Hm.
  { apply negb_false_iff in Hr. apply andb_false_iff in Ho. rewrite slen_zero in Hp.
    split_and!; [|done..]. destruct Ho as [Ho|Ho]; to_prop; [left|by right].
    apply slen_zero. unfold slen in *. lia. }
  clear Hp Ho Hr.
  apply wp_bind. unfold map_err. apply wp_bind, wp_attempt.
  eapply wp_mono, wp_GetVolumeDevPath. intros [d|e| |] s1 [H1 Hd]; try done. subst d.
  simpl. intros [ms|e] s2 H2; simpl.
  2: { frame H2. split; [congruence|done]. }
  pose proof (mnt_mounts _ _ _ _ H2) as Hms. frame H2. rewrite H1 in Hms.
  destruct (existsb _ ms) eqn:Hex; simpl.
  { split; [congruence|]. split; [done|]. apply Hms, list_elem_of_In.
    apply existsb_exists in Hex as (x & Hx & ->%String.eqb_eq). done. }
  assert ((device vol, p) ∉ mtab s) as Hnot.
  { rewrite <- Hms, list_elem_of_In. intros Hin.
    assert (existsb (λ mp, mp =? p) ms = true) as Hc; [|congruence].
    apply existsb_exists. exists p. by rewrite String.eqb_refl. }
  destruct (andb _ _) eqn:Hb; simpl; (split; [congruence|]); [done|].
  split_and!; try done. apply andb_false_iff in Hb as [Hb|Hb].
  - right. destruct ms; [|simpl in Hb; to_prop; lia].
    destruct (mounts_of _ _) as [|q qs] eqn:Hq; [done|]. exfalso.
    assert (q ∈ []) as Hin; [|by apply elem_of_nil in Hin].
    apply Hms, elem_of_mounts_of. rewrite Hq. by left.
  - left. to_prop. done.
Qed.

(** What a mount does to the table: nothing when the volume is mounted at the path
    already, otherwise it adds an entry; a failure changes nothing. *)
Definition mount_post (vol : ZFSVolume) (p : string) (s : St) (o : outcome unit) (s' : St) : Prop :=
  match o with
  | ORet _ =>
    may_mount vol p ∧
    (if decide ((device vol, p) ∈ mtab s) then mtab s' = mtab s
     else mtab s' = (device vol, p) :: mtab s ∧
          (Shared (vol_Spec vol) = "yes" ∨ mounts_of (device vol) (mtab s) = []))
  | OErr _ => mtab s' = mtab s
  | _ => False
  end.

(** After the checks: the volume is mounted already, or [p] mounts it. *)
Lemma wp_verified vol (path : string) (p : prog unit) s :
  (∀ s0, mtab s0 = mtab s →
   wp E p (λ o s', match o with
                   | ORet _ => mtab s' = (device vol, path) :: mtab s
                   | OErr _ => mtab s' = mtab s
                   | _ => False
                   end) s0) →
  wp E (mounted ← verifyMountRequest vol path; if (mounted : bool) then Ret tt else p)
    (mount_post vol path s) s.
Proof.
  intros Hp. apply wp_bind. eapply wp_mono, wp_verifyMountRequest.
  intros [[]|e| |] s1 [H1 Hv]; simpl in *; try done.
  - destruct Hv. split; [done|]. by rewrite decide_True.
  - destruct Hv as (Hm & Hnot & Hsh). eapply wp_mono, Hp; [|done].
    intros [[]|e| |] s2 H2; try done. simpl. split; [done|]. by rewrite decide_False.
Qed.

Lemma wp_MountZvol vol mi s :
  VolumeType (vol_Spec vol) ≠ VolTypeDataset →
  wp E (MountZvol vol mi) (mount_post vol (mi_MountPath mi) s) s.
Proof.
  intros Ht. apply wp_verified. intros s0 Hs0. simpl. intros [[]|e] s1 H1%mnt_format; simpl.
  - unfold vol_device. rewrite (proj2 (String.eqb_neq _ _) Ht). by rewrite H1, Hs0.
  - congruence.
Qed.

(** The mount point of a dataset is legacy. *)
Lemma wp_mountpoint vol s :
  wp E (GetVolumeProperty vol "mountpoint")
    (λ o s', mtab s' = mtab s ∧
             match o with ORet v => v = "legacy" | OErr _ => True | _ => False end) s.
Proof.
  unfold GetVolumeProperty, runCmd. simpl. intros r s1 H1.
  pose proof (mnt_legacy _ _ _ _ H1) as Hl. frame H1.
  destruct (po_err r); simpl; [done|]. rewrite Hl by done. done.
Qed.

Lemma wp_MountDataset vol mi s :
  VolumeType (vol_Spec vol) = VolTypeDataset →
  wp E (MountDataset vol mi) (mount_post vol (mi_MountPath mi) s) s.
Proof.
  intros Ht. apply wp_verified. intros s0 Hs0. apply wp_bind.
  eapply wp_mono, wp_mountpoint. intros [v|e| |] s1 [H1 Hv]; simpl in *; try done; [|congruence].
  subst v. simpl. intros r s2 H2%mnt_mount. destruct (po_err r); simpl; [congruence|].
  unfold vol_device. rewrite Ht. simpl. by rewrite H2, H1, Hs0.
Qed.

Lemma wp_isBrokenMount p s :
  wp E (isBrokenMount p) (λ o s', mtab s' = mtab s ∧ match o with ORet _ => True | _ => False end) s.
Proof. simpl. intros r s1 H1. by frame H1. Qed.

Lemma mount_post_shift vol p s s0 o s' :
  mtab s0 = mtab s → mount_post vol p s0 o s' → mount_post vol p s o s'.
Proof. intros Hs. unfold mount_post, may_mount. by rewrite Hs. Qed.

Lemma wp_MountFilesystem vol mi s :
  wp E (MountFilesystem vol mi) (mount_post vol (mi_MountPath mi) s) s.
Proof.
  assert (∀ s0, mtab s0 = mtab s →
          wp E (if VolumeType (vol_Spec vol) =? VolTypeDataset then MountDataset vol mi
                else MountZvol vol mi) (mount_post vol (mi_MountPath mi) s) s0) as Hm.
  { intros s0 Hs0. eapply wp_mono; [intros o s'; by apply mount_post_shift|].
    destruct (String.eqb_spec (VolumeType (vol_Spec vol)) VolTypeDataset);
      [by apply wp_MountDataset|by apply wp_MountZvol]. }
  unfold MountFilesystem. apply wp_call. intros [[]|e] s1 H1; frame H1; [by apply Hm|].
  apply wp_bind, wp_bind. eapply wp_mono, wp_isBrokenMount.
  intros [[]|e'| |] s2 [H2 Hok]; try done; simpl; [apply Hm|]; congruence.
Qed.

Lemma wp_makeFile p s :
  wp E (makeFile p) (λ o s', mtab s' = mtab s ∧ returned o) s.
Proof. simpl. intros [[]|e] s1 H1; frame H1; simpl; [done|]. by destruct (negb _). Qed.

Lemma wp_MountBlock vol mi s :
  wp E (MountBlock vol mi)
    (λ o s', match o with
             | ORet _ => mtab s' = (devfs, mi_MountPath mi) :: mtab s
             | OErr _ => mtab s' = mtab s
             | _ => False
             end) s.
Proof.
  unfold MountBlock. apply wp_bind, wp_bind, wp_attempt. eapply wp_mono, wp_makeFile.
  intros [[]|e| |] s1 [H1 Hok]; simpl; try done.
  intros [[]|e] s2 H2%mnt_bind; simpl; [congruence|].
  intros [[]|e'] s3 H3; frame H3; simpl; congruence.
Qed.

Lemma wp_SetDatasetLegacyMount vol s :
  wp E (SetDatasetLegacyMount vol) (λ o s', mtab s' = mtab s ∧ returned o) s.
Proof.
  unfold SetDatasetLegacyMount. destruct (negb _); [done|]. apply wp_bind.
  eapply wp_mono, wp_mountpoint. intros [v|e| |] s1 [H1 Hv]; simpl in *; try done. by subst v.
Qed.

(** Unmounting a path takes away its last mount; a failure changes nothing. *)
Lemma wp_UmountVolume vol p s :
  wp E (UmountVolume vol p)
    (λ o s', match o with
             | ORet _ => mtab s' = unmounted p (mtab s)
             | OErr _ => mtab s' = mtab s
             | _ => False
             end) s.
Proof.
  unfold UmountVolume. apply wp_call. intros [[d n]|e] s1 H1; simpl; [|by frame H1].
  pose proof (mnt_device _ _ _ _ _ H1) as Hd. frame H1.
  destruct (_ || _) eqn:Hz; simpl.
  { rewrite unmounted_absent; [done|]. intros d' Hin.
    destruct Hd as [_ [Hd Hn]]; [by exists d'|]. apply orb_true_iff in Hz as [Hz|Hz]; to_prop; [|done].
    by apply slen_zero in Hz. }
  assert (∀ s0, mtab s0 = mtab s →
    wp E (u ← call (CUnmount p); _ ← lift u; _ ← attempt (SetDatasetLegacyMount vol);
          _ ← call (CRemove p); Ret tt)
      (λ o s', match o with
               | ORet _ => mtab s' = unmounted p (mtab s)
               | OErr _ => mtab s' = mtab s
               | _ => False
               end) s0) as Hrest.
  { intros s0 Hs0. apply wp_call. intros [[]|e] s2 H2%mnt_unmount; simpl; [|congruence].
    apply wp_bind, wp_attempt. eapply wp_mono, wp_SetDatasetLegacyMount.
    intros [[]|e| |] s3 [H3 Hok]; simpl; try done; intros r s4 H4; frame H4; congruence. }
  intros [[]|e] s2 H2.
  - frame H2. apply Hrest. congruence.
  - simpl. pose proof (mnt_exists _ _ _ H2) as Hex. frame H2.
    rewrite unmounted_absent; [congruence|]. intros d'. rewrite <- H1. apply Hex.
  - frame H2. simpl. intros r s3 H3. frame H3.
    destruct (match r with Ok _ => false | Err err => Is EIO err end); simpl;
      [apply Hrest|]; congruence.
Qed.

(** ** The node service against the table *)

Context (vols : gmap string ZFSVolume) `{!VolumesLaw E vols} {NC : NodeConfig}.

Inductive node_request :=
| Publish (req : NodePublishVolumeRequest)
| Unpublish (req : NodeUnpublishVolumeRequest).

Definition serve (r : node_request) : prog unit :=
  match r with
  | Publish req => NodePublishVolume req
  | Unpublish req => NodeUnpublishVolume req
  end.

(** What a request that is answered without an error may do to the mount table. *)
Inductive node_step : node_request → list (string * string) → list (string * string) → Prop :=
| step_again req vol fs fl l :
    vols !! ToLower (np_VolumeId req) = Some vol →
    np_VolumeCapability req ≫= vc_AccessType = Some (AccessMount fs fl) →
    (device vol, np_TargetPath req) ∈ l →
    node_step (Publish req) l l
| step_mount req vol fs fl l :
    vols !! ToLower (np_VolumeId req) = Some vol →
    np_VolumeCapability req ≫= vc_AccessType = Some (AccessMount fs fl) →
    (OwnerNodeID (vol_Spec vol) = "" ∨ OwnerNodeID (vol_Spec vol) = NodeID) →
    IsVolumeReady vol = true →
    (device vol, np_TargetPath req) ∉ l →
    Shared (vol_Spec vol) = "yes" ∨ mounts_of (device vol) l = [] →
    node_step (Publish req) l ((device vol, np_TargetPath req) :: l)
| step_block req l :
    np_VolumeCapability req ≫= vc_AccessType = Some AccessBlock →
    node_step (Publish req) l ((devfs, np_TargetPath req) :: l)
| step_nothing req l :
    np_VolumeCapability req ≫= vc_AccessType = None →
    node_step (Publish req) l l
| step_unmount req l :
    node_step (Unpublish req) l (unmounted (nu_TargetPath req) l).

Definition step_post (r : node_request) (s : St) (o : outcome unit) (s' : St) : Prop :=
  match o with
  | ORet _ => node_step r (mtab s) (mtab s')
  | OErr _ => mtab s' = mtab s
  | _ => False
  end.

Lemma mount_info_path req : mi_MountPath (mount_info req) = np_TargetPath req.
Proof. unfold mount_info. by destruct (mount_of _). Qed.

(** Reading a volume resource. *)
Lemma wp_get_volume n (Q : outcome ZFSVolume → St → Prop) s :
  (∀ e s', mtab s' = mtab s → Q (OErr e) s') →
  (∀ v s', mtab s' = mtab s → vols !! n = Some v → Q (ORet v) s') →
  wp E (Kubeclient_Get KVol OpenEBSNamespace n) Q s.
Proof.
  intros He Hv. unfold Kubeclient_Get. destruct (n =? ""); [by apply He|].
  simpl. intros [[]|e] s1 H1; frame H1; simpl; [|by apply He].
  intros [v|e] s2 H2; simpl; [pose proof (volume_got _ _ _ _ H2)|]; frame H2.
  - apply Hv; [congruence|done].
  - apply He. congruence.
Qed.

Lemma wp_NodePublishVolume req s :
  wp E (NodePublishVolume req) (step_post (Publish req) s) s.
Proof.
  unfold NodePublishVolume. destruct (validateNodePublishReq req); [done|]. simpl.
  apply wp_bind. unfold map_err. apply wp_bind, wp_attempt. unfold GetVolAndMountInfo.
  apply wp_bind, wp_get_volume; [done|]. intros vol s1 H1 Hvol. simpl.
  apply wp_bind, wp_attempt.
  destruct (np_VolumeCapability req ≫= vc_AccessType) as [[|fs fl]|] eqn:Ha.
  - eapply wp_mono, wp_MountBlock. rewrite mount_info_path.
    intros [[]|e| |] s2 H2; simpl in *; try done; [|congruence].
    rewrite H2, H1. by constructor.
  - eapply wp_mono, wp_MountFilesystem. rewrite mount_info_path.
    intros [[]|e| |] s2 H2; simpl in *; try done; [|congruence].
    destruct H2 as [(Ho & Hr & _) H2]. rewrite H1 in H2. case_decide as Hin.
    + rewrite H2. by eapply step_again.
    + destruct H2 as [-> Hsh]. by eapply step_mount.
  - simpl. rewrite H1. by constructor.
Qed.

Lemma wp_NodeUnpublishVolume req s :
  wp E (NodeUnpublishVolume req) (step_post (Unpublish req) s) s.
Proof.
  unfold NodeUnpublishVolume. destruct (validateNodeUnpublishReq req); [done|]. simpl.
  apply wp_bind. unfold map_err. apply wp_bind, wp_attempt.
  apply wp_get_volume; [done|]. intros vol s1 H1 Hvol. cbn [bind_post wp].
  apply wp_bind, wp_attempt. eapply wp_mono, wp_UmountVolume.
  intros [[]|e| |] s2 H2; simpl in *; try done; [|congruence].
  rewrite H2, H1. constructor.
Qed.

Lemma wp_serve r s : wp E (serve r) (step_post r s) s.
Proof. destruct r; [apply wp_NodePublishVolume|apply wp_NodeUnpublishVolume]. Qed.


(** ** One path per volume *)

(** Requests served one after the other. *)
Fixpoint serve_all (rs : list node_request) : prog unit :=
  match rs with
  | [] => Ret tt
  | r :: rs => _ ← attempt (serve r); serve_all rs
  end.

(** Every volume that is not shared is mounted at one path at most. *)
Definition mounted_once (l : list (string * string)) : Prop :=
  ∀ n v, vols !! n = Some v → Shared (vol_Spec v) ≠ "yes" →
         (length (mounts_of (device v) l) <= 1)%nat.

(** Distinct volumes are distinct devices, and none is the file system of the device
    nodes. *)
Definition devices_distinct : Prop :=
  (∀ n1 v1 n2 v2, vols !! n1 = Some v1 → vols !! n2 = Some v2 → device v1 = device v2 → v1 = v2) ∧
  ∀ n v, vols !! n = Some v → device v ≠ devfs.

Lemma mounts_of_cons d e l :
  mounts_of d (e :: l) = (if e.1 =? d then [e.2] else []) ++ mounts_of d l.
Proof. unfold mounts_of. simpl. by destruct (e.1 =? d). Qed.

Lemma node_step_once r l l' :
  devices_distinct → node_step r l l' → mounted_once l → mounted_once l'.
Proof.
  intros [Hinj Hdev] Hstep Hl n v Hv Hsh. specialize (Hl n v Hv Hsh).
  destruct Hstep as [|req w fs fl l Hw _ _ _ _ Hone|req l _| |req l]; try done.
  - rewrite mounts_of_cons. simpl. destruct (String.eqb_spec (device w) (device v)) as [Heq|]; [|done].
    assert (w = v) as -> by eauto. destruct Hone as [|Hone]; [done|]. by rewrite Hone.
  - rewrite mounts_of_cons. simpl.
    rewrite (proj2 (String.eqb_neq devfs (device v))); [done|]. intros ->. by eapply Hdev.
  - etrans; [|exact Hl]. apply sublist_mounts_of, unmounted_sublist.
Qed.


Lemma node_step_publish req l l' :
  node_step (Publish req) l l' → l' = l ∨ ∃ d, l' = (d, np_TargetPath req) :: l.
Proof. inversion 1; eauto. Qed.

Lemma node_step_unpublish req l l' :
  node_step (Unpublish req) l l' → l' = unmounted (nu_TargetPath req) l.
Proof. by inversion 1. Qed.

End mounts.

(** ** The simulated node *)

(** The simulator with a fixed set of volume resources. *)
Definition node_handler (vols : gmap string ZFSVolume) : handler sim := λ c s,
  match c as c return resp c * sim with
  | CGet KVol _ n => (match vols !! n with Some v => Ok v | None => not_found end, s)
  | c => sim_handler c s
  end.

Definition node_env (vols : gmap string ZFSVolume) : Env sim := env_of (node_handler vols).

#[export] Instance node_env_volumes vols : VolumesLaw (node_env vols) vols.
Proof.
  intros n s v s'. unfold node_env, env_of, node_handler.
  destruct (vols !! n); [|done]. by intros [= -> _].
Qed.

Lemma node_handler_step vols c s r s' :
  node_env vols c s r s' → r = (node_handler vols c s).1 ∧ s' = (node_handler vols c s).2.
Proof. unfold node_env, env_of. intros ->. done. Qed.

Lemma sim_put_mtab k m s : sim_mtab (sim_put k m s) = sim_mtab s.
Proof. by destruct k. Qed.

Lemma sim_zfs_mtab args s : sim_mtab (sim_zfs args s).2 = sim_mtab s.
Proof. unfold sim_zfs. by repeat case_match. Qed.

Lemma existsb_mounted p (l : list (string * string)) :
  existsb (λ e, e.2 =? p) l = false → ∀ d, (d, p) ∉ l.
Proof.
  intros H d Hin%list_elem_of_In. assert (existsb (λ e, e.2 =? p) l = true); [|congruence].
  apply existsb_exists. exists (d, p). by rewrite String.eqb_refl.
Qed.

Lemma find_mounted p (l : list (string * string)) e :
  List.find (λ e, e.2 =? p) l = Some e → e ∈ l ∧ e.2 = p.
Proof. intros [Hin Heq%String.eqb_eq]%find_some. by rewrite list_elem_of_In. Qed.

Lemma filter_self_pos {A} (f : A → bool) (l : list A) x :
  x ∈ l → f x = true → Z.of_nat (length (List.filter f l)) ≠ 0%Z.
Proof.
  intros Hx%list_elem_of_In Hf. assert (In x (List.filter f l)) as Hin by (by apply filter_In).
  destruct (List.filter f l); [done|simpl; lia].
Qed.

#[export] Instance node_env_mounts vols :
  MountLaws (node_env vols) sim_mtab (λ l, l) "devtmpfs".
Proof.
  split.
  - intros d s ms s' [[= ->] ->]%node_handler_step p. apply elem_of_mounts_of.
  - intros p s d n s' [Hr ->]%node_handler_step. simpl in Hr.
    destruct (List.find _ _) as [e|] eqn:Hf; simplify_eq.
    + apply find_mounted in Hf as [Hin <-]. split; [intros _; exists e.1; by destruct e|].
      intros _. split; [by destruct e as [[] ?]|].
      eapply filter_self_pos; [exact Hin|apply String.eqb_refl].
    + split; [by intros []|]. intros [d' Hin%list_elem_of_In].
      apply (find_none _ _ Hf) in Hin. simpl in Hin. by rewrite String.eqb_refl in Hin.
  - by intros l s d s' [[= ->] ->]%node_handler_step.
  - intros p s s' [Hr ->]%node_handler_step. done.
  - intros d s r s' [-> ->]%node_handler_step. done.
  - intros d p fs o f s r s' [-> ->]%node_handler_step. done.
  - intros o d p s r s' [-> ->]%node_handler_step. done.
  - intros d p s r s' [-> ->]%node_handler_step. done.
  - intros p s r s' [-> ->]%node_handler_step. simpl. unfold sim_unmount.
    by destruct (existsb _ _).
  - intros c s r s' Hc [-> ->]%node_handler_step.
    destruct c; try done; simpl; repeat case_match; try done; simpl;
      rewrite ?sim_put_mtab, ?sim_zfs_mtab; try done.
    to_prop. subst. by destruct args.
Qed.
