(* ===== verification/NodeSpec.v ===== *)
(** * What the node service guarantees besides mounting

    The options of mkfs, the topology of the node, the usage of a volume, and the
    expansion of a volume with its error codes. *)

From S2P Require Import Prelude GoStr GoErr Api Csi Effects Kube ZfsArgs Builders VolumeOps ZfsOps Laws Sim.
From S2P Require Import PipeSpec Mount NodeService.

(** ** Format options *)

(** The entries of the flags as the node agent means them: a formattable file
    system, and the options for it. *)
Definition entry_of (entry : string) : option (string * list string) :=
  match Cut "=" entry with
  | (fs, value, true) =>
    let fs := ToLower (TrimSpace fs) in
    if decide (fs ∈ formattableFsTypes) then Some (fs, Fields value) else None
  | _ => None
  end.

(** The options a file system gets: those of the last entry for it that has any. *)
Fixpoint last_options (fs : string) (entries : list string) : list string :=
  match entries with
  | [] => []
  | e :: es =>
    match last_options fs es with
    | [] => match entry_of e with
            | Some (fs', opts) => if decide (fs = fs') then opts else []
            | None => []
            end
    | opts => opts
    end
  end.

Lemma formattable_spec fs :
  existsb (String.eqb fs) formattableFsTypes = bool_decide (fs ∈ formattableFsTypes).
Proof.
  apply eq_bool_prop_intro. rewrite bool_decide_spec, list_elem_of_In, Is_true_true, existsb_exists.
  split; [intros (x & Hx & ->%String.eqb_eq); done|]. intros Hx. exists fs.
  by rewrite String.eqb_refl.
Qed.

Lemma parse_format_entries_spec entries m :
  match parse_format_entries entries m with
  | Ok m' => Forall (λ e, is_Some (entry_of e)) entries ∧
             ∀ fs, default [] (m' !! fs) =
                   match last_options fs entries with [] => default [] (m !! fs) | o => o end
  | Err _ => ¬ Forall (λ e, is_Some (entry_of e)) entries
  end.
Proof.
  revert m. induction entries as [|e es IH]; intros m; [split; [constructor|done]|].
  cbn [parse_format_entries last_options].
  destruct (Cut "=" e) as [[fs value] []] eqn:Hc.
  2: { intros Hf. inversion Hf as [|? ? Hs]; subst. unfold entry_of in Hs. rewrite Hc in Hs. by destruct Hs. }
  rewrite (formattable_spec (ToLower (TrimSpace fs))). set (f := ToLower (TrimSpace fs)) in *.
  case_bool_decide as Hin; simpl.
  2: { intros Hf. inversion Hf as [|? ? Hs]; subst. unfold entry_of in Hs. rewrite Hc in Hs.
       fold f in Hs. rewrite decide_False in Hs by done. by destruct Hs. }
  assert (entry_of e = Some (f, Fields value)) as He.
  { unfold entry_of. rewrite Hc. fold f. by rewrite decide_True. }
  set (m1 := match Fields value with [] => m | opts => <[f := opts]> m end).
  assert (parse_format_entries es m1 =
          match Fields value with
          | [] => parse_format_entries es m
          | s :: l => parse_format_entries es (<[f := s :: l]> m)
          end) as <- by (unfold m1; by destruct (Fields value)).
  specialize (IH m1). destruct (parse_format_entries es m1) as [m'|err].
  - destruct IH as [Hes Hm]. split; [constructor; [by rewrite He|done]|]. intros fs'. rewrite Hm, He.
    destruct (last_options fs' es) as [|]; [|done]. unfold m1.
    destruct (decide (fs' = f)) as [->|Hne].
    + destruct (Fields value); [done|]. by rewrite lookup_insert_eq.
    + destruct (Fields value); [done|]. by rewrite lookup_insert_ne by done.
  - intros Hf. apply IH. by inversion Hf.
Qed.

(** The format options of the node are accepted exactly when every entry is of the
    form <fstype>=<options> for a file system that is formatted, and are left as they
    were otherwise; accepted, a volume is formatted with the options of its storage
    class if it has any, and else with those of the last entry for its file system,
    ext4 if none is named. *)
Theorem format_options_correct entries old fstype scOptions :
  let '(m, err) := SetDefaultFormatOptions entries old in
  (err = None ↔ Forall (λ e, is_Some (entry_of e)) entries) ∧
  (err ≠ None → m = old) ∧
  (err = None →
   FormatOptions m fstype scOptions =
   match Fields scOptions with
   | [] => let fs := ToLower (TrimSpace fstype) in
           last_options (if decide (fs = "") then "ext4" else fs) entries
   | opts => opts
   end).
Proof.
  unfold SetDefaultFormatOptions, FormatOptions.
  pose proof (parse_format_entries_spec entries ∅) as Hp.
  destruct (parse_format_entries entries ∅) as [m|e]; [|done].
  destruct Hp as [Hf Hm]. split_and!; [done..|]. intros _.
  destruct (Fields scOptions); [|done]. simpl. rewrite Hm.
  destruct (String.eqb_spec (ToLower (TrimSpace fstype)) "") as [->|Hne].
  - rewrite lookup_empty. by destruct (last_options _ _).
  - rewrite (decide_False _ _ Hne), lookup_empty. by destruct (last_options _ _).
Qed.

(** ** Topology *)

Section topology.
Context {NC : NodeConfig}.

(** The labels the environment variable lets through. *)
Definition allows (env k : string) : Prop :=
  ToLower (Trim env " ") = "all" ∨ (k ≠ "" ∧ k ∈ Split "," (Trim env " ")).

#[global] Instance allows_dec env k : Decision (allows env k).
Proof. unfold allows. apply _. Defined.

Lemma allowed_labels_lookup keys labels t k :
  allowed_labels keys labels t !! k =
  (if decide (k ≠ "" ∧ k ∈ keys) then match labels !! k with Some v => Some v | None => t !! k end
   else t !! k).
Proof.
  revert t. induction keys as [|key keys IH]; intros t; cbn [allowed_labels].
  { rewrite decide_False; [done|]. intros [_ H]. by apply elem_of_nil in H. }
  rewrite IH. clear IH. destruct (decide (key = k)) as [->|Hne].
  - destruct (String.eqb_spec k "") as [->|Hk]; cbn [negb].
    + by rewrite !decide_False by (intros [? _]; done).
    + rewrite (decide_True (P := k ≠ "" ∧ k ∈ k :: keys)) by (split; [done|by left]).
      destruct (labels !! k) as [v|]; [rewrite lookup_insert_eq|]; by case_decide.
  - assert (∀ t' : smap, t' !! k = t !! k →
      (if decide (k ≠ "" ∧ k ∈ keys) then match labels !! k with Some v => Some v | None => t' !! k end
       else t' !! k) =
      (if decide (k ≠ "" ∧ k ∈ key :: keys)
       then match labels !! k with Some v => Some v | None => t !! k end else t !! k)) as Heq.
    { intros t' ->. destruct (decide (k ≠ "" ∧ k ∈ keys)) as [[? ?]|Hn].
      - rewrite decide_True; [done|]. split; [done|by right].
      - rewrite decide_False; [done|]. intros [? [Hc|?]%elem_of_cons]; [by subst|by apply Hn]. }
    destruct (key =? ""); cbn [negb]; [by apply Heq|].
    destruct (labels !! key); apply Heq; [by rewrite lookup_insert_ne|done].
Qed.

Lemma add_driver_keys_lookup t k :
  add_driver_keys t !! k =
  if decide (k = ZFSTopoNodenameKey) then Some Nodename
  else if decide (k = ZFSTopologyKey) then Some (default Nodename (t !! k))
  else t !! k.
Proof.
  unfold add_driver_keys. destruct (decide (k = ZFSTopoNodenameKey)) as [->|Hn].
  { by rewrite lookup_insert_eq. }
  rewrite lookup_insert_ne by done. destruct (decide (k = ZFSTopologyKey)) as [->|Ht].
  - destruct (t !! ZFSTopologyKey) eqn:E; [by rewrite E|by rewrite lookup_insert_eq].
  - destruct (t !! ZFSTopologyKey); [done|by rewrite lookup_insert_ne].
Qed.

(** The topology of a node with these labels. *)
Definition reported (env : string) (labels : smap) (k : string) : option string :=
  let label := if decide (allows env k) then labels !! k else None in
  if decide (k = ZFSTopoNodenameKey) then Some Nodename
  else if decide (k = ZFSTopologyKey) then Some (default Nodename label)
  else label.

Definition topology_post (o : outcome NodeGetInfoResponse) (tr : trace) : Prop :=
  match o with
  | ORet info =>
    ∃ labels env,
      tr = [ev (CGetK8sNode Nodename) (Ok labels); ev (CGetenv "ALLOWED_TOPOLOGIES") env] ∧
      ngi_NodeId info = Nodename ∧
      ∀ k, ngi_Segments info !! k = reported env labels k
  | OErr e => tr = [ev (CGetK8sNode Nodename) (Err e)]
  | OPanic _ => ∃ env : string,
      tr = [ev (CGetK8sNode Nodename) (Ok ∅); ev (CGetenv "ALLOWED_TOPOLOGIES") env] ∧
      ToLower (Trim env " ") = "all"
  | OSpin => False
  end.

Lemma wp_NodeGetInfo : wp any_env NodeGetInfo topology_post [].
Proof.
  cbn [NodeGetInfo call mbind prog_mbind prog_bind wp]. intros [labels|e]; trace_step; [|done].
  intros env; trace_step.
  destruct (String.eqb_spec (ToLower (Trim env " ")) "all") as [Hall|Hall].
  - case_bool_decide as Hl; simpl; [subst; by exists env|].
    exists labels, env. split_and!; [done..|]. intros k. rewrite add_driver_keys_lookup.
    unfold reported. by rewrite (decide_True (P := allows env k)) by (by left).
  - simpl. exists labels, env. split_and!; [done..|]. intros k. rewrite add_driver_keys_lookup.
    rewrite allowed_labels_lookup, lookup_empty. unfold reported, allows.
    destruct (decide (k ≠ "" ∧ _)) as [Hk|Hk].
    + rewrite (decide_True (P := _ ∨ _)) by (by right). by destruct (labels !! k).
    + by rewrite (decide_False (P := _ ∨ _)) by (intros [|]; done).
Qed.

(** The node reports its name, the labels of the node that are allowed and no
    others, the driver's key with the node's label if that is allowed and the name
    otherwise, and the old key with the name; the only panic is that of a node without
    labels when all are allowed. *)
Theorem NodeGetInfo_topology : wp any_env NodeGetInfo topology_post [].
Proof. exact wp_NodeGetInfo. Qed.

Lemma wp_NodeGetInfo_from tr0 (Q : outcome NodeGetInfoResponse → trace → Prop) :
  (∀ labels env info,
     (∀ k, ngi_Segments info !! k = reported env labels k) →
     Q (ORet info) (tr0 ++ [ev (CGetK8sNode Nodename) (Ok labels);
                            ev (CGetenv "ALLOWED_TOPOLOGIES") env])) →
  (∀ e tr, Q (OErr e) tr) → (∀ m tr, Q (OPanic m) tr) → wp any_env NodeGetInfo Q tr0.
Proof.
  intros Hok He Hp. rewrite <- (app_nil_r tr0).
  eapply wp_mono, trace_shift, wp_NodeGetInfo. intros [info|e|m|] tr (tr1 & -> & Hq); auto; [|done].
  destruct Hq as (labels & env & -> & _ & Hk). by apply Hok.
Qed.

Lemma reported_id env labels :
  reported env labels ZFSTopologyKey = Some (default Nodename (labels !! ZFSTopologyKey)) ↔
  allows env ZFSTopologyKey ∨ labels !! ZFSTopologyKey = None ∨
  labels !! ZFSTopologyKey = Some Nodename.
Proof.
  unfold reported. rewrite decide_False, decide_True by done.
  destruct (decide (allows _ _)); [naive_solver|].
  destruct (labels !! ZFSTopologyKey) as [v|]; naive_solver.
Qed.

(** The answers recorded in an event. *)
Definition labels_got (e : event) : option smap :=
  match e with
  | existT (CGetK8sNode _) (Ok labels) => Some labels
  | _ => None
  end.

Definition value_got (e : event) : option string :=
  match e with
  | existT (CGetenv _) v => Some v
  | _ => None
  end.

(** C27: the identifier the agent gives itself, by which it recognises the resources
    of its node, is the one it reports as the topology of the node exactly when the
    label it is taken from is allowed, or is absent, or is the name of the node. *)
Theorem node_identity :
  wp any_env (id ← GetNodeID Nodename; info ← NodeGetInfo; Ret (id, info))
    (λ o tr, ∀ id info labels env,
       o = ORet (id, info) →
       tr = [ev (CGetK8sNode Nodename) (Ok labels); ev (CGetK8sNode Nodename) (Ok labels);
             ev (CGetenv "ALLOWED_TOPOLOGIES") env] →
       id = default Nodename (labels !! ZFSTopologyKey) ∧
       (ngi_Segments info !! ZFSTopologyKey = Some id ↔
        allows env ZFSTopologyKey ∨ labels !! ZFSTopologyKey = None ∨
        labels !! ZFSTopologyKey = Some Nodename)) [].
Proof.
  cbn [GetNodeID call mbind prog_mbind prog_bind wp]. intros [labels|e]; trace_step; [|done].
  assert (∀ id, id = default Nodename (labels !! ZFSTopologyKey) →
    wp any_env (info ← NodeGetInfo; Ret (id, info))
      (λ o tr, ∀ id info labels env,
         o = ORet (id, info) →
         tr = [ev (CGetK8sNode Nodename) (Ok labels); ev (CGetK8sNode Nodename) (Ok labels);
               ev (CGetenv "ALLOWED_TOPOLOGIES") env] →
         id = default Nodename (labels !! ZFSTopologyKey) ∧
         (ngi_Segments info !! ZFSTopologyKey = Some id ↔
          allows env ZFSTopologyKey ∨ labels !! ZFSTopologyKey = None ∨
          labels !! ZFSTopologyKey = Some Nodename))
      [ev (CGetK8sNode Nodename) (Ok labels)]) as Hinfo.
  { intros id Hid. apply wp_bind, wp_NodeGetInfo_from; try done.
    intros labels' env info Hk id' info' l2 env' [= <- <-] Htr.
    apply (f_equal (λ tr, (tr !! 0%nat ≫= labels_got, tr !! 1%nat ≫= labels_got,
                           tr !! 2%nat ≫= value_got))) in Htr. simplify_eq/=.
    split; [done|]. rewrite Hk. by apply reported_id. }
  destruct (labels !! ZFSTopologyKey) as [v|] eqn:Hl; apply Hinfo; done.
Qed.
End topology.

(** ** Usage *)

(** What statfs(2) reports of a file system of at most 8 EiB. *)
Definition sane_statfs (sfs : Statfs_t) : Prop :=
  (0 <= Bavail sfs <= Bfree sfs)%Z ∧ (Bfree sfs <= Blocks sfs)%Z ∧
  (0 <= Ffree sfs <= Files sfs)%Z ∧ (Files sfs <= int64_max)%Z ∧
  (0 < Bsize sfs)%Z ∧ (Blocks sfs * Bsize sfs <= int64_max)%Z.

Lemma usage_of_sane sfs :
  sane_statfs sfs →
  usage_of sfs =
    [ mkVolumeUsage BYTES (Blocks sfs * Bsize sfs) ((Blocks sfs - Bfree sfs) * Bsize sfs)
        (Bavail sfs * Bsize sfs);
      mkVolumeUsage INODES (Files sfs) (Files sfs - Ffree sfs) (Ffree sfs) ] ∧
  Forall (λ u, (0 <= vu_Used u)%Z ∧ (0 <= vu_Available u)%Z ∧
               (vu_Used u + vu_Available u <= vu_Total u)%Z) (usage_of sfs).
Proof.
  intros (Ha & Hf & Hi & Hm & Hb & Ht). unfold usage_of.
  assert (∀ x, (0 <= x <= Blocks sfs)%Z → (0 <= x * Bsize sfs <= int64_max)%Z ∧ (x <= int64_max)%Z)
    as Hx by (intros; nia).
  unfold int64_max in *.
  rewrite !wrapu64_id by (pose proof (Hx (Blocks sfs)); lia).
  rewrite !(wrap64_id (Blocks sfs)), !(wrap64_id (Bavail sfs)), !(wrap64_id (Blocks sfs - Bfree sfs)),
    !(wrap64_id (Files sfs)), !(wrap64_id (Files sfs - Ffree sfs)), !(wrap64_id (Ffree sfs)),
    !wrap64_id by
    (pose proof (Hx (Blocks sfs)); pose proof (Hx (Blocks sfs - Bfree sfs)%Z);
     pose proof (Hx (Bavail sfs)); unfold in_int64, int64_min, int64_max; lia).
  split; [done|]. repeat constructor; simpl; nia.
Qed.

(** C40: the usage of a volume is that of statfs on its path, which must be a mount
    point: for a file system within 8 EiB the sizes are exact, without overflow, and the
    used and available parts add up to no more than the total; each refusal has its
    code. *)
Theorem NodeGetVolumeStats_usage req :
  wp any_env (NodeGetVolumeStats req)
    (λ o tr, match o with
             | ORet us =>
               ∃ sfs, tr = [ev (CIsMountPath (ns_VolumePath req)) true;
                            ev (CStatfs (ns_VolumePath req)) (Ok sfs)] ∧
                 (sane_statfs sfs →
                  us = [ mkVolumeUsage BYTES (Blocks sfs * Bsize sfs)
                           ((Blocks sfs - Bfree sfs) * Bsize sfs) (Bavail sfs * Bsize sfs);
                         mkVolumeUsage INODES (Files sfs) (Files sfs - Ffree sfs) (Ffree sfs) ] ∧
                  Forall (λ u, (0 <= vu_Used u)%Z ∧ (0 <= vu_Available u)%Z ∧
                               (vu_Used u + vu_Available u <= vu_Total u)%Z) us)
             | OErr (ErrStatus InvalidArgument _) =>
               tr = [] ∧ (ns_VolumeId req = "" ∨ ns_VolumePath req = "")
             | OErr (ErrStatus NotFound _) => tr = [ev (CIsMountPath (ns_VolumePath req)) false]
             | OErr (ErrStatus Internal _) =>
               ∃ e, tr = [ev (CIsMountPath (ns_VolumePath req)) true;
                          ev (CStatfs (ns_VolumePath req)) (Err e)]
             | _ => False
             end) [].
Proof.
  unfold NodeGetVolumeStats.
  destruct (Z.eqb_spec (slen (ns_VolumeId req)) 0) as [Hi%slen_zero|]; [simpl; auto|].
  destruct (Z.eqb_spec (slen (ns_VolumePath req)) 0) as [Hp%slen_zero|]; [simpl; auto|].
  cbn [call mbind prog_mbind prog_bind wp]. intros []; trace_step; [|done].
  intros [sfs|e]; trace_step; [|by exists e].
  exists sfs. split; [done|]. apply usage_of_sane.
Qed.

(** ** Expansion *)

Definition out_of_space := "size is greater than available space".

(** Text that the command printed is part of the error it is reported with. *)
Lemma expand_code_out_of_space op dataset out err :
  Contains out out_of_space = true →
  expand_code (ErrZFS op dataset (TrimSpace out) err) = ResourceExhausted.
Proof.
  intros Hc. unfold expand_code.
  assert (Contains (TrimSpace out) out_of_space = true) as (a & b & Ht)%Contains_spec
    by (by apply Contains_TrimSpace).
  assert (∃ x y, Error (ErrZFS op dataset (TrimSpace out) err) = x +:+ TrimSpace out +:+ y)
    as (x & y & ->).
  { cbn [Error]. unfold ZFSError_Error. rewrite Ht.
    assert (is_empty (a +:+ out_of_space +:+ b) = false) as -> by (by destruct a).
    destruct (is_empty dataset); cbn [negb andb Sprintf Ascii.eqb Bool.eqb].
    - exists (op +:+ ": "), "". by rewrite !app_assoc_str.
    - exists (op +:+ " on " +:+ Quote dataset +:+ ": "), "". by rewrite !app_assoc_str. }
  rewrite Ht.
  by rewrite !app_assoc_str, <- (app_assoc_str x a), Contains_intro.
Qed.

Section expansion.
Context `{!Globals} `{!ErrorsFmt}.

(** The first two commands of a resize. *)
Definition resize_ran (vol : ZFSVolume) (getPo setPo : proc_out) (tr : trace) : Prop :=
  ∃ rest, execs tr = (get_reservation vol, getPo)
                     :: ("zfs" :: buildVolumeResizeArgs vol, setPo) :: rest.

Definition resize_outcome (vol : ZFSVolume) (o : outcome unit) (tr : trace) : Prop :=
  match o with
  | ORet _ => ∃ g st, resize_ran vol g st tr ∧ po_err st = None
  | OErr e =>
    (∃ g, execs tr = [(get_reservation vol, g)]) ∨
    (∃ g st, resize_ran vol g st tr ∧
       ∀ err, po_err st = Some err →
              e = ErrZFS "zfs set quota" (vol_dataset vol) (TrimSpace (po_out st)) err)
  | OPanic _ => execs tr = [(get_reservation vol, mkProcOut "" None)]
  | OSpin => False
  end.

Lemma total_handleVolResize vol p : total (handleVolResize vol p).
Proof. unfold handleVolResize, GetVolumeDevPath, ResizeXFS, ResizeExtn. solve_total. Qed.

Lemma wp_resize_outcome vol p (b : bool) :
  wp any_env (ResizeZFSVolume vol p b) (resize_outcome vol) [].
Proof.
  unfold ResizeZFSVolume, GetVolumeProperty, zfs_exec, runCmd.
  cbn [wp prog_bind mbind prog_mbind call]. intros [gout [gerr|]]; trace_step.
  { left. by exists (mkProcOut gout (Some gerr)). }
  destruct (String.eqb_spec gout "") as [->|Hg]; [done|]. simpl.
  intros [sout [serr|]]; trace_step.
  - intros revPo; trace_step. destruct (po_err revPo); simpl; right;
      eexists (mkProcOut gout None), (mkProcOut sout (Some serr)); (split; [by eexists|]);
      by intros err [= <-].
  - assert (∀ o rest, returned o →
      resize_outcome vol o
        ([ev (CExec "zfs" ["get"; "-pH"; "-o"; "value";
                           reservationPropertyName (QuotaType (vol_Spec vol)); vol_dataset vol])
             (mkProcOut gout None);
          ev (CExec "zfs" (buildVolumeResizeArgs vol)) (mkProcOut sout None)] ++ rest)) as Hok.
    { intros [[]|e| |] rest Hret; try done; [|right];
        eexists (mkProcOut gout None), (mkProcOut sout None); (split; [by eexists|done]). }
    destruct b; [|by apply (Hok (ORet tt) [])].
    eapply wp_mono; [|apply wp_and; [apply trace_extends with
      (Q := λ o tr, returned o → resize_outcome vol o tr); exact Hok|
      apply total_wp, total_handleVolResize]].
    intros o tr [HQ Hr]. by apply HQ.
Qed.

Definition expand_post (req : NodeExpandVolumeRequest) (o : outcome NodeExpandVolumeResponse)
    (tr : trace) : Prop :=
  match o with
  | ORet r => ner_CapacityBytes r = default 0%Z (ne_RequiredBytes req) ∧
              ∃ vol g st, resize_ran vol g st tr ∧ po_err st = None
  | OErr (ErrStatus InvalidArgument _) =>
    tr = [] ∧ (ne_VolumePath req = "" ∨ ne_VolumeId req = "")
  | OErr (ErrStatus NotFound _) => execs tr = []
  | OErr (ErrStatus c _) =>
    (c = Internal ∨ c = ResourceExhausted) ∧
    ∀ vol g st err, resize_ran vol g st tr → po_err st = Some err →
      Contains (po_out st) out_of_space = true → c = ResourceExhausted
  | OPanic _ => ∃ vol, execs tr = [(get_reservation vol, mkProcOut "" None)]
  | _ => False
  end.

Lemma expand_post_code req c m tr :
  c = Internal ∨ c = ResourceExhausted →
  (∀ vol g st err, resize_ran vol g st tr → po_err st = Some err →
     Contains (po_out st) out_of_space = true → c = ResourceExhausted) →
  expand_post req (OErr (ErrStatus c m)) tr.
Proof. intros Hc Hr. destruct Hc; subst; split; eauto. Qed.

End expansion.

(** ** Publishing without the checks *)

Section unchecked.
Context `{!Globals} `{!ErrorsFmt} {NC : NodeConfig}.

(** A capability without an access type, which the protocol does not allow, is
    answered as if the volume had been published: nothing is mounted. *)
Theorem publish_without_access_type {St} (h : handler St) req mode vol s s1 s2 :
  np_VolumeCapability req = Some (mkVolumeCapability mode None) → np_VolumeId req ≠ "" →
  h CClientset s = (Ok tt, s1) →
  h (CGet KVol OpenEBSNamespace (ToLower (np_VolumeId req))) s1 = (Ok vol, s2) →
  run h (NodePublishVolume req) s = (ORet tt, s2).
Proof.
  intros Hcap Hid Hc Hg. unfold NodePublishVolume, validateNodePublishReq, GetVolAndMountInfo,
    Kubeclient_Get. rewrite Hcap, bool_decide_false by done.
  destruct (Z.eqb_spec (slen (np_VolumeId req)) 0) as [Hc0%slen_zero|]; [congruence|].
  destruct (String.eqb_spec (ToLower (np_VolumeId req)) "") as [Hc0|_]; [by apply (proj1 (ToLower_empty _)) in Hc0|].
  simpl. rewrite Hc. simpl. by rewrite Hg.
Qed.

(** A block volume is mounted whatever its state, its node and its mounts, and
    writable even when the request is for a read-only one. *)
Theorem block_publish_unchecked {St} (h : handler St) req mode vol s s1 s2 s3 s4 :
  np_VolumeCapability req = Some (mkVolumeCapability mode (Some AccessBlock)) →
  np_VolumeId req ≠ "" →
  h CClientset s = (Ok tt, s1) →
  h (CGet KVol OpenEBSNamespace (ToLower (np_VolumeId req))) s1 = (Ok vol, s2) →
  h (COpenFile (Clean (np_TargetPath req))) s2 = (Ok tt, s3) →
  h (CMount (ZFSDevPath +:+ vol_dataset vol) (np_TargetPath req) "" ["bind"]) s3 = (Ok tt, s4) →
  run h (NodePublishVolume req) s = (ORet tt, s4).
Proof.
  intros Hcap Hid Hc Hg Ho Hm. unfold NodePublishVolume, validateNodePublishReq, GetVolAndMountInfo,
    Kubeclient_Get. rewrite Hcap, bool_decide_false by done.
  destruct (Z.eqb_spec (slen (np_VolumeId req)) 0) as [Hc0%slen_zero|]; [congruence|].
  destruct (String.eqb_spec (ToLower (np_VolumeId req)) "") as [Hc0|_]; [by apply (proj1 (ToLower_empty _)) in Hc0|].
  cbn -[MountBlock]. rewrite Hc. cbn -[MountBlock]. rewrite Hg.
  unfold MountBlock, mount_info. rewrite Hcap. cbn -[Clean]. rewrite Ho. cbn -[Clean].
  unfold vol_dataset, dataset_of in Hm. cbn -[Clean] in Hm. by rewrite Hm.
Qed.
End unchecked.
