(* ===== verification/Reconcilers.v ===== *)
(** * The reconcilers of the node agent (pkg/mgmt)

    One controller per kind of resource.  Event handlers filter the objects of
    this node and put their keys on a work queue; a worker takes a key, reads the
    object from the informer cache and makes the node agree with it. *)

From S2P Require Import Prelude GoStr GoErr Api Csi Effects Kube ZfsArgs Builders VolumeOps ZfsOps.

(** client-go's cache package: the key of an object, and back. *)
Class CacheKeys := {
  MetaNamespaceKeyFunc : ObjectMeta → result string;
  SplitMetaNamespaceKey : string → result (string * string);
}.

(** Its documented contract: the key of an object splits into its namespace and
    name. *)
Class CacheKeysLaws `{CacheKeys} :=
  split_key m : Namespace m ≠ "" → has_char "/" (Namespace m) = false →
    has_char "/" (Name m) = false →
    ∃ key, MetaNamespaceKeyFunc m = Ok key ∧
           SplitMetaNamespaceKey key = Ok (Namespace m, Name m).

(** ** Event reasons (pkg/zfs/errors.go) *)

Definition ReasonProvisionFailed := "ProvisionFailed".
Definition ReasonCloneFailed := "CloneFailed".
Definition ReasonDestroyFailed := "DestroyFailed".
Definition ReasonSetPropertyFailed := "SetPropertyFailed".
Definition ReasonSnapshotFailed := "SnapshotFailed".
Definition ReasonSnapDestroyFailed := "SnapshotDestroyFailed".
Definition ReasonBackupFailed := "BackupFailed".
Definition ReasonRestoreFailed := "RestoreFailed".
Definition ReasonProvisioned := "Provisioned".
Definition ReasonCloned := "Cloned".
Definition ReasonDestroyed := "Destroyed".
Definition ReasonSnapshotted := "Snapshotted".
Definition ReasonSnapDestroyed := "SnapshotDestroyed".
Definition ReasonBackupCompleted := "BackupCompleted".
Definition ReasonRestoreCompleted := "RestoreCompleted".

(** ** What the informers deliver: objects, tombstones, or values of other types *)

Inductive delivered (k : kind) :=
| DObj (o : obj k)
| DTombstone (o : option (obj k))
| DOther.
Arguments DObj {k} o.
Arguments DTombstone {k} o.
Arguments DOther {k}.

Definition isDeletionCandidate (k : kind) (o : obj k) : bool :=
  match DeletionTimestamp (meta k o) with Some _ => true | None => false end.

Section reconcilers.
Context `{!GoRange} `{!Globals} `{!ErrorsFmt} `{!CacheKeys}.

(** ** Shared by the controllers *)

(** [enqueueZV] and its siblings *)
Definition enqueue (k : kind) (o : obj k) : prog unit :=
  match MetaNamespaceKeyFunc (meta k o) with
  | Err err => call (CHandleError err)
  | Ok key => call (CQueueAdd key)
  end.

(** [syncHandler]: [what] names the kind in the log. *)
Definition syncHandler (k : kind) (what : string) (sync : obj k → prog unit) (key : string)
    : prog unit :=
  match SplitMetaNamespaceKey key with
  | Err _ => call (CHandleError (Errorf "invalid resource key: %s" [key]))
  | Ok (namespace, name) =>
    r ← call (CLister k namespace name);
    match r with
    | Err err =>
      if IsNotFound err
      then call (CHandleError (Errorf "%s '%s' has been deleted" [what; key]))
      else Throw err
    | Ok o => sync o
    end
  end.

(** The function literal of [processNextWorkItem]; [Done] is deferred. *)
Definition processItem (syncHandler : string → prog unit) (item : queue_item) : prog unit :=
  deferred (call (CQueueDone item))
    (match item with
     | QOther =>
       _ ← call (CQueueForget item);
       call (CHandleError (ErrText "expected string in workqueue"))
     | QKey key =>
       r ← attempt (syncHandler key);
       match r with
       | Err err =>
         _ ← call (CQueueAddRateLimited key);
         Throw (Errorf "error syncing '%s': %s, requeuing" [key; Error err])
       | Ok _ => call (CQueueForget item)
       end
     end).

Definition processNextWorkItem (syncHandler : string → prog unit) : prog bool :=
  item ← call CQueueGet;
  match item with
  | None => Ret false
  | Some item =>
    r ← attempt (processItem syncHandler item);
    match r with
    | Err err => _ ← call (CHandleError err); Ret true
    | Ok _ => Ret true
    end
  end.

(** ** Volumes *)

Definition syncZV (zv : ZFSVolume) : prog unit :=
  if isDeletionCandidate KVol zv then
    let userFin := GetUserFinalizers (Finalizers (vol_Meta zv)) in
    if (length userFin =? 0)%nat then
      r ← attempt (DestroyVolume zv);
      match r with
      | Ok _ =>
        _ ← EmitSuccessEvent KVol zv ReasonDestroyed "volume destroyed";
        RemoveVolumeFinalizer zv
      | Err err => _ ← EmitFailureEvent KVol zv ReasonDestroyFailed err; Throw err
      end
    else Throw (Errorf "volume: can not destroy, waiting for finalizers to be removed %v"
                  [fmt_list userFin])
  else
    match Validate (vol_Spec zv) with
    | Some err => Throw (ErrW (Sprintf "volume is invalid: %w" [Error err]) err)
    | None =>
      if IsVolumeReady zv then
        r ← attempt (SetVolumeProp zv);
        match r with
        | Ok _ => Ret tt
        | Err err => _ ← EmitFailureEvent KVol zv ReasonSetPropertyFailed err; Throw err
        end
      else
        let isClone := (0 <? slen (SnapName (vol_Spec zv)))%Z in
        let opReason := if isClone then ReasonCloneFailed else ReasonProvisionFailed in
        let successReason := if isClone then ReasonCloned else ReasonProvisioned in
        let successMsg := if isClone then "clone created from " +:+ SnapName (vol_Spec zv)
                          else "volume provisioned" in
        r ← attempt (if isClone then CreateClone zv else ZfsOps.CreateVolume zv);
        match r with
        | Ok _ =>
          _ ← EmitSuccessEvent KVol zv successReason successMsg;
          UpdateZvolInfo zv ZFSStatusReady
        | Err err =>
          _ ← EmitFailureEvent KVol zv opReason err;
          UpdateZvolInfo zv ZFSStatusFailed
        end
    end.

Definition addZV (o : delivered KVol) : prog unit :=
  match o with
  | DObj zv =>
    if negb (NodeID =? OwnerNodeID (vol_Spec zv)) then Ret tt else enqueue KVol zv
  | _ => call (CHandleError (ErrText "Couldn't get zv object"))
  end.

(** The old object is nil when it is of another type. *)
Definition updateZV (oldObj newObj : delivered KVol) : prog unit :=
  match newObj with
  | DObj newZV =>
    if negb (NodeID =? OwnerNodeID (vol_Spec newZV)) then Ret tt else
    match oldObj with
    | DObj oldZV =>
      if PropertyChanged oldZV newZV || isDeletionCandidate KVol newZV ||
         (vol_State newZV =? ZFSStatusPending)
      then enqueue KVol newZV else Ret tt
    | _ => Crash "nil pointer dereference"
    end
  | _ => call (CHandleError (ErrText "Couldn't get zv object"))
  end.

(** [deleteZV] and its siblings: the object, or the one in the tombstone. *)
Definition delete_handler (k : kind) (owner : obj k → string) (o : delivered k) : prog unit :=
  match match o with
        | DObj o => inl o
        | DTombstone (Some o) => inl o
        | DTombstone None => inr "Tombstone contained object that is not expected"
        | DOther => inr "Couldn't get object from tombstone"
        end with
  | inr msg => call (CHandleError (ErrText msg))
  | inl o => if negb (NodeID =? owner o) then Ret tt else enqueue k o
  end.

Definition deleteZV : delivered KVol → prog unit :=
  delete_handler KVol (λ zv, OwnerNodeID (vol_Spec zv)).

Definition ZV_syncHandler : string → prog unit := syncHandler KVol "zfsvolume" syncZV.

(** ** Snapshots *)

Definition syncSnap (snap : ZFSSnapshot) : prog unit :=
  if isDeletionCandidate KSnap snap then
    let userFin := GetUserFinalizers (Finalizers (snap_Meta snap)) in
    if (length userFin =? 0)%nat then
      r ← attempt (DestroySnapshot snap);
      match r with
      | Ok _ =>
        _ ← EmitSuccessEvent KSnap snap ReasonSnapDestroyed "snapshot destroyed";
        RemoveSnapFinalizer snap
      | Err err => _ ← EmitFailureEvent KSnap snap ReasonSnapDestroyFailed err; Throw err
      end
    else Throw (Errorf "snapshot: can not destroy, waiting for finalizers to be removed %v"
                  [fmt_list userFin])
  else
    match Validate (snap_Spec snap) with
    | Some err => Throw (ErrW (Sprintf "snapshot is invalid: %w" [Error err]) err)
    | None =>
      if negb (snap_State snap =? ZFSStatusReady) then
        r ← attempt (ZfsOps.CreateSnapshot snap);
        match r with
        | Ok _ =>
          _ ← EmitSuccessEvent KSnap snap ReasonSnapshotted "snapshot created";
          UpdateSnapInfo snap
        | Err err => _ ← EmitFailureEvent KSnap snap ReasonSnapshotFailed err; Throw err
        end
      else Ret tt
    end.

Definition addSnap (o : delivered KSnap) : prog unit :=
  match o with
  | DObj snap =>
    if negb (NodeID =? OwnerNodeID (snap_Spec snap)) then Ret tt else enqueue KSnap snap
  | _ => call (CHandleError (ErrText "Couldn't get snap object"))
  end.

Definition updateSnap (oldObj newObj : delivered KSnap) : prog unit :=
  match newObj with
  | DObj newSnap =>
    if negb (NodeID =? OwnerNodeID (snap_Spec newSnap)) then Ret tt
    else if isDeletionCandidate KSnap newSnap then enqueue KSnap newSnap else Ret tt
  | _ => call (CHandleError (ErrText "Couldn't get snap object"))
  end.

Definition deleteSnap : delivered KSnap → prog unit :=
  delete_handler KSnap (λ snap, OwnerNodeID (snap_Spec snap)).

Definition Snap_syncHandler : string → prog unit := syncHandler KSnap "zfs snapshot" syncSnap.

(** ** Backups *)

Definition syncBkp (bkp : ZFSBackup) : prog unit :=
  if isDeletionCandidate KBkp bkp then
    r ← attempt (DestoryBackup bkp);
    match r with
    | Ok _ => RemoveBkpFinalizer bkp
    | Err err => _ ← EmitFailureEvent KBkp bkp ReasonDestroyFailed err; Throw err
    end
  else if bool_decide (bkp_Status bkp = BKPZFSStatusInit) then
    r ← attempt (CreateBackup bkp);
    match r with
    | Ok _ =>
      _ ← EmitSuccessEvent KBkp bkp ReasonBackupCompleted "backup completed";
      UpdateBkpInfo bkp BKPZFSStatusDone
    | Err err =>
      _ ← EmitFailureEvent KBkp bkp ReasonBackupFailed err;
      UpdateBkpInfo bkp BKPZFSStatusFailed
    end
  else Ret tt.

Definition addBkp (o : delivered KBkp) : prog unit :=
  match o with
  | DObj bkp =>
    if negb (NodeID =? bkp_OwnerNodeID (bkp_Spec bkp)) then Ret tt else enqueue KBkp bkp
  | _ => call (CHandleError (ErrText "Couldn't get backup object"))
  end.

Definition updateBkp (oldObj newObj : delivered KBkp) : prog unit :=
  match newObj with
  | DObj newBkp =>
    if negb (NodeID =? bkp_OwnerNodeID (bkp_Spec newBkp)) then Ret tt
    else if isDeletionCandidate KBkp newBkp then enqueue KBkp newBkp else Ret tt
  | _ => call (CHandleError (ErrText "Couldn't get bkp object"))
  end.

Definition deleteBkp : delivered KBkp → prog unit :=
  delete_handler KBkp (λ bkp, bkp_OwnerNodeID (bkp_Spec bkp)).

Definition Bkp_syncHandler : string → prog unit := syncHandler KBkp "zfs backup" syncBkp.

(** ** Restores *)

Definition syncRestore (fuel : nat) (rstr : ZFSRestore) : prog unit :=
  if negb (isDeletionCandidate KRstr rstr) then
    if bool_decide (rstr_Status rstr = RSTZFSStatusInit) then
      r ← CreateRestore fuel rstr;
      match r with
      | (rstr, None) =>
        _ ← EmitSuccessEvent KRstr rstr ReasonRestoreCompleted "restore completed";
        UpdateRestoreInfo rstr RSTZFSStatusDone
      | (rstr, Some err) =>
        _ ← EmitFailureEvent KRstr rstr ReasonRestoreFailed err;
        UpdateRestoreInfo rstr RSTZFSStatusFailed
      end
    else Ret tt
  else Ret tt.

Definition addRestore (o : delivered KRstr) : prog unit :=
  match o with
  | DObj rstr =>
    if negb (NodeID =? rstr_OwnerNodeID (rstr_Spec rstr)) then Ret tt else enqueue KRstr rstr
  | _ => call (CHandleError (ErrText "Couldn't get rstr object"))
  end.

Definition updateRestore (oldObj newObj : delivered KRstr) : prog unit :=
  match newObj with
  | DObj newRstr =>
    if negb (NodeID =? rstr_OwnerNodeID (rstr_Spec newRstr)) then Ret tt
    else if isDeletionCandidate KRstr newRstr then enqueue KRstr newRstr else Ret tt
  | _ => call (CHandleError (ErrText "Couldn't get rstr object"))
  end.

Definition deleteRestore : delivered KRstr → prog unit :=
  delete_handler KRstr (λ rstr, rstr_OwnerNodeID (rstr_Spec rstr)).

Definition Rstr_syncHandler (fuel : nat) : string → prog unit :=
  syncHandler KRstr "zfs restore" (syncRestore fuel).

(** ** Nodes *)

(** [c.ownerRef], the reference of the node object itself. *)
Context (ownerRef : OwnerReference).

(** The references to set, and whether that is a change: the first reference with
    the UID decides. *)
Fixpoint isOwnerRefsUpdateRequired (ownerRefs : list OwnerReference)
    : list OwnerReference * bool :=
  match ownerRefs with
  | [] => ([ownerRef], true)
  | ref :: refs =>
    if negb (ref_UID ref =? ref_UID ownerRef) then
      let '(refs, updated) := isOwnerRefsUpdateRequired refs in (ref :: refs, updated)
    else if bool_decide (ref_Controller ref ≠ ref_Controller ownerRef) then
      (ref {{ ref_Controller := ref_Controller ownerRef }} :: refs, true)
    else (ref :: refs, false)
  end.

(** The node object brought up to date with the owner reference and the pools, and
    whether that changed it. *)
Definition reconcile_node (node : ZFSNode) (pools : list Pool) : ZFSNode * bool :=
  let '(ownerRefs, req) := isOwnerRefsUpdateRequired (OwnerReferences (node_Meta node)) in
  let node1 := if req then node {{ node_Meta := (node_Meta node) {{ OwnerReferences := ownerRefs }} }}
               else node in
  if bool_decide (node_Pools node1 ≠ pools) then (node1 {{ node_Pools := pools }}, true)
  else (node1, req).

Definition syncNode (namespace name : string) : prog unit :=
  r ← call (CLister KNode namespace name);
  cached ← match r with
           | Ok node => Ret (Some node)
           | Err err => if IsNotFound err then Ret None else Throw err
           end;
  pools ← ListZFSPool;
  match cached with
  | None =>
    node ← lift (node_Build (node_NewBuilder
                   .> node_WithNamespace namespace .> node_WithName name
                   .> node_WithPools pools
                   .> node_WithOwnerReferences [ownerRef]));
    r ← attempt (Kubeclient_Create KNode namespace node);
    match r with
    | Err err => Throw (Errorf "create zfs node %s/%s: %v" [namespace; name; Error err])
    | Ok _ => Ret tt
    end
  | Some node =>
    let '(node, updateRequired) := reconcile_node node pools in
    if negb updateRequired then Ret tt
    else
      r ← attempt (Kubeclient_Update KNode namespace node);
      match r with
      | Err err => Throw (Errorf "update zfs node %s/%s: %v" [namespace; name; Error err])
      | Ok _ => Ret tt
      end
  end.

Definition Node_syncHandler (key : string) : prog unit :=
  match SplitMetaNamespaceKey key with
  | Err _ => call (CHandleError (Errorf "invalid resource key: %s" [key]))
  | Ok (namespace, name) => syncNode namespace name
  end.

Definition enqueueNode (node : ZFSNode) : prog unit :=
  if negb (Namespace (node_Meta node) =? OpenEBSNamespace) || negb (Name (node_Meta node) =? NodeID)
  then Ret tt
  else enqueue KNode node.

Definition addNode (o : delivered KNode) : prog unit :=
  match o with
  | DObj node => enqueueNode node
  | _ => call (CHandleError (ErrText "Couldn't get node object"))
  end.

Definition updateNode (oldObj newObj : delivered KNode) : prog unit :=
  match newObj with
  | DObj newNode => enqueueNode newNode
  | _ => call (CHandleError (ErrText "Couldn't get node object"))
  end.

Definition deleteNode (o : delivered KNode) : prog unit :=
  match o with
  | DObj node | DTombstone (Some node) => enqueueNode node
  | DTombstone None =>
    call (CHandleError (ErrText "Tombstone contained object that is not a ZFSNode"))
  | DOther => call (CHandleError (ErrText "Couldn't get object from tombstone"))
  end.
End reconcilers.
