(* ===== verification/ReconcilersSpec.v ===== *)
(** * What the reconcilers guarantee *)

From S2P Require Import Prelude GoStr GoErr Api Csi Effects Kube ZfsArgs.
From S2P Require Import Builders VolumeOps ZfsOps Laws Sim ZfsOpsSpec PipeSpec Reconcilers.

(** Commands that neither write volume resources nor work through a pipe; without [del]
    they destroy nothing either. *)
Definition no_vol_write (del : bool) (c : cmd) : Prop :=
  match c with
  | CUpdate KVol _ _ | CCreate KVol _ _ | CDelete KVol _ _ => False
  | CStart _ _ _ | CKill _ | CWaitProc _ | CGoWait _ | CRecvExit => False
  | CExec _ ("destroy" :: _) => del = true
  | _ => True
  end.

Section volumes.
Context `{!GoRange} `{!Globals} `{!ErrorsFmt} `{!CacheKeys}.

Lemma DestroyVolume_no_write vol : only (no_vol_write true) (DestroyVolume vol).
Proof. unfold DestroyVolume, DestroySnapshot, getVolume, zfs_exec, runCmd. solve_only. Qed.

Lemma create_no_write vol (b : bool) :
  only (no_vol_write false) (if b then CreateClone vol else ZfsOps.CreateVolume vol).
Proof.
  unfold CreateClone, ZfsOps.CreateVolume, ZfsOps.CreateSnapshot.
  destruct (create_args_shape vol) as (args & -> & _), (clone_args_shape vol) as (args' & -> & _).
  unfold getVolume, zfs_exec, runCmd. solve_only.
Qed.

Lemma SetVolumeProp_no_write vol : only (no_vol_write false) (SetVolumeProp vol).
Proof. unfold SetVolumeProp, zfs_exec, runCmd. solve_only. Qed.

(** ** The writes of the volume reconciler *)

(** What an update of the volume resource may say, for the volume [zv] that is being
    reconciled, when its dataset exists ([has]) or not: while it is being deleted, that
    the finalizers are gone, once the dataset is gone; otherwise that it is ready, with
    the finalizer and the label of this node, once the dataset exists, or that it
    failed.  It is an update of the version that was read. *)
Definition vol_update_ok (zv : ZFSVolume) (ns : string) (v : ZFSVolume) (has : Prop) : Prop :=
  ns = OpenEBSNamespace ∧ Name (vol_Meta v) = Name (vol_Meta zv) ∧
  ResourceVersion (vol_Meta v) = ResourceVersion (vol_Meta zv) ∧ vol_Spec v = vol_Spec zv ∧
  if isDeletionCandidate KVol zv then
    Finalizers (vol_Meta v) = [] ∧ ¬ has
  else
    Labels (vol_Meta v) = {[ZFSNodeKey := NodeID]} ∪ Labels (vol_Meta zv) ∧
    Finalizers (vol_Meta zv) ⊆ Finalizers (vol_Meta v) ∧
    ((vol_State v = ZFSStatusReady ∧ ZFSFinalizer ∈ Finalizers (vol_Meta v) ∧ has) ∨
     (vol_State v = ZFSStatusFailed ∧ Finalizers (vol_Meta v) = Finalizers (vol_Meta zv))).

Section at_work.
Context {St : Type} (E : Env St) (zv : ZFSVolume) (has : St → Prop).

(** The commands the reconciler may issue: it writes as above, and destroys only while
    the volume is being deleted. *)
Definition vol_guard (c : cmd) (s : St) : Prop :=
  match c with
  | CUpdate k ns o =>
    (match k as k return obj k → Prop with
     | KVol => λ v, vol_update_ok zv ns v (has s)
     | _ => λ _, True
     end) o
  | _ => no_vol_write (isDeletionCandidate KVol zv) c
  end.

Lemma no_write_guard del c s :
  (del = true → isDeletionCandidate KVol zv = true) → no_vol_write del c → vol_guard c s.
Proof. intros Hdel. destruct c; simpl; try done; try (by destruct k); repeat case_match; auto. Qed.

Lemma safe_no_write {A} del (p : prog A) s :
  (del = true → isDeletionCandidate KVol zv = true) → only (no_vol_write del) p → safe E vol_guard p s.
Proof. intros Hdel. apply only_safe. intros c s'. by apply no_write_guard. Qed.

Context `{Hat : !ZfsLawsAt E (vol_dataset zv) has}.

(** Two calls that leave the datasets alone, then the update. *)
Lemma safe_event_update t reason msg v s :
  (∀ h : Prop, h ↔ has s → vol_update_ok zv OpenEBSNamespace v h) →
  safe E vol_guard
    (_ ← call (CEvent KVol zv t reason msg);
     _ ← Kubeclient_Update KVol OpenEBSNamespace v; Ret tt) s.
Proof.
  intros Hv. simpl. split; [done|]. intros [] s1 Hs1%(at_quiet E (vol_dataset zv) has); [|done..].
  split; [done|]. intros r s2 Hs2%(at_quiet E (vol_dataset zv) has); [|done..]. destruct r; simpl; [|done].
  split; [apply Hv; tauto|]. by intros [] s3 _.
Qed.

Lemma safe_syncZV s : safe E vol_guard (syncZV zv) s.
Proof.
  unfold syncZV. destruct (isDeletionCandidate KVol zv) eqn:Hdel.
  - destruct (length _ =? 0)%nat; [|done].
    apply safe_bind; [by eapply safe_no_write, only_attempt, DestroyVolume_no_write|].
    apply wp_attempt. eapply wp_mono, (wp_at_DestroyVolume E zv has).
    intros [[]|e| |] s1 Hgone; cbn; try done.
    apply safe_event_update. intros h Hh. unfold vol_update_ok. rewrite Hdel.
    destruct zv as [[] ? ?]; simpl in *. split_and!; try done. rewrite Hh. auto.
  - destruct (Validate (vol_Spec zv)); [done|].
    destruct (IsVolumeReady zv).
    { eapply (safe_no_write false); [done|]. apply only_bind; [apply only_attempt, SetVolumeProp_no_write|].
      intros []; simpl; auto. }
    apply safe_bind; [by eapply (safe_no_write false), only_attempt, create_no_write|].
    apply wp_attempt.
    eapply (wp_mono E _ (λ o s', o = ORet tt → has s')).
    + intros [[]|e| |] s1 Hs1; try done; apply safe_event_update; intros h Hh;
        unfold vol_update_ok; rewrite Hdel; destruct zv as [[] ? ?]; simpl in *;
        (split_and!; [done..|set_solver|]).
      * left. split_and!; [done|set_solver|]. rewrite Hh. auto.
      * right. rewrite app_nil_r. done.
    + destruct (0 <? _)%Z; [apply (wp_at_CreateClone E zv has)|apply (wp_at_CreateVolume E zv has)].
Qed.
End at_work.
End volumes.

(** ** The reconcilers return *)

Section returns.
Context `{!GoRange} `{!Globals} `{!ErrorsFmt} `{!CacheKeys}.

Lemma total_Kubeclient_Update k ns o : total (Kubeclient_Update k ns o).
Proof. unfold Kubeclient_Update, getClientOrCached. solve_total. Qed.

Lemma total_Kubeclient_Get k ns name : total (Kubeclient_Get k ns name).
Proof. unfold Kubeclient_Get, getClientOrCached. solve_total. Qed.

Lemma total_DestroySnapshot snap : total (DestroySnapshot snap).
Proof. unfold DestroySnapshot, getVolume, zfs_exec, runCmd. solve_total. Qed.

Lemma total_CreateSnapshot snap : total (ZfsOps.CreateSnapshot snap).
Proof. unfold ZfsOps.CreateSnapshot, getVolume, zfs_exec, runCmd. solve_total. Qed.

Lemma total_syncZV zv : total (syncZV zv).
Proof.
  unfold syncZV, DestroyVolume, CreateClone, ZfsOps.CreateVolume, SetVolumeProp,
    RemoveVolumeFinalizer, UpdateZvolInfo, EmitFailureEvent, EmitSuccessEvent,
    getVolume, zfs_exec, runCmd.
  solve_total; auto using total_Kubeclient_Update, total_DestroySnapshot, total_CreateSnapshot.
Qed.

Lemma total_syncSnap snap : total (syncSnap snap).
Proof.
  unfold syncSnap, RemoveSnapFinalizer, UpdateSnapInfo, EmitFailureEvent, EmitSuccessEvent.
  solve_total; auto using total_Kubeclient_Update, total_DestroySnapshot, total_CreateSnapshot.
Qed.

Lemma total_runPipe src srcArgs dst dstArgs dataset :
  total (runPipe src srcArgs dst dstArgs dataset).
Proof. unfold runPipe. solve_total. Qed.

Lemma total_syncBkp bkp : total (syncBkp bkp).
Proof.
  unfold syncBkp, DestoryBackup, CreateBackup, GetZFSVolume, RemoveBkpFinalizer, UpdateBkpInfo,
    EmitFailureEvent, EmitSuccessEvent.
  solve_total; auto using total_Kubeclient_Update, total_DestroySnapshot, total_CreateSnapshot,
    total_runPipe; apply (total_Kubeclient_Get KVol).
Qed.
End returns.

(** ** Backups and restores are reported done only when the stream went through *)

(** Both children of the pipe were started and exited without an error. *)
Definition streamed (tr : trace) : Prop :=
  exits_distinct tr →
  ∀ c, happened (started c) tr = true ∧ happened (exited c true) tr = true.

Lemma happened_app p tr1 tr2 : happened p (tr1 ++ tr2) = happened p tr1 || happened p tr2.
Proof. apply existsb_app. Qed.

Lemma streamed_app tr0 tr : streamed tr → streamed (tr0 ++ tr).
Proof.
  intros Hs Hd c. rewrite !happened_app.
  destruct (Hs (λ tr1 tr2 r1 r2 Heq, Hd (tr0 ++ tr1) tr2 r1 r2
                 (eq_trans (f_equal (app tr0) Heq) (app_assoc tr0 tr1 _))) c) as [-> ->].
  by rewrite !orb_true_r.
Qed.

Lemma streamed_app_r tr rest : streamed tr → streamed (tr ++ rest).
Proof.
  intros Hs Hd c. rewrite !happened_app. destruct (Hs) with (c := c) as [-> ->]; [|done].
  intros tr1 tr2 r1 r2 -> Hin.
  apply (Hd tr1 (tr2 ++ rest) r1 r2); [|set_solver].
  by rewrite <- (assoc_L (++)).
Qed.

Section streams.
Context `{!GoRange} `{!Globals} `{!ErrorsFmt}.

Lemma wp_runPipe_streamed src srcArgs dst dstArgs dataset tr0 :
  wp any_env (runPipe src srcArgs dst dstArgs dataset)
    (λ o tr, ∀ out, o = ORet (out, None) → streamed tr) tr0.
Proof.
  pose proof (trace_shift _ _ tr0 _ (wp_runPipe src srcArgs dst dstArgs dataset)) as Hw.
  rewrite app_nil_r in Hw. eapply wp_mono, Hw.
  intros o tr (tr1 & -> & Hpost) out ->. apply streamed_app.
  intros Hd. by apply Hpost.
Qed.

Lemma wp_CreateBackup_streamed bkp tr0 :
  wp any_env (CreateBackup bkp) (λ o tr, o = ORet tt → streamed tr) tr0.
Proof.
  apply wp_bind, wp_any. intros [vol|e| |] tr1; try done.
  apply wp_bind, wp_any. intros [[]|e| |] tr2; try done. cbn [bind_post].
  destruct (buildVolumeBackupArgs bkp vol) as [[sendArgs ncArgs]|e]; [|done].
  apply wp_bind. eapply wp_mono, wp_runPipe_streamed.
  intros [[out [e|]]|e| |] tr3 Hp; try done. intros _. by eapply Hp.
Qed.

Lemma wp_CreateRestore_streamed fuel rstr tr0 :
  wp any_env (CreateRestore fuel rstr)
    (λ o tr, ∀ rstr', o = ORet (rstr', None) → streamed tr) tr0.
Proof.
  apply wp_bind, wp_any. intros [[rstr1|e]|e| |] tr1; try done. cbn [bind_post].
  apply wp_bind, wp_attempt. unfold restore_volume.
  destruct (buildVolumeRestoreArgs rstr1) as [[ncArgs recvArgs]|e]; [|done].
  apply wp_bind. eapply wp_mono, wp_runPipe_streamed.
  intros [[out [e|]]|e| |] tr3 Hp; try done. cbn [bind_post].
  pose proof (Hp out eq_refl) as Hs. apply trace_extends. intros o rest.
  destruct o as [[]|e| |]; try done. intros rstr' [= <-]. by apply streamed_app_r.
Qed.

(** ** The guards *)

(** An update that sets the status to done follows a stream that went through. *)
Definition bkp_guard (bkp : ZFSBackup) (c : cmd) (tr : trace) : Prop :=
  match c with
  | CUpdate k _ o =>
    (match k as k return obj k → Prop with
     | KBkp => λ b, bkp_Status b = BKPZFSStatusDone →
                    bkp_Status bkp = BKPZFSStatusDone ∨ streamed tr
     | _ => λ _, True
     end) o
  | _ => True
  end.

Definition rstr_guard (c : cmd) (tr : trace) : Prop :=
  match c with
  | CUpdate k _ o =>
    (match k as k return obj k → Prop with
     | KRstr => λ r, rstr_Status r = RSTZFSStatusDone → streamed tr
     | _ => λ _, True
     end) o
  | _ => True
  end.

Definition no_update (c : cmd) : Prop := match c with CUpdate _ _ _ => False | _ => True end.

Lemma DestoryBackup_no_update bkp : only no_update (DestoryBackup bkp).
Proof.
  unfold DestoryBackup, DestroySnapshot, GetZFSVolume, Kubeclient_Get, getClientOrCached, getVolume,
    zfs_exec, runCmd. solve_only.
Qed.

Lemma CreateBackup_no_update bkp : only no_update (CreateBackup bkp).
Proof.
  unfold CreateBackup, ZfsOps.CreateSnapshot, GetZFSVolume, Kubeclient_Get, getClientOrCached, getVolume,
    runPipe, zfs_exec, runCmd. solve_only.
Qed.

Lemma getDevice_loop_no_update fuel timeout device : only no_update (getDevice_loop fuel timeout device).
Proof. induction fuel; simpl; solve_only. Qed.

Lemma CreateRestore_no_update fuel rstr : only no_update (CreateRestore fuel rstr).
Proof.
  unfold CreateRestore, restore_volume, getDevice, GetZFSVolume, Kubeclient_Get,
    getClientOrCached, runPipe, zfs_exec, runCmd.
  solve_only; apply getDevice_loop_no_update.
Qed.

Lemma safe_syncBkp bkp : safe any_env (bkp_guard bkp) (syncBkp bkp) [].
Proof.
  unfold syncBkp. assert (∀ c tr, no_update c → bkp_guard bkp c tr) as Hno by by intros [].
  destruct (isDeletionCandidate KBkp bkp).
  - apply safe_bind; [by eapply only_safe, only_attempt, DestoryBackup_no_update|].
    apply wp_any. intros [[[]|e]|e| |] tr; try done. simpl.
    split; [done|]. intros [[]|e] tr' _; simpl; [|done]. split; [tauto|]. by intros [].
  - case_bool_decide as Hinit; [|done].
    apply safe_bind; [by eapply only_safe, only_attempt, CreateBackup_no_update|].
    apply wp_attempt. eapply wp_mono, wp_CreateBackup_streamed.
    intros [[]|e| |] tr Hs; try done; simpl;
      (split; [done|]; intros [] tr1 ->; split; [done|]; intros [[]|e'] tr2 ->; simpl; [|done];
       split; [|by intros []]).
    + intros _. right. rewrite <- (assoc_L (++)). by apply streamed_app_r, Hs.
    + done.
Qed.

Lemma safe_syncRestore fuel rstr : safe any_env rstr_guard (syncRestore fuel rstr) [].
Proof.
  unfold syncRestore. assert (∀ c tr, no_update c → rstr_guard c tr) as Hno by by intros [].
  destruct (isDeletionCandidate KRstr rstr); [done|]. simpl.
  case_bool_decide as Hinit; [|done].
  apply safe_bind; [by eapply only_safe, CreateRestore_no_update|].
  eapply wp_mono, wp_CreateRestore_streamed.
  intros [[rstr' [e|]]|e| |] tr Hs; try done; simpl;
    (split; [done|]; intros [] tr1 ->; split; [done|]; intros [[]|e'] tr2 ->; simpl; [|done];
     split; [|by intros []]); [done|].
  intros _. rewrite <- (assoc_L (++)). by eapply streamed_app_r, Hs.
Qed.
End streams.

(** ** The work queue *)

Section queue.
Context {St : Type} (E : Env St) (h : string → prog unit) (Iok Ierr : St → Prop).

(** How an item leaves the worker: forgotten after a success, put back after a
    failure, and marked done in both cases. *)
Definition item_settled (key : string) (s' : St) : Prop :=
  (∃ s1 s2, Iok s1 ∧ E (CQueueForget (QKey key)) s1 tt s2 ∧ E (CQueueDone (QKey key)) s2 tt s') ∨
  (∃ s1 s2 s3 e, Ierr s1 ∧ E (CQueueAddRateLimited key) s1 tt s2 ∧
                 E (CQueueDone (QKey key)) s2 tt s3 ∧ E (CHandleError e) s3 tt s').

Lemma wp_processKey key s :
  wp E (h key) (λ o s', match o with ORet _ => Iok s' | OErr _ => Ierr s' | _ => False end) s →
  wp E (r ← attempt (processItem h (QKey key));
        match r with
        | Err err => _ ← call (CHandleError err); Ret true
        | Ok _ => Ret true
        end) (λ o s', o = ORet true ∧ item_settled key s') s.
Proof.
  intros Hh. apply wp_bind, wp_attempt, wp_bind, wp_attempt, wp_bind, wp_attempt.
  eapply wp_mono, Hh. intros [[]|e| |] s1 H1; simpl; try done.
  - intros [] s2 H2 [] s3 H3. split; [done|]. left. eauto.
  - intros [] s2 H2 [] s3 H3 [] s4 H4. split; [done|]. right. eauto 10.
Qed.
End queue.

(** ** Nodes *)

Section nodes.
Context `{!Globals} `{!ErrorsFmt} (ownerRef : OwnerReference).

Lemma ownerRefs_fix refs :
  isOwnerRefsUpdateRequired ownerRef (isOwnerRefsUpdateRequired ownerRef refs).1 =
  ((isOwnerRefsUpdateRequired ownerRef refs).1, false).
Proof.
  induction refs as [|ref refs IH]; simpl.
  { rewrite String.eqb_refl. simpl. by rewrite bool_decide_false by auto. }
  destruct (ref_UID ref =? ref_UID ownerRef) eqn:Hu; simpl.
  - case_bool_decide as Hc; simpl.
    + destruct ref; simpl in *. rewrite Hu. simpl. by rewrite bool_decide_false by auto.
    + rewrite Hu. simpl. case_bool_decide; naive_solver.
  - destruct (isOwnerRefsUpdateRequired ownerRef refs) as [refs' u]. simpl in *. rewrite Hu. simpl.
    by rewrite IH.
Qed.

Lemma ownerRefs_unchanged refs refs' :
  isOwnerRefsUpdateRequired ownerRef refs = (refs', false) → refs' = refs.
Proof.
  revert refs'. induction refs as [|ref refs IH]; intros refs'; simpl; [done|].
  destruct (ref_UID ref =? ref_UID ownerRef); simpl; [case_bool_decide; naive_solver|].
  destruct (isOwnerRefsUpdateRequired ownerRef refs) as [refs1 u]. intros [= <- ->].
  f_equal. by apply IH.
Qed.

(** The reference the reconciled object carries. *)
Lemma ownerRefs_present refs :
  ∃ ref, ref ∈ (isOwnerRefsUpdateRequired ownerRef refs).1 ∧
         ref_UID ref = ref_UID ownerRef ∧ ref_Controller ref = ref_Controller ownerRef.
Proof.
  induction refs as [|ref refs IH]; simpl; [exists ownerRef; set_solver|].
  destruct (ref_UID ref =? ref_UID ownerRef) eqn:Hu; simpl.
  - to_prop. case_bool_decide as Hc; simpl; eexists; (split; [left|]).
    + by destruct ref.
    + naive_solver.
  - destruct (isOwnerRefsUpdateRequired ownerRef refs) as [refs' u]. simpl in *.
    destruct IH as (r & ? & ?). exists r. set_solver.
Qed.

Lemma reconcile_node_fix node pools :
  reconcile_node ownerRef (reconcile_node ownerRef node pools).1 pools =
  ((reconcile_node ownerRef node pools).1, false).
Proof.
  destruct node as [m ps]. destruct m as [n ns rv l a f d refs]. unfold reconcile_node. simpl.
  pose proof (ownerRefs_fix refs) as Hfix.
  destruct (isOwnerRefsUpdateRequired ownerRef refs) as [refs' req] eqn:Hr. simpl in Hfix.
  destruct req; [|apply ownerRefs_unchanged in Hr as ->]; simpl.
  all: destruct (bool_decide (ps ≠ pools)) eqn:Hp; simpl; rewrite Hfix; simpl;
    rewrite ?Hp; try done; by rewrite bool_decide_false by auto.
Qed.

Lemma reconcile_node_unchanged node pools node' :
  reconcile_node ownerRef node pools = (node', false) → node' = node.
Proof.
  unfold reconcile_node. destruct (isOwnerRefsUpdateRequired _ _) as [refs' []] eqn:Hr;
    case_bool_decide; naive_solver.
Qed.

(** What the reconciled object carries. *)
Lemma reconcile_node_refs node pools :
  node_Pools (reconcile_node ownerRef node pools).1 = pools ∧
  ∃ ref, ref ∈ OwnerReferences (node_Meta (reconcile_node ownerRef node pools).1) ∧
         ref_UID ref = ref_UID ownerRef ∧ ref_Controller ref = ref_Controller ownerRef.
Proof.
  destruct node as [m ps]. destruct m as [n ns rv l a f d refs]. unfold reconcile_node. simpl.
  destruct (ownerRefs_present refs) as (ref & Hin & Hu & Hc).
  destruct (isOwnerRefsUpdateRequired ownerRef refs) as [refs' req] eqn:Hr. simpl in Hin.
  destruct req; [|apply ownerRefs_unchanged in Hr as ->]; simpl;
    case_bool_decide as Hp; simpl;
    (split; [first [done|by destruct (decide (ps = pools))]|by exists ref]).
Qed.

(** *** The writes of the node reconciler *)

(** The pools that a listing of the trace decodes to. *)
Definition listed (tr : trace) (pools : list Pool) : Prop :=
  ∃ args po, (args, po) ∈ execs tr ∧ po_err po = None ∧ decodeListOutput (po_out po) = Ret pools.

Definition cached (namespace name : string) (tr : trace) (node : ZFSNode) : Prop :=
  ev (CLister KNode namespace name) (Ok node) ∈ tr.

(** A node resource is created with the pools that were listed, and updated to the
    reconciled object when that is not the cached one. *)
Definition node_guard (namespace name : string) (c : cmd) (tr : trace) : Prop :=
  match c with
  | CCreate k ns o =>
    (match k as k return obj k → Prop with
     | KNode => λ n, ns = namespace ∧ listed tr (node_Pools n) ∧
                     Name (node_Meta n) = name ∧ Namespace (node_Meta n) = namespace ∧
                     OwnerReferences (node_Meta n) = [ownerRef]
     | _ => λ _, False
     end) o
  | CUpdate k ns o =>
    (match k as k return obj k → Prop with
     | KNode => λ n, ns = namespace ∧
                     ∃ node pools, cached namespace name tr node ∧ listed tr pools ∧
                                   reconcile_node ownerRef node pools = (n, true)
     | _ => λ _, False
     end) o
  | CDelete _ _ _ => False
  | _ => True
  end.

(** Decoding has no effects. *)
Definition leaf {A} (p : prog A) : Prop := match p with Vis _ _ | Spin => False | _ => True end.

Lemma leaf_bind {A B} (p : prog A) (f : A → prog B) :
  leaf p → (∀ a, leaf (f a)) → leaf (p ≫= f).
Proof. destruct p; simpl; auto. Qed.

Lemma leaf_decode raw : leaf (decodeListOutput raw).
Proof.
  unfold decodeListOutput. generalize (@nil Pool) as pools.
  induction (scan_lines raw) as [|l lines IH]; intros pools; [done|]. simpl.
  apply leaf_bind; [|intros; apply IH]. unfold decode_line. repeat case_match; done.
Qed.

Lemma safe_syncNode namespace name :
  safe any_env (node_guard namespace name) (syncNode ownerRef namespace name) [].
Proof.
  simpl. split; [done|]. intros r tr ->. set (tr0 := [] ++ _).
  assert (∀ po pools rest, po_err po = None → decodeListOutput (po_out po) = Ret pools →
    listed ((tr0 ++ [ev (CExec "zfs" ["list"; "-d"; "1"; "-s"; "name"; "-o";
                       "name,guid,available,used"; "-H"; "-p"]) po]) ++ rest) pools) as Hl.
  { intros po pools rest Hpo Hdec. eexists _, po. split; [|done].
    unfold execs. rewrite !omap_app. simpl. left. }
  destruct r as [node|e].
  - simpl. split; [done|]. intros po tr ->.
    destruct (po_err po) as [e|] eqn:Hpo; [done|]. cbn.
    pose proof (leaf_decode (po_out po)) as Hleaf.
    destruct (decodeListOutput (po_out po)) as [pools| | | |] eqn:Hdec; try done. simpl.
    destruct (reconcile_node ownerRef node pools) as [n []] eqn:Hrec; [|done]. simpl.
    split; [done|]. intros [[]|e] tr ->; simpl; [|done]. split; [|by intros []].
    split; [done|]. exists node, pools. split_and!; [|by apply Hl|done].
    unfold cached, tr0. set_solver.
  - simpl. destruct (IsNotFound e); [|done]. simpl. split; [done|]. intros po tr ->.
    destruct (po_err po) as [e'|] eqn:Hpo; [done|]. cbn.
    pose proof (leaf_decode (po_out po)) as Hleaf.
    destruct (decodeListOutput (po_out po)) as [pools| | | |] eqn:Hdec; try done.
    unfold node_Build, node_WithNamespace, node_WithName.
    destruct (String.eqb_spec namespace ""), (String.eqb_spec name ""); try done. simpl.
    split; [done|]. intros [[]|e'] tr ->; simpl; [|done]. split; [|by intros []].
    split_and!; try done. by apply Hl.
Qed.
End nodes.

(** ** Properties *)

Section properties.
Context `{!GoRange} `{!Globals} `{!ErrorsFmt} `{!CacheKeys}.

(** The last command of a trace is an update of a volume that was accepted. *)
Definition recorded (tr : trace) : Prop :=
  ∃ tr' v r, tr = tr' ++ [ev (CUpdate KVol OpenEBSNamespace v) (Ok r)].

Lemma wp_recorded t reason msg zv v tr :
  wp any_env (_ ← call (CEvent KVol zv t reason msg);
              _ ← Kubeclient_Update KVol OpenEBSNamespace v; Ret tt)
    (λ o tr', o = ORet tt → recorded tr') tr.
Proof.
  simpl. intros []; trace_step. intros [[]|e]; trace_step; [|done].
  intros [r|e]; trace_step; [|done]. intros _. by eexists _, v, r.
Qed.

Lemma wp_syncZV_recorded zv :
  isDeletionCandidate KVol zv = true ∨ IsVolumeReady zv = false →
  wp any_env (syncZV zv) (λ o tr, o = ORet tt → recorded tr) [].
Proof.
  intros Hcase. unfold syncZV. destruct (isDeletionCandidate KVol zv).
  - destruct (_ =? 0)%nat; [|done].
    apply wp_bind, wp_attempt, wp_any. intros [[]|e| |] tr; try done. apply wp_recorded.
  - destruct Hcase as [|Hready]; [done|]. destruct (Validate _); [done|]. rewrite Hready.
    apply wp_bind, wp_attempt, wp_any. intros [[]|e| |] tr; try done; apply wp_recorded.
Qed.

Section state.
Context {St : Type} (E : Env St) (ds : St → gset string) `{!ZfsLaws E ds}.

Lemma wp_event_update_frame t reason msg zv v d s :
  d ∉ ds s →
  wp E (_ ← call (CEvent KVol zv t reason msg);
        _ ← Kubeclient_Update KVol OpenEBSNamespace v; Ret tt) (λ _ s', d ∉ ds s') s.
Proof.
  intros Hd. apply (wp_mono E _ (λ _ s', ds s' = ds s)); [by intros _ s' ->|]. simpl.
  intros [] s1 Hs1%(zfs_frame' E ds); [|done..].
  intros [[]|e] s2 Hs2%(zfs_frame' E ds); simpl; try done; [|congruence].
  intros [r|e] s3 Hs3%(zfs_frame' E ds); simpl; try done; congruence.
Qed.

Lemma wp_syncZV_deleted zv s :
  isDeletionCandidate KVol zv = true →
  wp E (syncZV zv) (λ o s', o = ORet tt → vol_dataset zv ∉ ds s') s.
Proof.
  intros Hdel. unfold syncZV. rewrite Hdel. destruct (_ =? 0)%nat; [|done].
  apply wp_bind, wp_attempt. eapply wp_mono, (wp_DestroyVolume E ds).
  intros [[]|e| |] s1 (_ & _ & Hs1); try done; cbn [bind_post].
  destruct Hs1 as (_ & Hgone & _). eapply wp_mono, wp_event_update_frame; [|exact Hgone]. done.
Qed.

End state.

(** A reconciliation that succeeds has reported: for a volume that is being
    deleted or is not ready yet, its last command is an update of the resource that
    the API server accepted.  A volume that waits for the finalizers of others, or
    that is invalid, is refused before any command. *)
Theorem syncZV_reports zv :
  (isDeletionCandidate KVol zv = true ∨ IsVolumeReady zv = false →
   wp any_env (syncZV zv) (λ o tr, o = ORet tt → recorded tr) []) ∧
  (isDeletionCandidate KVol zv = true → GetUserFinalizers (Finalizers (vol_Meta zv)) ≠ [] →
   ∃ e, syncZV zv = Throw e) ∧
  (isDeletionCandidate KVol zv = false → Validate (vol_Spec zv) ≠ None →
   ∃ e, syncZV zv = Throw e).
Proof.
  split; [apply wp_syncZV_recorded|]. unfold syncZV. split; intros -> Hn.
  - destruct (GetUserFinalizers _); [done|]. simpl. eauto.
  - destruct (Validate _); [|done]. eauto.
Qed.

(** C10: a backup is reported done only after its stream went through: the sender and
    the receiver were started and exited without an error. *)
Theorem syncBkp_done_streamed bkp : safe any_env (bkp_guard bkp) (syncBkp bkp) [].
Proof. apply safe_syncBkp. Qed.

(** A restore is reported done only after its stream went through. *)
Theorem syncRestore_done_streamed fuel rstr : safe any_env rstr_guard (syncRestore fuel rstr) [].
Proof. apply safe_syncRestore. Qed.

(** The node reconciler creates a node resource only with the pools that were
    listed and this node's owner reference, updates it only to the reconciled
    object and only when that differs from the cached one, and deletes nothing. *)
Theorem syncNode_guarded ownerRef namespace name :
  safe any_env (node_guard ownerRef namespace name) (syncNode ownerRef namespace name) [].
Proof. apply safe_syncNode. Qed.

(** Reconciling a node is idempotent: the reconciled object needs no further
    update; it has the pools that were listed and an owner reference with the
    controller flag of this agent's; and no update is needed only when nothing
    differs. *)
Theorem reconcile_node_idempotent ownerRef node pools :
  let '(node', changed) := reconcile_node ownerRef node pools in
  reconcile_node ownerRef node' pools = (node', false) ∧
  node_Pools node' = pools ∧
  (∃ ref, ref ∈ OwnerReferences (node_Meta node') ∧ ref_UID ref = ref_UID ownerRef ∧
          ref_Controller ref = ref_Controller ownerRef) ∧
  (changed = false → node' = node).
Proof.
  pose proof (reconcile_node_fix ownerRef node pools) as Hfix.
  pose proof (reconcile_node_unchanged ownerRef node pools) as Hsame.
  pose proof (reconcile_node_refs ownerRef node pools) as [Hpools Hrefs].
  destruct (reconcile_node ownerRef node pools) as [node' changed]. simpl in *.
  split_and!; [done..|]. intros ->. by apply Hsame.
Qed.

(** An item taken from the work queue is settled: for whatever its handler
    guarantees on success and on failure, the key is forgotten after a success, put
    back with rate limiting after a failure, marked done in both cases after that,
    and the worker goes on; a queue that was shut down stops it. *)
Theorem processNextWorkItem_settles {St} (E : Env St) (h : string → prog unit)
    (Iok Ierr : string → St → Prop) s :
  (∀ key s1, wp E (h key) (λ o s', match o with
                                   | ORet _ => Iok key s' | OErr _ => Ierr key s' | _ => False
                                   end) s1) →
  wp E (processNextWorkItem h)
    (λ o s', (o = ORet false ∧ E CQueueGet s None s') ∨
             (o = ORet true ∧ ∃ s1,
                (∃ key, E CQueueGet s (Some (QKey key)) s1 ∧
                        item_settled E (Iok key) (Ierr key) key s') ∨
                (∃ s2 s3 e, E CQueueGet s (Some QOther) s1 ∧ E (CQueueForget QOther) s1 tt s2 ∧
                            E (CHandleError e) s2 tt s3 ∧ E (CQueueDone QOther) s3 tt s'))) s.
Proof.
  intros Hh. apply wp_bind, wp_call. intros [[key|]|] s1 Hget; cbn [wp bind_post].
  - eapply wp_mono, (wp_processKey E h (Iok key) (Ierr key)), Hh.
    intros o s' [-> Hset]. right. split; [done|]. exists s1. left. eauto.
  - simpl. intros [] s2 ? [] s3 ? [] s4 ?. right. split; [done|]. exists s1. right. eauto 10.
  - simpl. by left.
Qed.

(** From an event to its reconciliation: a volume of this node that is added is
    queued under a key for which the worker looks up that volume's namespace and
    name and reconciles what it finds; a volume of another node is not queued. *)
Theorem added_volume_is_synced `{!CacheKeysLaws} zv :
  Namespace (vol_Meta zv) ≠ "" → has_char "/" (Namespace (vol_Meta zv)) = false →
  has_char "/" (Name (vol_Meta zv)) = false →
  (OwnerNodeID (vol_Spec zv) ≠ NodeID → addZV (DObj (k:=KVol) zv) = Ret tt) ∧
  (OwnerNodeID (vol_Spec zv) = NodeID →
   ∃ key, addZV (DObj (k:=KVol) zv) = call (CQueueAdd key) ∧
   ∀ St (E : Env St) Q s,
     (∀ r s1, E (CLister KVol (Namespace (vol_Meta zv)) (Name (vol_Meta zv))) s r s1 →
        match r with
        | Ok zv' => wp E (syncZV zv') Q s1
        | Err err =>
          if IsNotFound err then ∀ e s2, E (CHandleError e) s1 tt s2 → Q (ORet tt) s2
          else Q (OErr err) s1
        end) →
     wp E (ZV_syncHandler key) Q s).
Proof.
  intros Hns Hs Hn. unfold addZV. split.
  - intros Ho. by rewrite (proj2 (String.eqb_neq _ _)).
  - intros ->. rewrite String.eqb_refl. simpl. unfold enqueue.
    destruct (split_key (vol_Meta zv) Hns Hs Hn) as (key & Hk & Hsplit). exists key.
    simpl. rewrite Hk. split; [done|]. intros St E Q s HQ.
    unfold ZV_syncHandler, syncHandler. rewrite Hsplit. apply wp_bind, wp_call.
    intros r s1 Hr. specialize (HQ r s1 Hr). cbn [wp bind_post].
    destruct r as [zv'|err]; [done|]. destruct (IsNotFound err); [|done].
    simpl. intros [] s2 Hs2. by eapply HQ.
Qed.

(** The reconcilers of volumes, snapshots and backups always return: whatever
    the answers of the environment, they neither panic nor loop. *)
Theorem reconcilers_return {St} (E : Env St) zv snap bkp s :
  wp E (syncZV zv) (λ o _, returned o) s ∧
  wp E (syncSnap snap) (λ o _, returned o) s ∧
  wp E (syncBkp bkp) (λ o _, returned o) s.
Proof. split_and!; apply total_wp; [apply total_syncZV|apply total_syncSnap|apply total_syncBkp]. Qed.
End properties.
