(* ===== verification/InformerFactory.v ===== *)
(** * The informer factory (pkg/generated/informer/externalversions)

    Every part of the driver that watches resources of its own makes a factory, asks it
    for informers and starts it.  The factory hands out one informer for a type and runs
    each in a goroutine of its own.  An informer is an object that is shared, so the
    factory holds its number in the list of those that were made; what client-go's
    informer does when it runs is not of this repository.

    The operations hold the factory's lock from beginning to end, so each is one step;
    [Shutdown] holds it for its first half and then waits. *)

From stdpp Require Import countable.
From S2P Require Import Prelude GoStr GoErr Api Effects.

Definition kind_number (k : kind) : nat :=
  match k with KVol => 0 | KSnap => 1 | KBkp => 2 | KRstr => 3 | KNode => 4 end.

#[export] Instance kind_countable : Countable kind.
Proof.
  refine (inj_countable kind_number (λ n, [KVol; KSnap; KBkp; KRstr; KNode] !! n) _). by intros [].
Defined.

Definition SchemeGroupVersion : string * string := ("zfs.openebs.io", "v1").

Section factory.
Context {Client Transform : Type}.

(** ** Informers *)

(** A request of an informer to the API server. *)
Inductive request :=
| ReqList (c : Client) (k : kind) (namespace : string) (o : ListOptions)
| ReqWatch (c : Client) (k : kind) (namespace : string) (o : ListOptions).

Definition TweakListOptionsFunc : Type := ListOptions → ListOptions.

Definition tweaked (tweak : option TweakListOptionsFunc) (o : ListOptions) : ListOptions :=
  match tweak with Some f => f o | None => o end.

Record ListWatch := mkListWatch {
  lw_ListFunc : ListOptions → request;
  lw_WatchFunc : ListOptions → request;
  lw_ListWithContextFunc : ListOptions → request;
  lw_WatchFuncWithContext : ListOptions → request;
}.

Record SharedIndexInformer := mkInformer {
  inf_listWatch : ListWatch;
  inf_object : kind;
  inf_resync : Z;
  inf_indexers : list string;
  inf_transform : option Transform;
}.

(** The constructors of the five files differ in the type. *)
Definition NewFilteredInformer (k : kind) (client : Client) (namespace : string) (resyncPeriod : Z)
    (indexers : list string) (tweak : option TweakListOptionsFunc) : SharedIndexInformer :=
  let list o := ReqList client k namespace (tweaked tweak o) in
  let watch o := ReqWatch client k namespace (tweaked tweak o) in
  mkInformer (mkListWatch list watch list watch) k resyncPeriod indexers None.

Definition NewInformer (k : kind) (client : Client) (namespace : string) (resyncPeriod : Z)
    (indexers : list string) : SharedIndexInformer :=
  NewFilteredInformer k client namespace resyncPeriod indexers None.

Definition NamespaceIndex := "namespace".

Definition defaultInformer (k : kind) (namespace : string) (tweak : option TweakListOptionsFunc)
    (client : Client) (resyncPeriod : Z) : SharedIndexInformer :=
  NewFilteredInformer k client namespace resyncPeriod [NamespaceIndex] tweak.

(** ** The factory *)

Record sharedInformerFactory := mkFactory {
  f_client : Client;
  f_namespace : string;
  f_tweakListOptions : option TweakListOptionsFunc;
  f_defaultResync : Z;
  f_customResync : gmap kind Z;
  f_transform : option Transform;
  f_informers : gmap kind nat;
  f_startedInformers : gmap kind bool;
  f_wg : nat;
  f_shuttingDown : bool;
}.

Definition SharedInformerOption : Type := sharedInformerFactory → sharedInformerFactory.

(** The entries in the order the range visits them. *)
Definition WithCustomResyncConfig (resyncConfig : list (kind * Z)) : SharedInformerOption := λ f,
  f {{ f_customResync := foldl (λ m e, <[e.1 := e.2]> m) (f_customResync f) resyncConfig }}.

Definition WithTweakListOptions (tweak : option TweakListOptionsFunc) : SharedInformerOption := λ f,
  f {{ f_tweakListOptions := tweak }}.

Definition factory_WithNamespace (namespace : string) : SharedInformerOption := λ f,
  f {{ f_namespace := namespace }}.

Definition WithTransform (transform : option Transform) : SharedInformerOption := λ f,
  f {{ f_transform := transform }}.

Definition NamespaceAll := "".

Definition NewSharedInformerFactoryWithOptions (client : Client) (defaultResync : Z)
    (options : list SharedInformerOption) : sharedInformerFactory :=
  foldl (λ factory opt, opt factory)
    (mkFactory client NamespaceAll None defaultResync ∅ None ∅ ∅ 0 false) options.

Definition NewSharedInformerFactory (client : Client) (defaultResync : Z) : sharedInformerFactory :=
  NewSharedInformerFactoryWithOptions client defaultResync [].

Definition NewFilteredSharedInformerFactory (client : Client) (defaultResync : Z) (namespace : string)
    (tweak : option TweakListOptionsFunc) : sharedInformerFactory :=
  NewSharedInformerFactoryWithOptions client defaultResync
    [factory_WithNamespace namespace; WithTweakListOptions tweak].

(** The factory, the informers made, and the goroutines that run one until a channel is
    closed. *)
Record factory_state := mkFactoryState {
  fs_factory : sharedInformerFactory;
  fs_memory : list SharedIndexInformer;
  fs_goroutines : list (nat * nat);
}.

Definition InformerFor (k : kind) (newFunc : Client → Z → SharedIndexInformer) (w : factory_state)
    : nat * factory_state :=
  let f := fs_factory w in
  match f_informers f !! k with
  | Some informer => (informer, w)
  | None =>
    let resyncPeriod := match f_customResync f !! k with Some d => d | None => f_defaultResync f end in
    let informer := (newFunc (f_client f) resyncPeriod) {{ inf_transform := f_transform f }} in
    let i := length (fs_memory w) in
    (i, w {{ fs_memory := fs_memory w ++ [informer] }}
          {{ fs_factory := f {{ f_informers := <[k := i]> (f_informers f) }} }})
  end.

Definition started (f : sharedInformerFactory) (k : kind) : bool :=
  default false (f_startedInformers f !! k).

(** One turn of the loop of [Start]. *)
Definition start_informer (stopCh : nat) (w : factory_state) (entry : kind * nat) : factory_state :=
  let f := fs_factory w in
  if negb (started f entry.1) then
    w {{ fs_factory := f {{ f_wg := S (f_wg f) }}
                         {{ f_startedInformers := <[entry.1 := true]> (f_startedInformers f) }} }}
      {{ fs_goroutines := fs_goroutines w ++ [(entry.2, stopCh)] }}
  else w.

(** [order]: the entries of the map of informers as the range visits them. *)
Definition factory_Start (order : list (kind * nat)) (stopCh : nat) (w : factory_state) : factory_state :=
  if f_shuttingDown (fs_factory w) then w else foldl (start_informer stopCh) w order.

(** [Shutdown] up to its wait. *)
Definition begin_shutdown (w : factory_state) : factory_state :=
  w {{ fs_factory := (fs_factory w) {{ f_shuttingDown := true }} }}.

(** A goroutine ends: [defer f.wg.Done()]. *)
Definition informer_done (i : nat) (w : factory_state) : factory_state :=
  w {{ fs_factory := (fs_factory w) {{ f_wg := f_wg (fs_factory w) - 1 }} }}
    {{ fs_goroutines := delete i (fs_goroutines w) }}.

(** The informers it waits for are those started when it is called; [synced] is what
    waiting for an informer's cache gives. *)
Definition factory_WaitForCacheSync (synced : nat → bool) (w : factory_state) : gmap kind bool :=
  synced <$> filter (λ e, started (fs_factory w) e.1 = true) (f_informers (fs_factory w)).

(** ** By type: [f.Zfs().V1().ZFSVolumes().Informer()] *)

(** The group, the version and what the version gives for a kind pass the factory's
    settings on. *)
Record group := mkGroup { g_namespace : string; g_tweakListOptions : option TweakListOptionsFunc }.
Record version := mkVersion { v_namespace : string; v_tweakListOptions : option TweakListOptionsFunc }.
Record kind_informer := mkKindInformer { ki_namespace : string; ki_tweakListOptions : option TweakListOptionsFunc }.

Definition group_New (namespace : string) (tweak : option TweakListOptionsFunc) : group :=
  mkGroup namespace tweak.
Definition version_New (namespace : string) (tweak : option TweakListOptionsFunc) : version :=
  mkVersion namespace tweak.

Definition Zfs (f : sharedInformerFactory) : group := group_New (f_namespace f) (f_tweakListOptions f).
Definition group_V1 (g : group) : version := version_New (g_namespace g) (g_tweakListOptions g).

Definition version_ZFSBackups (v : version) : kind_informer := mkKindInformer (v_namespace v) (v_tweakListOptions v).
Definition version_ZFSNodes (v : version) : kind_informer := mkKindInformer (v_namespace v) (v_tweakListOptions v).
Definition version_ZFSRestores (v : version) : kind_informer := mkKindInformer (v_namespace v) (v_tweakListOptions v).
Definition version_ZFSSnapshots (v : version) : kind_informer := mkKindInformer (v_namespace v) (v_tweakListOptions v).
Definition version_ZFSVolumes (v : version) : kind_informer := mkKindInformer (v_namespace v) (v_tweakListOptions v).

Definition version_kind (k : kind) : version → kind_informer :=
  match k with
  | KVol => version_ZFSVolumes
  | KSnap => version_ZFSSnapshots
  | KBkp => version_ZFSBackups
  | KRstr => version_ZFSRestores
  | KNode => version_ZFSNodes
  end.

Definition Informer (k : kind) (i : kind_informer) (w : factory_state) : nat * factory_state :=
  InformerFor k (defaultInformer k (ki_namespace i) (ki_tweakListOptions i)) w.

(** The lister reads the cache of the informer. *)
Definition Lister (k : kind) (i : kind_informer) (w : factory_state) : nat * factory_state := Informer k i w.

(** The informers of the five files, by name. *)
Definition NewFilteredZFSVolumeInformer := NewFilteredInformer KVol.
Definition NewZFSVolumeInformer := NewInformer KVol.
Definition ZFSVolume_defaultInformer := defaultInformer KVol.
Definition ZFSVolume_Informer := Informer KVol.
Definition ZFSVolume_Lister := Lister KVol.
Definition NewFilteredZFSSnapshotInformer := NewFilteredInformer KSnap.
Definition NewZFSSnapshotInformer := NewInformer KSnap.
Definition ZFSSnapshot_defaultInformer := defaultInformer KSnap.
Definition ZFSSnapshot_Informer := Informer KSnap.
Definition ZFSSnapshot_Lister := Lister KSnap.
Definition NewFilteredZFSBackupInformer := NewFilteredInformer KBkp.
Definition NewZFSBackupInformer := NewInformer KBkp.
Definition ZFSBackup_defaultInformer := defaultInformer KBkp.
Definition ZFSBackup_Informer := Informer KBkp.
Definition ZFSBackup_Lister := Lister KBkp.
Definition NewFilteredZFSRestoreInformer := NewFilteredInformer KRstr.
Definition NewZFSRestoreInformer := NewInformer KRstr.
Definition ZFSRestore_defaultInformer := defaultInformer KRstr.
Definition ZFSRestore_Informer := Informer KRstr.
Definition ZFSRestore_Lister := Lister KRstr.
Definition NewFilteredZFSNodeInformer := NewFilteredInformer KNode.
Definition NewZFSNodeInformer := NewInformer KNode.
Definition ZFSNode_defaultInformer := defaultInformer KNode.
Definition ZFSNode_Informer := Informer KNode.
Definition ZFSNode_Lister := Lister KNode.

Definition kind_Informer (k : kind) (w : factory_state) : nat * factory_state :=
  Informer k (version_kind k (group_V1 (Zfs (fs_factory w)))) w.

(** An informer with the group and the resource it was asked for by. *)
Record genericInformer := mkGenericInformer { gi_informer : nat; gi_resource : string * string }.

Definition GenericInformer_Informer (g : genericInformer) : nat := gi_informer g.

(** A cache.GenericLister is of the informer's cache and names the resource in its errors. *)
Definition GenericInformer_Lister (g : genericInformer) : nat * (string * string) :=
  (GenericInformer_Informer g, gi_resource g).

(** Group, version and resource. *)
Definition ForResource (resource : (string * string) * string) (w : factory_state)
    : result (genericInformer * factory_state) :=
  let names r := bool_decide (resource = (SchemeGroupVersion, r)) in
  let generic i := (mkGenericInformer i.1 (resource.1.1, resource.2), i.2) in
  if names "zfsbackups" then Ok (generic (kind_Informer KBkp w))
  else if names "zfsnodes" then Ok (generic (kind_Informer KNode w))
  else if names "zfsrestores" then Ok (generic (kind_Informer KRstr w))
  else if names "zfssnapshots" then Ok (generic (kind_Informer KSnap w))
  else if names "zfsvolumes" then Ok (generic (kind_Informer KVol w))
  else Err (ErrText ("no informer found for " +:+ resource.1.1 +:+ "/" +:+ resource.1.2 +:+ ", Resource=" +:+ resource.2)).
End factory.
