(* ===== verification/InformerFactorySpec.v ===== *)
(** * Correctness of the informer factory

    The users of a factory ask for informers, start it, close the channels they started it
    with and shut it down, in any order and from several goroutines.  In every state that
    can be reached an informer is run once at most, and the informer of a type is one and
    the same for all who ask. *)

From stdpp Require Import countable.
From S2P Require Import Prelude GoStr GoErr Api Effects InformerFactory.

Section spec.
Context {Client Transform : Type}.
Abbreviation a_state := (factory_state (Client := Client) (Transform := Transform)).
Abbreviation a_factory := (sharedInformerFactory (Client := Client) (Transform := Transform)).

(** ** What the users do *)

(** The options of a factory. *)
Inductive setting :=
| SetResync (resyncConfig : list (kind * Z))
| SetTweak (tweak : option TweakListOptionsFunc)
| SetNamespace (namespace : string)
| SetTransform (transform : option Transform).

Definition option_of (s : setting) : SharedInformerOption (Client := Client) :=
  match s with
  | SetResync config => WithCustomResyncConfig config
  | SetTweak tweak => WithTweakListOptions tweak
  | SetNamespace namespace => factory_WithNamespace namespace
  | SetTransform transform => WithTransform transform
  end.

(** The state with the informers that were run, the channels that were closed, and
    whether a call of [Shutdown] came back. *)
Record fworld := mkFWorld {
  fw_state : a_state;
  fw_runs : list nat;
  fw_closed : list nat;
  fw_down : bool;
}.

Definition finit (f : a_factory) : fworld := mkFWorld (mkFactoryState f [] []) [] [] false.

(** The informers of the goroutines that are in the second state and not in the first. *)
Definition run_by (w w' : a_state) : list nat :=
  (drop (length (fs_goroutines w)) (fs_goroutines w')).*1.

Inductive fstep : fworld → fworld → Prop :=
| FInformer k w rs cl d :
    fstep (mkFWorld w rs cl d) (mkFWorld (kind_Informer k w).2 rs cl d)
| FStart order c w rs cl d :
    order ≡ₚ map_to_list (f_informers (fs_factory w)) →
    fstep (mkFWorld w rs cl d)
      (mkFWorld (factory_Start order c w) (rs ++ run_by w (factory_Start order c w)) cl d)
| FClose c w rs cl d : fstep (mkFWorld w rs cl d) (mkFWorld w rs (c :: cl) d)
| FDone n i c w rs cl d :
    fs_goroutines w !! n = Some (i, c) → c ∈ cl →
    fstep (mkFWorld w rs cl d) (mkFWorld (informer_done n w) rs cl d)
| FShutdown w rs cl d : fstep (mkFWorld w rs cl d) (mkFWorld (begin_shutdown w) rs cl d)
| FShutdownReturns w rs cl d :
    f_shuttingDown (fs_factory w) = true → f_wg (fs_factory w) = 0 →
    fstep (mkFWorld w rs cl d) (mkFWorld w rs cl true).

(** ** The invariant *)

(** The informer asks for resources of its type in the namespace of the factory, with the
    factory's selection. *)
Definition confined (f : a_factory) (k : kind) (inf : SharedIndexInformer) : Prop :=
  inf_object inf = k ∧ inf_transform inf = f_transform f ∧
  (∀ o, lw_ListFunc (inf_listWatch inf) o =
          ReqList (f_client f) k (f_namespace f) (tweaked (f_tweakListOptions f) o)) ∧
  (∀ o, lw_WatchFunc (inf_listWatch inf) o =
          ReqWatch (f_client f) k (f_namespace f) (tweaked (f_tweakListOptions f) o)).

Record factory_ok (w : a_state) (rs : list nat) (d : bool) : Prop := {
  ok_made k i : f_informers (fs_factory w) !! k = Some i →
    ∃ inf, fs_memory w !! i = Some inf ∧ confined (fs_factory w) k inf;
  ok_started k : started (fs_factory w) k = true ↔ ∃ i, f_informers (fs_factory w) !! k = Some i ∧ i ∈ rs;
  ok_runs i : i ∈ rs → ∃ k, f_informers (fs_factory w) !! k = Some i;
  ok_once : NoDup rs;
  ok_wg : f_wg (fs_factory w) = length (fs_goroutines w);
  ok_down : d = true → f_shuttingDown (fs_factory w) = true ∧ fs_goroutines w = [];
}.

(** Two types do not share an informer. *)
Lemma informer_inj w rs d k k' i :
  factory_ok w rs d → f_informers (fs_factory w) !! k = Some i → f_informers (fs_factory w) !! k' = Some i → k = k'.
Proof.
  intros Hok Hk Hk'. destruct (ok_made _ _ _ Hok _ _ Hk) as (inf & Hm & <- & _).
  destruct (ok_made _ _ _ Hok _ _ Hk') as (inf' & Hm' & <- & _). congruence.
Qed.

Lemma options_start_empty client resync settings :
  let f := NewSharedInformerFactoryWithOptions client resync (option_of <$> settings) in
  f_informers f = ∅ ∧ f_startedInformers f = ∅ ∧ f_wg f = 0 ∧ f_shuttingDown f = false.
Proof.
  cbn zeta. unfold NewSharedInformerFactoryWithOptions.
  assert (∀ f : a_factory,
    f_informers f = ∅ ∧ f_startedInformers f = ∅ ∧ f_wg f = 0 ∧ f_shuttingDown f = false →
    let g := foldl (λ factory opt, opt factory) f (option_of <$> settings) in
    f_informers g = ∅ ∧ f_startedInformers g = ∅ ∧ f_wg g = 0 ∧ f_shuttingDown g = false) as Hall.
  { induction settings as [|s settings IH]; [done|]. intros [] Hf. apply IH. by destruct s. }
  by apply Hall.
Qed.

Lemma init_ok client resync settings :
  factory_ok (fw_state (finit (NewSharedInformerFactoryWithOptions client resync (option_of <$> settings)))) [] false.
Proof.
  destruct (options_start_empty client resync settings) as (Hi & Hs & Hwg & _).
  split; cbn; unfold started; rewrite ?Hi, ?Hs, ?Hwg; try done.
  - intros k. rewrite lookup_empty. cbn. split; [done|]. by intros (i & _ & Hl%not_elem_of_nil).
  - by intros i Hin%not_elem_of_nil.
  - constructor.
Qed.

(** The five methods pass the same settings on. *)
Lemma version_kind_settings k (v : version) :
  version_kind k v = mkKindInformer (v_namespace v) (v_tweakListOptions v).
Proof. by destruct k. Qed.

Lemma kind_Informer_ok k w rs d : factory_ok w rs d → factory_ok (kind_Informer k w).2 rs d.
Proof.
  intros Hok. unfold kind_Informer. rewrite version_kind_settings. unfold Informer, InformerFor.
  destruct (f_informers (fs_factory w) !! k) as [i|] eqn:Hk; [done|].
  assert (∀ i, i ∈ rs → i < length (fs_memory w)) as Hlt.
  { intros i Hi. destruct (ok_runs _ _ _ Hok _ Hi) as [k' Hk'].
    destruct (ok_made _ _ _ Hok _ _ Hk') as (inf & Hm & _). by eapply lookup_lt_Some. }
  destruct w as [[] mem gs]; cbn in *. destruct Hok as [Hmade Hst Hruns Honce Hwg Hdown]; cbn in *.
  split; cbn; try done.
  - intros k' i. rewrite lookup_insert_Some. intros [[<- <-]|[Hne Hk']].
    + eexists. split; [by rewrite lookup_app_r, Nat.sub_diag by lia|]. by split_and!.
    + destruct (Hmade _ _ Hk') as (inf & Hm & Hc). exists inf. split; [by apply lookup_app_l_Some|done].
  - intros k'. unfold started in *; cbn in *. rewrite Hst. split; intros (i & Hi & Hr); exists i; split; try done.
    + rewrite lookup_insert_ne; [done|]. intros <-. congruence.
    + rewrite lookup_insert_Some in Hi. destruct Hi as [[<- <-]|[_ Hi]]; [|done]. specialize (Hlt _ Hr). lia.
  - intros i Hi. destruct (Hruns _ Hi) as [k' Hk']. exists k'.
    rewrite lookup_insert_ne; [done|]. intros <-. congruence.
Qed.

(** One turn of the loop: the informer of the entry is started unless it was. *)
Lemma start_informer_ok c w rs k i :
  factory_ok w rs false → f_informers (fs_factory w) !! k = Some i →
  let w' := start_informer c w (k, i) in
  ∃ new, fs_goroutines w' = fs_goroutines w ++ new ∧ factory_ok w' (rs ++ new.*1) false ∧
    f_informers (fs_factory w') = f_informers (fs_factory w) ∧ i ∈ rs ++ new.*1.
Proof.
  intros Hok Hk. cbn zeta. unfold start_informer; cbn [fst snd].
  destruct (started (fs_factory w) k) eqn:Hs; cbn [negb].
  { exists []. cbn. rewrite !app_nil_r. split_and!; [done..|].
    apply (ok_started _ _ _ Hok) in Hs as (i' & Hi' & Hr). by simplify_eq. }
  assert (i ∉ rs) as Hnot.
  { intros Hr. assert (started (fs_factory w) k = true) by (apply (ok_started _ _ _ Hok); eauto). congruence. }
  pose proof (λ k', informer_inj _ _ _ k' k i Hok) as Hinj.
  destruct w as [[] mem gs]; cbn in *. exists [(i, c)]. destruct Hok as [Hmade Hst Hruns Honce Hwg Hdown]; cbn in *.
  split_and!; [done| |done|set_solver]. unfold started in *. split; unfold started; cbn in *; try done.
  - intros k'. destruct (decide (k' = k)) as [->|Hne].
    + rewrite lookup_insert_eq; cbn. split; [|done]. intros _. exists i. split; [done|set_solver].
    + rewrite lookup_insert_ne by done. rewrite Hst.
      split; intros (i' & Hi' & Hr); exists i'; (split; [done|]); [set_solver|].
      apply elem_of_app in Hr as [Hr|Hr%list_elem_of_singleton]; [done|]. subst. exfalso. eauto.
  - intros i' [Hr|Hr%list_elem_of_singleton]%elem_of_app; [eauto|]. subst. eauto.
  - apply NoDup_app. split_and!; [done| |apply NoDup_singleton]. intros x Hx ->%list_elem_of_singleton. done.
  - rewrite length_app, Hwg; cbn. lia.
Qed.

Lemma start_loop_ok c order w rs :
  factory_ok w rs false → (∀ k i, (k, i) ∈ order → f_informers (fs_factory w) !! k = Some i) →
  let w' := foldl (start_informer c) w order in
  ∃ new, fs_goroutines w' = fs_goroutines w ++ new ∧ factory_ok w' (rs ++ new.*1) false ∧
    f_informers (fs_factory w') = f_informers (fs_factory w) ∧ (∀ k i, (k, i) ∈ order → i ∈ rs ++ new.*1).
Proof.
  revert w rs. induction order as [|[k i] order IH]; intros w rs Hok Hin; cbn.
  { exists []. rewrite !app_nil_r. split_and!; try done. by intros k i ?%not_elem_of_nil. }
  destruct (start_informer_ok c w rs k i Hok) as (new & Hg & Hok1 & Hi & Hr); [apply Hin; set_solver|].
  destruct (IH (start_informer c w (k, i)) (rs ++ new.*1) Hok1) as (new' & Hg' & Hok' & Hi' & Hr').
  { intros k' i' Hin'. rewrite Hi. apply Hin. set_solver. }
  exists (new ++ new'). rewrite fmap_app. split_and!; [|by rewrite app_assoc|congruence|].
  - by rewrite Hg', Hg, app_assoc.
  - intros k' i' [[= -> ->]|Hin']%elem_of_cons; [rewrite app_assoc; set_solver|rewrite app_assoc; eauto].
Qed.

(** [Start] runs the informers that there are, each if it was not yet. *)
Lemma factory_Start_ok order c w rs d :
  factory_ok w rs d → order ≡ₚ map_to_list (f_informers (fs_factory w)) →
  let w' := factory_Start order c w in
  factory_ok w' (rs ++ run_by w w') d ∧ f_informers (fs_factory w') = f_informers (fs_factory w) ∧
  (f_shuttingDown (fs_factory w) = false → ∀ k i, f_informers (fs_factory w) !! k = Some i → i ∈ rs ++ run_by w w').
Proof.
  intros Hok Hord. cbn zeta. unfold factory_Start, run_by.
  destruct (f_shuttingDown (fs_factory w)) eqn:Hsd.
  { rewrite drop_all; cbn. by rewrite app_nil_r. }
  assert (d = false) as ->.
  { destruct d; [|done]. destruct (ok_down _ _ _ Hok); [done|]. congruence. }
  destruct (start_loop_ok c order w rs Hok) as (new & Hg & Hok' & Hi & Hr).
  { intros k i Hin. rewrite Hord in Hin. by apply elem_of_map_to_list in Hin. }
  rewrite Hg, drop_app_length. split_and!; [done..|]. intros _ k i Hk. apply (Hr k i).
  rewrite Hord. by apply elem_of_map_to_list.
Qed.

Lemma fstep_ok w w' :
  fstep w w' → factory_ok (fw_state w) (fw_runs w) (fw_down w) → factory_ok (fw_state w') (fw_runs w') (fw_down w').
Proof.
  intros Hstep Hok. destruct Hstep as [k w rs cl d|order c w rs cl d Hord|c w rs cl d|n i c w rs cl d Hn Hc|w rs cl d|w rs cl d Hsd Hwg]; cbn in *.
  - by apply kind_Informer_ok.
  - by apply factory_Start_ok.
  - done.
  - destruct Hok as [Hmade Hst Hruns Honce Hwg Hdown]. destruct w as [[] mem gs]; cbn in *.
    split; cbn; try done.
    + rewrite length_delete by eauto. lia.
    + intros Hd. destruct (Hdown Hd) as [? ->]. by rewrite lookup_nil in Hn.
  - destruct Hok as [Hmade Hst Hruns Honce Hwg Hdown]. destruct w as [[] mem gs]; cbn in *.
    split; cbn; try done. intros Hd. by destruct (Hdown Hd).
  - destruct Hok as [Hmade Hst Hruns Honce Hwg' Hdown]. split; try done.
    intros _. split; [done|]. apply nil_length_inv. lia.
Qed.

(** What is asked for stays: no step changes the informer of a type. *)
Lemma fstep_informers w w' k i :
  fstep w w' → f_informers (fs_factory (fw_state w)) !! k = Some i →
  factory_ok (fw_state w) (fw_runs w) (fw_down w) →
  f_informers (fs_factory (fw_state w')) !! k = Some i.
Proof.
  intros Hstep Hk Hok. destruct Hstep as [k' w rs cl d|order c w rs cl d Hord|c w rs cl d|n j c w rs cl d Hn Hc|w rs cl d|w rs cl d Hsd Hwg]; cbn in *; try done.
  - unfold kind_Informer, Informer, InformerFor. destruct (f_informers _ !! k') eqn:Hk'; [done|].
    destruct w as [[] mem gs]; cbn in *. rewrite lookup_insert_ne; [done|]. intros ->. congruence.
  - by destruct (factory_Start_ok order c w rs d Hok Hord) as (_ & -> & _).
Qed.

Lemma kind_Informer_stays k (w : a_state) i : f_informers (fs_factory w) !! k = Some i → (kind_Informer k w).1 = i.
Proof. intros Hk. unfold kind_Informer, Informer, InformerFor. by rewrite Hk. Qed.

Lemma kind_Informer_keeps k (w : a_state) :
  f_informers (fs_factory (kind_Informer k w).2) !! k = Some (kind_Informer k w).1.
Proof.
  unfold kind_Informer, Informer, InformerFor.
  destruct (f_informers (fs_factory w) !! k) as [i|] eqn:Hk; [by cbn|].
  destruct w as [[] mem gs]; cbn. by rewrite lookup_insert_eq.
Qed.

Lemma fsteps_informers w w' k i :
  rtc fstep w w' → factory_ok (fw_state w) (fw_runs w) (fw_down w) →
  f_informers (fs_factory (fw_state w)) !! k = Some i →
  f_informers (fs_factory (fw_state w')) !! k = Some i ∧ factory_ok (fw_state w') (fw_runs w') (fw_down w').
Proof. induction 1; eauto using fstep_ok, fstep_informers. Qed.

Lemma fsteps_ok w w' :
  rtc fstep w w' → factory_ok (fw_state w) (fw_runs w) (fw_down w) →
  factory_ok (fw_state w') (fw_runs w') (fw_down w').
Proof. induction 1; eauto using fstep_ok. Qed.

Lemma wait_reports_runs w rs d synced k b :
  factory_ok w rs d →
  factory_WaitForCacheSync synced w !! k = Some b ↔
  ∃ i, f_informers (fs_factory w) !! k = Some i ∧ i ∈ rs ∧ b = synced i.
Proof.
  intros Hok. unfold factory_WaitForCacheSync. rewrite lookup_fmap, fmap_Some. split.
  - intros (i & [Hk Hs]%map_lookup_filter_Some & ->). exists i. split_and!; try done.
    cbn in Hs. apply (ok_started _ _ _ Hok) in Hs as (i' & Hk' & Hr). by simplify_eq.
  - intros (i & Hk & Hr & ->). exists i. split; [|done]. apply map_lookup_filter_Some. split; [done|].
    apply (ok_started _ _ _ Hok). eauto.
Qed.

(** C18: whatever the users of an informer factory do, in whatever order: an informer is run
    once at most, and by no goroutine after a shutdown came back; all who ask for a type
    get the same informer, before and after; it asks the API server for that type in the
    factory's namespace only; and a start that comes before the shutdown runs it.  Waiting
    for the caches waits for the informers that were run, and reports each by its type. *)
Theorem factory_shares_informers client resync settings w :
  rtc fstep (finit (NewSharedInformerFactoryWithOptions client resync (option_of <$> settings))) w →
  NoDup (fw_runs w) ∧ f_wg (fs_factory (fw_state w)) = length (fs_goroutines (fw_state w)) ∧
  (fw_down w = true → ∀ w', rtc fstep w w' → fs_goroutines (fw_state w') = []) ∧
  (∀ synced k b, factory_WaitForCacheSync synced (fw_state w) !! k = Some b ↔
     ∃ i, f_informers (fs_factory (fw_state w)) !! k = Some i ∧ i ∈ fw_runs w ∧ b = synced i) ∧
  ∀ k, let i := (kind_Informer k (fw_state w)).1 in
       let asked := mkFWorld (kind_Informer k (fw_state w)).2 (fw_runs w) (fw_closed w) (fw_down w) in
    (∃ inf, fs_memory (fw_state asked) !! i = Some inf ∧ confined (fs_factory (fw_state asked)) k inf) ∧
    ∀ w', rtc fstep asked w' →
      (kind_Informer k (fw_state w')).1 = i ∧
      ∀ order c, order ≡ₚ map_to_list (f_informers (fs_factory (fw_state w'))) →
        f_shuttingDown (fs_factory (fw_state w')) = false →
        i ∈ fw_runs w' ++ run_by (fw_state w') (factory_Start order c (fw_state w')).
Proof.
  intros Hrtc. pose proof (fsteps_ok _ _ Hrtc (init_ok client resync settings)) as Hok.
  split_and!; [apply Hok|apply Hok| | |].
  - intros Hd w' Hw'. apply (ok_down _ _ _ (fsteps_ok _ _ Hw' Hok)).
    clear -Hd Hw'. induction Hw' as [|w1 w2 w3 Hstep Hw IH]; [done|]. apply IH. by destruct Hstep.
  - intros synced k b. by apply (wait_reports_runs _ _ _ synced k b Hok).
  - intros k. cbn zeta. pose proof (kind_Informer_keeps k (fw_state w)) as Hk.
    pose proof (kind_Informer_ok k _ _ _ Hok) as Hasked.
    split; [by apply (ok_made _ _ _ Hasked)|]. intros w' Hw'.
    destruct (fsteps_informers _ _ _ _ Hw' Hasked Hk) as [Hk' Hok'].
    split; [by apply kind_Informer_stays|]. intros order c Hord Hsd.
    destruct (factory_Start_ok order c _ _ _ Hok' Hord) as (_ & _ & Hrun). eauto.
Qed.
End spec.

(** ** A factory in use *)

Definition sample_factory : sharedInformerFactory (Client := unit) (Transform := unit) :=
  NewSharedInformerFactoryWithOptions tt 30 (option_of <$> [SetNamespace "openebs"]).

(** Two types are asked for, with a start after each. *)
Definition sample_state : fworld (Client := unit) (Transform := unit) :=
  let w1 := (kind_Informer KVol (fw_state (finit sample_factory))).2 in
  let w2 := factory_Start [(KVol, 0)] 7 w1 in
  let w3 := (kind_Informer KSnap w2).2 in
  let w4 := factory_Start [(KSnap, 1); (KVol, 0)] 8 w3 in
  mkFWorld w4 (([] ++ run_by w1 w2) ++ run_by w3 w4) [] false.

Lemma sample_reached : rtc fstep (finit sample_factory) sample_state.
Proof.
  eapply rtc_l; [apply (FInformer KVol)|].
  eapply rtc_l; [apply (FStart [(KVol, 0)] 7)|]. { by vm_compute. }
  eapply rtc_l; [apply (FInformer KSnap)|].
  eapply rtc_l; [apply (FStart [(KSnap, 1); (KVol, 0)] 8)|]. { by vm_compute. }
  apply rtc_refl.
Qed.

Lemma factory_shares_witness :
  fw_runs sample_state = [0; 1] ∧ NoDup (fw_runs sample_state) ∧
  (kind_Informer KVol (fw_state sample_state)).1 = 0.
Proof.
  destruct (factory_shares_informers tt 30 [SetNamespace "openebs"] sample_state sample_reached)
    as (Honce & _ & _ & _ & Hk).
  split_and!; [vm_compute; reflexivity|exact Honce|vm_compute; reflexivity].
Defined.
