(* ===== verification/Heap.v ===== *)
(** * Objects in memory (zz_generated.deepcopy.go of pkg/apis/openebs.io/zfs/v1)

    The rest of the development takes an object of the API to be its value.  In Go it is
    a struct whose maps, slices and optional fields lie elsewhere in memory, and the
    informers hand out pointers into their caches.  Here an object is a struct with the
    addresses of its parts; [DeepCopyInto] and [DeepCopy] are programs on the memory.

    A struct is split into its flat part, which is the value with its containers left
    empty, and the addresses of the containers; the address of nil is [None].
    [in.DeepCopyInto(out)] is modelled as a function of what is at [in] that returns what
    is written at [out].  Copying metadata is the apimachinery's, a parameter with the
    law of a deep copy.  The kind and version of an object ([TypeMeta]) are its type here,
    and a quantity of a pool is its number. *)

From S2P Require Import Prelude GoStr GoErr Api ApiAlpha.

(** ** The structs *)

Abbreviation loc := positive.
Definition ref := option loc.

Record goOwnerReference := mkGoRef { gr_flat : OwnerReference; gr_Controller : ref }.

Record goMeta := mkGoMeta {
  gm_flat : ObjectMeta;
  gm_Labels : ref;
  gm_Annotations : ref;
  gm_Finalizers : ref;
  gm_DeletionTimestamp : ref;
  gm_OwnerReferences : ref;
}.

Record goVolumeInfo := mkGoInfo { gi_flat : VolumeInfo; gi_UserProperties : ref }.

Record goVolume := mkGoVolume { gv_Meta : goMeta; gv_Spec : goVolumeInfo; gv_State : string }.
Record goSnapshot := mkGoSnapshot { gs_Meta : goMeta; gs_Spec : goVolumeInfo; gs_State : string }.
Record goBackup := mkGoBackup { gb_Meta : goMeta; gb_Spec : ZFSBackupSpec; gb_Status : ZFSBackupStatus }.
Record goRestore := mkGoRestore {
  gt_Meta : goMeta;
  gt_Spec : ZFSRestoreSpec;
  gt_VolSpec : goVolumeInfo;
  gt_Status : ZFSRestoreStatus;
}.
Record goNode := mkGoNode { gn_Meta : goMeta; gn_Pools : ref }.

(** The structs of v1alpha1: only their metadata points elsewhere. *)
Record goVolumeA := mkGoVolumeA {
  gva_Meta : goMeta;
  gva_Spec : v1alpha1.alpha_VolumeInfo;
  gva_Status : v1alpha1.alpha_VolStatus;
}.
Record goSnapshotA := mkGoSnapshotA {
  gsa_Meta : goMeta;
  gsa_Spec : v1alpha1.alpha_VolumeInfo;
  gsa_Status : v1alpha1.alpha_SnapStatus;
}.

(** The metadata of a list, and its value. *)
Record ListMeta := mkListMeta {
  lm_ResourceVersion : string;
  lm_Continue : string;
  lm_RemainingItemCount : option Z;
}.
Record goListMeta := mkGoListMeta { glm_flat : ListMeta; glm_RemainingItemCount : ref }.

(** The list of a kind of resource; the type of the items is in the cell. *)
Record goList (T : Type) := mkGoList { gl_Meta : goListMeta; gl_Items : ref }.
Arguments mkGoList {T}.
Arguments gl_Meta {T}.
Arguments gl_Items {T}.

Record resource_list (V : Type) := mkResourceList { rl_Meta : ListMeta; rl_Items : list V }.
Arguments mkResourceList {V}.
Arguments rl_Meta {V}.
Arguments rl_Items {V}.

(** ** The memory *)

Inductive cell :=
| MapCell (m : smap)
| StringsCell (l : list string)
| NumberCell (n : Z) (* a time, a count *)
| BoolCell (b : bool)
| RefsCell (l : list goOwnerReference)
| PoolsCell (l : list Pool)
| StatusCell (s : string)
| PoolCell (p : Pool)
| InfoCell (i : goVolumeInfo)
| BackupSpecCell (s : ZFSBackupSpec)
| RestoreSpecCell (s : ZFSRestoreSpec)
| VolumeCell (v : goVolume)
| SnapshotCell (s : goSnapshot)
| BackupCell (b : goBackup)
| RestoreCell (r : goRestore)
| NodeCell (n : goNode)
| VolumesCell (l : list goVolume)
| SnapshotsCell (l : list goSnapshot)
| BackupsCell (l : list goBackup)
| RestoresCell (l : list goRestore)
| NodesCell (l : list goNode)
| VolumeListCell (l : goList goVolume)
| SnapshotListCell (l : goList goSnapshot)
| BackupListCell (l : goList goBackup)
| RestoreListCell (l : goList goRestore)
| NodeListCell (l : goList goNode)
| VolStatusACell (s : v1alpha1.alpha_VolStatus)
| SnapStatusACell (s : v1alpha1.alpha_SnapStatus)
| InfoACell (i : v1alpha1.alpha_VolumeInfo)
| VolumeACell (v : goVolumeA)
| SnapshotACell (s : goSnapshotA)
| VolumesACell (l : list goVolumeA)
| SnapshotsACell (l : list goSnapshotA)
| VolumeListACell (l : goList goVolumeA)
| SnapshotListACell (l : goList goSnapshotA).

Abbreviation heap := (gmap positive cell).

(** What a type of variable is in memory. *)
Class Cell (T : Type) := {
  inj : T → cell;
  prj : cell → option T;
  prj_inj x : prj (inj x) = Some x;
}.

#[export] Instance map_cell : Cell smap :=
  {| inj := MapCell; prj c := match c with MapCell x => Some x | _ => None end; prj_inj _ := eq_refl |}.
#[export] Instance strings_cell : Cell (list string) :=
  {| inj := StringsCell; prj c := match c with StringsCell x => Some x | _ => None end; prj_inj _ := eq_refl |}.
#[export] Instance number_cell : Cell Z :=
  {| inj := NumberCell; prj c := match c with NumberCell x => Some x | _ => None end; prj_inj _ := eq_refl |}.
#[export] Instance bool_cell : Cell bool :=
  {| inj := BoolCell; prj c := match c with BoolCell x => Some x | _ => None end; prj_inj _ := eq_refl |}.
#[export] Instance refs_cell : Cell (list goOwnerReference) :=
  {| inj := RefsCell; prj c := match c with RefsCell x => Some x | _ => None end; prj_inj _ := eq_refl |}.
#[export] Instance pools_cell : Cell (list Pool) :=
  {| inj := PoolsCell; prj c := match c with PoolsCell x => Some x | _ => None end; prj_inj _ := eq_refl |}.
#[export] Instance status_cell : Cell string :=
  {| inj := StatusCell; prj c := match c with StatusCell x => Some x | _ => None end; prj_inj _ := eq_refl |}.
#[export] Instance pool_cell : Cell Pool :=
  {| inj := PoolCell; prj c := match c with PoolCell x => Some x | _ => None end; prj_inj _ := eq_refl |}.
#[export] Instance info_cell : Cell goVolumeInfo :=
  {| inj := InfoCell; prj c := match c with InfoCell x => Some x | _ => None end; prj_inj _ := eq_refl |}.
#[export] Instance bkpspec_cell : Cell ZFSBackupSpec :=
  {| inj := BackupSpecCell; prj c := match c with BackupSpecCell x => Some x | _ => None end; prj_inj _ := eq_refl |}.
#[export] Instance rstrspec_cell : Cell ZFSRestoreSpec :=
  {| inj := RestoreSpecCell; prj c := match c with RestoreSpecCell x => Some x | _ => None end; prj_inj _ := eq_refl |}.
#[export] Instance volume_cell : Cell goVolume :=
  {| inj := VolumeCell; prj c := match c with VolumeCell x => Some x | _ => None end; prj_inj _ := eq_refl |}.
#[export] Instance volumes_cell : Cell (list goVolume) :=
  {| inj := VolumesCell; prj c := match c with VolumesCell x => Some x | _ => None end; prj_inj _ := eq_refl |}.
#[export] Instance volumelist_cell : Cell (goList goVolume) :=
  {| inj := VolumeListCell; prj c := match c with VolumeListCell x => Some x | _ => None end; prj_inj _ := eq_refl |}.
#[export] Instance snapshot_cell : Cell goSnapshot :=
  {| inj := SnapshotCell; prj c := match c with SnapshotCell x => Some x | _ => None end; prj_inj _ := eq_refl |}.
#[export] Instance snapshots_cell : Cell (list goSnapshot) :=
  {| inj := SnapshotsCell; prj c := match c with SnapshotsCell x => Some x | _ => None end; prj_inj _ := eq_refl |}.
#[export] Instance snapshotlist_cell : Cell (goList goSnapshot) :=
  {| inj := SnapshotListCell; prj c := match c with SnapshotListCell x => Some x | _ => None end; prj_inj _ := eq_refl |}.
#[export] Instance backup_cell : Cell goBackup :=
  {| inj := BackupCell; prj c := match c with BackupCell x => Some x | _ => None end; prj_inj _ := eq_refl |}.
#[export] Instance backups_cell : Cell (list goBackup) :=
  {| inj := BackupsCell; prj c := match c with BackupsCell x => Some x | _ => None end; prj_inj _ := eq_refl |}.
#[export] Instance backuplist_cell : Cell (goList goBackup) :=
  {| inj := BackupListCell; prj c := match c with BackupListCell x => Some x | _ => None end; prj_inj _ := eq_refl |}.
#[export] Instance restore_cell : Cell goRestore :=
  {| inj := RestoreCell; prj c := match c with RestoreCell x => Some x | _ => None end; prj_inj _ := eq_refl |}.
#[export] Instance restores_cell : Cell (list goRestore) :=
  {| inj := RestoresCell; prj c := match c with RestoresCell x => Some x | _ => None end; prj_inj _ := eq_refl |}.
#[export] Instance restorelist_cell : Cell (goList goRestore) :=
  {| inj := RestoreListCell; prj c := match c with RestoreListCell x => Some x | _ => None end; prj_inj _ := eq_refl |}.
#[export] Instance node_cell : Cell goNode :=
  {| inj := NodeCell; prj c := match c with NodeCell x => Some x | _ => None end; prj_inj _ := eq_refl |}.
#[export] Instance nodes_cell : Cell (list goNode) :=
  {| inj := NodesCell; prj c := match c with NodesCell x => Some x | _ => None end; prj_inj _ := eq_refl |}.
#[export] Instance nodelist_cell : Cell (goList goNode) :=
  {| inj := NodeListCell; prj c := match c with NodeListCell x => Some x | _ => None end; prj_inj _ := eq_refl |}.

(** ** Programs on the memory

    They fail when they follow nil. *)

Definition mem (A : Type) : Type := heap → option (A * heap).

#[export] Instance mem_ret : MRet mem := λ A a h, Some (a, h).
#[export] Instance mem_bind : MBind mem := λ A B f m h,
  match m h with Some (a, h') => f a h' | None => None end.

Definition load {T} `{Cell T} (l : loc) : mem T := λ h,
  match h !! l ≫= prj with Some x => Some (x, h) | None => None end.

Definition store {T} `{Cell T} (l : loc) (x : T) : mem unit := λ h,
  match h !! l ≫= prj (T := T) with Some _ => Some (tt, <[l := inj x]> h) | None => None end.

(** [new], [make]: an address that is not in use. *)
Definition alloc {T} `{Cell T} (x : T) : mem loc := λ h,
  let l := fresh (dom h) in Some (l, <[l := inj x]> h).

(** The zero value of a type. *)
Class Zero (T : Type) := zero : T.

#[export] Instance status_zero : Zero string := "".
#[export] Instance pool_zero : Zero Pool := mkPool "" "" 0 0.
#[export] Instance info_zero : Zero goVolumeInfo := mkGoInfo emptyInfo None.
#[export] Instance bkpspec_zero : Zero ZFSBackupSpec := mkZFSBackupSpec "" "" "" "" "".
#[export] Instance rstrspec_zero : Zero ZFSRestoreSpec := mkZFSRestoreSpec "" "" "".
#[export] Instance meta_zero : Zero goMeta := mkGoMeta emptyMeta None None None None None.
#[export] Instance volume_zero : Zero goVolume := mkGoVolume zero zero "".
#[export] Instance snapshot_zero : Zero goSnapshot := mkGoSnapshot zero zero "".
#[export] Instance backup_zero : Zero goBackup := mkGoBackup zero zero BKPZFSStatusUnset.
#[export] Instance restore_zero : Zero goRestore := mkGoRestore zero zero zero RSTZFSStatusUnset.
#[export] Instance node_zero : Zero goNode := mkGoNode zero None.
#[export] Instance listmeta_zero : Zero goListMeta := mkGoListMeta (mkListMeta "" "" None) None.
#[export] Instance list_zero {T} : Zero (goList T) := mkGoList zero None.

(** ** Copies *)

(** The copying of one type into another variable of it. *)
Class DeepCopyable (T : Type) := DeepCopyInto : T → mem T.

(** [for key, val := range m { out[key] = val }] *)
Fixpoint copy_entries (l : loc) (entries : list (string * string)) : mem unit :=
  match entries with
  | [] => mret tt
  | (key, val) :: entries =>
    m ← load (T := smap) l;
    _ ← store l (<[key := val]> m);
    copy_entries l entries
  end.

(** [make] and [range] on a slice of structs, from index [i]. *)
Fixpoint copy_items {T} `{!Cell (list T)} `{!DeepCopyable T} (l : loc) (i : nat) (items : list T)
    : mem unit :=
  match items with
  | [] => mret tt
  | x :: items =>
    y ← DeepCopyInto x;
    out ← load (T := list T) l;
    _ ← store l (<[i := y]> out);
    copy_items l (S i) items
  end.

Definition copy_slice {T} `{!Cell (list T)} `{!Zero T} `{!DeepCopyable T} (r : ref) : mem ref :=
  match r with
  | None => mret None
  | Some l =>
    items ← load (T := list T) l;
    out ← alloc (replicate (length items) (zero (T := T)));
    _ ← copy_items out 0 items;
    mret (Some out)
  end.

(** [DeepCopy] of a type: a variable of it. *)
Definition DeepCopy {T} `{!Cell T} `{!Zero T} `{!DeepCopyable T} (p : ref) : mem ref :=
  match p with
  | None => mret None
  | Some l =>
    x ← load (T := T) l;
    out ← alloc (zero (T := T));
    y ← DeepCopyInto x;
    _ ← store out y;
    mret (Some out)
  end.

(** A nil object for a nil copy. *)
Definition DeepCopyObject {T} `{!Cell T} `{!Zero T} `{!DeepCopyable T} (p : ref) : mem ref :=
  c ← DeepCopy p;
  match c with Some c => mret (Some c) | None => mret None end.

Section copies.
Context `{!GoRange}.
Context `{Copy_meta : !DeepCopyable goMeta} `{Copy_listmeta : !DeepCopyable goListMeta}.

Definition Pool_DeepCopyInto : DeepCopyable Pool := λ x, mret x.
#[export] Existing Instance Pool_DeepCopyInto.
Definition VolStatus_DeepCopyInto : DeepCopyable string := λ x, mret x.
#[export] Existing Instance VolStatus_DeepCopyInto.
Definition ZFSBackupSpec_DeepCopyInto : DeepCopyable ZFSBackupSpec := λ x, mret x.
#[export] Existing Instance ZFSBackupSpec_DeepCopyInto.
Definition ZFSRestoreSpec_DeepCopyInto : DeepCopyable ZFSRestoreSpec := λ x, mret x.
#[export] Existing Instance ZFSRestoreSpec_DeepCopyInto.

Definition VolumeInfo_DeepCopyInto : DeepCopyable goVolumeInfo := λ x,
  match gi_UserProperties x with
  | None => mret x
  | Some l =>
    m ← load (T := smap) l;
    out ← alloc (T := smap) ∅;
    _ ← copy_entries out (range m);
    mret (mkGoInfo (gi_flat x) (Some out))
  end.
#[export] Existing Instance VolumeInfo_DeepCopyInto.

Definition ZFSVolume_DeepCopyInto : DeepCopyable goVolume := λ x,
  meta ← DeepCopyInto (gv_Meta x);
  spec ← DeepCopyInto (gv_Spec x);
  mret (mkGoVolume meta spec (gv_State x)).
#[export] Existing Instance ZFSVolume_DeepCopyInto.

Definition ZFSSnapshot_DeepCopyInto : DeepCopyable goSnapshot := λ x,
  meta ← DeepCopyInto (gs_Meta x);
  spec ← DeepCopyInto (gs_Spec x);
  mret (mkGoSnapshot meta spec (gs_State x)).
#[export] Existing Instance ZFSSnapshot_DeepCopyInto.

Definition ZFSBackup_DeepCopyInto : DeepCopyable goBackup := λ x,
  meta ← DeepCopyInto (gb_Meta x);
  mret (mkGoBackup meta (gb_Spec x) (gb_Status x)).
#[export] Existing Instance ZFSBackup_DeepCopyInto.

Definition ZFSRestore_DeepCopyInto : DeepCopyable goRestore := λ x,
  meta ← DeepCopyInto (gt_Meta x);
  spec ← DeepCopyInto (gt_VolSpec x);
  mret (mkGoRestore meta (gt_Spec x) spec (gt_Status x)).
#[export] Existing Instance ZFSRestore_DeepCopyInto.

Definition ZFSNode_DeepCopyInto : DeepCopyable goNode := λ x,
  meta ← DeepCopyInto (gn_Meta x);
  pools ← copy_slice (T := Pool) (gn_Pools x);
  mret (mkGoNode meta pools).
#[export] Existing Instance ZFSNode_DeepCopyInto.

(** The lists of the five kinds. *)
Definition List_DeepCopyInto {T} `{!Cell (list T)} `{!Zero T} `{!DeepCopyable T}
    : DeepCopyable (goList T) := λ x,
  meta ← DeepCopyInto (gl_Meta x);
  items ← copy_slice (T := T) (gl_Items x);
  mret (mkGoList meta items).
#[export] Existing Instance List_DeepCopyInto.
(** The methods of the generated file, type by type. *)
Definition SnapStatus_DeepCopyInto : DeepCopyable string := VolStatus_DeepCopyInto.
Definition Pool_DeepCopy : ref → mem ref := DeepCopy (T := Pool).
Definition SnapStatus_DeepCopy : ref → mem ref := DeepCopy (T := string).
Definition VolStatus_DeepCopy : ref → mem ref := DeepCopy (T := string).
Definition VolumeInfo_DeepCopy : ref → mem ref := DeepCopy (T := goVolumeInfo).
Definition ZFSBackupSpec_DeepCopy : ref → mem ref := DeepCopy (T := ZFSBackupSpec).
Definition ZFSRestoreSpec_DeepCopy : ref → mem ref := DeepCopy (T := ZFSRestoreSpec).

Definition ZFSVolume_DeepCopy : ref → mem ref := DeepCopy (T := goVolume).
Definition ZFSVolume_DeepCopyObject : ref → mem ref := DeepCopyObject (T := goVolume).
Definition ZFSVolumeList_DeepCopyInto : goList goVolume → mem (goList goVolume) := DeepCopyInto.
Definition ZFSVolumeList_DeepCopy : ref → mem ref := DeepCopy (T := goList goVolume).
Definition ZFSVolumeList_DeepCopyObject : ref → mem ref := DeepCopyObject (T := goList goVolume).

Definition ZFSSnapshot_DeepCopy : ref → mem ref := DeepCopy (T := goSnapshot).
Definition ZFSSnapshot_DeepCopyObject : ref → mem ref := DeepCopyObject (T := goSnapshot).
Definition ZFSSnapshotList_DeepCopyInto : goList goSnapshot → mem (goList goSnapshot) := DeepCopyInto.
Definition ZFSSnapshotList_DeepCopy : ref → mem ref := DeepCopy (T := goList goSnapshot).
Definition ZFSSnapshotList_DeepCopyObject : ref → mem ref := DeepCopyObject (T := goList goSnapshot).

Definition ZFSBackup_DeepCopy : ref → mem ref := DeepCopy (T := goBackup).
Definition ZFSBackup_DeepCopyObject : ref → mem ref := DeepCopyObject (T := goBackup).
Definition ZFSBackupList_DeepCopyInto : goList goBackup → mem (goList goBackup) := DeepCopyInto.
Definition ZFSBackupList_DeepCopy : ref → mem ref := DeepCopy (T := goList goBackup).
Definition ZFSBackupList_DeepCopyObject : ref → mem ref := DeepCopyObject (T := goList goBackup).

Definition ZFSRestore_DeepCopy : ref → mem ref := DeepCopy (T := goRestore).
Definition ZFSRestore_DeepCopyObject : ref → mem ref := DeepCopyObject (T := goRestore).
Definition ZFSRestoreList_DeepCopyInto : goList goRestore → mem (goList goRestore) := DeepCopyInto.
Definition ZFSRestoreList_DeepCopy : ref → mem ref := DeepCopy (T := goList goRestore).
Definition ZFSRestoreList_DeepCopyObject : ref → mem ref := DeepCopyObject (T := goList goRestore).

Definition ZFSNode_DeepCopy : ref → mem ref := DeepCopy (T := goNode).
Definition ZFSNode_DeepCopyObject : ref → mem ref := DeepCopyObject (T := goNode).
Definition ZFSNodeList_DeepCopyInto : goList goNode → mem (goList goNode) := DeepCopyInto.
Definition ZFSNodeList_DeepCopy : ref → mem ref := DeepCopy (T := goList goNode).
Definition ZFSNodeList_DeepCopyObject : ref → mem ref := DeepCopyObject (T := goList goNode).
End copies.

(** ** The node reconciler in place *)

(** What an address of a flag stands for; nil is no flag. *)
Definition load_bool (r : ref) : mem (option bool) :=
  match r with None => mret None | Some l => b ← load (T := bool) l; mret (Some b) end.

Section in_place.
Context (ownerRef : goOwnerReference).

(** The loop over the owner references of the array at [l], from index [i]: [None] when
    none is of the owner, otherwise whether the flag of the first was changed. *)
Fixpoint scan_owners (l : loc) (i : nat) (refs : list goOwnerReference) : mem (option bool) :=
  match refs with
  | [] => mret None
  | r :: refs =>
    if negb (ref_UID (gr_flat r) =? ref_UID (gr_flat ownerRef)) then scan_owners l (S i) refs
    else
      cur ← load_bool (gr_Controller r);
      req ← load_bool (gr_Controller ownerRef);
      if bool_decide (cur ≠ req) then
        arr ← load (T := list goOwnerReference) l;
        _ ← store l (<[i := mkGoRef (gr_flat r) (gr_Controller ownerRef)]> arr);
        mret (Some true)
      else mret (Some false)
  end.

(** A slice made by a deep copy has no room to append in. *)
Definition isOwnerRefsUpdateRequired_mem (ownerRefs : ref) : mem (ref * bool) :=
  refs ← (match ownerRefs with None => mret [] | Some l => load (T := list goOwnerReference) l end);
  found ← (match ownerRefs with None => mret None | Some l => scan_owners l 0 refs end);
  match found with
  | Some updated => mret (ownerRefs, updated)
  | None => l ← alloc (refs ++ [ownerRef]); mret (Some l, true)
  end.
End in_place.

(** The node object of a pointer, with what is changed in it: the part of [syncNode]
    between the copy and the update. *)
Definition load_pools (r : ref) : mem (list Pool) :=
  match r with None => mret [] | Some l => load (T := list Pool) l end.

Definition reconcile_node_mem `{!DeepCopyable goMeta} (ownerRef : goOwnerReference) (cachedNode : ref) (pools : list Pool)
    : mem (ref * bool) :=
  node ← DeepCopy (T := goNode) cachedNode;
  match node with
  | None => mret (None, false)
  | Some l =>
    x ← load (T := goNode) l;
    r ← isOwnerRefsUpdateRequired_mem ownerRef (gm_OwnerReferences (gn_Meta x));
    _ ← (if r.2 then store l (x {{ gn_Meta := (gn_Meta x) {{ gm_OwnerReferences := r.1 }} }}) else mret tt);
    x ← load (T := goNode) l;
    cur ← load_pools (gn_Pools x);
    if bool_decide (cur ≠ pools) then
      lp ← alloc pools;
      _ ← store l (x {{ gn_Pools := Some lp }});
      mret (Some l, true)
    else mret (Some l, r.2)
  end.
