(* ===== verification/HeapSpec.v ===== *)
(** * Deep copies share nothing with what they are copied from

    What an object in memory stands for is read by following its addresses; the addresses
    that are followed are its footprint.  A deep copy stands for the same value, and its
    footprint is new memory.  Here are the readers of the types of v1, the law of a copy,
    its proof for each [DeepCopyInto], and what follows for [DeepCopy]. *)

From S2P Require Import Prelude GoStr GoErr Api Heap.

(** A value and the addresses it was read from. *)
Definition reader (V : Type) : Type := heap → option (V * gset loc).

#[export] Instance reader_ret : MRet reader := λ V v h, Some (v, ∅).
#[export] Instance reader_bind : MBind reader := λ V W f r h,
  match r h with
  | Some (v, F) => match f v h with Some (w, F') => Some (w, F ∪ F') | None => None end
  | None => None
  end.

Definition at_loc {T} `{Cell T} (l : loc) : reader T := λ h,
  match h !! l ≫= prj with Some x => Some (x, {[l]}) | None => None end.

Fixpoint read_each {T V} (f : T → reader V) (xs : list T) : reader (list V) :=
  match xs with
  | [] => mret []
  | x :: xs => v ← f x; vs ← read_each f xs; mret (v :: vs)
  end.

(** What is behind an address, and what nil stands for. *)
Definition behind {T V} `{Cell T} (nil : V) (f : T → reader V) (r : ref) : reader V :=
  match r with None => mret nil | Some l => x ← at_loc l; f x end.

(** What a struct stands for. *)
Class Readable (T V : Type) := read : T → reader V.

Definition read_bool : ref → reader (option bool) := behind None (λ b, mret (Some b)).
Definition read_number : ref → reader (option Z) := behind None (λ n, mret (Some n)).
Definition read_map : ref → reader smap := behind ∅ (λ m : smap, mret m).
Definition read_strings : ref → reader (list string) := behind [] (λ l : list string, mret l).

#[export] Instance read_ref : Readable goOwnerReference OwnerReference := λ x,
  c ← read_bool (gr_Controller x);
  mret ((gr_flat x) {{ ref_Controller := c }}).

#[export] Instance read_meta : Readable goMeta ObjectMeta := λ x,
  labels ← read_map (gm_Labels x);
  annotations ← read_map (gm_Annotations x);
  finalizers ← read_strings (gm_Finalizers x);
  deleted ← read_number (gm_DeletionTimestamp x);
  owners ← behind [] (read_each read) (gm_OwnerReferences x);
  mret (mkObjectMeta (Name (gm_flat x)) (Namespace (gm_flat x)) (ResourceVersion (gm_flat x)) labels
          annotations finalizers deleted owners).

#[export] Instance read_info : Readable goVolumeInfo VolumeInfo := λ x,
  m ← read_map (gi_UserProperties x);
  mret ((gi_flat x) {{ UserProperties := m }}).

#[export] Instance read_volume : Readable goVolume ZFSVolume := λ x,
  meta ← read (gv_Meta x); spec ← read (gv_Spec x); mret (mkZFSVolume meta spec (gv_State x)).

#[export] Instance read_snapshot : Readable goSnapshot ZFSSnapshot := λ x,
  meta ← read (gs_Meta x); spec ← read (gs_Spec x); mret (mkZFSSnapshot meta spec (gs_State x)).

#[export] Instance read_backup : Readable goBackup ZFSBackup := λ x,
  meta ← read (gb_Meta x); mret (mkZFSBackup meta (gb_Spec x) (gb_Status x)).

#[export] Instance read_restore : Readable goRestore ZFSRestore := λ x,
  meta ← read (gt_Meta x); spec ← read (gt_VolSpec x);
  mret (mkZFSRestore meta (gt_Spec x) spec (gt_Status x)).

#[export] Instance read_pool : Readable Pool Pool := λ p, mret p.
#[export] Instance read_status : Readable string string := λ s, mret s.
#[export] Instance read_bkpspec : Readable ZFSBackupSpec ZFSBackupSpec := λ s, mret s.
#[export] Instance read_rstrspec : Readable ZFSRestoreSpec ZFSRestoreSpec := λ s, mret s.

Definition read_slice {T V} `{!Cell (list T)} `{!Readable T V} : ref → reader (list V) :=
  behind [] (read_each read).

#[export] Instance read_node : Readable goNode ZFSNode := λ x,
  meta ← read (gn_Meta x); pools ← read_slice (T := Pool) (gn_Pools x); mret (mkZFSNode meta pools).

#[export] Instance read_listmeta : Readable goListMeta ListMeta := λ x,
  n ← read_number (glm_RemainingItemCount x);
  mret ((glm_flat x) {{ lm_RemainingItemCount := n }}).

#[export] Instance read_list {T V} `{!Cell (list T)} `{!Readable T V}
    : Readable (goList T) (resource_list V) := λ x,
  meta ← read (gl_Meta x); items ← read_slice (T := T) (gl_Items x); mret (mkResourceList meta items).

(** A pointer to a struct. *)
Definition read_ptr {T V} `{!Cell T} `{!Readable T V} : ref → reader (option V) :=
  behind None (λ x, v ← read x; mret (Some v)).

(** ** What is read depends on the footprint only *)

Definition agree (F : gset loc) (h h' : heap) : Prop := ∀ l, l ∈ F → h' !! l = h !! l.

Definition local {V} (r : reader V) : Prop :=
  ∀ h v F, r h = Some (v, F) →
    F ⊆ dom h ∧ ∀ h', agree F h h' → r h' = Some (v, F).

Lemma local_ret {V} (v : V) : local (mret v).
Proof. intros h w F [= <- <-]. split; [set_solver|done]. Qed.

Lemma local_bind {V W} (r : reader V) (f : V → reader W) :
  local r → (∀ v, local (f v)) → local (r ≫= f).
Proof.
  intros Hr Hf h w G. unfold mbind, reader_bind.
  destruct (r h) as [[v F]|] eqn:E1; [|done]. destruct (f v h) as [[w' F']|] eqn:E2; [|done].
  intros [= <- <-]. destruct (Hr _ _ _ E1) as [Hd1 Hs1], (Hf _ _ _ _ E2) as [Hd2 Hs2].
  split; [set_solver|]. intros h' Ha.
  rewrite (Hs1 h'), (Hs2 h'); [done|..]; intros l Hl; apply Ha; set_solver.
Qed.

Lemma local_at {T} `{Cell T} l : local (at_loc (T := T) l).
Proof.
  intros h v F. unfold at_loc. destruct (h !! l) as [c|] eqn:E; cbn; [|done].
  destruct (prj c) as [x|] eqn:Ex; [|done]. intros [= <- <-]. split.
  - intros l' ->%elem_of_singleton. by apply elem_of_dom_2 in E.
  - intros h' Ha. rewrite (Ha l), E by set_solver. cbn. by rewrite Ex.
Qed.

Lemma local_behind {T V} `{Cell T} (nil : V) (f : T → reader V) r :
  (∀ x, local (f x)) → local (behind nil f r).
Proof.
  intros Hf. destruct r as [l|]; [|apply local_ret]. apply local_bind; [apply local_at|done].
Qed.

Lemma local_each {T V} (f : T → reader V) xs : (∀ x, local (f x)) → local (read_each f xs).
Proof.
  intros Hf. induction xs as [|x xs IH]; [apply local_ret|]. cbn.
  apply local_bind; [done|]. intros v. apply local_bind; [done|]. intros vs. apply local_ret.
Qed.

Class ReadLocal (T V : Type) `{!Readable T V} := read_local x : local (read x).

Ltac solve_local :=
  repeat first
    [ apply local_ret | apply read_local | apply local_each; intros ? | apply local_bind; [|intros ?] | apply local_behind; intros ?
    | progress unfold read_bool, read_number, read_map, read_strings, read_slice ].

#[export] Instance read_ref_local : ReadLocal goOwnerReference OwnerReference.
Proof. intros x. unfold read, read_ref. solve_local. Qed.
#[export] Instance read_meta_local : ReadLocal goMeta ObjectMeta.
Proof. intros x. unfold read, read_meta. solve_local. Qed.
#[export] Instance read_info_local : ReadLocal goVolumeInfo VolumeInfo.
Proof. intros x. unfold read, read_info. solve_local. Qed.
#[export] Instance read_listmeta_local : ReadLocal goListMeta ListMeta.
Proof. intros x. unfold read, read_listmeta. solve_local. Qed.
#[export] Instance read_volume_local : ReadLocal goVolume ZFSVolume.
Proof. intros x. unfold read, read_volume. solve_local. Qed.
#[export] Instance read_snapshot_local : ReadLocal goSnapshot ZFSSnapshot.
Proof. intros x. unfold read, read_snapshot. solve_local. Qed.
#[export] Instance read_backup_local : ReadLocal goBackup ZFSBackup.
Proof. intros x. unfold read, read_backup. solve_local. Qed.
#[export] Instance read_restore_local : ReadLocal goRestore ZFSRestore.
Proof. intros x. unfold read, read_restore. solve_local. Qed.
#[export] Instance read_pool_local : ReadLocal Pool Pool.
Proof. intros x. apply local_ret. Qed.
#[export] Instance read_status_local : ReadLocal string string.
Proof. intros x. apply local_ret. Qed.
#[export] Instance read_bkpspec_local : ReadLocal ZFSBackupSpec ZFSBackupSpec.
Proof. intros x. apply local_ret. Qed.
#[export] Instance read_rstrspec_local : ReadLocal ZFSRestoreSpec ZFSRestoreSpec.
Proof. intros x. apply local_ret. Qed.
#[export] Instance read_node_local : ReadLocal goNode ZFSNode.
Proof. intros x. unfold read, read_node. solve_local. Qed.
#[export] Instance read_list_local {T V} `{!Cell (list T)} `{!Readable T V} `{!ReadLocal T V} :
  ReadLocal (goList T) (resource_list V).
Proof. intros x. unfold read, read_list. solve_local. Qed.

Lemma read_ptr_local {T V} `{!Cell T} `{!Readable T V} `{!ReadLocal T V} p : local (read_ptr (T := T) p).
Proof. unfold read_ptr. solve_local. Qed.

(** ** Copies are of the same value, in new memory *)

Definition copied {T V} (h : heap) (v : V) (m : mem T) (rd : T → reader V) : Prop :=
  ∃ y h' F, m h = Some (y, h') ∧ h ⊆ h' ∧ rd y h' = Some (v, F) ∧ F ## dom h.

(** The law of a deep copy. *)
Class CopyLaw (T V : Type) `{!DeepCopyable T} `{!Readable T V} :=
  copy_ok h x v F : read x h = Some (v, F) → copied h v (DeepCopyInto x) read.

Lemma agree_subseteq F h h' : F ⊆ dom h → h ⊆ h' → agree F h h'.
Proof.
  intros HF Hs l Hl. apply HF, elem_of_dom in Hl as [c Hc].
  transitivity (Some c); [by eapply lookup_weaken|done].
Qed.

Lemma local_weaken {V} (r : reader V) h h' v F :
  local r → r h = Some (v, F) → h ⊆ h' → r h' = Some (v, F).
Proof. intros Hr E Hs. destruct (Hr _ _ _ E) as [Hd Hl]. by apply Hl, agree_subseteq. Qed.

Lemma fresh_dom (h : heap) : h !! fresh (dom h) = None.
Proof. apply not_elem_of_dom, is_fresh. Qed.

Lemma copied_ret {T V} h (v : V) (y : T) rd : rd y h = Some (v, ∅) → copied h v (mret y) rd.
Proof. intros E. exists y, h, ∅. split_and!; [done..|set_solver]. Qed.

(** A struct with one part, and with two that are copied one after the other. *)
Lemma copied_one {A U T V} h u (ca : mem A) (ra : A → reader U) (mk : A → T) (mkv : U → V) rd :
  (∀ a, rd (mk a) = (x ← ra a; mret (mkv x))) →
  copied h u ca ra → copied h (mkv u) (a ← ca; mret (mk a)) rd.
Proof.
  intros Hrd (a & h1 & F & E & Hs & Ha & Hd). exists (mk a), h1, (F ∪ ∅).
  unfold mbind, mem_bind. rewrite E, Hrd. split_and!; [done..| |set_solver].
  unfold mbind, reader_bind. by rewrite Ha.
Qed.

Lemma copied_two {A U B W T V} h u w (ca : mem A) (ra : A → reader U) (cb : mem B) (rb : B → reader W)
    (mk : A → B → T) (mkv : U → W → V) rd :
  (∀ a b, rd (mk a b) = (x ← ra a; y ← rb b; mret (mkv x y))) → (∀ a, local (ra a)) →
  copied h u ca ra → (∀ h', h ⊆ h' → copied h' w cb rb) →
  copied h (mkv u w) (a ← ca; b ← cb; mret (mk a b)) rd.
Proof.
  intros Hrd Hl (a & h1 & F & E & Hs & Ha & Hd) Hb.
  destruct (Hb h1 Hs) as (b & h2 & G & E2 & Hs2 & Hb2 & Hd2).
  exists (mk a b), h2, (F ∪ (G ∪ ∅)). unfold mbind, mem_bind. rewrite E, E2, Hrd.
  split_and!; [done|by etrans| |].
  - unfold mbind, reader_bind. rewrite (local_weaken _ _ _ _ _ (Hl a) Ha Hs2). by rewrite Hb2.
  - apply subseteq_dom in Hs. set_solver.
Qed.

(** *** Maps *)

Definition put_entry (m : smap) (e : string * string) : smap := <[e.1 := e.2]> m.

Lemma copy_entries_ok l es m h :
  h !! l = Some (MapCell m) →
  copy_entries l es h = Some (tt, <[l := MapCell (foldl put_entry m es)]> h).
Proof.
  revert m h. induction es as [|[k v] es IH]; intros m h Hl; cbn.
  - by rewrite insert_id.
  - unfold mbind, mem_bind, load, store. rewrite Hl. cbn. rewrite Hl. cbn.
    rewrite (IH (<[k := v]> m)) by by rewrite lookup_insert_eq. by rewrite insert_insert_eq.
Qed.

(** A loop over the entries of a map, in whatever order, rebuilds it. *)
Lemma put_entries_lookup es m k :
  NoDup es.*1 → foldl put_entry m es !! k = from_option Some (m !! k) (list_to_map (M := smap) es !! k).
Proof.
  revert m. induction es as [|[k' v] es IH]; intros m; cbn; [by rewrite lookup_empty|].
  intros [Hk' Hes]%NoDup_cons. rewrite IH by done. unfold put_entry. cbn.
  destruct (decide (k = k')) as [->|Hne].
  - rewrite lookup_insert_eq. rewrite not_elem_of_list_to_map_1 by done. cbn. by rewrite lookup_insert_eq.
  - rewrite !lookup_insert_ne by done. done.
Qed.

Lemma put_entries_range `{!GoRange} m : foldl put_entry ∅ (range m) = m.
Proof.
  assert (NoDup (range m).*1) as Hn by (rewrite range_perm; apply NoDup_fst_map_to_list).
  apply map_eq. intros k. rewrite put_entries_lookup by done.
  rewrite (list_to_map_proper _ (map_to_list m)), list_to_map_to_list; [|done|apply range_perm].
  rewrite lookup_empty. by destruct (m !! k).
Qed.

#[export] Instance VolumeInfo_copy `{!GoRange} : CopyLaw goVolumeInfo VolumeInfo.
Proof.
  intros h [flat [l|]] v F; unfold read, read_info, read_map, behind, DeepCopyInto, VolumeInfo_DeepCopyInto; cbn.
  - unfold mbind, reader_bind, at_loc. destruct (h !! l) as [c|] eqn:El; cbn; [|done].
    destruct c; try done. cbn. intros [= <- <-]. set (out := fresh (dom h)).
    eexists (mkGoInfo flat (Some out)), (<[out := MapCell m]> h), _.
    unfold mbind, mem_bind, load. rewrite El. cbn. unfold alloc. fold out.
    rewrite (copy_entries_ok out _ ∅) by (cbn; by rewrite lookup_insert_eq).
    rewrite insert_insert_eq, put_entries_range. split_and!; [done|..].
    + apply insert_subseteq, fresh_dom.
    + cbn. rewrite lookup_insert_eq. done.
    + pose proof (fresh_dom h) as Hf. apply not_elem_of_dom in Hf. set_solver.
  - intros [= <- <-]. exists (mkGoInfo flat None), h, (∅ ∪ ∅). split_and!; [done..|set_solver].
Qed.

(** *** Slices *)

Section slices.
Context {T V : Type} `{!Cell (list T)} `{!Zero T} `{!DeepCopyable T} `{!Readable T V}.
Context `{!ReadLocal T V} `{!CopyLaw T V}.

(** The loop leaves everything but the new array as it was, and fills the array. *)
Lemma copy_items_ok items vs F l pre h :
  read_each read items h = Some (vs, F) → l ∉ F →
  h !! l = Some (inj (pre ++ replicate (length items) (zero (T := T)))) →
  ∃ h' ys G, copy_items l (length pre) items h = Some (tt, h') ∧
    h' !! l = Some (inj (pre ++ ys)) ∧ agree (dom h ∖ {[l]}) h h' ∧
    read_each (V := V) read ys h' = Some (vs, G) ∧ G ## dom h.
Proof.
  revert vs F pre h. induction items as [|x items IH]; intros vs F pre h Hr Hl Harr.
  { cbn in *. injection Hr as <- <-. exists h, [], ∅. split_and!; [done..|set_solver]. }
  cbn in Hr. unfold mbind, reader_bind in Hr.
  destruct (read x h) as [[v F1]|] eqn:Ex; [|done].
  destruct (read_each read items h) as [[vs' F2]|] eqn:Eitems; [|done].
  injection Hr as <- <-.
  destruct (copy_ok h x v F1 Ex) as (y & h1 & G1 & Ey & Hs & Hy & Hd).
  assert (h1 !! l = h !! l) as Hl1 by (transitivity (h !! l); [|done]; rewrite Harr; by eapply lookup_weaken).
  set (arr := pre ++ zero :: replicate (length items) zero) in *.
  set (h2 := <[l := inj (<[length pre := y]> arr)]> h1).
  assert (l ∈ dom h) as Hdl by (by eapply elem_of_dom_2).
  assert (<[length pre := y]> arr = (pre ++ [y]) ++ replicate (length items) zero) as Harr'.
  { unfold arr. rewrite insert_app_r_alt, Nat.sub_diag by lia. cbn. by rewrite <- (assoc_L (++)). }
  destruct (IH vs' F2 (pre ++ [y]) h2) as (h' & ys & G & Ec & Hh' & Hag & Hrd & HG).
  - destruct (local_each (V := V) read items read_local _ _ _ Eitems) as [Hdom Hloc].
    apply Hloc. intros l' Hl'. unfold h2. rewrite lookup_insert_ne by set_solver.
    by apply (agree_subseteq F2 h h1).
  - set_solver.
  - unfold h2. by rewrite lookup_insert_eq, Harr'.
  - exists h', (y :: ys), (G1 ∪ (G ∪ ∅)).
    assert (dom h ⊆ dom h2) as Hdom2.
    { apply subseteq_dom in Hs. unfold h2. rewrite dom_insert. set_solver. }
    assert (agree (dom h1 ∖ {[l]}) h1 h') as Hag1.
    { intros l' Hl'. rewrite Hag by (unfold h2; rewrite dom_insert; set_solver).
      unfold h2. by rewrite lookup_insert_ne by set_solver. }
    split_and!.
    + cbn. unfold mbind, mem_bind. rewrite Ey. unfold load, store. rewrite Hl1, Harr. cbn.
      rewrite prj_inj. rewrite Hl1, Harr. cbn. rewrite prj_inj.
      rewrite length_app, Nat.add_1_r in Ec. exact Ec.
    + by rewrite <- (assoc_L (++)) in Hh'.
    + intros l' Hl'. rewrite Hag1.
      * apply (agree_subseteq (dom h ∖ {[l]}) h h1); [set_solver|done..].
      * apply subseteq_dom in Hs. set_solver.
    + cbn. unfold mbind, reader_bind.
      destruct (read_local (T := T) (V := V) y _ _ _ Hy) as [Hy1 Hy2].
      rewrite (Hy2 h'), Hrd; [done|]. intros l' Hl'. apply Hag1. set_solver.
    + set_solver.
Qed.

Lemma copy_slice_ok h r vs F :
  read_slice (T := T) (V := V) r h = Some (vs, F) → copied h vs (copy_slice (T := T) r) read_slice.
Proof.
  destruct r as [l|]; cbn; [|intros [= <- <-]; by apply copied_ret].
  unfold mbind, reader_bind, at_loc. destruct (h !! l) as [c|] eqn:El; cbn; [|done].
  destruct (prj c) as [items|] eqn:Ec; [|done].
  destruct (read_each read items h) as [[vs' F']|] eqn:Ei; [|done]. intros [= <- <-].
  set (out := fresh (dom h)). pose proof (fresh_dom h) as Hf. fold out in Hf.
  apply not_elem_of_dom in Hf as Hf'.
  destruct (local_each (V := V) read items read_local _ _ _ Ei) as [HF Hloc].
  set (h1 := <[out := inj (replicate (length items) (zero (T := T)))]> h).
  destruct (copy_items_ok items vs' F' out [] h1) as (h' & ys & G & Ecp & Hout & Hag & Hrd & HG).
  - apply Hloc. intros l' Hl'. unfold h1. rewrite lookup_insert_ne by set_solver. done.
  - set_solver.
  - unfold h1. by rewrite lookup_insert_eq.
  - exists (Some out), h', ({[out]} ∪ G). unfold mbind, mem_bind, load. rewrite El. cbn. rewrite Ec.
    unfold alloc. fold out. fold h1. cbn [length] in Ecp. rewrite Ecp. split_and!; [done|..].
    + apply map_subseteq_spec. intros l' c' Hl'. assert (l' ≠ out) by congruence.
      rewrite Hag; [unfold h1; by rewrite lookup_insert_ne|].
      apply elem_of_dom_2 in Hl'. unfold h1. rewrite dom_insert. set_solver.
    + cbn. unfold mbind, reader_bind, at_loc. rewrite Hout. cbn. rewrite prj_inj. by rewrite Hrd.
    + unfold h1 in HG. rewrite dom_insert in HG. set_solver.
Qed.
End slices.

(** *** Structs *)

#[export] Instance Pool_copy : CopyLaw Pool Pool.
Proof. intros h x v F [= <- <-]. by apply copied_ret. Qed.
#[export] Instance VolStatus_copy : CopyLaw string string.
Proof. intros h x v F [= <- <-]. by apply copied_ret. Qed.
#[export] Instance ZFSBackupSpec_copy : CopyLaw ZFSBackupSpec ZFSBackupSpec.
Proof. intros h x v F [= <- <-]. by apply copied_ret. Qed.
#[export] Instance ZFSRestoreSpec_copy : CopyLaw ZFSRestoreSpec ZFSRestoreSpec.
Proof. intros h x v F [= <- <-]. by apply copied_ret. Qed.

(** What two readers read one after the other. *)
Lemma reader_bind_inv {V W} (r : reader V) (f : V → reader W) h w F :
  (r ≫= f) h = Some (w, F) →
  ∃ v F1 F2, r h = Some (v, F1) ∧ f v h = Some (w, F2) ∧ F = F1 ∪ F2.
Proof.
  unfold mbind, reader_bind. destruct (r h) as [[v F1]|]; [|done].
  destruct (f v h) as [[w' F2]|] eqn:E; [|done]. intros [= <- <-]. by exists v, F1, F2.
Qed.

Section structs.
Context `{!GoRange}.
Context `{Copy_meta : !DeepCopyable goMeta} `{Copy_listmeta : !DeepCopyable goListMeta}.
Context `{!CopyLaw goMeta ObjectMeta} `{!CopyLaw goListMeta ListMeta}.

(** Both parts are read, and both are copied. *)
Ltac two_parts mk mkv :=
  let H := fresh in
  intros H; apply reader_bind_inv in H as (? & ? & ? & Ha & H & _);
  apply reader_bind_inv in H as (? & ? & ? & Hb & [= <- <-] & _);
  refine (copied_two _ _ _ _ read _ read mk mkv _ (λ _ _, eq_refl) _ _ _);
  [intros ?; apply read_local|by eapply copy_ok|
   intros h' Hs; eapply copy_ok, local_weaken; [apply read_local|exact Hb|exact Hs]].

#[export] Instance ZFSVolume_copy : CopyLaw goVolume ZFSVolume.
Proof.
  intros h x v F. two_parts (λ a b, mkGoVolume a b (gv_State x)) (λ a b, mkZFSVolume a b (gv_State x)).
Qed.
#[export] Instance ZFSSnapshot_copy : CopyLaw goSnapshot ZFSSnapshot.
Proof.
  intros h x v F.
  two_parts (λ a b, mkGoSnapshot a b (gs_State x)) (λ a b, mkZFSSnapshot a b (gs_State x)).
Qed.
#[export] Instance ZFSRestore_copy : CopyLaw goRestore ZFSRestore.
Proof.
  intros h x v F. two_parts (λ a b, mkGoRestore a (gt_Spec x) b (gt_Status x))
                            (λ a b, mkZFSRestore a (gt_Spec x) b (gt_Status x)).
Qed.

#[export] Instance ZFSBackup_copy : CopyLaw goBackup ZFSBackup.
Proof.
  intros h x v F Hx. apply reader_bind_inv in Hx as (? & ? & ? & Ha & [= <- <-] & _).
  refine (copied_one _ _ _ read (λ a, mkGoBackup a (gb_Spec x) (gb_Status x))
            (λ a, mkZFSBackup a (gb_Spec x) (gb_Status x)) _ (λ _, eq_refl) _). by eapply copy_ok.
Qed.

(** A struct with metadata and a slice of structs. *)
Lemma meta_slice_copied {M MV T V R RV} `{!DeepCopyable M} `{!Readable M MV} `{!ReadLocal M MV}
    `{!CopyLaw M MV} `{!Cell (list T)} `{!Zero T} `{!DeepCopyable T} `{!Readable T V}
    `{!ReadLocal T V} `{!CopyLaw T V} (mk : M → ref → R) (mkv : MV → list V → RV) (rd : R → reader RV)
    (m : M) (r : ref) h v F :
  (∀ a b, rd (mk a b) = (x ← read a; y ← read_slice (T := T) b; mret (mkv x y))) →
  rd (mk m r) h = Some (v, F) →
  copied h v (a ← DeepCopyInto m; b ← copy_slice (T := T) r; mret (mk a b)) rd.
Proof.
  intros Hrd Hx. rewrite Hrd in Hx. apply reader_bind_inv in Hx as (x & ? & ? & Ha & Hx & _).
  apply reader_bind_inv in Hx as (y & ? & ? & Hb & [= <- <-] & _).
  refine (copied_two _ _ _ _ read _ (read_slice (T := T)) mk mkv _ Hrd _ _ _).
  - intros a. apply read_local.
  - by eapply copy_ok.
  - intros h' Hs. eapply copy_slice_ok, local_weaken; [|exact Hb|exact Hs]. solve_local.
Qed.

#[export] Instance ZFSNode_copy : CopyLaw goNode ZFSNode.
Proof. intros h [m r] v F Hx. by eapply (meta_slice_copied mkGoNode mkZFSNode). Qed.

#[export] Instance List_copy {T V} `{!Cell (list T)} `{!Zero T} `{!DeepCopyable T} `{!Readable T V}
    `{!ReadLocal T V} `{!CopyLaw T V} : CopyLaw (goList T) (resource_list V).
Proof. intros h [m r] v F Hx. by eapply (meta_slice_copied mkGoList mkResourceList). Qed.
End structs.

(** ** Copies are independent *)

(** A copy of what [p] points to: a pointer to the same value, in memory that was not in
    use; the object copied is what it was, and stays so whatever happens to the memory of
    the copy and to memory allocated later. *)
Definition independent (T V : Type) `{!Cell T} `{!Zero T} `{!DeepCopyable T} `{!Readable T V} : Prop :=
  ∀ p h v F, read_ptr (T := T) (V := V) p h = Some (v, F) →
    ∃ p' h' F', DeepCopy (T := T) p h = Some (p', h') ∧ DeepCopyObject (T := T) p h = Some (p', h') ∧
      h ⊆ h' ∧ read_ptr (T := T) p' h' = Some (v, F') ∧ F' ## dom h ∧
      ∀ h'', agree (dom h' ∖ F') h' h'' → read_ptr (T := T) p h'' = Some (v, F).

Lemma DeepCopyObject_same {T} `{!Cell T} `{!Zero T} `{!DeepCopyable T} p h :
  DeepCopyObject (T := T) p h = DeepCopy p h.
Proof.
  unfold DeepCopyObject, mbind, mem_bind. destruct (DeepCopy p h) as [[[l|] h']|]; done.
Qed.

Lemma copy_independent {T V} `{!Cell T} `{!Zero T} `{!DeepCopyable T} `{!Readable T V}
    `{!ReadLocal T V} `{!CopyLaw T V} : independent T V.
Proof.
  intros p h v F Hp.
  assert (∀ h', h ⊆ h' → ∀ F', F' ## dom h → ∀ h'', agree (dom h' ∖ F') h' h'' →
    read_ptr (T := T) p h'' = Some (v, F)) as Hstay.
  { intros h' Hs F' HF' h'' Hag. destruct (read_ptr_local (T := T) (V := V) p _ _ _ Hp) as [HF Hloc].
    apply Hloc. intros l Hl. rewrite Hag.
    - by apply (agree_subseteq F h h').
    - apply subseteq_dom in Hs. set_solver. }
  setoid_rewrite DeepCopyObject_same.
  destruct p as [l|]; cbn in *.
  - unfold mbind, reader_bind, at_loc in Hp. destruct (h !! l) as [c|] eqn:El; cbn in Hp; [|done].
    destruct (prj c) as [x|] eqn:Ex; [|done].
    destruct (read x h) as [[vx Fx]|] eqn:Er; [|done]. cbn in Hp. injection Hp as <- <-.
    set (out := fresh (dom h)). pose proof (fresh_dom h) as Hf. fold out in Hf.
    apply not_elem_of_dom in Hf as Hf'.
    set (h1 := <[out := inj (zero (T := T))]> h).
    assert (h ⊆ h1) as Hs1 by by apply insert_subseteq.
    destruct (copy_ok h1 x vx Fx) as (y & h2 & G & Ey & Hs2 & Hy & HG).
    { by eapply local_weaken; [apply read_local|..]. }
    assert (h2 !! out = Some (inj (zero (T := T)))) as Ho.
    { eapply lookup_weaken; [|done]. unfold h1. by rewrite lookup_insert_eq. }
    assert (h ⊆ <[out := inj y]> h2) as Hs.
    { apply map_subseteq_spec. intros l' c' Hl'. rewrite lookup_insert_ne by congruence.
      by eapply lookup_weaken, Hs2; eapply lookup_weaken. }
    assert (({[out]} ∪ (G ∪ ∅)) ## dom h) as HG'.
    { unfold h1 in HG. rewrite dom_insert in HG. set_solver. }
    exists (Some out), (<[out := inj y]> h2), ({[out]} ∪ (G ∪ ∅)). split_and!.
    + unfold mbind, mem_bind, load, store, alloc. rewrite El. cbn. rewrite Ex. fold out h1.
      rewrite Ey, Ho. cbn. by rewrite prj_inj.
    + unfold mbind, mem_bind, load, store, alloc. rewrite El. cbn. rewrite Ex. fold out h1.
      rewrite Ey, Ho. cbn. by rewrite prj_inj.
    + done.
    + cbn. unfold mbind, reader_bind, at_loc. rewrite lookup_insert_eq. cbn. rewrite prj_inj.
      destruct (read_local (T := T) (V := V) y _ _ _ Hy) as [_ Hloc]. rewrite (Hloc (<[out := inj y]> h2)); [done|].
      intros l' Hl'. rewrite lookup_insert_ne; [done|]. unfold h1 in HG. rewrite dom_insert in HG. set_solver.
    + done.
    + by apply Hstay.
  - injection Hp as <- <-. exists None, h, ∅. split_and!; [done..|set_solver|]. by intros.
Qed.

(** ** A copy of the metadata

    A copy that has the law, to run the rest with. *)

Definition copy_ref {T} `{!Cell T} (r : ref) : mem ref :=
  match r with None => mret None | Some l => x ← load (T := T) l; l' ← alloc x; mret (Some l') end.

Lemma copy_ref_ok {T V} `{!Cell T} (nil : V) (f : T → V) r h v F :
  behind nil (λ x, mret (f x)) r h = Some (v, F) →
  copied h v (copy_ref (T := T) r) (behind nil (λ x, mret (f x))).
Proof.
  destruct r as [l|]; cbn; [|intros [= <- <-]; by apply copied_ret].
  intros (x & F1 & F2 & Hx & [= <- <-] & ->)%reader_bind_inv. unfold at_loc in Hx.
  pose proof (fresh_dom h) as Hf. exists (Some (fresh (dom h))), (<[fresh (dom h) := inj x]> h), ({[fresh (dom h)]} ∪ ∅).
  split_and!.
  - unfold mbind, mem_bind, load. destruct (h !! l ≫= prj); [|done]. by injection Hx as -> _.
  - by apply insert_subseteq.
  - cbn. unfold mbind, reader_bind, at_loc. rewrite lookup_insert_eq. cbn. by rewrite prj_inj.
  - apply not_elem_of_dom in Hf. set_solver.
Qed.

#[export] Instance ownerref_zero : Zero goOwnerReference := mkGoRef (mkOwnerReference "" "" "" "" None) None.

#[export] Instance sim_copy_ownerref : DeepCopyable goOwnerReference := λ x,
  c ← copy_ref (T := bool) (gr_Controller x); mret (mkGoRef (gr_flat x) c).

#[export] Instance sim_copy_ownerref_law : CopyLaw goOwnerReference OwnerReference.
Proof.
  intros h x v F Hx. apply reader_bind_inv in Hx as (c & ? & ? & Hc & [= <- <-] & _).
  refine (copied_one _ _ _ read_bool (mkGoRef (gr_flat x)) (λ c, (gr_flat x) {{ ref_Controller := c }})
            _ (λ _, eq_refl) _). by eapply copy_ref_ok.
Qed.

(** One part after the other, as nested pairs. *)
Definition pair_mem {A B} (ca : mem A) (cb : mem B) : mem (A * B) := a ← ca; b ← cb; mret (a, b).
Definition pair_reader {A B U W} (ra : A → reader U) (rb : B → reader W) (p : A * B) : reader (U * W) :=
  x ← ra p.1; y ← rb p.2; mret (x, y).

#[export] Instance sim_copy_meta : DeepCopyable goMeta := λ x,
  p ← pair_mem (copy_ref (T := smap) (gm_Labels x))
        (pair_mem (copy_ref (T := smap) (gm_Annotations x))
          (pair_mem (copy_ref (T := list string) (gm_Finalizers x))
            (pair_mem (copy_ref (T := Z) (gm_DeletionTimestamp x))
               (copy_slice (T := goOwnerReference) (gm_OwnerReferences x)))));
  mret (mkGoMeta (gm_flat x) p.1 p.2.1 p.2.2.1 p.2.2.2.1 p.2.2.2.2).

Lemma pair_copied {A B U W} h u w (ca : mem A) (ra : A → reader U) (cb : mem B) (rb : B → reader W) :
  (∀ a, local (ra a)) → copied h u ca ra → (∀ h', h ⊆ h' → copied h' w cb rb) →
  copied h (u, w) (pair_mem ca cb) (pair_reader ra rb).
Proof. intros. by apply (copied_two h u w ca ra cb rb pair pair). Qed.

Lemma pair_local {A B U W} (ra : A → reader U) (rb : B → reader W) p :
  (∀ a, local (ra a)) → (∀ b, local (rb b)) → local (pair_reader ra rb p).
Proof. intros. unfold pair_reader. by repeat (apply local_bind; [done|intros ?]); apply local_ret. Qed.

Lemma copied_map {A U T V} h u (ca : mem A) (ra : A → reader U) (mk : A → T) (mkv : U → V) (rd : T → reader V) :
  (∀ a h u F, ra a h = Some (u, F) → ∃ F', rd (mk a) h = Some (mkv u, F') ∧ F' ⊆ F) →
  copied h u ca ra → copied h (mkv u) (a ← ca; mret (mk a)) rd.
Proof.
  intros Hrd (a & h1 & F & E & Hs & Ha & Hd). destruct (Hrd _ _ _ _ Ha) as (F' & HF' & Hsub).
  exists (mk a), h1, F'. unfold mbind, mem_bind. rewrite E. split_and!; [done..|set_solver].
Qed.

Definition read_parts : ref * (ref * (ref * (ref * ref))) → reader (smap * (smap * (list string * (option Z * list OwnerReference)))) :=
  pair_reader read_map (pair_reader read_map (pair_reader read_strings
    (pair_reader read_number (read_slice (T := goOwnerReference))))).

Lemma read_meta_of_parts flat p h u F :
  read_parts p h = Some (u, F) →
  ∃ F', read (mkGoMeta flat p.1 p.2.1 p.2.2.1 p.2.2.2.1 p.2.2.2.2) h =
    Some (mkObjectMeta (Name flat) (Namespace flat) (ResourceVersion flat) u.1 u.2.1 u.2.2.1 u.2.2.2.1 u.2.2.2.2, F') ∧ F' ⊆ F.
Proof.
  destruct p as (r1 & r2 & r3 & r4 & r5). unfold read_parts. unfold pair_reader at 1.
  intros (a & ? & ? & Ha & Hx & ->)%reader_bind_inv. cbn [fst snd] in *.
  apply reader_bind_inv in Hx as (u1 & ? & ? & Hx & [= <- <-] & ->). unfold pair_reader at 1 in Hx.
  apply reader_bind_inv in Hx as (b & ? & ? & Hb & Hx & ->). cbn [fst snd] in *.
  apply reader_bind_inv in Hx as (u2 & ? & ? & Hx & [= <- <-] & ->). unfold pair_reader at 1 in Hx.
  apply reader_bind_inv in Hx as (c & ? & ? & Hc & Hx & ->). cbn [fst snd] in *.
  apply reader_bind_inv in Hx as (u3 & ? & ? & Hx & [= <- <-] & ->). unfold pair_reader at 1 in Hx.
  apply reader_bind_inv in Hx as (d & ? & ? & Hd & Hx & ->). cbn [fst snd] in *.
  apply reader_bind_inv in Hx as (e & ? & ? & He & [= <- <-] & ->). cbn [fst snd].
  unfold read, read_meta, mbind, reader_bind. cbn [gm_flat gm_Labels gm_Annotations gm_Finalizers gm_DeletionTimestamp gm_OwnerReferences].
  rewrite Ha, Hb, Hc, Hd. unfold read_slice in He. rewrite He. eexists. split; [done|]. set_solver.
Qed.

#[export] Instance sim_copy_meta_law : CopyLaw goMeta ObjectMeta.
Proof.
  intros h x v F. unfold read, read_meta. intros (a & ? & ? & Ha & Hx & _)%reader_bind_inv.
  apply reader_bind_inv in Hx as (b & ? & ? & Hb & Hx & _).
  apply reader_bind_inv in Hx as (c & ? & ? & Hc & Hx & _).
  apply reader_bind_inv in Hx as (d & ? & ? & Hd & Hx & _).
  apply reader_bind_inv in Hx as (e & ? & ? & He & [= <- <-] & _).
  refine (copied_map h (a, (b, (c, (d, e)))) _ read_parts _ _ _ (read_meta_of_parts (gm_flat x)) _).
  assert (∀ r, local (read_map r)) by (intros; solve_local).
  assert (∀ r, local (read_strings r)) by (intros; solve_local).
  assert (∀ r, local (read_number r)) by (intros; solve_local).
  apply pair_copied; [done|by eapply copy_ref_ok|]. intros h1 Hs1.
  apply pair_copied; [done|by eapply copy_ref_ok, local_weaken; [|exact Hb|]|]. intros h2 Hs2.
  apply pair_copied; [done|by eapply copy_ref_ok, local_weaken; [|exact Hc|etrans]|]. intros h3 Hs3.
  apply pair_copied; [done|by eapply copy_ref_ok, local_weaken; [|exact Hd|do 2 etrans]|]. intros h4 Hs4.
  eapply copy_slice_ok, local_weaken; [solve_local|exact He|]. by do 3 etrans.
Qed.

#[export] Instance sim_copy_listmeta : DeepCopyable goListMeta := λ x,
  n ← copy_ref (T := Z) (glm_RemainingItemCount x); mret (mkGoListMeta (glm_flat x) n).

#[export] Instance sim_copy_listmeta_law : CopyLaw goListMeta ListMeta.
Proof.
  intros h x v F Hx. apply reader_bind_inv in Hx as (n & ? & ? & Hn & [= <- <-] & _).
  refine (copied_one _ _ _ read_number (mkGoListMeta (glm_flat x))
            (λ n, (glm_flat x) {{ lm_RemainingItemCount := n }}) _ (λ _, eq_refl) _).
  by eapply copy_ref_ok.
Qed.

(** ** An example *)

Definition an_owner : OwnerReference := mkOwnerReference "v1" "Node" "node-1" "uid-1" None.
Definition a_pool : Pool := mkPool "zpool" "1" 100 10.

(** A cached node at 1, with its owner references at 2, whose flag is not set, and its
    pools at 3; the flag of the owner reference the controller wants at 4. *)
Definition example_heap : heap :=
  {[ 1%positive := NodeCell (mkGoNode (mkGoMeta (emptyMeta {{ Name := "node-1" }}) None None None None (Some 2%positive)) (Some 3%positive));
     2%positive := RefsCell [mkGoRef an_owner None];
     3%positive := PoolsCell [a_pool];
     4%positive := BoolCell true ]}.

Definition wanted_ref : goOwnerReference := mkGoRef an_owner (Some 4%positive).
Definition wanted : OwnerReference := an_owner {{ ref_Controller := Some true }}.
Definition example_node : ZFSNode :=
  mkZFSNode (emptyMeta {{ Name := "node-1" }} {{ OwnerReferences := [an_owner] }}) [a_pool].

Lemma example_node_read :
  read_ptr (T := goNode) (Some 1%positive) example_heap = Some (Some example_node, {[1; 2; 3]}%positive).
Proof. vm_compute. reflexivity. Qed.
