(* ===== verification/DeepCopies.v ===== *)
(** * The deep copies of both versions

    zz_generated.deepcopy.go of v1alpha1: the copying of the first version of the
    resources, in the memory of Heap; then the independence of every copy of both
    versions. *)

From S2P Require Import Prelude GoStr GoErr Api Effects Kube ZfsOps Laws Sim ApiAlpha Heap HeapSpec.

(** ** The types in memory *)

#[export] Instance alpha_volstatus_cell : Cell v1alpha1.alpha_VolStatus :=
  {| inj := VolStatusACell; prj c := match c with VolStatusACell x => Some x | _ => None end; prj_inj _ := eq_refl |}.
#[export] Instance alpha_snapstatus_cell : Cell v1alpha1.alpha_SnapStatus :=
  {| inj := SnapStatusACell; prj c := match c with SnapStatusACell x => Some x | _ => None end; prj_inj _ := eq_refl |}.
#[export] Instance alpha_info_cell : Cell v1alpha1.alpha_VolumeInfo :=
  {| inj := InfoACell; prj c := match c with InfoACell x => Some x | _ => None end; prj_inj _ := eq_refl |}.
#[export] Instance alpha_volume_cell : Cell goVolumeA :=
  {| inj := VolumeACell; prj c := match c with VolumeACell x => Some x | _ => None end; prj_inj _ := eq_refl |}.
#[export] Instance alpha_volumes_cell : Cell (list goVolumeA) :=
  {| inj := VolumesACell; prj c := match c with VolumesACell x => Some x | _ => None end; prj_inj _ := eq_refl |}.
#[export] Instance alpha_volumelist_cell : Cell (goList goVolumeA) :=
  {| inj := VolumeListACell; prj c := match c with VolumeListACell x => Some x | _ => None end; prj_inj _ := eq_refl |}.
#[export] Instance alpha_snapshot_cell : Cell goSnapshotA :=
  {| inj := SnapshotACell; prj c := match c with SnapshotACell x => Some x | _ => None end; prj_inj _ := eq_refl |}.
#[export] Instance alpha_snapshots_cell : Cell (list goSnapshotA) :=
  {| inj := SnapshotsACell; prj c := match c with SnapshotsACell x => Some x | _ => None end; prj_inj _ := eq_refl |}.
#[export] Instance alpha_snapshotlist_cell : Cell (goList goSnapshotA) :=
  {| inj := SnapshotListACell; prj c := match c with SnapshotListACell x => Some x | _ => None end; prj_inj _ := eq_refl |}.

#[export] Instance alpha_volstatus_zero : Zero v1alpha1.alpha_VolStatus := v1alpha1.mkAlphaVolStatus "".
#[export] Instance alpha_snapstatus_zero : Zero v1alpha1.alpha_SnapStatus := v1alpha1.mkAlphaSnapStatus "".
#[export] Instance alpha_info_zero : Zero v1alpha1.alpha_VolumeInfo := v1alpha1.alpha_emptyInfo.
#[export] Instance alpha_volume_zero : Zero goVolumeA := mkGoVolumeA zero zero zero.
#[export] Instance alpha_snapshot_zero : Zero goSnapshotA := mkGoSnapshotA zero zero zero.

(** ** Copies *)

Definition alpha_SnapStatus_DeepCopyInto : DeepCopyable v1alpha1.alpha_SnapStatus := λ x, mret x.
#[export] Existing Instance alpha_SnapStatus_DeepCopyInto.
Definition alpha_VolStatus_DeepCopyInto : DeepCopyable v1alpha1.alpha_VolStatus := λ x, mret x.
#[export] Existing Instance alpha_VolStatus_DeepCopyInto.
Definition alpha_VolumeInfo_DeepCopyInto : DeepCopyable v1alpha1.alpha_VolumeInfo := λ x, mret x.
#[export] Existing Instance alpha_VolumeInfo_DeepCopyInto.

Section copies.
Context `{Copy_meta : !DeepCopyable goMeta} `{Copy_listmeta : !DeepCopyable goListMeta}.

Definition alpha_ZFSSnapshot_DeepCopyInto : DeepCopyable goSnapshotA := λ x,
  meta ← DeepCopyInto (gsa_Meta x);
  mret (mkGoSnapshotA meta (gsa_Spec x) (gsa_Status x)).
#[export] Existing Instance alpha_ZFSSnapshot_DeepCopyInto.

Definition alpha_ZFSVolume_DeepCopyInto : DeepCopyable goVolumeA := λ x,
  meta ← DeepCopyInto (gva_Meta x);
  mret (mkGoVolumeA meta (gva_Spec x) (gva_Status x)).
#[export] Existing Instance alpha_ZFSVolume_DeepCopyInto.

Definition alpha_SnapStatus_DeepCopy : ref → mem ref := DeepCopy (T := v1alpha1.alpha_SnapStatus).
Definition alpha_VolStatus_DeepCopy : ref → mem ref := DeepCopy (T := v1alpha1.alpha_VolStatus).
Definition alpha_VolumeInfo_DeepCopy : ref → mem ref := DeepCopy (T := v1alpha1.alpha_VolumeInfo).

Definition alpha_ZFSSnapshot_DeepCopy : ref → mem ref := DeepCopy (T := goSnapshotA).
Definition alpha_ZFSSnapshot_DeepCopyObject : ref → mem ref := DeepCopyObject (T := goSnapshotA).
Definition alpha_ZFSSnapshotList_DeepCopyInto : goList goSnapshotA → mem (goList goSnapshotA) := DeepCopyInto.
Definition alpha_ZFSSnapshotList_DeepCopy : ref → mem ref := DeepCopy (T := goList goSnapshotA).
Definition alpha_ZFSSnapshotList_DeepCopyObject : ref → mem ref := DeepCopyObject (T := goList goSnapshotA).

Definition alpha_ZFSVolume_DeepCopy : ref → mem ref := DeepCopy (T := goVolumeA).
Definition alpha_ZFSVolume_DeepCopyObject : ref → mem ref := DeepCopyObject (T := goVolumeA).
Definition alpha_ZFSVolumeList_DeepCopyInto : goList goVolumeA → mem (goList goVolumeA) := DeepCopyInto.
Definition alpha_ZFSVolumeList_DeepCopy : ref → mem ref := DeepCopy (T := goList goVolumeA).
Definition alpha_ZFSVolumeList_DeepCopyObject : ref → mem ref := DeepCopyObject (T := goList goVolumeA).
End copies.

(** ** Reading *)

#[export] Instance read_alpha_volstatus : Readable v1alpha1.alpha_VolStatus v1alpha1.alpha_VolStatus := λ s, mret s.
#[export] Instance read_alpha_snapstatus : Readable v1alpha1.alpha_SnapStatus v1alpha1.alpha_SnapStatus := λ s, mret s.
#[export] Instance read_alpha_info : Readable v1alpha1.alpha_VolumeInfo v1alpha1.alpha_VolumeInfo := λ s, mret s.
#[export] Instance read_alpha_volume : Readable goVolumeA v1alpha1.alpha_ZFSVolume := λ x,
  meta ← read (gva_Meta x); mret (v1alpha1.mkAlphaZFSVolume meta (gva_Spec x) (gva_Status x)).
#[export] Instance read_alpha_snapshot : Readable goSnapshotA v1alpha1.alpha_ZFSSnapshot := λ x,
  meta ← read (gsa_Meta x); mret (v1alpha1.mkAlphaZFSSnapshot meta (gsa_Spec x) (gsa_Status x)).

#[export] Instance read_alpha_volstatus_local : ReadLocal v1alpha1.alpha_VolStatus v1alpha1.alpha_VolStatus.
Proof. intros x. apply local_ret. Qed.
#[export] Instance read_alpha_snapstatus_local : ReadLocal v1alpha1.alpha_SnapStatus v1alpha1.alpha_SnapStatus.
Proof. intros x. apply local_ret. Qed.
#[export] Instance read_alpha_info_local : ReadLocal v1alpha1.alpha_VolumeInfo v1alpha1.alpha_VolumeInfo.
Proof. intros x. apply local_ret. Qed.
#[export] Instance read_alpha_volume_local : ReadLocal goVolumeA v1alpha1.alpha_ZFSVolume.
Proof. intros x. unfold read, read_alpha_volume. solve_local. Qed.
#[export] Instance read_alpha_snapshot_local : ReadLocal goSnapshotA v1alpha1.alpha_ZFSSnapshot.
Proof. intros x. unfold read, read_alpha_snapshot. solve_local. Qed.

#[export] Instance alpha_volstatus_copy : CopyLaw v1alpha1.alpha_VolStatus v1alpha1.alpha_VolStatus.
Proof. intros h x v F [= <- <-]. by apply copied_ret. Qed.
#[export] Instance alpha_snapstatus_copy : CopyLaw v1alpha1.alpha_SnapStatus v1alpha1.alpha_SnapStatus.
Proof. intros h x v F [= <- <-]. by apply copied_ret. Qed.
#[export] Instance alpha_info_copy : CopyLaw v1alpha1.alpha_VolumeInfo v1alpha1.alpha_VolumeInfo.
Proof. intros h x v F [= <- <-]. by apply copied_ret. Qed.

Section laws.
Context `{Copy_meta : !DeepCopyable goMeta} `{!CopyLaw goMeta ObjectMeta}.

#[export] Instance alpha_volume_copy : CopyLaw goVolumeA v1alpha1.alpha_ZFSVolume.
Proof.
  intros h x v F Hx. apply reader_bind_inv in Hx as (? & ? & ? & Ha & [= <- <-] & _).
  refine (copied_one _ _ _ read (λ a, mkGoVolumeA a (gva_Spec x) (gva_Status x))
            (λ a, v1alpha1.mkAlphaZFSVolume a (gva_Spec x) (gva_Status x)) _ (λ _, eq_refl) _). by eapply copy_ok.
Qed.
#[export] Instance alpha_snapshot_copy : CopyLaw goSnapshotA v1alpha1.alpha_ZFSSnapshot.
Proof.
  intros h x v F Hx. apply reader_bind_inv in Hx as (? & ? & ? & Ha & [= <- <-] & _).
  refine (copied_one _ _ _ read (λ a, mkGoSnapshotA a (gsa_Spec x) (gsa_Status x))
            (λ a, v1alpha1.mkAlphaZFSSnapshot a (gsa_Spec x) (gsa_Status x)) _ (λ _, eq_refl) _). by eapply copy_ok.
Qed.
End laws.

(** ** Copies are independent *)


