(* ===== verification/HeapNode.v ===== *)
(** * The node reconciler in place

    [syncNode] changes its deep copy of the cached node in place: the array of the owner
    references, and the slice of the pools.  It is followed through the memory and related
    to the function on values that the rest of the development uses. *)

From S2P Require Import Prelude GoStr GoErr Api Effects Kube ZfsArgs Builders VolumeOps ZfsOps Laws Sim Reconcilers Heap HeapSpec.

(** Memory that differs in cells of one type only: readers of other types do not notice. *)
Definition same_but (bad : cell → bool) (h h' : heap) : Prop :=
  ∀ l, h' !! l = h !! l ∨
       (∃ c', h' !! l = Some c' ∧ bad c' = true) ∧ (∀ c, h !! l = Some c → bad c = true).

Definition is_refs (c : cell) : bool := match c with RefsCell _ => true | _ => false end.
Definition is_node (c : cell) : bool := match c with NodeCell _ => true | _ => false end.

Lemma same_but_insert bad h l c :
  bad c = true → (∀ c0, h !! l = Some c0 → bad c0 = true) → same_but bad h (<[l := c]> h).
Proof.
  intros Hc Ho l'. destruct (decide (l = l')) as [<-|Hne]; [|left; by rewrite lookup_insert_ne].
  right. split; [|done]. exists c. by rewrite lookup_insert_eq.
Qed.

Lemma behind_other {T V} `{Cell T} bad (nil : V) (f : T → reader V) r h h' :
  same_but bad h h' → (∀ c, bad c = true → prj (T := T) c = None) → (∀ x, f x h' = f x h) →
  behind nil f r h' = behind nil f r h.
Proof.
  intros Hs Hb Hf. destruct r as [l|]; [|done]. cbn. unfold mbind, reader_bind, at_loc.
  destruct (Hs l) as [->|[(c' & -> & Hc') Hold]].
  - destruct (h !! l ≫= prj) as [x|]; [|done]. by rewrite Hf.
  - cbn. rewrite Hb by done. destruct (h !! l) as [c|]; [|done]. cbn. by rewrite Hb by auto.
Qed.

(** What is left of the metadata when the owner references are taken away. *)
Definition read_rest (x : goMeta) : reader (smap * smap * list string * option Z) :=
  labels ← read_map (gm_Labels x);
  annotations ← read_map (gm_Annotations x);
  finalizers ← read_strings (gm_Finalizers x);
  deleted ← read_number (gm_DeletionTimestamp x);
  mret (labels, annotations, finalizers, deleted).

Definition read_owners (r : ref) : reader (list OwnerReference) :=
  behind [] (read_each (read (T := goOwnerReference) (V := OwnerReference))) r.

Definition with_parts (x : goMeta) (rest : smap * smap * list string * option Z)
    (owners : list OwnerReference) : ObjectMeta :=
  mkObjectMeta (Name (gm_flat x)) (Namespace (gm_flat x)) (ResourceVersion (gm_flat x)) rest.1.1.1 rest.1.1.2 rest.1.2 rest.2 owners.

(** Values, without the footprints. *)
Definition reads_as {V} (r : reader V) (h : heap) (v : V) : Prop := ∃ F, r h = Some (v, F).

Lemma reads_ret {V} (v w : V) h : reads_as (mret v) h w ↔ v = w.
Proof. split; [by intros [F [= -> _]]|]. intros ->. by exists ∅. Qed.

Lemma reads_bind {V W} (r : reader V) (f : V → reader W) h w :
  reads_as (r ≫= f) h w ↔ ∃ v, reads_as r h v ∧ reads_as (f v) h w.
Proof.
  split.
  - intros [F (v & F1 & F2 & Hv & Hw & _)%reader_bind_inv]. exists v. split; by eexists.
  - intros (v & [F1 Hv] & [F2 Hw]). exists (F1 ∪ F2). unfold mbind, reader_bind. by rewrite Hv, Hw.
Qed.

Lemma read_meta_parts x h v :
  reads_as (read x) h v ↔
  ∃ rest owners, reads_as (read_rest x) h rest ∧ reads_as (read_owners (gm_OwnerReferences x)) h owners ∧
    v = with_parts x rest owners.
Proof.
  unfold read, read_meta, read_rest. rewrite reads_bind. setoid_rewrite reads_bind.
  setoid_rewrite reads_bind. setoid_rewrite reads_bind. setoid_rewrite reads_bind.
  setoid_rewrite reads_ret. split.
  - intros (a & Ha & b & Hb & c & Hc & d & Hd & o & Ho & <-).
    exists (a, b, c, d), o. split_and!; [|done..]. eauto 10.
  - intros ([[[a b] c] d] & o & (a' & Ha & b' & Hb & c' & Hc & d' & Hd & [= -> -> -> ->]) & Ho & ->).
    eauto 15.
Qed.

Lemma reads_weaken {V} (r : reader V) h h' v : local r → reads_as r h v → h ⊆ h' → reads_as r h' v.
Proof. intros Hl [F HF] Hs. exists F. by eapply local_weaken. Qed.

(** Flat cells are not disturbed. *)
Definition leaves_flat (bad : cell → bool) : Prop :=
  ∀ c, bad c = true → prj (T := smap) c = None ∧ prj (T := list string) c = None ∧
    prj (T := Z) c = None ∧ prj (T := bool) c = None.

Lemma refs_leave_flat : leaves_flat is_refs.
Proof. by intros []. Qed.
Lemma node_leaves_flat : leaves_flat is_node.
Proof. by intros []. Qed.

Lemma bind_other {V W} (r : reader V) (f : V → reader W) h h' :
  r h' = r h → (∀ v, f v h' = f v h) → (r ≫= f) h' = (r ≫= f) h.
Proof. intros Hr Hf. unfold mbind, reader_bind. rewrite Hr. destruct (r h) as [[v F]|]; [|done]. by rewrite Hf. Qed.

Lemma flat_other {T V} `{Cell T} bad (nil : V) (f : T → V) r h h' :
  same_but bad h h' → (∀ c, bad c = true → prj (T := T) c = None) →
  behind nil (λ x, mret (f x)) r h' = behind nil (λ x, mret (f x)) r h.
Proof. intros Hs Hb. by apply (behind_other bad). Qed.

Lemma read_rest_other bad x h h' :
  leaves_flat bad → same_but bad h h' → read_rest x h' = read_rest x h.
Proof.
  intros Hf Hs. unfold read_rest.
  repeat (apply bind_other; [apply (flat_other bad); [done|]; intros c Hc; by apply Hf|intros ?]).
  done.
Qed.

Lemma read_ref_other bad (x : goOwnerReference) h h' :
  leaves_flat bad → same_but bad h h' → read (V := OwnerReference) x h' = read x h.
Proof.
  intros Hf Hs. apply bind_other; [|done]. apply (flat_other bad); [done|]. intros c Hc. by apply Hf.
Qed.

Lemma read_each_other bad (xs : list goOwnerReference) h h' :
  leaves_flat bad → same_but bad h h' →
  read_each (read (V := OwnerReference)) xs h' = read_each read xs h.
Proof.
  intros Hf Hs. induction xs as [|x xs IH]; [done|]. cbn.
  apply bind_other; [by apply (read_ref_other bad)|]. intros v. by apply bind_other.
Qed.

(** The loop over the owner references does in place what the function on values does. *)
Lemma load_bool_reads r h b : reads_as (read_bool r) h b → load_bool r h = Some (b, h).
Proof.
  destruct r as [l|]; cbn; [|intros [F [= <- _]]; done]. intros [F HF]. revert HF.
  unfold mbind, reader_bind, mem_bind, at_loc, load. destruct (h !! l ≫= prj); [|done].
  by intros [= <- _].
Qed.

Lemma read_ref_parts (x : goOwnerReference) h v :
  reads_as (read x) h v → reads_as (read_bool (gr_Controller x)) h (ref_Controller v) ∧
  v = (gr_flat x) {{ ref_Controller := ref_Controller v }}.
Proof.
  unfold read, read_ref. rewrite reads_bind. setoid_rewrite reads_ret. by intros (c & Hc & <-).
Qed.

Lemma read_each_cons {T V} (f : T → reader V) x xs h vs :
  reads_as (read_each f (x :: xs)) h vs ↔
  ∃ v vs', reads_as (f x) h v ∧ reads_as (read_each f xs) h vs' ∧ vs = v :: vs'.
Proof.
  cbn. rewrite reads_bind. setoid_rewrite reads_bind. setoid_rewrite reads_ret. naive_solver.
Qed.

Lemma read_each_app {T V} (f : T → reader V) xs ys h vs ws :
  reads_as (read_each f xs) h vs → reads_as (read_each f ys) h ws →
  reads_as (read_each f (xs ++ ys)) h (vs ++ ws).
Proof.
  intros Hx Hy. revert vs Hx. induction xs as [|x xs IH]; intros vs.
  - cbn. by intros <-%reads_ret.
  - intros (v & vs' & Hv & Hvs & ->)%read_each_cons. cbn [app]. rewrite read_each_cons.
    exists v, (vs' ++ ws). auto.
Qed.

Lemma scan_owners_ok ownerRef o l refs vs pre h :
  h !! l = Some (RefsCell (pre ++ refs)) → reads_as (read_each read refs) h vs →
  reads_as (read ownerRef) h o →
  match scan_owners ownerRef l (length pre) refs h with
  | Some (Some b, h') => ∃ refs' vs', h' = <[l := RefsCell (pre ++ refs')]> h ∧
      reads_as (read_each read refs') h vs' ∧ isOwnerRefsUpdateRequired o vs = (vs', b)
  | Some (None, h') => h' = h ∧ isOwnerRefsUpdateRequired o vs = (vs ++ [o], true)
  | None => False
  end.
Proof.
  intros Hl Hvs Ho. destruct (read_ref_parts _ _ _ Ho) as [Hoc Hov].
  assert (ref_UID o = ref_UID (gr_flat ownerRef)) as Huid by by rewrite Hov.
  revert pre vs Hl Hvs. induction refs as [|r refs IH]; intros pre vs Hl Hvs.
  { cbn in Hvs. apply reads_ret in Hvs as <-. done. }
  apply read_each_cons in Hvs as (v & vs' & Hv & Hvs & ->). cbn [scan_owners].
  destruct (read_ref_parts _ _ _ Hv) as [Hc Hvv].
  assert (ref_UID v = ref_UID (gr_flat r)) as Huid' by by rewrite Hvv.
  cbn [isOwnerRefsUpdateRequired]. rewrite Huid, Huid'.
  destruct (negb _) eqn:Hn.
  - specialize (IH (pre ++ [r]) vs'). rewrite length_app, Nat.add_1_r in IH.
    rewrite <- (assoc_L (++)) in IH. specialize (IH Hl Hvs).
    destruct (scan_owners _ _ _ _ _) as [[[b|] h']|]; [| |done].
    + destruct IH as (refs' & vs2 & -> & Hr & ->). exists (r :: refs'), (v :: vs2).
      rewrite <- (assoc_L (++)). split_and!; [done| |done]. apply read_each_cons. eauto.
    + destruct IH as [-> ->]. done.
  - unfold mbind, mem_bind. rewrite (load_bool_reads _ _ _ Hc), (load_bool_reads _ _ _ Hoc).
    destruct (bool_decide _) eqn:Hd.
    + unfold load, store. rewrite Hl. cbn. rewrite Hl. cbn.
      eexists (mkGoRef (gr_flat r) (gr_Controller ownerRef) :: refs), _. split_and!; [|apply read_each_cons|reflexivity].
      * by rewrite insert_app_r_alt, Nat.sub_diag by lia.
      * exists (v {{ ref_Controller := ref_Controller o }}), vs'. split_and!; [|done..].
        unfold read, read_ref. rewrite reads_bind. eexists. split; [exact Hoc|].
        apply reads_ret. by rewrite Hvv.
    + exists (r :: refs), (v :: vs'). split_and!; [by rewrite insert_id| |done].
      apply read_each_cons. eauto.
Qed.

(** The locations of a reference. *)
Definition ref_set (r : ref) : gset loc := match r with Some l => {[l]} | None => ∅ end.

Lemma owners_mem_ok ownerRef o r os h :
  reads_as (read_owners r) h os → reads_as (read ownerRef) h o →
  ∃ r' os' b h', isOwnerRefsUpdateRequired_mem ownerRef r h = Some ((r', b), h') ∧
    isOwnerRefsUpdateRequired o os = (os', b) ∧ reads_as (read_owners r') h' os' ∧
    same_but is_refs h h' ∧ agree (dom h ∖ ref_set r) h h' ∧ (b = false → r' = r).
Proof.
  intros Hos Ho. assert (∀ refs, reads_as (read_each read refs) h os →
    isOwnerRefsUpdateRequired o os = (os ++ [o], true) →
    let l := fresh (dom h) in let h' := <[l := RefsCell (refs ++ [ownerRef])]> h in
    isOwnerRefsUpdateRequired o os = (os ++ [o], true) ∧ reads_as (read_owners (Some l)) h' (os ++ [o]) ∧
    same_but is_refs h h' ∧ agree (dom h ∖ ref_set r) h h') as Happ.
  { intros refs Hrefs Hupd l h'. pose proof (fresh_dom h) as Hf.
    assert (same_but is_refs h h') as Hs by (apply same_but_insert; [done|unfold l; rewrite Hf; by intros]).
    split_and!; [done| |done|].
    - unfold read_owners, behind. apply reads_bind. exists (refs ++ [ownerRef]). split.
      + exists {[l]}. unfold at_loc, h'. by rewrite lookup_insert_eq.
      + unfold reads_as. rewrite (read_each_other is_refs) with (h := h); [|apply refs_leave_flat|done].
        apply read_each_app; [done|]. apply read_each_cons. exists o, []. split_and!; [done| |done].
        by apply reads_ret.
    - intros l' Hl'. unfold h'. rewrite lookup_insert_ne; [done|].
      pose proof (is_fresh (dom h)) as Hfr. fold l in Hfr. set_solver. }
  destruct r as [l|]; cbn in Hos.
  - apply reads_bind in Hos as (refs & [F HF] & Hrefs). unfold at_loc in HF.
    destruct (h !! l) as [c|] eqn:El; cbn in HF; [|done]. destruct c; try done. injection HF as -> _.
    pose proof (scan_owners_ok ownerRef o l refs os [] h El Hrefs Ho) as Hscan. cbn [length app] in Hscan.
    unfold isOwnerRefsUpdateRequired_mem, mbind, mem_bind, load. rewrite El. cbn.
    destruct (scan_owners _ _ _ _ _) as [[[b|] h']|]; [| |done].
    + destruct Hscan as (refs' & os' & -> & Hr' & Hpure).
      assert (same_but is_refs h (<[l := RefsCell refs']> h)) as Hs.
      { apply same_but_insert; [done|]. intros c0 Hc0. rewrite El in Hc0. by injection Hc0 as <-. }
      eexists _, os', b, _. split_and!; [done..| |done| |done].
      * apply reads_bind. exists refs'. split.
        -- exists {[l]}. unfold at_loc. by rewrite lookup_insert_eq.
        -- unfold reads_as. by rewrite (read_each_other is_refs) with (h := h); [|apply refs_leave_flat|].
      * intros l' Hl'. rewrite lookup_insert_ne; [done|]. set_solver.
    + destruct Hscan as [-> Hpure]. destruct (Happ refs Hrefs Hpure) as (_ & Hrd & Hs & Hag).
      eexists _, _, true, _. by split_and!.
  - apply reads_ret in Hos as <-. destruct (Happ []) as (Hpure & Hrd & Hs & Hag).
    { by apply reads_ret. } { done. }
    eexists _, _, true, _. by split_and!.
Qed.

(** *** The parts of a node *)

Lemma read_each_pools ps h qs : reads_as (read_each (read (T := Pool)) ps) h qs ↔ ps = qs.
Proof.
  revert qs. induction ps as [|p ps IH]; intros qs; [apply reads_ret|].
  rewrite read_each_cons. setoid_rewrite IH. setoid_rewrite reads_ret. naive_solver.
Qed.

Lemma load_pools_reads r h ps :
  reads_as (read_slice (T := Pool) r) h ps → load_pools r h = Some (ps, h).
Proof.
  destruct r as [l|]; cbn; [|by intros <-%reads_ret].
  intros (qs & [F HF] & Hq)%reads_bind. apply read_each_pools in Hq as ->.
  unfold at_loc in HF. unfold load. destruct (h !! l ≫= prj); [|done]. by injection HF as -> _.
Qed.

Lemma read_node_parts l h v :
  reads_as (read_ptr (T := goNode) (Some l)) h (Some v) ↔
  ∃ x, h !! l = Some (NodeCell x) ∧ reads_as (read (gn_Meta x)) h (node_Meta v) ∧
       reads_as (read_slice (T := Pool) (gn_Pools x)) h (node_Pools v).
Proof.
  split.
  - intros (x & [F HF] & (v' & Hv & Heq)%reads_bind)%reads_bind. apply reads_ret in Heq as [= ->].
    apply reads_bind in Hv as (m & Hm & (ps & Hp & Hv)%reads_bind). apply reads_ret in Hv as <-.
    exists x. unfold at_loc in HF. destruct (h !! l) as [[]|]; cbn in HF; try done.
    by injection HF as -> _.
  - intros (x & Hl & Hm & Hp). apply reads_bind. exists x. split.
    + exists {[l]}. unfold at_loc. by rewrite Hl.
    + apply reads_bind. exists v. split; [|by apply reads_ret]. apply reads_bind.
      exists (node_Meta v). split; [done|]. apply reads_bind. exists (node_Pools v).
      split; [done|]. apply reads_ret. by destruct v.
Qed.

(** The addresses that the reconciliation writes to are of the copy. *)
Lemma node_footprint l h v F x :
  read_ptr (T := goNode) (V := ZFSNode) (Some l) h = Some (v, F) → h !! l = Some (NodeCell x) →
  {[l]} ∪ ref_set (gm_OwnerReferences (gn_Meta x)) ⊆ F.
Proof.
  intros Hr Hl. apply reader_bind_inv in Hr as (x' & F1 & F2 & Hx & Hr & ->).
  unfold at_loc in Hx. rewrite Hl in Hx. injection Hx as -> <-.
  apply reader_bind_inv in Hr as (v' & F3 & F4 & Hr & _ & ->).
  apply reader_bind_inv in Hr as (m & F5 & F6 & Hm & _ & ->).
  unfold read, read_meta in Hm.
  do 4 (apply reader_bind_inv in Hm as (? & ? & ? & _ & Hm & ->)).
  apply reader_bind_inv in Hm as (os & F7 & F8 & Ho & _ & ->).
  assert (ref_set (gm_OwnerReferences (gn_Meta x')) ⊆ F7); [|set_solver].
  destruct (gm_OwnerReferences (gn_Meta x')) as [lo|]; [|set_solver].
  apply reader_bind_inv in Ho as (? & G1 & G2 & Ha & _ & ->). unfold at_loc in Ha.
  destruct (h !! lo ≫= prj); [|done]. injection Ha as _ <-. set_solver.
Qed.

Lemma read_slice_other bad r h h' :
  same_but bad h h' → (∀ c, bad c = true → prj (T := list Pool) c = None) →
  read_slice (T := Pool) (V := Pool) r h' = read_slice r h.
Proof.
  intros Hs Hb. apply (behind_other bad); [done..|]. intros ps.
  induction ps as [|p ps IH]; [done|]. cbn. by apply bind_other; [|intros v; apply bind_other].
Qed.

Lemma read_owners_other bad r h h' :
  leaves_flat bad → same_but bad h h' → (∀ c, bad c = true → prj (T := list goOwnerReference) c = None) →
  read_owners r h' = read_owners r h.
Proof.
  intros Hf Hs Hb. apply (behind_other bad); [done..|]. intros refs. by apply (read_each_other bad).
Qed.

(** The metadata with other owner references, in memory where only arrays of owner
    references differ. *)
Lemma read_meta_owners x r os h h' v :
  reads_as (read x) h v → same_but is_refs h h' → reads_as (read_owners r) h' os →
  reads_as (read (x {{ gm_OwnerReferences := r }})) h' (v {{ OwnerReferences := os }}).
Proof.
  intros (rest & owners & Hrest & _ & ->)%read_meta_parts Hs Hr. apply read_meta_parts.
  exists rest, os. split_and!; [|done..]. unfold reads_as.
  change (read_rest (x {{ gm_OwnerReferences := r }})) with (read_rest x).
  by rewrite (read_rest_other is_refs) with (h := h); [|apply refs_leave_flat|].
Qed.

Lemma read_meta_node (x : goMeta) h h' (v : ObjectMeta) :
  reads_as (read x) h v → same_but is_node h h' → reads_as (read x) h' v.
Proof.
  intros (rest & owners & Hrest & Ho & ->)%read_meta_parts Hs. apply read_meta_parts.
  exists rest, owners. unfold reads_as.
  rewrite (read_rest_other is_node) with (h := h), (read_owners_other is_node) with (h := h);
    try done; try apply node_leaves_flat. by intros [].
Qed.

Section refinement.
Context `{!GoRange} `{!DeepCopyable goMeta} `{!CopyLaw goMeta ObjectMeta}.

Lemma owners_same o os os' : isOwnerRefsUpdateRequired o os = (os', false) → os' = os.
Proof.
  revert os'. induction os as [|v os IH]; intros os'; cbn; [done|].
  destruct (negb _).
  - destruct (isOwnerRefsUpdateRequired o os) as [os2 []]; [done|]. intros [= <-]. by rewrite (IH os2).
  - case_bool_decide; [done|]. by intros [= <-].
Qed.

(** The second half: the pools, on a node at [l] whose metadata is settled. *)
Lemma pools_mem_ok l x h v pools (b : bool) :
  h !! l = Some (NodeCell x) → reads_as (read (gn_Meta x)) h (node_Meta v) →
  reads_as (read_slice (T := Pool) (gn_Pools x)) h (node_Pools v) →
  ∃ h', (cur ← load_pools (gn_Pools x);
         if bool_decide (cur ≠ pools) then
           lp ← alloc pools; _ ← store l (x {{ gn_Pools := Some lp }}); mret (Some l, true)
         else mret (Some l, b)) h =
        Some ((Some l, bool_decide (node_Pools v ≠ pools) || b), h') ∧
    reads_as (read_ptr (T := goNode) (Some l)) h' (Some (v {{ node_Pools := pools }})) ∧
    agree (dom h ∖ {[l]}) h h'.
Proof.
  intros Hl Hm Hp. unfold mbind, mem_bind. rewrite (load_pools_reads _ _ _ Hp).
  destruct (bool_decide _) eqn:Hd.
  - set (lp := fresh (dom h)). pose proof (fresh_dom h) as Hf. fold lp in Hf.
    assert (lp ≠ l) as Hne by congruence. unfold alloc, store. fold lp.
    rewrite lookup_insert_ne by done. rewrite Hl. cbn. eexists. split_and!; [done| |].
    + apply read_node_parts. eexists. rewrite lookup_insert_eq. split_and!; [done|cbn..].
      * apply (read_meta_node _ (<[lp := PoolsCell pools]> h)).
        -- eapply reads_weaken; [apply read_local|done|]. by apply insert_subseteq.
        -- apply same_but_insert; [done|]. rewrite lookup_insert_ne by done. rewrite Hl.
           by intros c [= <-].
      * apply reads_bind. exists pools. split; [|by apply read_each_pools].
        exists {[lp]}. unfold at_loc. rewrite lookup_insert_ne by done. by rewrite lookup_insert_eq.
    + intros l' Hl'. apply not_elem_of_dom in Hf. rewrite !lookup_insert_ne by set_solver. done.
  - apply bool_decide_eq_false, dec_stable in Hd. eexists. split_and!; [done| |done].
    apply read_node_parts. exists x. split_and!; [done..|]. by rewrite <- Hd.
Qed.

(** Storing a node that did not change does nothing. *)
Lemma store_if_changed (b : bool) l (x x1 : goNode) h :
  h !! l = Some (NodeCell x) → (b = false → x1 = x) →
  (if b then store l x1 else mret tt) h = Some (tt, <[l := NodeCell x1]> h).
Proof.
  intros Hl Hsame. destruct b; cbn; [unfold store; by rewrite Hl|]. by rewrite (Hsame eq_refl), insert_id.
Qed.

(** C16: the node reconciler changes its copy of the cached node in place, as far as the
    slice elements of the owner references.  What it has in the end is the node the
    function on values gives, and what the cache holds is what it held before. *)
Theorem reconcile_in_place ownerRef o cachedNode v F pools h :
  read_ptr (T := goNode) cachedNode h = Some (Some v, F) → reads_as (read ownerRef) h o →
  ∃ p h', reconcile_node_mem ownerRef cachedNode pools h =
          Some ((p, (reconcile_node o v pools).2), h') ∧
    reads_as (read_ptr (T := goNode) p) h' (Some (reconcile_node o v pools).1) ∧
    read_ptr (T := goNode) cachedNode h' = Some (Some v, F).
Proof.
  intros Hc Ho.
  destruct (copy_independent (T := goNode) (V := ZFSNode) _ _ _ _ Hc)
    as (p & h1 & F1 & Ecp & _ & Hs1 & Hp & Hdisj & Hstay).
  destruct p as [l|]; [|done].
  assert (reads_as (read_ptr (T := goNode) (Some l)) h1 (Some v)) as Hv by by eexists.
  apply read_node_parts in Hv as (x & Hl & Hm & Hps).
  pose proof (node_footprint _ _ _ _ _ Hp Hl) as Hfp.
  pose proof Hm as (rest & os & _ & Hos & Hmeta)%read_meta_parts.
  destruct (owners_mem_ok ownerRef o _ os h1 Hos) as (r' & os' & b & h2 & Eow & Hpure & Hos' & Hsb & Hag & Hsame).
  { eapply reads_weaken; [apply read_local|done..]. }
  set (x1 := x {{ gn_Meta := (gn_Meta x) {{ gm_OwnerReferences := r' }} }}).
  set (v1 := v {{ node_Meta := (node_Meta v) {{ OwnerReferences := os' }} }}).
  assert (h2 !! l = Some (NodeCell x)) as Hl2.
  { destruct (Hsb l) as [->|[_ Hbad]]; [done|]. by specialize (Hbad _ Hl). }
  set (h3 := <[l := NodeCell x1]> h2).
  assert (same_but is_node h2 h3) as Hsn.
  { apply same_but_insert; [done|]. rewrite Hl2. by intros c [= <-]. }
  destruct (pools_mem_ok l x1 h3 v1 pools b) as (h4 & Epl & Hres & Hag4).
  - unfold h3. by rewrite lookup_insert_eq.
  - eapply read_meta_node; [|done]. by eapply read_meta_owners.
  - unfold reads_as. change (gn_Pools x1) with (gn_Pools x).
    rewrite (read_slice_other is_node) with (h := h2); [|done|by intros []].
    by rewrite (read_slice_other is_refs) with (h := h1); [|done|by intros []].
  - exists (Some l), h4. unfold reconcile_node_mem, reconcile_node.
    assert (OwnerReferences (node_Meta v) = os) as -> by by rewrite Hmeta.
    rewrite Hpure. fold v1.
    assert ((if b then v1 else v) = v1) as ->.
    { destruct b; [done|]. apply owners_same in Hpure. unfold v1. rewrite Hpure.
      clear -Hmeta. destruct v as [m ps]. cbn in *. by subst m. }
    split_and!.
    + unfold mbind at 1, mem_bind. rewrite Ecp. unfold mbind at 1, mem_bind, load at 1. rewrite Hl. cbn [mbind option_bind prj node_cell].
      unfold mbind at 1, mem_bind. rewrite Eow. cbn [fst snd]. fold x1.
      unfold mbind at 1, mem_bind. rewrite (store_if_changed b l x x1 h2 Hl2).
      2: { intros ->. unfold x1. rewrite (Hsame eq_refl). by destruct x as [[] ?]. }
      fold h3. unfold mbind at 1, mem_bind, load. unfold h3 at 1.
      rewrite lookup_insert_eq. cbn [mbind option_bind prj node_cell inj]. etransitivity; [exact Epl|].
      by destruct (bool_decide _).
    + destruct (bool_decide _) eqn:Hd; [done|]. apply bool_decide_eq_false, dec_stable in Hd.
      rewrite <- Hd in Hres. done.
    + apply Hstay. intros l' Hl'. assert (h2 !! l' = h1 !! l') as Heq by (apply Hag; set_solver).
      rewrite Hag4; unfold h3; [by rewrite lookup_insert_ne by set_solver|].
      rewrite dom_insert. assert (l' ∈ dom h2); [|set_solver]. apply elem_of_dom. rewrite Heq.
      apply elem_of_dom. set_solver.
Qed.
End refinement.

(** ** An example *)

(** Without the copy, the reconciliation would change what the cache holds. *)
Lemma in_place_needs_the_copy :
  ∃ h', isOwnerRefsUpdateRequired_mem wanted_ref (Some 2%positive) example_heap = Some ((Some 2%positive, true), h') ∧
    reads_as (read_ptr (T := goNode) (Some 1%positive)) h'
      (Some (mkZFSNode (emptyMeta {{ Name := "node-1" }} {{ OwnerReferences := [wanted] }}) [a_pool])).
Proof. eexists. split; [vm_compute; reflexivity|]. eexists. vm_compute. reflexivity. Qed.

Lemma reconcile_in_place_witness :
  ∃ p h', reconcile_node_mem wanted_ref (Some 1%positive) [a_pool] example_heap = Some ((p, true), h') ∧
    read_ptr (T := goNode) (Some 1%positive) h' = Some (Some example_node, {[1; 2; 3]}%positive).
Proof.
  destruct (reconcile_in_place wanted_ref wanted (Some 1%positive) example_node {[1; 2; 3]}%positive
              [a_pool] example_heap) as (p & h' & Hr & _ & Hc).
  - vm_compute. reflexivity.
  - eexists. vm_compute. reflexivity.
  - exists p, h'. split; [exact Hr|exact Hc].
Defined.
