(* ===== verification/Scheme.v ===== *)
(** * Registration of the types (register.go)

    The packages of the two versions register their types with a scheme of apimachinery
    when the generated clientset, or a controller that records events, asks for it; the
    clientset and its fake have a scheme of their own.  A scheme is a table from group,
    version and kind to a type of Go.  It is not of this repository: [Scheme] has its
    operations, [SchemeLaws] what is documented of them.

    A registration cannot give back an error, but it panics on a kind that the scheme has
    for another type. *)

From S2P Require Import Prelude GoStr GoErr Api Effects InformerFactory.

(** A type of Go: the path of its package and its name. *)
Record gotype := mkGoType { type_Package : string; type_Name : string }.

#[export] Instance gotype_eq_dec : EqDecision gotype.
Proof. solve_decision. Defined.

Abbreviation GroupVersion := (string * string)%type.
Abbreviation GroupVersionKind := ((string * string) * string)%type.

#[export] Instance outcome_mret : MRet outcome := @ORet.
#[export] Instance outcome_mbind : MBind outcome := λ A B f o,
  match o with
  | ORet a => f a
  | OErr e => OErr e
  | OPanic m => OPanic m
  | OSpin => OSpin
  end.

(** A runtime.SchemeBuilder is a slice of functions. *)
Definition SchemeBuilder (S : Type) : Type := list (S → outcome S).

Class Scheme (S : Type) := {
  NewScheme : S;
  (** the type objects of a kind are decoded to *)
  KnownType : S → GroupVersionKind → option gotype;
  AddKnownTypes : GroupVersion → list gotype → S → outcome S;
  (** of metav1 *)
  AddToGroupVersion : GroupVersion → S → outcome S;
  builder_Register : list (S → outcome S) → SchemeBuilder S → SchemeBuilder S;
  builder_AddToScheme : SchemeBuilder S → S → outcome S;
}.

(** utilruntime.Must *)
Definition Must {A} (o : outcome A) : outcome A :=
  match o with OErr e => OPanic (Error e) | _ => o end.

(** ** The two versions *)

Definition v1_type : string → gotype :=
  mkGoType "github.com/openebs/zfs-localpv/v2/pkg/apis/openebs.io/zfs/v1".

(** [SchemeGroupVersion] of v1 is that of InformerFactory. *)
Definition Resource (resource : string) : string * string := (SchemeGroupVersion.1, resource).

Definition v1_known_types : list gotype :=
  [v1_type "ZFSVolume"; v1_type "ZFSVolumeList"; v1_type "ZFSSnapshot"; v1_type "ZFSSnapshotList";
   v1_type "ZFSBackup"; v1_type "ZFSBackupList"; v1_type "ZFSRestore"; v1_type "ZFSRestoreList";
   v1_type "ZFSNode"; v1_type "ZFSNodeList"].

Definition alpha_type : string → gotype :=
  mkGoType "github.com/openebs/zfs-localpv/v2/pkg/apis/openebs.io/zfs/v1alpha1".

Definition alpha_SchemeGroupVersion : GroupVersion := ("zfs.openebs.io", "v1alpha1").

Definition alpha_Resource (resource : string) : string * string :=
  (alpha_SchemeGroupVersion.1, resource).

Definition alpha_known_types : list gotype :=
  [alpha_type "ZFSVolume"; alpha_type "ZFSVolumeList"; alpha_type "ZFSSnapshot"; alpha_type "ZFSSnapshotList"].

Section registration.
Context {S : Type} `{!Scheme S}.

Definition addKnownTypes (scheme : S) : outcome S :=
  scheme ← AddKnownTypes SchemeGroupVersion v1_known_types scheme;
  AddToGroupVersion SchemeGroupVersion scheme.

(** What [init] leaves in the variable; the method value of [AddToScheme] holds its
    address, so it sees the function that [init] adds. *)
Definition v1_SchemeBuilder : SchemeBuilder S := builder_Register [addKnownTypes] [].
Definition v1_AddToScheme : S → outcome S := builder_AddToScheme v1_SchemeBuilder.

Definition alpha_addKnownTypes (scheme : S) : outcome S :=
  scheme ← AddKnownTypes alpha_SchemeGroupVersion alpha_known_types scheme;
  AddToGroupVersion alpha_SchemeGroupVersion scheme.

Definition alpha_SchemeBuilder : SchemeBuilder S := builder_Register [alpha_addKnownTypes] [].
Definition alpha_AddToScheme : S → outcome S := builder_AddToScheme alpha_SchemeBuilder.

(** ** The schemes of the clientset and of its fake *)

Definition clientset_localSchemeBuilder : SchemeBuilder S := [v1_AddToScheme].
Definition clientset_AddToScheme : S → outcome S := builder_AddToScheme clientset_localSchemeBuilder.

(** The scheme after [init]. *)
Definition clientset_Scheme : outcome S :=
  scheme ← AddToGroupVersion ("", "v1") NewScheme;
  Must (clientset_AddToScheme scheme).

Definition fake_localSchemeBuilder : SchemeBuilder S := [v1_AddToScheme].
Definition fake_AddToScheme : S → outcome S := builder_AddToScheme fake_localSchemeBuilder.

Definition fake_scheme : outcome S :=
  scheme ← AddToGroupVersion ("", "v1") NewScheme;
  Must (fake_AddToScheme scheme).
End registration.

(** ** The laws of a scheme *)

Abbreviation entry := (GroupVersionKind * gotype)%type.

(** No kind twice for different types. *)
Definition functional (l : list entry) : Prop := ∀ g t t', (g, t) ∈ l → (g, t') ∈ l → t = t'.

Section laws.
Context (S : Type) `{!Scheme S}.

(** No kind of [l] is there for another type. *)
Definition fits (s : S) (l : list entry) : Prop :=
  ∀ g t, (g, t) ∈ l → KnownType s g = None ∨ KnownType s g = Some t.

(** The outcome of entering [l] into [s]. *)
Definition enters (s : S) (l : list entry) (o : outcome S) : Prop :=
  (fits s l → ∃ s', o = ORet s' ∧
     ∀ g, KnownType s' g = match (list_to_map l : gmap _ _) !! g with Some t => Some t | None => KnownType s g end) ∧
  (¬ fits s l → ∃ m, o = OPanic m).

Definition entries_of (gv : GroupVersion) (ts : list gotype) : list entry :=
  (λ t, ((gv, type_Name t), t)) <$> ts.

(** A version there are objects of: not empty, nor that of the types in memory. *)
Definition external (gv : GroupVersion) : Prop := gv.2 ≠ "" ∧ gv.2 ≠ "__internal".

Class SchemeLaws := {
  meta_types : GroupVersion → list entry;
  new_scheme g : KnownType NewScheme g = None;
  add_known gv ts s : external gv → functional (entries_of gv ts) →
    enters s (entries_of gv ts) (AddKnownTypes gv ts s);
  add_meta gv s : external gv → enters s (meta_types gv) (AddToGroupVersion gv s);
  meta_kinds gv g t : (g, t) ∈ meta_types gv → HasPrefix g.2 "ZFS" = false;
  meta_agree gv gv' : external gv → external gv' → functional (meta_types gv ++ meta_types gv');
  register_law fs (b : SchemeBuilder S) : builder_Register fs b = b ++ fs;
  add_to_scheme (b : SchemeBuilder S) s : builder_AddToScheme b s = foldl (λ o f, o ≫= f) (ORet s) b;
}.
End laws.
Arguments fits {S _}.
Arguments enters {S _}.
Arguments meta_types {S _ _}.
Arguments new_scheme {S _ _}.
Arguments add_known {S _ _}.
Arguments add_meta {S _ _}.
Arguments meta_kinds {S _ _}.
Arguments meta_agree {S _ _}.
Arguments register_law {S _ _}.
Arguments add_to_scheme {S _ _}.
