(* ===== verification/SchemeSpec.v ===== *)
(** * What is registered, and that it can be registered anywhere

    A registration enters a list of kinds into a scheme; registrations one after the other
    enter the lists one after the other.  The kinds of the two versions and those of
    apimachinery do not collide, so registrations can be repeated and come in any order. *)

From S2P Require Import Prelude GoStr GoErr Api Effects InformerFactory Scheme.

(** ** Lists of entries *)

Abbreviation table := (gmap GroupVersionKind gotype).

Lemma functional_app l1 l2 :
  functional l1 → functional l2 →
  (∀ g t t', (g, t) ∈ l1 → (g, t') ∈ l2 → t = t') → functional (l1 ++ l2).
Proof.
  intros H1 H2 H12 g t t' [?|?]%elem_of_app [?|?]%elem_of_app; eauto. symmetry. eauto.
Qed.

Lemma functional_sub l l' : functional l → l' ⊆ l → functional l'.
Proof. intros H Hs g t t' ? ?. eauto. Qed.

Lemma functional_lookup l g t :
  functional l → (list_to_map l : table) !! g = Some t ↔ (g, t) ∈ l.
Proof.
  intros H. split; [apply elem_of_list_to_map_2|]. intros Hin. apply elem_of_list_to_map_1'; eauto.
Qed.

Lemma lookup_none (l : list entry) g : (list_to_map l : table) !! g = None ↔ ∀ t, (g, t) ∉ l.
Proof.
  rewrite <- not_elem_of_list_to_map. rewrite list_elem_of_fmap. split.
  - intros H t Hin. apply H. by exists (g, t).
  - intros H ([g' t] & -> & Hin). by apply (H t).
Qed.

(** Only the entries matter, not their order or number. *)
Lemma lookup_same_entries l l' g :
  functional l → functional l' → (∀ e, e ∈ l ↔ e ∈ l') →
  (list_to_map l : table) !! g = (list_to_map l' : table) !! g.
Proof.
  intros H H' Hs. apply option_eq. intros t. rewrite !functional_lookup by done. apply Hs.
Qed.

Section enters.
Context {S : Type} `{!Scheme S}.

(** Schemes that decode the same. *)
#[export] Instance scheme_equiv : Equiv S := λ s s', ∀ g, KnownType s g = KnownType s' g.

#[export] Instance scheme_equivalence : Equivalence (≡@{S}).
Proof. split; [by intros s g|by intros s s' H g|intros s s' s'' H H' g; by rewrite H]. Qed.

#[export] Instance KnownType_proper : Proper ((≡@{S}) ==> (=) ==> (=)) KnownType.
Proof. by intros s s' H g _ <-. Qed.

#[export] Instance fits_proper : Proper ((≡) ==> (=) ==> iff) (fits (S := S)).
Proof. intros s s' H l _ <-. unfold fits. split; intros Hf g t Hin; [rewrite <- H|rewrite H]; eauto. Qed.

Lemma fits_forall (s : S) l :
  fits s l ↔ Forall (λ e : entry, KnownType s e.1 = None ∨ KnownType s e.1 = Some e.2) l.
Proof.
  rewrite Forall_forall. split; [intros H [g t]; apply H|intros H g t; apply (H (g, t))].
Qed.

#[export] Instance fits_dec (s : S) l : Decision (fits s l).
Proof.
  refine (cast_if (decide (Forall (λ e : entry, KnownType s e.1 = None ∨ KnownType s e.1 = Some e.2) l)));
    by rewrite fits_forall.
Defined.

Lemma fits_app (s : S) l l' : fits s (l ++ l') ↔ fits s l ∧ fits s l'.
Proof. rewrite !fits_forall. apply Forall_app. Qed.

Lemma fits_sub (s : S) l l' : fits s l → l' ⊆ l → fits s l'.
Proof. intros H Hs g t ?. eauto. Qed.

(** A scheme with the entries entered fits what does not collide with them. *)
Lemma fits_after (s s' : S) l1 l2 :
  functional (l1 ++ l2) → fits s l1 →
  (∀ g, KnownType s' g = match (list_to_map l1 : table) !! g with Some t => Some t | None => KnownType s g end) →
  fits s' l2 ↔ fits s l2.
Proof.
  intros Hf Hl1 Hs'. split; intros H g t Hin; specialize (H g t Hin); rewrite Hs' in *.
  - destruct (list_to_map l1 !! g) as [t'|] eqn:E; [|done].
    apply elem_of_list_to_map_2 in E.
    replace t with t' by (eapply Hf; apply elem_of_app; eauto). auto.
  - destruct (list_to_map l1 !! g) as [t'|] eqn:E; [|done]. right. f_equal.
    apply elem_of_list_to_map_2 in E. eapply Hf; apply elem_of_app; eauto.
Qed.

Lemma enters_nil (s : S) : enters s [] (ORet s).
Proof. split; [by exists s|]. intros H. destruct H. intros g t ?%elem_of_nil. done. Qed.

Lemma enters_bind (s : S) l1 l2 o f :
  functional (l1 ++ l2) → enters s l1 o → (∀ s', enters s' l2 (f s')) →
  enters s (l1 ++ l2) (o ≫= f).
Proof.
  intros Hf [Hok Hno] H2. destruct (decide (fits s l1)) as [H1|H1].
  - destruct (Hok H1) as (s1 & -> & Hs1). destruct (H2 s1) as [Hok2 Hno2].
    pose proof (fits_after s s1 l1 l2 Hf H1 Hs1) as Hiff. split.
    + intros [_ Hl2]%fits_app. destruct (Hok2 (proj2 Hiff Hl2)) as (s2 & E & Hs2).
      exists s2. split; [done|]. intros g. rewrite Hs2, Hs1, list_to_map_app, lookup_union.
      destruct (list_to_map l1 !! g) as [t|] eqn:E1, (list_to_map l2 !! g) as [t'|] eqn:E2; try done.
      apply elem_of_list_to_map_2 in E1, E2. cbn. f_equal.
      eapply Hf; apply elem_of_app; eauto.
    + rewrite fits_app. intros Hn. apply Hno2. rewrite Hiff. tauto.
  - destruct (Hno H1) as [m ->]. split; [by intros [? _]%fits_app|]. by exists m.
Qed.

(** One registration after the other, as the slice of a builder and as calls. *)
Definition in_turn (fs : list (S → outcome S)) (o : outcome S) : outcome S :=
  foldl (λ o f, o ≫= f) o fs.

Lemma enters_in_turn {A} (f : A → S → outcome S) (entries : A → list entry) (calls : list A) s l o :
  (∀ a s, enters s (entries a) (f a s)) → functional (l ++ (calls ≫= entries)) →
  enters s l o → enters s (l ++ (calls ≫= entries)) (in_turn (f <$> calls) o).
Proof.
  intros Hf. revert l o. induction calls as [|a calls IH]; intros l o Hl Ho; cbn in *.
  { by rewrite app_nil_r. }
  rewrite app_assoc in *. apply IH; [done|]. apply enters_bind; [|done|done].
  eapply functional_sub; [exact Hl|]. set_solver.
Qed.
End enters.

(** ** The registrations of the repository *)

(** Who registers: the package of a version, or the clientset and its fake. *)
Inductive registration := RegV1 | RegAlpha | RegClientset | RegFake.

#[export] Instance registration_eq_dec : EqDecision registration.
Proof. solve_decision. Defined.

Definition registered_version (r : registration) : GroupVersion :=
  match r with RegAlpha => alpha_SchemeGroupVersion | _ => SchemeGroupVersion end.

Definition registered_types (r : registration) : list gotype :=
  match r with RegAlpha => alpha_known_types | _ => v1_known_types end.

Lemma entries_of_elem gv ts g t :
  (g, t) ∈ entries_of gv ts ↔ t ∈ ts ∧ g = (gv, type_Name t).
Proof.
  unfold entries_of. rewrite list_elem_of_fmap. split.
  - by intros (t' & [= -> ->] & ?).
  - intros [? ->]. by exists t.
Qed.

Lemma entries_of_functional gv ts : NoDup (type_Name <$> ts) → functional (entries_of gv ts).
Proof.
  intros Hnd g t t' [Ht ->]%entries_of_elem [Ht' [= E]]%entries_of_elem.
  apply list_elem_of_lookup in Ht as [i Hi], Ht' as [j Hj].
  assert (i = j) as ->; [|congruence].
  eapply (NoDup_lookup _ _ _ (type_Name t)); [exact Hnd|..]; rewrite list_lookup_fmap.
  - by rewrite Hi.
  - rewrite Hj. cbn. by rewrite E.
Qed.

Lemma registered_functional r : functional (entries_of (registered_version r) (registered_types r)).
Proof.
  apply entries_of_functional. destruct r; apply (bool_decide_eq_true_1 (NoDup _)); by vm_compute.
Qed.

Lemma registered_names r t : t ∈ registered_types r → HasPrefix (type_Name t) "ZFS" = true.
Proof.
  intros Ht. assert (Forall (λ t, HasPrefix (type_Name t) "ZFS" = true) (registered_types r)) as H.
  { destruct r; repeat constructor. }
  rewrite Forall_forall in H. eauto.
Qed.

Lemma registered_external r : external (registered_version r).
Proof. by destruct r. Qed.

(** One version has one list of types. *)
Lemma registered_same r r' :
  registered_version r = registered_version r' → registered_types r = registered_types r'.
Proof. by destruct r, r'. Qed.

Section registrations.
Context {S : Type} `{!Scheme S} {Laws : SchemeLaws S}.

Definition register (r : registration) : S → outcome S :=
  match r with
  | RegV1 => v1_AddToScheme
  | RegAlpha => alpha_AddToScheme
  | RegClientset => clientset_AddToScheme
  | RegFake => fake_AddToScheme
  end.

Definition registered (r : registration) : list entry :=
  entries_of (registered_version r) (registered_types r) ++ meta_types (registered_version r).

(** Kinds of the repository, and kinds of apimachinery. *)
Lemma zfs_or_meta r gv g t t' :
  (g, t) ∈ entries_of (registered_version r) (registered_types r) → (g, t') ∈ meta_types gv → False.
Proof.
  intros [Ht ->]%entries_of_elem Hm%meta_kinds. cbn [snd] in Hm.
  by rewrite (registered_names r) in Hm.
Qed.

Lemma registered_agree r r' g t t' : (g, t) ∈ registered r → (g, t') ∈ registered r' → t = t'.
Proof.
  unfold registered. intros [H|H]%elem_of_app [H'|H']%elem_of_app.
  - pose proof H as [_ E]%entries_of_elem. pose proof H' as [_ E']%entries_of_elem.
    subst g. injection E' as E' _. rewrite <- E', <- (registered_same r r' E') in H'.
    by eapply registered_functional.
  - by destruct (zfs_or_meta r _ _ _ _ H H').
  - by destruct (zfs_or_meta r' _ _ _ _ H' H).
  - eapply (meta_agree _ _ (registered_external r) (registered_external r'));
      apply elem_of_app; eauto.
Qed.

Lemma registered_meta_agree r gv g t t' :
  external gv → (g, t) ∈ meta_types gv → (g, t') ∈ registered r → t = t'.
Proof.
  intros Hgv H [H'|H']%elem_of_app; [by destruct (zfs_or_meta r _ _ _ _ H' H)|].
  eapply (meta_agree _ _ Hgv (registered_external r)); apply elem_of_app; eauto.
Qed.

Lemma meta_functional gv : external gv → functional (meta_types gv).
Proof.
  intros H. eapply functional_sub; [by apply (meta_agree gv gv)|]. set_solver.
Qed.

Lemma calls_functional gv calls :
  external gv → functional (meta_types gv ++ (calls ≫= registered)).
Proof.
  intros Hgv. apply functional_app; [by apply meta_functional|..].
  - intros g t t' (r & H & _)%list_elem_of_bind (r' & H' & _)%list_elem_of_bind.
    by eapply registered_agree.
  - intros g t t' H (r & H' & _)%list_elem_of_bind. by eapply registered_meta_agree.
Qed.

(** What the packages' functions do. *)
Lemma version_enters r s :
  enters s (registered r)
    (s ← AddKnownTypes (registered_version r) (registered_types r) s; AddToGroupVersion (registered_version r) s).
Proof.
  apply enters_bind.
  - intros g t t'. by apply (registered_agree r r).
  - apply add_known; [apply registered_external|apply registered_functional].
  - intros s'. apply add_meta, registered_external.
Qed.

Lemma v1_enters s : enters s (registered RegV1) (v1_AddToScheme s).
Proof.
  unfold v1_AddToScheme, v1_SchemeBuilder. rewrite add_to_scheme, register_law. apply (version_enters RegV1).
Qed.

Lemma alpha_enters s : enters s (registered RegAlpha) (alpha_AddToScheme s).
Proof.
  unfold alpha_AddToScheme, alpha_SchemeBuilder. rewrite add_to_scheme, register_law. apply (version_enters RegAlpha).
Qed.

Lemma register_enters r s : enters s (registered r) (register r s).
Proof.
  destruct r; unfold register; [apply v1_enters|apply alpha_enters|..];
    unfold clientset_AddToScheme, fake_AddToScheme; rewrite add_to_scheme; apply v1_enters.
Qed.

Lemma registrations_enter s calls : enters s (calls ≫= registered) (in_turn (register <$> calls) (ORet s)).
Proof.
  apply (enters_in_turn register registered calls s []); [apply register_enters| |apply enters_nil].
  eapply functional_sub; [by apply (calls_functional SchemeGroupVersion calls)|]. set_solver.
Qed.
End registrations.

(** ** Registering again, and in any order *)

Section settled.
Context {S : Type} `{!Scheme S} {Laws : SchemeLaws S}.

(** Of the kinds in [l], what [l] says; of the others, what [s] said. *)
Definition entered (s s' : S) (l : list entry) : Prop :=
  (∀ g t, (g, t) ∈ l → KnownType s' g = Some t) ∧
  (∀ g, (∀ t, (g, t) ∉ l) → KnownType s' g = KnownType s g).

Lemma enters_entered s l o :
  functional l → enters s l o → fits s l → ∃ s', o = ORet s' ∧ entered s s' l.
Proof.
  intros Hf [Hok _] Hfit. destruct (Hok Hfit) as (s' & -> & Hs'). exists s'. split; [done|split].
  - intros g t Hin. by rewrite Hs', (proj2 (functional_lookup l g t Hf) Hin).
  - intros g Hn. by rewrite Hs', (proj2 (lookup_none l g) Hn).
Qed.

Lemma entered_unique s s1 s2 l1 l2 :
  (∀ e, e ∈ l1 ↔ e ∈ l2) → functional l1 → entered s s1 l1 → entered s s2 l2 → s1 ≡ s2.
Proof.
  intros Hl Hf [H1 H1'] [H2 H2'] g. destruct ((list_to_map l1 : table) !! g) as [t|] eqn:E.
  - apply functional_lookup in E; [|done]. rewrite (H1 g t E). symmetry. apply H2, Hl, E.
  - rewrite lookup_none in E. rewrite H1', H2'; [done|intros t; rewrite <- Hl|]; apply E.
Qed.

Lemma registered_functional_calls calls : functional (calls ≫= registered (S := S)).
Proof.
  eapply functional_sub; [by apply (calls_functional SchemeGroupVersion calls)|]. set_solver.
Qed.

(** C29: the packages of the two versions, the clientset and its fake can register their
    types with a scheme that others use, again and again and in any order: when no kind is
    there for a type of somebody else, every registration succeeds, the scheme then has
    the kinds of those that registered and is otherwise as it was, and it does not matter
    who came first or how often; a kind that is taken makes the registration panic. *)
Theorem registrations_settle (s : S) calls :
  (fits s (calls ≫= registered) → ∃ s', in_turn (register <$> calls) (ORet s) = ORet s' ∧
     (∀ r t, r ∈ calls → t ∈ registered_types r →
        KnownType s' (registered_version r, type_Name t) = Some t) ∧
     (∀ g, (∀ r t, r ∈ calls → (g, t) ∉ registered r) → KnownType s' g = KnownType s g) ∧
     (∀ calls' s'', (∀ r, r ∈ calls ↔ r ∈ calls') →
        in_turn (register <$> calls') (ORet s) = ORet s'' → s'' ≡ s') ∧
     (∀ r, r ∈ calls → ∃ s'', register r s' = ORet s'' ∧ s'' ≡ s')) ∧
  (¬ fits s (calls ≫= registered) → ∃ m, in_turn (register <$> calls) (ORet s) = OPanic m).
Proof.
  pose proof (registrations_enter s calls) as Hen. split; [|apply Hen].
  intros Hfit. pose proof (registered_functional_calls calls) as Hf.
  destruct (enters_entered _ _ _ Hf Hen Hfit) as (s' & Hs' & He). pose proof He as [Hin Hout].
  exists s'. split_and!; [done|..].
  - intros r t Hr Ht. apply Hin, list_elem_of_bind. exists r. split; [|done].
    apply elem_of_app. left. by apply entries_of_elem.
  - intros g Hg. apply Hout. intros t (r & Ht & Hr)%list_elem_of_bind. by eapply Hg.
  - intros calls' s'' Hsame Hs''.
    assert (∀ e, e ∈ calls ≫= registered ↔ e ∈ calls' ≫= registered) as Hl.
    { intros e. rewrite !list_elem_of_bind. by setoid_rewrite Hsame. }
    destruct (enters_entered s (calls' ≫= registered) _ (registered_functional_calls calls')
      (registrations_enter s calls')) as (s2 & E & He2).
    { intros g t Ht. apply Hfit, Hl, Ht. }
    assert (s2 = s'') as -> by congruence. symmetry. by eapply entered_unique.
  - intros r Hr.
    assert (∀ e, e ∈ registered r → e ∈ calls ≫= registered) as Hsub.
    { intros e He'. apply list_elem_of_bind. by exists r. }
    assert (functional (registered r)) as Hfr by (by eapply functional_sub).
    destruct (enters_entered s' (registered r) _ Hfr (register_enters r s')) as (s2 & E & He2).
    { intros g t Ht. right. by apply Hin, Hsub. }
    exists s2. split; [done|]. intros g. destruct ((list_to_map (registered r) : table) !! g) as [t|] eqn:Eg.
    + apply functional_lookup in Eg; [|done]. rewrite (proj1 He2 g t Eg). symmetry. by apply Hin, Hsub.
    + rewrite lookup_none in Eg. by apply He2.
Qed.

Lemma own_functional r : functional (meta_types ("", "v1") ++ registered (S := S) r).
Proof. eapply functional_sub; [by apply (calls_functional ("", "v1") [r])|]. cbn. set_solver. Qed.

(** The schemes of the clientset and of its fake. *)
Lemma own_scheme (r : registration) :
  ∃ s : S, (s ← AddToGroupVersion ("", "v1") NewScheme; Must (register r s)) = ORet s ∧
    entered NewScheme s (meta_types ("", "v1") ++ registered r).
Proof.
  pose proof (own_functional r) as Hf.
  assert (∀ s' : S, enters s' (registered r) (Must (register r s'))) as Hr.
  { intros s'. destruct (register_enters r s') as [Hok Hno]. split.
    - intros (s2 & -> & ?)%Hok. by exists s2.
    - intros [m ->]%Hno. by exists m. }
  destruct (enters_entered _ _ _ Hf
    (enters_bind NewScheme _ _ _ _ Hf (add_meta ("", "v1") NewScheme ltac:(done)) Hr)) as (s & E & He).
  - intros g t _. left. apply new_scheme.
  - by exists s.
Qed.
End settled.

(** ** A scheme with the laws *)

Definition meta_type_of (g : GroupVersionKind) : gotype :=
  mkGoType "k8s.io/apimachinery/pkg/apis/meta/v1" (if g.1.2 =? "__internal" then "InternalEvent" else g.2).

Definition meta_keys (gv : GroupVersion) : list GroupVersionKind :=
  (gv, "WatchEvent") :: ((gv.1, "__internal"), "WatchEvent") ::
  ((λ name, (gv, name)) <$> ["ListOptions"; "GetOptions"; "DeleteOptions"; "CreateOptions"; "UpdateOptions"; "PatchOptions"]) ++
  ((λ name, (("", "v1"), name)) <$> ["Status"; "APIVersions"; "APIGroup"; "APIGroupList"; "APIResourceList"]).

Definition table_enter (l : list entry) (s : table) : outcome table :=
  if decide (Forall (λ e : entry, s !! e.1 = None ∨ s !! e.1 = Some e.2) l)
  then ORet (list_to_map l ∪ s) else OPanic "Double registration of different types".

#[export] Instance table_scheme : Scheme table := {|
  NewScheme := ∅;
  KnownType s g := s !! g;
  AddKnownTypes gv ts s := table_enter (entries_of gv ts) s;
  AddToGroupVersion gv s := table_enter ((λ g, (g, meta_type_of g)) <$> meta_keys gv) s;
  builder_Register fs b := b ++ fs;
  builder_AddToScheme b s := foldl (λ o f, o ≫= f) (ORet s) b;
|}.

Lemma table_enters l s : enters s l (table_enter l s).
Proof.
  unfold table_enter. split; rewrite fits_forall; intros H; case_decide; try done; [|by eexists].
  eexists. split; [done|]. intros g. cbn. rewrite lookup_union. by destruct (list_to_map l !! g), (s !! g).
Qed.

#[export] Program Instance table_laws : SchemeLaws table :=
  {| meta_types gv := (λ g, (g, meta_type_of g)) <$> meta_keys gv |}.
Next Obligation. intros g. apply lookup_empty. Qed.
Next Obligation. intros. apply table_enters. Qed.
Next Obligation. intros. apply table_enters. Qed.
Next Obligation.
  intros gv g t. rewrite list_elem_of_fmap. intros (? & [= -> ->] & H).
  unfold meta_keys in H. set_unfold in H. naive_solver.
Qed.
Next Obligation.
  intros gv gv' _ _ g t t' H H'. rewrite <- fmap_app in H, H'.
  apply list_elem_of_fmap in H as (? & [= -> ->] & _), H' as (? & [= -> ->] & _). done.
Qed.
Next Obligation. done. Qed.
Next Obligation. done. Qed.

Lemma registrations_settle_witness :
  ∃ s' : table, in_turn (register <$> [RegV1; RegAlpha; RegClientset; RegV1]) (ORet NewScheme) = ORet s' ∧
    KnownType s' (("zfs.openebs.io", "v1"), "ZFSNode") = Some (v1_type "ZFSNode") ∧
    KnownType s' (("zfs.openebs.io", "v1alpha1"), "ZFSVolume") = Some (alpha_type "ZFSVolume").
Proof.
  destruct (registrations_settle (NewScheme : table) [RegV1; RegAlpha; RegClientset; RegV1]) as [H _].
  destruct H as (s' & Hs' & Hin & _).
  - intros g t _. left. apply lookup_empty.
  - exists s'. split; [exact Hs'|]. split.
    + apply (Hin RegV1 (v1_type "ZFSNode")); apply (bool_decide_eq_true_1 (_ ∈ _)); vm_compute; reflexivity.
    + apply (Hin RegAlpha (alpha_type "ZFSVolume")); apply (bool_decide_eq_true_1 (_ ∈ _)); vm_compute; reflexivity.
Defined.
