(* ===== verification/Clientset.v ===== *)
(** * The generated clientset and listers (pkg/generated)

    The clients that every part of the driver reads and writes the resources with, and the
    listers that read the caches of the informers.  The files of the five kinds differ in
    the names of the kind.

    client-go is not of this repository: [RestLib] and [ListersLib] have the functions of
    it that are called.  A pointer is an [option]; an interface that holds a pointer is not
    nil even if the pointer is. *)

From Stdlib Require Import SpecFloat.
From S2P Require Import Prelude GoStr GoErr Api Effects InformerFactory Scheme.

Inductive iface (A : Type) :=
| NilInterface
| Holds (p : option A).
Arguments NilInterface {A}.
Arguments Holds {A} p.

(** ** The configuration of a client (rest.Config)

    A float32 is Stdlib's [spec_float]. [cfg_rest] stands for the fields that are only
    passed on; the serializer is that of a scheme and its codecs. *)
Record RestConfig (S RateLimiter Rest : Type) := mkConfig {
  cfg_APIPath : string;
  cfg_GroupVersion : option GroupVersion;
  cfg_NegotiatedSerializer : option S;
  cfg_UserAgent : string;
  cfg_QPS : spec_float;
  cfg_Burst : Z;
  cfg_RateLimiter : option RateLimiter;
  cfg_rest : Rest;
}.
Arguments mkConfig {S RateLimiter Rest}.
Arguments cfg_APIPath {S RateLimiter Rest}.
Arguments cfg_GroupVersion {S RateLimiter Rest}.
Arguments cfg_NegotiatedSerializer {S RateLimiter Rest}.
Arguments cfg_UserAgent {S RateLimiter Rest}.
Arguments cfg_QPS {S RateLimiter Rest}.
Arguments cfg_Burst {S RateLimiter Rest}.
Arguments cfg_RateLimiter {S RateLimiter Rest}.
Arguments cfg_rest {S RateLimiter Rest}.

Class RestLib (S RateLimiter Rest HTTPClient RESTClient DiscoveryClient : Type) := {
  HTTPClientFor : RestConfig S RateLimiter Rest → result HTTPClient;
  RESTClientForConfigAndClient : RestConfig S RateLimiter Rest → HTTPClient → result RESTClient;
  NewDiscoveryClientForConfigAndClient : RestConfig S RateLimiter Rest → HTTPClient → result DiscoveryClient;
  NewDiscoveryClient : iface RESTClient → DiscoveryClient;
  NewTokenBucketRateLimiter : spec_float → Z → RateLimiter;
  DefaultKubernetesUserAgent : string;
  (** a serializer is of a scheme; this one does not convert *)
  CodecFactoryForGeneratedClient : S → S;
}.

Definition float_zero : spec_float := S754_zero false.

(** A gentype.ClientWithList: what the requests for a kind are made of. *)
Record ClientWithList (S RESTClient : Type) := mkClientWithList {
  tc_resource : string;
  tc_client : iface RESTClient;
  tc_parameterCodec : S;
  tc_namespace : string;
  tc_newObject : gotype;
  tc_newList : gotype;
}.
Arguments mkClientWithList {S RESTClient}.
Arguments tc_resource {S RESTClient}.
Arguments tc_client {S RESTClient}.
Arguments tc_parameterCodec {S RESTClient}.
Arguments tc_namespace {S RESTClient}.
Arguments tc_newObject {S RESTClient}.
Arguments tc_newList {S RESTClient}.

Record ZfsV1Client (RESTClient : Type) := mkZfsV1Client { restClient : iface RESTClient }.
Arguments mkZfsV1Client {RESTClient}.
Arguments restClient {RESTClient}.

Record Clientset (RESTClient DiscoveryClient : Type) := mkClientset {
  cs_DiscoveryClient : option DiscoveryClient;
  cs_zfsV1 : option (ZfsV1Client RESTClient);
}.
Arguments mkClientset {RESTClient DiscoveryClient}.
Arguments cs_DiscoveryClient {RESTClient DiscoveryClient}.
Arguments cs_zfsV1 {RESTClient DiscoveryClient}.

Definition nil_dereference := "invalid memory address or nil pointer dereference".

(** [*p] *)
Definition deref {A} (p : option A) : outcome A :=
  match p with Some a => ORet a | None => OPanic nil_dereference end.

(** [x, err := r; if err != nil { return nil, err }] *)
Definition or_return {A} (r : result A) : outcome A :=
  match r with Ok a => ORet a | Err e => OErr e end.

(** [if err != nil { panic(err) }] *)
Definition or_die {A} (o : outcome A) : outcome A :=
  match o with OErr e => OPanic (Error e) | _ => o end.

(** ** typed/zfs/v1: the client of the group *)

Section clients.
Context {S RateLimiter Rest HTTPClient RESTClient DiscoveryClient : Type}.
Context `{!RestLib S RateLimiter Rest HTTPClient RESTClient DiscoveryClient}.
(** The scheme of the clientset, and the codec of its parameters. *)
Context (scheme_Scheme scheme_ParameterCodec : S).

Abbreviation config := (RestConfig S RateLimiter Rest).

Definition setConfigDefaults (c : config) : config :=
  let gv := SchemeGroupVersion in
  let c := c {{ cfg_GroupVersion := Some gv }} in
  let c := c {{ cfg_APIPath := "/apis" }} in
  let c := c {{ cfg_NegotiatedSerializer := Some (CodecFactoryForGeneratedClient scheme_Scheme) }} in
  if cfg_UserAgent c =? "" then c {{ cfg_UserAgent := DefaultKubernetesUserAgent }} else c.

Definition zfsv1_NewForConfigAndClient (c : option config) (h : HTTPClient)
    : outcome (option (ZfsV1Client RESTClient)) :=
  c ← deref c;
  let c := setConfigDefaults c in
  client ← or_return (RESTClientForConfigAndClient c h);
  ORet (Some (mkZfsV1Client (Holds (Some client)))).

Definition zfsv1_NewForConfig (c : option config) : outcome (option (ZfsV1Client RESTClient)) :=
  c ← deref c;
  let c := setConfigDefaults c in
  httpClient ← or_return (HTTPClientFor c);
  zfsv1_NewForConfigAndClient (Some c) httpClient.

Definition zfsv1_NewForConfigOrDie (c : option config) : outcome (option (ZfsV1Client RESTClient)) :=
  or_die (zfsv1_NewForConfig c).

Definition zfsv1_New (c : iface RESTClient) : option (ZfsV1Client RESTClient) := Some (mkZfsV1Client c).

Definition ZfsV1Client_RESTClient (c : option (ZfsV1Client RESTClient)) : iface RESTClient :=
  match c with None => NilInterface | Some c => restClient c end.

Definition newZFSBackups (c : option (ZfsV1Client RESTClient)) (namespace : string) :=
  mkClientWithList "zfsbackups" (ZfsV1Client_RESTClient c) scheme_ParameterCodec namespace
    (v1_type "ZFSBackup") (v1_type "ZFSBackupList").
Definition newZFSNodes (c : option (ZfsV1Client RESTClient)) (namespace : string) :=
  mkClientWithList "zfsnodes" (ZfsV1Client_RESTClient c) scheme_ParameterCodec namespace
    (v1_type "ZFSNode") (v1_type "ZFSNodeList").
Definition newZFSRestores (c : option (ZfsV1Client RESTClient)) (namespace : string) :=
  mkClientWithList "zfsrestores" (ZfsV1Client_RESTClient c) scheme_ParameterCodec namespace
    (v1_type "ZFSRestore") (v1_type "ZFSRestoreList").
Definition newZFSSnapshots (c : option (ZfsV1Client RESTClient)) (namespace : string) :=
  mkClientWithList "zfssnapshots" (ZfsV1Client_RESTClient c) scheme_ParameterCodec namespace
    (v1_type "ZFSSnapshot") (v1_type "ZFSSnapshotList").
Definition newZFSVolumes (c : option (ZfsV1Client RESTClient)) (namespace : string) :=
  mkClientWithList "zfsvolumes" (ZfsV1Client_RESTClient c) scheme_ParameterCodec namespace
    (v1_type "ZFSVolume") (v1_type "ZFSVolumeList").

(** The methods of the client. *)
Definition ZfsV1Client_ZFSBackups := newZFSBackups.
Definition ZfsV1Client_ZFSNodes := newZFSNodes.
Definition ZfsV1Client_ZFSRestores := newZFSRestores.
Definition ZfsV1Client_ZFSSnapshots := newZFSSnapshots.
Definition ZfsV1Client_ZFSVolumes := newZFSVolumes.

(** ** The clientset *)

Definition NewForConfigAndClient (c : option config) (httpClient : HTTPClient)
    : outcome (option (Clientset RESTClient DiscoveryClient)) :=
  c ← deref c;
  configShallowCopy ←
    (if bool_decide (cfg_RateLimiter c = None) && SFltb float_zero (cfg_QPS c) then
       if (cfg_Burst c <=? 0)%Z then
         OErr (ErrText "burst is required to be greater than 0 when RateLimiter is not set and QPS is set to greater than 0")
       else ORet (c {{ cfg_RateLimiter := Some (NewTokenBucketRateLimiter (cfg_QPS c) (cfg_Burst c)) }})
     else ORet c);
  zfsV1 ← zfsv1_NewForConfigAndClient (Some configShallowCopy) httpClient;
  discovery ← or_return (NewDiscoveryClientForConfigAndClient configShallowCopy httpClient);
  ORet (Some (mkClientset (Some discovery) zfsV1)).

Definition NewForConfig (c : option config) : outcome (option (Clientset RESTClient DiscoveryClient)) :=
  c ← deref c;
  let configShallowCopy :=
    if cfg_UserAgent c =? "" then c {{ cfg_UserAgent := DefaultKubernetesUserAgent }} else c in
  httpClient ← or_return (HTTPClientFor configShallowCopy);
  NewForConfigAndClient (Some configShallowCopy) httpClient.

Definition NewForConfigOrDie (c : option config) : outcome (option (Clientset RESTClient DiscoveryClient)) :=
  or_die (NewForConfig c).

Definition clientset_New (c : iface RESTClient) : option (Clientset RESTClient DiscoveryClient) :=
  Some (mkClientset (Some (NewDiscoveryClient c)) (zfsv1_New c)).

(** The pointer goes into an interface. *)
Definition Clientset_ZfsV1 (c : option (Clientset RESTClient DiscoveryClient))
    : outcome (iface (ZfsV1Client RESTClient)) :=
  c ← deref c; ORet (Holds (cs_zfsV1 c)).

Definition Clientset_Discovery (c : option (Clientset RESTClient DiscoveryClient)) : iface DiscoveryClient :=
  match c with None => NilInterface | Some c => Holds (cs_DiscoveryClient c) end.
End clients.

(** ** The listers (pkg/generated/lister/zfs/v1) *)

(** A listers.ResourceIndexer of a type reads the objects of that type in an indexer. *)
Class ListersLib (Indexer ResourceIndexer Object : Type) := {
  listers_New : gotype → Indexer → string * string → ResourceIndexer;
  listers_NewNamespaced : gotype → ResourceIndexer → string → ResourceIndexer;
  ResourceIndexer_Get : ResourceIndexer → string → result Object;
}.

Section listers.
Context {Indexer ResourceIndexer Object : Type} `{!ListersLib Indexer ResourceIndexer Object}.

(** A lister of a kind, and its lister of a namespace, embed a resource indexer. *)
Record KindLister := mkLister { lister_indexer : ResourceIndexer }.
Record KindNamespaceLister := mkNamespaceLister { nslister_indexer : ResourceIndexer }.

Definition NewZFSBackupLister (indexer : Indexer) : KindLister :=
  mkLister (listers_New (v1_type "ZFSBackup") indexer (Resource "zfsbackup")).
Definition NewZFSNodeLister (indexer : Indexer) : KindLister :=
  mkLister (listers_New (v1_type "ZFSNode") indexer (Resource "zfsnode")).
Definition NewZFSRestoreLister (indexer : Indexer) : KindLister :=
  mkLister (listers_New (v1_type "ZFSRestore") indexer (Resource "zfsrestore")).
Definition NewZFSSnapshotLister (indexer : Indexer) : KindLister :=
  mkLister (listers_New (v1_type "ZFSSnapshot") indexer (Resource "zfssnapshot")).
Definition NewZFSVolumeLister (indexer : Indexer) : KindLister :=
  mkLister (listers_New (v1_type "ZFSVolume") indexer (Resource "zfsvolume")).

Definition lister_ZFSBackups (s : KindLister) (namespace : string) : KindNamespaceLister :=
  mkNamespaceLister (listers_NewNamespaced (v1_type "ZFSBackup") (lister_indexer s) namespace).
Definition lister_ZFSNodes (s : KindLister) (namespace : string) : KindNamespaceLister :=
  mkNamespaceLister (listers_NewNamespaced (v1_type "ZFSNode") (lister_indexer s) namespace).
Definition lister_ZFSRestores (s : KindLister) (namespace : string) : KindNamespaceLister :=
  mkNamespaceLister (listers_NewNamespaced (v1_type "ZFSRestore") (lister_indexer s) namespace).
Definition lister_ZFSSnapshots (s : KindLister) (namespace : string) : KindNamespaceLister :=
  mkNamespaceLister (listers_NewNamespaced (v1_type "ZFSSnapshot") (lister_indexer s) namespace).
Definition lister_ZFSVolumes (s : KindLister) (namespace : string) : KindNamespaceLister :=
  mkNamespaceLister (listers_NewNamespaced (v1_type "ZFSVolume") (lister_indexer s) namespace).

(** The method of the embedded resource indexer. *)
Definition nslister_Get (s : KindNamespaceLister) (name : string) : result Object :=
  ResourceIndexer_Get (nslister_indexer s) name.
End listers.
Arguments KindLister : clear implicits.
Arguments KindNamespaceLister : clear implicits.
