(* ===== verification/FakeClientset.v ===== *)
(** * The fake clientset (pkg/generated/clientset/versioned/fake)

    The clientset for tests: the same interface over a tracker of objects in memory.  The
    tracker, the recorder of actions and the generic fake client are of client-go's testing
    and gentype packages; [TestingLib] has the functions of them that are called. *)

From S2P Require Import Prelude GoStr GoErr Api Effects Heap InformerFactory Scheme Clientset.

Abbreviation GroupVersionResource := ((string * string) * string)%type.

(** The tracker is changed by what it does: its functions pass its state on.  [Reaction]
    is the type of the reactions, [Watch] of the watches. *)
Class TestingLib (S Object Tracker Fake Reaction Action Watch : Type) := {
  NewObjectTracker : S → Tracker;
  tracker_Add : Object → Tracker → result Tracker;
  tracker_Watch : Tracker → GroupVersionResource → string → ListOptions → result Watch;
  ObjectReaction : Tracker → Reaction;
  zero_Fake : Fake;
  fake_AddReactor : string → string → Reaction → Fake → Fake;
  fake_AddWatchReactor : string → (Action → bool * option Watch * option error) → Fake → Fake;
  action_GetResource : Action → GroupVersionResource;
  action_GetNamespace : Action → string;
  (** what it is as a WatchActionImpl *)
  action_ListOptions : Action → option ListOptions;
}.

(** A gentype.FakeClientWithList: the functions on lists are those it is made with.  A list
    of pointers is a list of options. *)
Record FakeClientWithList (Fake V : Type) := mkFakeClient {
  fk_Fake : option Fake;
  fk_namespace : string;
  fk_resource : GroupVersionResource;
  fk_kind : GroupVersionKind;
  fk_newObject : gotype;
  fk_newList : gotype;
  fk_copyListMeta : resource_list V → resource_list V → resource_list V;
  fk_getItems : resource_list V → list (option V);
  fk_setItems : resource_list V → list (option V) → outcome (resource_list V);
}.
Arguments mkFakeClient {Fake V}.
Arguments fk_Fake {Fake V}.
Arguments fk_namespace {Fake V}.
Arguments fk_resource {Fake V}.
Arguments fk_kind {Fake V}.
Arguments fk_newObject {Fake V}.
Arguments fk_newList {Fake V}.
Arguments fk_copyListMeta {Fake V}.
Arguments fk_getItems {Fake V}.
Arguments fk_setItems {Fake V}.

(** Slices to slices of pointers and back. *)
Class PointerSlices := {
  ToPointerSlice : ∀ V : Type, list V → list (option V);
  FromPointerSlice : ∀ V : Type, list (option V) → outcome (list V);
}.
Arguments ToPointerSlice {_ V}.
Arguments FromPointerSlice {_ V}.

Record FakeZfsV1 (Fake : Type) := mkFakeZfsV1 { fz_Fake : option Fake }.
Arguments mkFakeZfsV1 {Fake}.
Arguments fz_Fake {Fake}.

Section typed.
Context {Fake RESTClient : Type} `{!PointerSlices}.

(** The part the five files share: the functions on the lists of the kind. *)
Definition newFakeClient {V} (fake : option (FakeZfsV1 Fake)) (namespace resource kind : string)
    (newObject newList : gotype) : outcome (FakeClientWithList Fake V) :=
  f ← deref fake;
  ORet (mkFakeClient (fz_Fake f) namespace (SchemeGroupVersion, resource) (SchemeGroupVersion, kind)
    newObject newList
    (λ dst src, dst {{ rl_Meta := rl_Meta src }})
    (λ l, ToPointerSlice (rl_Items l))
    (λ l items, items ← FromPointerSlice items; ORet (l {{ rl_Items := items }}))).

Definition newFakeZFSBackups (fake : option (FakeZfsV1 Fake)) (namespace : string)
    : outcome (FakeClientWithList Fake ZFSBackup) :=
  newFakeClient fake namespace "zfsbackups" "ZFSBackup" (v1_type "ZFSBackup") (v1_type "ZFSBackupList").
Definition newFakeZFSNodes (fake : option (FakeZfsV1 Fake)) (namespace : string)
    : outcome (FakeClientWithList Fake ZFSNode) :=
  newFakeClient fake namespace "zfsnodes" "ZFSNode" (v1_type "ZFSNode") (v1_type "ZFSNodeList").
Definition newFakeZFSRestores (fake : option (FakeZfsV1 Fake)) (namespace : string)
    : outcome (FakeClientWithList Fake ZFSRestore) :=
  newFakeClient fake namespace "zfsrestores" "ZFSRestore" (v1_type "ZFSRestore") (v1_type "ZFSRestoreList").
Definition newFakeZFSSnapshots (fake : option (FakeZfsV1 Fake)) (namespace : string)
    : outcome (FakeClientWithList Fake ZFSSnapshot) :=
  newFakeClient fake namespace "zfssnapshots" "ZFSSnapshot" (v1_type "ZFSSnapshot") (v1_type "ZFSSnapshotList").
Definition newFakeZFSVolumes (fake : option (FakeZfsV1 Fake)) (namespace : string)
    : outcome (FakeClientWithList Fake ZFSVolume) :=
  newFakeClient fake namespace "zfsvolumes" "ZFSVolume" (v1_type "ZFSVolume") (v1_type "ZFSVolumeList").

Definition FakeZfsV1_ZFSBackups := newFakeZFSBackups.
Definition FakeZfsV1_ZFSNodes := newFakeZFSNodes.
Definition FakeZfsV1_ZFSRestores := newFakeZFSRestores.
Definition FakeZfsV1_ZFSSnapshots := newFakeZFSSnapshots.
Definition FakeZfsV1_ZFSVolumes := newFakeZFSVolumes.

(** An interface that holds a nil pointer. *)
Definition FakeZfsV1_RESTClient (c : option (FakeZfsV1 Fake)) : iface RESTClient := Holds None.
End typed.

(** ** The clientset *)

Section clientset.
Context {S Object Tracker Fake Reaction Action Watch : Type}.
Context `{!TestingLib S Object Tracker Fake Reaction Action Watch}.

(** The discovery client and the clients of the group share the recorder of the clientset,
    [testing.Fake], which is embedded in it. *)
Record FakeClientset := mkFakeClientset {
  fc_Fake : Fake;
  fc_discovery : option unit;
  fc_tracker : Tracker;
}.

(** The loop over the objects. *)
Fixpoint add_objects (objects : list Object) (o : Tracker) : outcome Tracker :=
  match objects with
  | [] => ORet o
  | obj :: objects =>
    match tracker_Add obj o with
    | Err err => OPanic (Error err)
    | Ok o => add_objects objects o
    end
  end.

(** The reaction to a watch; [o] is the tracker when it is called. *)
Definition watchReaction (o : Tracker) (action : Action) : bool * option Watch * option error :=
  let opts := match action_ListOptions action with Some watchAction => watchAction | None => "" end in
  let gvr := action_GetResource action in
  let ns := action_GetNamespace action in
  match tracker_Watch o gvr ns opts with
  | Err err => (false, None, Some err)
  | Ok watch => (true, Some watch, None)
  end.

Definition NewSimpleClientset (scheme : S) (objects : list Object) : outcome (option FakeClientset) :=
  o ← add_objects objects (NewObjectTracker scheme);
  let cs := {| fc_Fake := zero_Fake; fc_discovery := None; fc_tracker := o |} in
  let cs := cs {{ fc_discovery := Some tt }} in
  let cs := cs {{ fc_Fake := fake_AddReactor "*" "*" (ObjectReaction o) (fc_Fake cs) }} in
  let cs := cs {{ fc_Fake := fake_AddWatchReactor "*" (watchReaction o) (fc_Fake cs) }} in
  ORet (Some cs).

Definition fake_Discovery (c : option FakeClientset) : outcome (iface unit) :=
  c ← deref c; ORet (Holds (fc_discovery c)).

Definition fake_Tracker (c : option FakeClientset) : outcome Tracker :=
  c ← deref c; ORet (fc_tracker c).

Definition IsWatchListSemanticsUnSupported (c : option FakeClientset) : bool := true.

Definition fake_ZfsV1 (c : option FakeClientset) : outcome (option (FakeZfsV1 Fake)) :=
  c ← deref c; ORet (Some (mkFakeZfsV1 (Some (fc_Fake c)))).
End clientset.
Arguments FakeClientset : clear implicits.
