(* ===== verification/ClientsetSpec.v ===== *)
(** * The clientset, its fake, the listers and the informers agree

    The names of a kind are written in many generated files: the registration, the typed
    client, its fake, the lister, the informer.  They agree.  A clientset made from a
    configuration has the group's client and the discovery client on one transport and one
    rate limiter; every way in which making it can fail is an error, not a panic. *)

From Stdlib Require Import SpecFloat.
From S2P Require Import Prelude GoStr GoErr Api Effects Heap InformerFactory Scheme SchemeSpec Clientset FakeClientset.

(** ** By kind *)

Definition kind_type (k : kind) : string :=
  match k with
  | KVol => "ZFSVolume" | KSnap => "ZFSSnapshot" | KBkp => "ZFSBackup"
  | KRstr => "ZFSRestore" | KNode => "ZFSNode"
  end.

Section by_kind.
Context {S RESTClient Fake Indexer ResourceIndexer Object : Type}.
Context {Slices : PointerSlices} {Lib : ListersLib Indexer ResourceIndexer Object}.

Definition typed_client (codec : S) (k : kind) : option (ZfsV1Client RESTClient) → string → ClientWithList S RESTClient :=
  match k with
  | KVol => ZfsV1Client_ZFSVolumes codec
  | KSnap => ZfsV1Client_ZFSSnapshots codec
  | KBkp => ZfsV1Client_ZFSBackups codec
  | KRstr => ZfsV1Client_ZFSRestores codec
  | KNode => ZfsV1Client_ZFSNodes codec
  end.

Definition fake_client (k : kind) : option (FakeZfsV1 Fake) → string → outcome (FakeClientWithList Fake (obj k)) :=
  match k with
  | KVol => FakeZfsV1_ZFSVolumes
  | KSnap => FakeZfsV1_ZFSSnapshots
  | KBkp => FakeZfsV1_ZFSBackups
  | KRstr => FakeZfsV1_ZFSRestores
  | KNode => FakeZfsV1_ZFSNodes
  end.

Definition kind_lister (k : kind) : Indexer → KindLister ResourceIndexer :=
  match k with
  | KVol => NewZFSVolumeLister
  | KSnap => NewZFSSnapshotLister
  | KBkp => NewZFSBackupLister
  | KRstr => NewZFSRestoreLister
  | KNode => NewZFSNodeLister
  end.

Definition kind_namespace_lister (k : kind) : KindLister ResourceIndexer → string → KindNamespaceLister ResourceIndexer :=
  match k with
  | KVol => lister_ZFSVolumes
  | KSnap => lister_ZFSSnapshots
  | KBkp => lister_ZFSBackups
  | KRstr => lister_ZFSRestores
  | KNode => lister_ZFSNodes
  end.
End by_kind.

Definition dquote : string := String "034" EmptyString.

(** What is documented of a lister of a namespace: it reads the objects of its type at
    [namespace/name], and says which resource it does not find. *)
Class ListersLaws (Indexer ResourceIndexer Object : Type) {Lib : ListersLib Indexer ResourceIndexer Object} := {
  GetByKey : Indexer → gotype → string → option Object;
  get_namespaced T (i : Indexer) r ns name : ns ≠ "" →
    ResourceIndexer_Get (listers_NewNamespaced T (listers_New T i r) ns) name =
    match GetByKey i T (ns +:+ "/" +:+ name) with
    | Some o => Ok o
    | None => Err (ErrAPI ReasonNotFound (r.2 +:+ "." +:+ r.1 +:+ " " +:+ dquote +:+ name +:+ dquote +:+ " not found"))
    end;
}.

(** ** The names agree *)

Section names.
Context {S RESTClient Fake Indexer ResourceIndexer Object Client Transform : Type}.
Context {Registry : Scheme S} {Laws : SchemeLaws S} {Slices : PointerSlices}.
Context {Lib : ListersLib Indexer ResourceIndexer Object} {Listers : ListersLaws Indexer ResourceIndexer Object}.

Lemma own_scheme_types (r : registration) (s : S) :
  registered_version r = SchemeGroupVersion →
  entered NewScheme s (meta_types ("", "v1") ++ registered r) →
  (∀ t, t ∈ v1_known_types → KnownType s (SchemeGroupVersion, type_Name t) = Some t) ∧
  (∀ gv name t, HasPrefix name "ZFS" = true → KnownType s (gv, name) = Some t →
     gv = SchemeGroupVersion ∧ t ∈ v1_known_types ∧ type_Name t = name).
Proof.
  intros Hr [Hin Hout].
  assert (registered_types r = v1_known_types) as Ht by by apply (registered_same r RegV1).
  split.
  - intros t H. apply Hin, elem_of_app. right. apply elem_of_app. left.
    apply entries_of_elem. by rewrite Ht, Hr.
  - intros gv name t Hname Hk.
    destruct (decide (name ∈ type_Name <$> v1_known_types ∧ gv = SchemeGroupVersion)) as [[Hn ->]|Hn].
    + apply list_elem_of_fmap in Hn as (t' & -> & Ht'). rewrite (Hin _ t') in Hk.
      { injection Hk as <-. done. }
      apply elem_of_app. right. apply elem_of_app. left. apply entries_of_elem. by rewrite Ht, Hr.
    + rewrite Hout, new_scheme in Hk; [done|]. intros t'.
      intros [H%meta_kinds|[H|H%meta_kinds]%elem_of_app]%elem_of_app; cbn [snd] in *; [congruence| |congruence].
      apply entries_of_elem in H as [H [= -> ->]]. apply Hn. rewrite Hr, Ht in *. split; [|done].
      apply list_elem_of_fmap. by exists t'.
Qed.

Lemma client_types_known (codec : S) k (c : option (ZfsV1Client RESTClient)) ns :
  tc_newObject (typed_client codec k c ns) ∈ v1_known_types ∧
  tc_newList (typed_client codec k c ns) ∈ v1_known_types.
Proof. unfold v1_known_types. destruct k; cbn; set_unfold; tauto. Qed.

End names.

(** ** Clients made from a configuration *)

Section configured.
Context {S RateLimiter Rest HTTPClient RESTClient DiscoveryClient : Type}.
Context {Lib : RestLib S RateLimiter Rest HTTPClient RESTClient DiscoveryClient}.
Context (scheme codec : S).

Abbreviation config := (RestConfig S RateLimiter Rest).
Abbreviation new_for_config := (NewForConfig (DiscoveryClient := DiscoveryClient) scheme).

Definition user_agent (c : config) : string :=
  if cfg_UserAgent c =? "" then DefaultKubernetesUserAgent else cfg_UserAgent c.

(** A limiter is given, none is wanted, or one can be made. *)
Definition limiter_ok (c : config) : Prop :=
  cfg_RateLimiter c ≠ None ∨ SFltb float_zero (cfg_QPS c) = false ∨ (0 < cfg_Burst c)%Z.

Definition limiter_for (c : config) : option RateLimiter :=
  match cfg_RateLimiter c with
  | Some l => Some l
  | None => if SFltb float_zero (cfg_QPS c) then Some (NewTokenBucketRateLimiter (cfg_QPS c) (cfg_Burst c)) else None
  end.

(** The caller's configuration with the user agent and the limiter filled in: that of the
    discovery client. *)
Definition shared_config (c : config) : config :=
  mkConfig (cfg_APIPath c) (cfg_GroupVersion c) (cfg_NegotiatedSerializer c) (user_agent c)
    (cfg_QPS c) (cfg_Burst c) (limiter_for c) (cfg_rest c).

(** That of the group's client. *)
Definition group_config (c : config) : config :=
  mkConfig "/apis" (Some ("zfs.openebs.io", "v1")) (Some (CodecFactoryForGeneratedClient scheme))
    (if user_agent c =? "" then DefaultKubernetesUserAgent else user_agent c)
    (cfg_QPS c) (cfg_Burst c) (limiter_for c) (cfg_rest c).

Definition transport_config (c : config) : config :=
  mkConfig (cfg_APIPath c) (cfg_GroupVersion c) (cfg_NegotiatedSerializer c) (user_agent c)
    (cfg_QPS c) (cfg_Burst c) (cfg_RateLimiter c) (cfg_rest c).

Definition burst_error : error :=
  ErrText "burst is required to be greater than 0 when RateLimiter is not set and QPS is set to greater than 0".

Lemma limiter_ok_dec (c : config) : {limiter_ok c} + {¬ limiter_ok c}.
Proof.
  unfold limiter_ok. destruct (cfg_RateLimiter c); [left; by left|].
  destruct (SFltb _ _); [|left; auto]. destruct (decide (0 < cfg_Burst c)%Z); [left; auto|].
  right. intros [?|[?|?]]; done.
Qed.

(** What making a clientset comes to, step by step. *)
Definition made (c : config) : outcome (option (Clientset RESTClient DiscoveryClient)) :=
  match HTTPClientFor (transport_config c) with
  | Err e => OErr e
  | Ok h =>
    if limiter_ok_dec c then
      match RESTClientForConfigAndClient (group_config c) h with
      | Err e => OErr e
      | Ok r =>
        match NewDiscoveryClientForConfigAndClient (shared_config c) h with
        | Err e => OErr e
        | Ok d => ORet (Some (mkClientset (Some d) (Some (mkZfsV1Client (Holds (Some r))))))
        end
      end
    else OErr burst_error
  end.

(** The test of the limiter. *)
Lemma limiter_step (c : config) :
  (if bool_decide (cfg_RateLimiter c = None) && SFltb float_zero (cfg_QPS c) then
     if (cfg_Burst c <=? 0)%Z then OErr burst_error
     else ORet (c {{ cfg_RateLimiter := Some (NewTokenBucketRateLimiter (cfg_QPS c) (cfg_Burst c)) }})
   else ORet c) =
  (if limiter_ok_dec c then ORet (c {{ cfg_RateLimiter := limiter_for c }}) else OErr burst_error).
Proof.
  destruct c as [path gv ser ua qps burst lim rest].
  destruct limiter_ok_dec as [Hok|Hok]; unfold limiter_ok, limiter_for in *; cbn [cfg_RateLimiter cfg_QPS cfg_Burst] in *.
  - destruct lim as [l|]; [by rewrite bool_decide_false|]. rewrite bool_decide_true by done.
    destruct (SFltb float_zero qps); [|done]. cbn [andb].
    destruct Hok as [?|[?|?]]; [done..|]. by rewrite (proj2 (Z.leb_gt burst 0)).
  - destruct lim as [l|]; [by destruct Hok; left|]. rewrite bool_decide_true by done.
    destruct (SFltb float_zero qps); [|destruct Hok; auto]. cbn [andb].
    destruct (Z.leb_spec burst 0); [done|]. destruct Hok; auto.
Qed.

Lemma NewForConfig_made c : new_for_config (Some c) = made c.
Proof.
  unfold made, NewForConfig. cbn [deref mbind outcome_mbind].
  assert ((if cfg_UserAgent c =? "" then c {{ cfg_UserAgent := DefaultKubernetesUserAgent }} else c)
    = transport_config c) as ->.
  { destruct c as [path gv ser ua qps burst lim rest]. unfold transport_config, user_agent. cbn. by destruct (ua =? ""). }
  destruct (HTTPClientFor _) as [h|e]; [|done].
  unfold or_return, NewForConfigAndClient. cbn [deref mbind outcome_mbind].
  pose proof (limiter_step (transport_config c)) as E. fold burst_error. rewrite E. clear E.
  assert (limiter_ok (transport_config c) ↔ limiter_ok c) as Hiff by done.
  destruct (limiter_ok_dec (transport_config c)), (limiter_ok_dec c); try tauto. cbn [mbind outcome_mbind].
  unfold zfsv1_NewForConfigAndClient. cbn [deref mbind outcome_mbind].
  assert (setConfigDefaults scheme ((transport_config c) {{ cfg_RateLimiter := limiter_for (transport_config c) }})
    = group_config c) as ->.
  { destruct c as [path gv ser ua qps burst lim rest]. unfold setConfigDefaults, group_config. cbn.
    by destruct (user_agent _ =? ""). }
  by destruct (RESTClientForConfigAndClient _ _); cbn; [destruct (NewDiscoveryClientForConfigAndClient _ _)|].
Qed.

(** A clientset is made from a configuration exactly when its transport, the group's
    client and the discovery client can be made, and a rate limiter is given, not wanted,
    or has a positive burst.  The group's client then has the version and the scheme of
    the resources, is what the typed clients send their requests with, and shares its
    transport, rate limiter and the rest of the caller's settings with the discovery
    client.  Every failure is the error of the first step that fails; without a
    configuration, or in [NewForConfigOrDie], it is a panic. *)
Theorem NewForConfig_spec (c : config) :
  new_for_config None = OPanic nil_dereference ∧
  (∀ cs, new_for_config (Some c) = ORet cs ↔
     ∃ h r d, HTTPClientFor (transport_config c) = Ok h ∧ limiter_ok c ∧
       RESTClientForConfigAndClient (group_config c) h = Ok r ∧
       NewDiscoveryClientForConfigAndClient (shared_config c) h = Ok d ∧
       cs = Some (mkClientset (Some d) (Some (mkZfsV1Client (Holds (Some r)))))) ∧
  (∀ cs k ns, new_for_config (Some c) = ORet cs →
     ∃ z h r, Clientset_ZfsV1 cs = ORet (Holds z) ∧ RESTClientForConfigAndClient (group_config c) h = Ok r ∧
       tc_client (typed_client codec k z ns) = Holds (Some r)) ∧
  ((∀ cs, new_for_config (Some c) ≠ ORet cs) → ∃ e, new_for_config (Some c) = OErr e ∧
     NewForConfigOrDie (DiscoveryClient := DiscoveryClient) scheme (Some c) = OPanic (Error e) ∧
     (HTTPClientFor (transport_config c) = Err e ∨
      ∃ h, HTTPClientFor (transport_config c) = Ok h ∧
        ((¬ limiter_ok c ∧ e = burst_error) ∨
         (limiter_ok c ∧ (RESTClientForConfigAndClient (group_config c) h = Err e ∨
            NewDiscoveryClientForConfigAndClient (shared_config c) h = Err e))))).
Proof.
  split; [done|]. unfold NewForConfigOrDie. rewrite NewForConfig_made. unfold made.
  destruct (HTTPClientFor (transport_config c)) as [h|e] eqn:Eh;
    [destruct (limiter_ok_dec c) as [Hok|Hok];
     [destruct (RESTClientForConfigAndClient (group_config c) h) as [r|e] eqn:Er;
      [destruct (NewDiscoveryClientForConfigAndClient (shared_config c) h) as [d|e] eqn:Ed|]|]|];
    cbn; (split; [|split]); try naive_solver.
  - intros cs. split; [intros [= <-]; by exists h, r, d|]. intros (h' & r' & d' & [= <-] & _ & Hr & Hd & ->).
    congruence.
  - intros cs k ns [= <-]. exists (Some (mkZfsV1Client (Holds (Some r)))), h, r. by destruct k.
  - intros cs. split; [done|]. intros (h' & r' & d' & [= <-] & _ & Hr & Hd & ->). congruence.
  - intros cs. split; [done|]. intros (h' & r' & d' & [= <-] & _ & Hr & Hd & ->). congruence.
Qed.
End configured.

(** ** The fake *)

Section fake.
Context {Fake RESTClient : Type} {Slices : PointerSlices}.

(** What is documented of the two functions. *)
Definition slices_inverse : Prop :=
  ∀ V (l : list V), FromPointerSlice (ToPointerSlice l) = ORet l.

(** The functions a fake client is made with take a list apart and put it together. *)
Lemma fake_list_roundtrip k (f : FakeZfsV1 Fake) ns (l : resource_list (obj k)) :
  slices_inverse → ∃ fk, fake_client k (Some f) ns = ORet fk ∧
    fk_setItems fk l (fk_getItems fk l) = ORet l ∧
    ∀ l', fk_setItems fk (fk_copyListMeta fk l' l) (fk_getItems fk l) = ORet l.
Proof.
  intros Hs. destruct l as [meta items].
  destruct k; eexists; (split; [reflexivity|]); split; cbn; intros;
    by rewrite Hs.
Qed.

(** A caller that compares the client's REST client with nil is told there is one. *)
Lemma fake_rest_client_not_nil (f : FakeZfsV1 Fake) :
  FakeZfsV1_RESTClient (RESTClient := RESTClient) (Some f) ≠ NilInterface ∧
  ZfsV1Client_RESTClient (RESTClient := RESTClient) None = NilInterface.
Proof. done. Qed.
End fake.

Section simple.
Context {S Object Tracker Fake Reaction Action Watch : Type}.
Context {Lib : TestingLib S Object Tracker Fake Reaction Action Watch}.

(** Adding the objects one after the other. *)
Definition add_all (objects : list Object) (o : Tracker) : result Tracker :=
  foldl (λ r obj, match r with Ok o => tracker_Add obj o | Err e => Err e end) (Ok o) objects.

Lemma add_all_err (objects : list Object) e :
  foldl (λ (r : result Tracker) obj, match r with Ok o => tracker_Add obj o | Err e => Err e end) (Err e) objects = Err e.
Proof. by induction objects. Qed.

Lemma add_objects_all objects (o : Tracker) :
  add_objects objects o = match add_all objects o with Ok o' => ORet o' | Err e => OPanic (Error e) end.
Proof.
  revert o. induction objects as [|obj objects IH]; intros o; cbn; [done|].
  unfold add_all. cbn. destruct (tracker_Add obj o) as [o'|e]; [apply IH|]. by rewrite add_all_err.
Qed.

(** The fake holds the objects it was made with, or making it panics; a watch it cannot
    start is left to the next reactor. *)
Lemma NewSimpleClientset_spec (scheme : S) (objects : list Object) :
  match add_all objects (NewObjectTracker scheme) with
  | Ok o => ∃ cs, NewSimpleClientset scheme objects = ORet (Some cs) ∧ fake_Tracker (Some cs) = ORet o ∧
      (∃ d, fake_Discovery (Some cs) = ORet (Holds (Some d))) ∧
      (∃ z, fake_ZfsV1 (Some cs) = ORet (Some z) ∧ fz_Fake z ≠ None)
  | Err e => NewSimpleClientset scheme objects = OPanic (Error e)
  end.
Proof.
  unfold NewSimpleClientset. rewrite add_objects_all. destruct (add_all _ _) as [o|e]; [|done].
  eexists. split_and!; [reflexivity|done|by exists tt|]. by eexists.
Qed.

Lemma watchReaction_handled (o : Tracker) (action : Action) :
  let '(handled, watch, err) := watchReaction o action in
  (handled = true ↔ is_Some watch) ∧ (handled = false ↔ is_Some err).
Proof.
  unfold watchReaction. destruct (tracker_Watch _ _ _ _); split; split; try done;
    intros [? ?]; done.
Qed.
End simple.

(** ** Examples *)

(** A library for a configuration that names its faults. *)
Inductive fault := NoFault | BadTransport | BadHost.

#[export] Instance sim_rest : RestLib nat (spec_float * Z) fault unit string string := {|
  HTTPClientFor c := match cfg_rest c with BadTransport => Err (ErrText "transport") | _ => Ok tt end;
  RESTClientForConfigAndClient c h :=
    match cfg_rest c with BadHost => Err (ErrText "host") | _ => Ok (cfg_APIPath c) end;
  NewDiscoveryClientForConfigAndClient c h := Ok (cfg_UserAgent c);
  NewDiscoveryClient _ := "";
  NewTokenBucketRateLimiter qps burst := (qps, burst);
  DefaultKubernetesUserAgent := "agent";
  CodecFactoryForGeneratedClient s := s;
|}.

(** Five requests a second, as a float32. *)
Definition five : spec_float := S754_finite false 10485760 (-21).

Definition example_config (qps : spec_float) (burst : Z) (f : fault) : RestConfig nat (spec_float * Z) fault :=
  mkConfig "" None None "" qps burst None f.

Lemma NewForConfig_witness :
  (∃ cs, NewForConfig 0%nat (Some (example_config five 10 NoFault)) = ORet cs) ∧
  NewForConfig 0%nat (Some (example_config five 0 NoFault)) = OErr burst_error ∧
  NewForConfigOrDie 0%nat (Some (example_config five 10 BadHost)) = OPanic "host".
Proof.
  split_and!.
  - eexists. apply (NewForConfig_spec 0%nat 0%nat (example_config five 10 NoFault)).
    exists tt, "/apis", "agent". split_and!; try reflexivity. right. right. reflexivity.
  - vm_compute. reflexivity.
  - vm_compute. reflexivity.
Defined.

#[export] Instance sim_slices : PointerSlices := {|
  ToPointerSlice V l := Some <$> l;
  FromPointerSlice V l := match mapM id l with Some l => ORet l | None => OPanic nil_dereference end;
|}.

Lemma sim_slices_inverse : slices_inverse.
Proof.
  intros V l. cbn. assert (mapM id (Some <$> l) = Some l) as ->; [|done].
  induction l as [|x l IH]; [done|]. cbn in *. by rewrite IH.
Qed.

(** Indexers and resource indexers of type and key. *)
Abbreviation sim_indexer := (gotype → string → option nat).

#[export] Instance sim_listers : ListersLib sim_indexer (sim_indexer * gotype * (string * string) * string) nat := {|
  listers_New T i r := (i, T, r, "");
  listers_NewNamespaced T x ns := (x.1, ns);
  ResourceIndexer_Get x name :=
    let '(i, T, r, ns) := x in
    match i T (ns +:+ "/" +:+ name) with
    | Some o => Ok o
    | None => Err (ErrAPI ReasonNotFound (r.2 +:+ "." +:+ r.1 +:+ " " +:+ dquote +:+ name +:+ dquote +:+ " not found"))
    end;
|}.

#[export] Program Instance sim_listers_laws : ListersLaws sim_indexer (sim_indexer * gotype * (string * string) * string) nat :=
  {| GetByKey i := i |}.
Next Obligation. done. Qed.

