(* ===== verification/Equality.v ===== *)
(** * Semantic equality (pkg/equality) and the pools of a node

    The node reconciler compares the pools it lists with those of its resource by
    [Semantic.DeepEqual], for which quantities are equal when their amounts are, however
    they are written.  The rest of the development takes a quantity of a pool to be its
    number.  Here the quantities are as they are in Go, and the comparison on them is
    related to the comparison of the numbers.

    Quantities, times and selectors are of apimachinery, and so is the deep comparison that
    uses the functions of the table: [EqualityLib] has them, [EqualityLaws] what is
    documented of them. *)

From S2P Require Import Prelude GoStr GoErr Api Effects Kube ZfsArgs Builders VolumeOps ZfsOps Laws Reconcilers.

(** A pool as the API has it. *)
Record goPool (Quantity : Type) := mkGoPool {
  gp_Name : string;
  gp_UUID : string;
  gp_Free : Quantity;
  gp_Used : Quantity;
}.
Arguments mkGoPool {Quantity}.
Arguments gp_Name {Quantity}.
Arguments gp_UUID {Quantity}.
Arguments gp_Free {Quantity}.
Arguments gp_Used {Quantity}.

(** The table of a conversion.Equalities, by the type of the arguments. *)
Record Equalities (Quantity MicroTime Time LabelSelector FieldSelector : Type) := mkEqualities {
  eq_Quantity : Quantity → Quantity → bool;
  eq_MicroTime : MicroTime → MicroTime → bool;
  eq_Time : Time → Time → bool;
  eq_LabelSelector : LabelSelector → LabelSelector → bool;
  eq_FieldSelector : FieldSelector → FieldSelector → bool;
}.
Arguments mkEqualities {Quantity MicroTime Time LabelSelector FieldSelector}.
Arguments eq_Quantity {Quantity MicroTime Time LabelSelector FieldSelector}.
Arguments eq_MicroTime {Quantity MicroTime Time LabelSelector FieldSelector}.
Arguments eq_Time {Quantity MicroTime Time LabelSelector FieldSelector}.
Arguments eq_LabelSelector {Quantity MicroTime Time LabelSelector FieldSelector}.
Arguments eq_FieldSelector {Quantity MicroTime Time LabelSelector FieldSelector}.

(** [UTCTime] is a time.Time in UTC, compared with [==]. *)
Class EqualityLib (Quantity MicroTime Time UTCTime LabelSelector FieldSelector : Type) := {
  Cmp : Quantity → Quantity → Z;
  NewQuantity : Z → Quantity; (* in BinarySI *)
  MicroTime_UTC : MicroTime → UTCTime;
  Time_UTC : Time → UTCTime;
  label_String : LabelSelector → string;
  field_String : FieldSelector → string;
  DeepEqual_pools : Equalities Quantity MicroTime Time LabelSelector FieldSelector →
    list (goPool Quantity) → list (goPool Quantity) → bool;
}.

Section semantic.
Context {Quantity MicroTime Time UTCTime LabelSelector FieldSelector : Type}.
Context {Lib : EqualityLib Quantity MicroTime Time UTCTime LabelSelector FieldSelector}.
Context `{!EqDecision UTCTime}.

Definition Semantic : Equalities Quantity MicroTime Time LabelSelector FieldSelector :=
  mkEqualities
    (λ a b, (Cmp a b =? 0)%Z)
    (λ a b, bool_decide (MicroTime_UTC a = MicroTime_UTC b))
    (λ a b, bool_decide (Time_UTC a = Time_UTC b))
    (λ a b, label_String a =? label_String b)
    (λ a b, field_String a =? field_String b).

(** A node with its quantities, and the part of [syncNode] that brings it up to date. *)
Record quantity_node := mkQuantityNode { qn_Meta : ObjectMeta; qn_Pools : list (goPool Quantity) }.

Definition reconcile_quantities (ownerRef : OwnerReference) (node : quantity_node)
    (pools : list (goPool Quantity)) : quantity_node * bool :=
  let '(ownerRefs, req) := isOwnerRefsUpdateRequired ownerRef (OwnerReferences (qn_Meta node)) in
  let node := if req then node {{ qn_Meta := (qn_Meta node) {{ OwnerReferences := ownerRefs }} }} else node in
  if negb (DeepEqual_pools Semantic (qn_Pools node) pools) then (node {{ qn_Pools := pools }}, true)
  else (node, req).

(** ** What is documented *)

Class EqualityLaws := {
  (** the amount, in the smallest unit a quantity has *)
  nanos : Quantity → Z;
  cmp_amount a b : Cmp a b = match (nanos a ?= nanos b)%Z with Lt => -1 | Eq => 0 | Gt => 1 end%Z;
  new_quantity n : nanos (NewQuantity n) = (n * 1000000000)%Z;
  (** slices are equal when their elements are, structs when their fields are, and a type
      of the table by its function; nil is an empty slice *)
  deep_equal_pools E ps qs : DeepEqual_pools E ps qs = true ↔
    Forall2 (λ p q, gp_Name p = gp_Name q ∧ gp_UUID p = gp_UUID q ∧
      eq_Quantity E (gp_Free p) (gp_Free q) = true ∧ eq_Quantity E (gp_Used p) (gp_Used q) = true) ps qs;
}.
Context {Laws : EqualityLaws}.

(** A boolean test of an equivalence. *)
Definition equivalence_test {A} (f : A → A → bool) : Prop := Equivalence (λ a b, f a b = true).

Lemma image_test {A B} `{!EqDecision B} (g : A → B) (f : A → A → bool) :
  (∀ a b, f a b = true ↔ g a = g b) → equivalence_test f.
Proof.
  intros H. split.
  - intros a. by apply H.
  - intros a b E%H. by apply H.
  - intros a b c E%H E'%H. apply H. congruence.
Qed.

Lemma quantity_equal a b : eq_Quantity Semantic a b = true ↔ nanos a = nanos b.
Proof.
  cbn. rewrite cmp_amount. destruct (Z.compare_spec (nanos a) (nanos b)); split; intros; try done; lia.
Qed.

(** The number a pool's quantities are in the rest of the development: [Value()] rounds up
    to a whole number. *)
Definition quantity_Value (q : Quantity) : Z := (- (- nanos q / 1000000000))%Z.

Definition whole (q : Quantity) : Prop := (1000000000 | nanos q)%Z.

Definition pool_value (p : goPool Quantity) : Pool :=
  mkPool (gp_Name p) (gp_UUID p) (quantity_Value (gp_Free p)) (quantity_Value (gp_Used p)).

Definition whole_pool (p : goPool Quantity) : Prop := whole (gp_Free p) ∧ whole (gp_Used p).

Lemma Value_whole a b : whole a → whole b → quantity_Value a = quantity_Value b ↔ nanos a = nanos b.
Proof.
  unfold quantity_Value. intros [x Hx] [y Hy]. rewrite Hx, Hy, <- !Z.mul_opp_l, !Z.div_mul by lia. lia.
Qed.

(** The pools of the listing. *)
Definition listed_pool (p : Pool) : goPool Quantity :=
  mkGoPool (pool_Name p) (pool_UUID p) (NewQuantity (pool_Free p)) (NewQuantity (pool_Used p)).

Lemma listed_pool_value p : pool_value (listed_pool p) = p ∧ whole_pool (listed_pool p).
Proof.
  destruct p as [name uuid free used]. unfold pool_value, whole_pool, whole, quantity_Value. cbn.
  rewrite !new_quantity, <- !Z.mul_opp_l, !Z.div_mul, !Z.opp_involutive by lia.
  split; [done|]. split; by eexists.
Qed.

Lemma pool_value_equal p q : whole_pool p → whole_pool q →
  (gp_Name p = gp_Name q ∧ gp_UUID p = gp_UUID q ∧
   eq_Quantity Semantic (gp_Free p) (gp_Free q) = true ∧ eq_Quantity Semantic (gp_Used p) (gp_Used q) = true) ↔
  pool_value p = pool_value q.
Proof.
  intros [Hf Hu] [Hf' Hu']. rewrite !quantity_equal, <- !Value_whole by done. unfold pool_value.
  split; [by intros (-> & -> & -> & ->)|]. by intros [= -> -> -> ->].
Qed.

Lemma pools_equal ps qs : Forall whole_pool ps → Forall whole_pool qs →
  DeepEqual_pools Semantic ps qs = true ↔ pool_value <$> ps = pool_value <$> qs.
Proof.
  intros Hps Hqs. rewrite deep_equal_pools. revert qs Hqs.
  induction Hps as [|p ps Hp Hps IH]; intros [|q qs] Hqs; rewrite ?fmap_nil, ?fmap_cons.
  - rewrite Forall2_nil. done.
  - split; inversion 1.
  - split; inversion 1.
  - apply Forall_cons in Hqs as [Hq Hqs].
    rewrite Forall2_cons, (IH qs Hqs), (pool_value_equal p q Hp Hq).
    split; [by intros [-> ->]|]. apply cons_eq_inj.
Qed.

Definition node_value (n : quantity_node) : ZFSNode := mkZFSNode (qn_Meta n) (pool_value <$> qn_Pools n).

Lemma listed_values pools :
  pool_value <$> (listed_pool <$> pools) = pools ∧ Forall whole_pool (listed_pool <$> pools).
Proof.
  split.
  - rewrite <- list_fmap_compose. rewrite <- (list_fmap_id pools) at 2. apply list_fmap_ext.
    intros _ p _. apply listed_pool_value.
  - apply Forall_fmap, Forall_true. intros p. apply listed_pool_value.
Qed.

(** C30: the semantic comparison of quantities, times and selectors is an equivalence:
    quantities are equal exactly when their amounts are, in whatever unit they are
    written, times when they are the same instant.  On it, the node reconciler with the
    quantities as they are in Go does what the reconciler of this development does on
    numbers: the same update, at the same times, for every node whose pools have whole
    amounts of bytes, in whatever format the API server keeps them; and it leaves such a
    node behind. *)
Theorem Semantic_refines (ownerRef : OwnerReference) (node : quantity_node) (pools : list Pool) :
  equivalence_test (eq_Quantity Semantic) ∧ equivalence_test (eq_MicroTime Semantic) ∧
  equivalence_test (eq_Time Semantic) ∧ equivalence_test (eq_LabelSelector Semantic) ∧
  equivalence_test (eq_FieldSelector Semantic) ∧
  (∀ a b, eq_Quantity Semantic a b = true ↔ nanos a = nanos b) ∧
  (Forall whole_pool (qn_Pools node) →
   let '(after, updated) := reconcile_quantities ownerRef node (listed_pool <$> pools) in
   (node_value after, updated) = reconcile_node ownerRef (node_value node) pools ∧
   Forall whole_pool (qn_Pools after)).
Proof.
  split_and!.
  - apply (image_test nanos), quantity_equal.
  - apply (image_test MicroTime_UTC). intros a b. apply bool_decide_eq_true.
  - apply (image_test Time_UTC). intros a b. apply bool_decide_eq_true.
  - apply (image_test label_String). intros a b. apply String.eqb_eq.
  - apply (image_test field_String). intros a b. apply String.eqb_eq.
  - apply quantity_equal.
  - intros Hw. destruct (listed_values pools) as [Hv Hl]. pose proof (pools_equal _ _ Hw Hl) as He.
    rewrite Hv in He. destruct node as [meta ps]. cbn in Hw, He.
    unfold reconcile_quantities, reconcile_node, node_value. cbn.
    destruct (isOwnerRefsUpdateRequired ownerRef (OwnerReferences meta)) as [refs req].
    assert (∀ m : ObjectMeta, qn_Pools (mkQuantityNode m ps) = ps) as Hps by done.
    destruct (DeepEqual_pools Semantic ps (listed_pool <$> pools)) eqn:E.
    + assert (pool_value <$> ps = pools) as Hp by by apply He. destruct req; cbn; rewrite E, Hp; cbn;
        rewrite bool_decide_false by (by intros ?); cbn; by rewrite Hp.
    + assert (pool_value <$> ps ≠ pools) as Hp by (rewrite <- He; congruence). destruct req; cbn; rewrite E; cbn;
        rewrite bool_decide_true by done; cbn; by rewrite Hv.
Qed.
End semantic.

(** ** Quantities with a format *)

(** The amount, and how it is written. *)
Record sim_quantity := mkSimQuantity { sq_nanos : Z; sq_format : string }.

Definition sim_pool_equal (E : Equalities sim_quantity Z Z string string) (p q : goPool sim_quantity) : bool :=
  (gp_Name p =? gp_Name q) && (gp_UUID p =? gp_UUID q) &&
  eq_Quantity E (gp_Free p) (gp_Free q) && eq_Quantity E (gp_Used p) (gp_Used q).

Fixpoint all2 {A} (f : A → A → bool) (l l' : list A) : bool :=
  match l, l' with
  | [], [] => true
  | x :: l, y :: l' => f x y && all2 f l l'
  | _, _ => false
  end.

#[export] Instance sim_equality : EqualityLib sim_quantity Z Z Z string string := {|
  Cmp a b := match (sq_nanos a ?= sq_nanos b)%Z with Lt => -1 | Eq => 0 | Gt => 1 end%Z;
  NewQuantity n := mkSimQuantity (n * 1000000000) "BinarySI";
  MicroTime_UTC t := t;
  Time_UTC t := t;
  label_String s := s;
  field_String s := s;
  DeepEqual_pools E := all2 (sim_pool_equal E);
|}.

#[export] Program Instance sim_equality_laws : EqualityLaws (Lib := sim_equality) := {| nanos := sq_nanos |}.
Next Obligation. done. Qed.
Next Obligation. done. Qed.
Next Obligation.
  intros E ps. induction ps as [|p ps IH]; intros [|q qs]; cbn.
  - rewrite Forall2_nil. done.
  - split; inversion 1.
  - split; inversion 1.
  - rewrite Forall2_cons, <- IH. unfold sim_pool_equal. rewrite !andb_true_iff, !String.eqb_eq. tauto.
Qed.

(** A pool stored with its free space written in decimal, as another writer would. *)
Definition stored_pools : list (goPool sim_quantity) :=
  [mkGoPool "zpool" "1" (mkSimQuantity 100000000000 "DecimalSI") (mkSimQuantity 10000000000 "BinarySI")].

Definition stored_node : quantity_node (Quantity := sim_quantity) := mkQuantityNode emptyMeta stored_pools.

Lemma Semantic_refines_witness :
  let owner := mkOwnerReference "v1" "Node" "node-1" "uid-1" (Some true) in
  let '(after, updated) := reconcile_quantities owner stored_node (listed_pool <$> [mkPool "zpool" "1" 100 10]) in
  (node_value after, updated) = reconcile_node owner (node_value stored_node) [mkPool "zpool" "1" 100 10] ∧
  Forall whole_pool (qn_Pools after).
Proof.
  apply Semantic_refines. apply Forall_singleton. split; [exists 100%Z|exists 10%Z]; reflexivity.
Defined.

(** An amount that is not whole has the number of another: the model would take them for
    equal. *)
Example fractions_differ :
  let half := mkSimQuantity 1500000000 "DecimalSI" in
  let two := NewQuantity 2 in
  quantity_Value half = quantity_Value two ∧ eq_Quantity Semantic half two = false.
Proof. vm_compute. split; reflexivity. Qed.
