(* ===== verification/Wiring.v ===== *)
(** * Start and run of the agent's controllers (pkg/mgmt/*/start.go, builder.go, Run)

    Each of the five controllers is started in a goroutine of its own: it makes its
    clients, is built under a mutex that all five share, starts its informers and runs
    its workers until the agent is stopped.  The four controllers of volumes, snapshots,
    backups and restores are the same text; the one of nodes also finds the node object
    it runs on, and polls. *)

From S2P Require Import Prelude GoStr GoErr Api Csi Effects Kube ZfsArgs Builders VolumeOps ZfsOps Reconcilers.

Definition up (c : up_cmd) : prog (up_resp c) := call (CUp c).

(** ** Controllers and their builders *)

(** The fields that are interfaces or functions are nil until they are set. *)
Record ResourceController (k : kind) := mkController {
  ctl_kubeclientset : option unit;
  ctl_clientset : option unit;
  ctl_lister : option unit;
  ctl_synced : option unit;
  ctl_workqueue : option string; (* its name *)
  ctl_recorder : option string;  (* its component *)
  ctl_pollInterval : Z;          (* of the node controller *)
  ctl_ownerRef : OwnerReference;
}.
Arguments mkController {k}.
Arguments ctl_kubeclientset {k}.
Arguments ctl_clientset {k}.
Arguments ctl_lister {k}.
Arguments ctl_synced {k}.
Arguments ctl_workqueue {k}.
Arguments ctl_recorder {k}.
Arguments ctl_pollInterval {k}.
Arguments ctl_ownerRef {k}.

Definition controllerAgentName (k : kind) : string :=
  match k with
  | KVol => "zfsvolume-controller"
  | KSnap => "zfssnap-controller"
  | KBkp => "zfsbackup-controller"
  | KRstr => "zfsrestore-controller"
  | KNode => "zfsnode-controller"
  end.

Definition queue_name (k : kind) : string :=
  match k with
  | KVol => "ZV" | KSnap => "Snap" | KBkp => "Bkp" | KRstr => "Restore" | KNode => "Node"
  end.

Section builder.
Context {k : kind}.

Definition NewControllerBuilder : ResourceController k :=
  mkController None None None None None None 0 (mkOwnerReference "" "" "" "" None).

Definition withKubeClient (c : ResourceController k) : prog (ResourceController k) :=
  Ret (c {{ ctl_kubeclientset := Some tt }}).

Definition withOpenEBSClient (c : ResourceController k) : prog (ResourceController k) :=
  Ret (c {{ ctl_clientset := Some tt }}).

Definition withLister (c : ResourceController k) : prog (ResourceController k) :=
  Ret (c {{ ctl_lister := Some tt }}).

Definition withSynced (c : ResourceController k) : prog (ResourceController k) :=
  Ret (c {{ ctl_synced := Some tt }}).

Definition withWorkqueueRateLimiting (c : ResourceController k) : prog (ResourceController k) :=
  _ ← up (UNewQueue (queue_name k));
  Ret (c {{ ctl_workqueue := Some (queue_name k) }}).

Definition withRecorder (c : ResourceController k) : prog (ResourceController k) :=
  _ ← up (UNewRecorder (controllerAgentName k));
  Ret (c {{ ctl_recorder := Some (controllerAgentName k) }}).

(** The handlers are methods of the controller under construction. *)
Definition withEventHandler (c : ResourceController k) : prog (ResourceController k) :=
  _ ← up (UAddEventHandler k); Ret c.

Definition withPollInterval (interval : Z) (c : ResourceController k) : prog (ResourceController k) :=
  Ret (c {{ ctl_pollInterval := interval }}).

Definition withOwnerReference (ownerRef : OwnerReference) (c : ResourceController k) : prog (ResourceController k) :=
  Ret (c {{ ctl_ownerRef := ownerRef }}).

Definition Controller_Build (c : ResourceController k) : prog (ResourceController k) :=
  r ← up UAddToScheme; _ ← lift r; Ret c.
End builder.

(** ** Workers *)

Section workers.
Context `{!GoRange} `{!Globals} `{!ErrorsFmt} `{!CacheKeys}.

Fixpoint runWorker (fuel : nat) (processNext : prog bool) : prog unit :=
  match fuel with
  | O => Spin
  | S fuel => more ← processNext; if (more : bool) then runWorker fuel processNext else Ret tt
  end.

Fixpoint start_workers (k : kind) (threadiness : nat) : prog unit :=
  match threadiness with
  | O => Ret tt
  | S n => _ ← up (UGoWorker k); start_workers k n
  end.

(** Calling a field that is nil. *)
Definition field {A} (f : option A) : prog A :=
  match f with Some a => Ret a | None => Crash "nil pointer dereference" end.

(** [Run] of the controllers other than that of nodes. *)
Definition Controller_Run {k} (c : ResourceController k) (threadiness : nat) : prog unit :=
  deferred (_ ← field (ctl_workqueue c); up UQueueShutDown)
    (_ ← field (ctl_synced c);
     ok ← up (UWaitForCacheSync k);
     if negb ok then Throw (ErrText "failed to wait for caches to sync") else
     _ ← start_workers k threadiness;
     up URecvStop).

(** The polling of the node controller: the first tick comes at once. *)
Fixpoint poll (fuel : nat) (c : ResourceController KNode) : prog unit :=
  match fuel with
  | O => Spin
  | S fuel =>
    tick ← up USelectTimer;
    if negb tick then Ret tt else
    let item := OpenEBSNamespace +:+ "/" +:+ NodeID in
    _ ← field (ctl_workqueue c);
    _ ← call (CQueueAdd item);
    _ ← up (UTimerReset (ctl_pollInterval c));
    poll fuel c
  end.

Definition Node_Run (fuel : nat) (c : ResourceController KNode) (threadiness : nat) : prog unit :=
  deferred (_ ← field (ctl_workqueue c); up UQueueShutDown)
    (_ ← field (ctl_synced c);
     ok ← up (UWaitForCacheSync KNode);
     if negb ok then Throw (ErrText "failed to wait for caches to sync") else
     _ ← start_workers KNode threadiness;
     poll fuel c).

(** ** Start *)

Definition wrap_err {A} (msg : string) (p : prog (result A)) : prog A :=
  r ← p; match r with Err err => Throw (ErrWrap err msg) | Ok a => Ret a end.

(** The configuration and the two clients. *)
Definition connect : prog unit :=
  _ ← wrap_err "error building kubeconfig" (up UKubeConfig);
  _ ← wrap_err "error building kubernetes clientset" (up UKubeClient);
  wrap_err "error building openebs clientset" (up UOpenEBSClient).

(** The construction under the mutex: it is released before the error is looked at. *)
Definition locked_build {k} (build : prog (ResourceController k)) : prog (ResourceController k) :=
  _ ← up UMtxLock;
  r ← attempt build;
  _ ← up UMtxUnlock;
  match r with
  | Err err => Throw (ErrWrap err "error building controller instance")
  | Ok c => Ret c
  end.

Definition Start (k : kind) : prog unit :=
  _ ← connect;
  controller ← locked_build (
    c ← withKubeClient (NewControllerBuilder (k := k));
    c ← withOpenEBSClient c;
    c ← withSynced c;
    c ← withLister c;
    c ← withRecorder c;
    c ← withEventHandler c;
    c ← withWorkqueueRateLimiting c;
    Controller_Build c);
  _ ← up (UStartInformers None);
  _ ← up (UStartInformers (Some k));
  Controller_Run controller 2.

Definition ZV_Start : prog unit := Start KVol.
Definition Snap_Start : prog unit := Start KSnap.
Definition Bkp_Start : prog unit := Start KBkp.
Definition Rstr_Start : prog unit := Start KRstr.

(** The selector of a label requirement, of the apimachinery's labels package. *)
Class LabelSelectors := equals_selector : string → string → result string.
Context `{!LabelSelectors}.

(** The node object the agent runs on. *)
Definition find_k8s_node : prog k8s_node :=
  nodeName ← call (CGetenv "OPENEBS_NODE_NAME");
  if (slen (TrimSpace NodeID) =? 0)%Z || (nodeName =? NodeID) then
    wrap_err (Sprintf "fetch k8s node %s" [NodeID]) (up (UK8sNode NodeID))
  else
    match equals_selector ZFSTopologyKey NodeID with
    | Err err => Throw (ErrWrap err (Sprintf
        "Unable to generate topology requirement by %s for node id %s" [ZFSTopologyKey; NodeID]))
    | Ok topologySelector =>
      items ← wrap_err (Sprintf "error trying to find node with label %s having value %s"
                          [ZFSTopologyKey; NodeID]) (up (UK8sNodeList topologySelector));
      match items with
      | [node] => Ret node
      | _ => Throw (Errorf "unable to retrieve a single node by %s for %s"
                      [ZFSTopologyKey; NodeID])
      end
    end.

Definition owner_of (k8sNode : k8s_node) : OwnerReference :=
  mkOwnerReference "v1" "Node" (kn_Name k8sNode) (kn_UID k8sNode) (Some true).

Definition Node_Start (fuel : nat) : prog unit :=
  _ ← connect;
  k8sNode ← find_k8s_node;
  let ownerRef := owner_of k8sNode in
  controller ← locked_build (
    c ← withKubeClient (NewControllerBuilder (k := KNode));
    c ← withOpenEBSClient c;
    c ← withSynced c;
    c ← withLister c;
    c ← withRecorder c;
    c ← withEventHandler c;
    c ← withPollInterval 60 c;
    c ← withOwnerReference ownerRef c;
    c ← withWorkqueueRateLimiting c;
    Controller_Build c);
  _ ← up (UStartInformers (Some KNode));
  Node_Run fuel controller 1.

(** The goroutines [NewNode] starts; a controller that cannot be started ends the
    process. *)
Definition start_or_fatal (format : string) (start : prog unit) : prog unit :=
  r ← attempt start;
  match r with
  | Err err => Crash (Sprintf format [Error err])
  | Ok _ => Ret tt
  end.

Definition NewNode (fuel : nat) : list (prog unit) :=
  [ start_or_fatal "Failed to start ZFS node controller: %s" (Node_Start fuel);
    start_or_fatal "Failed to start ZFS volume management controller: %s" ZV_Start;
    start_or_fatal "Failed to start ZFS volume snapshot management controller: %s" Snap_Start;
    start_or_fatal "Failed to start ZFS backup management controller: %s" Bkp_Start;
    start_or_fatal "Failed to start ZFS restore management controller: %s" Rstr_Start ].
End workers.

(** ** The packages

    The builders, queues and workers of the other four packages are the same text for
    their kind. *)

Definition Snap_Controller := ResourceController KSnap.
Definition Snap_NewControllerBuilder : Snap_Controller := NewControllerBuilder.
Definition Snap_withKubeClient : Snap_Controller → prog Snap_Controller := withKubeClient.
Definition Snap_withOpenEBSClient : Snap_Controller → prog Snap_Controller := withOpenEBSClient.
Definition Snap_withLister : Snap_Controller → prog Snap_Controller := withLister.
Definition Snap_withSynced : Snap_Controller → prog Snap_Controller := withSynced.
Definition Snap_withWorkqueueRateLimiting : Snap_Controller → prog Snap_Controller :=
  withWorkqueueRateLimiting.
Definition Snap_withRecorder : Snap_Controller → prog Snap_Controller := withRecorder.
Definition Snap_withEventHandler : Snap_Controller → prog Snap_Controller := withEventHandler.
Definition Snap_Build : Snap_Controller → prog Snap_Controller := Controller_Build.
Definition Snap_enqueue `{!CacheKeys} : obj KSnap → prog unit := enqueue KSnap.
Definition Snap_isDeletionCandidate : obj KSnap → bool := isDeletionCandidate KSnap.
Definition Snap_Run : Snap_Controller → nat → prog unit := Controller_Run.
Definition Snap_processNextWorkItem `{!GoRange} `{!Globals} `{!ErrorsFmt} `{!CacheKeys}
    : prog bool := processNextWorkItem (Snap_syncHandler).

Definition Bkp_Controller := ResourceController KBkp.
Definition Bkp_NewControllerBuilder : Bkp_Controller := NewControllerBuilder.
Definition Bkp_withKubeClient : Bkp_Controller → prog Bkp_Controller := withKubeClient.
Definition Bkp_withOpenEBSClient : Bkp_Controller → prog Bkp_Controller := withOpenEBSClient.
Definition Bkp_withLister : Bkp_Controller → prog Bkp_Controller := withLister.
Definition Bkp_withSynced : Bkp_Controller → prog Bkp_Controller := withSynced.
Definition Bkp_withWorkqueueRateLimiting : Bkp_Controller → prog Bkp_Controller :=
  withWorkqueueRateLimiting.
Definition Bkp_withRecorder : Bkp_Controller → prog Bkp_Controller := withRecorder.
Definition Bkp_withEventHandler : Bkp_Controller → prog Bkp_Controller := withEventHandler.
Definition Bkp_Build : Bkp_Controller → prog Bkp_Controller := Controller_Build.
Definition Bkp_enqueue `{!CacheKeys} : obj KBkp → prog unit := enqueue KBkp.
Definition Bkp_isDeletionCandidate : obj KBkp → bool := isDeletionCandidate KBkp.
Definition Bkp_Run : Bkp_Controller → nat → prog unit := Controller_Run.
Definition Bkp_processNextWorkItem `{!GoRange} `{!Globals} `{!ErrorsFmt} `{!CacheKeys}
    : prog bool := processNextWorkItem (Bkp_syncHandler).

Definition Rstr_Controller := ResourceController KRstr.
Definition Rstr_NewControllerBuilder : Rstr_Controller := NewControllerBuilder.
Definition Rstr_withKubeClient : Rstr_Controller → prog Rstr_Controller := withKubeClient.
Definition Rstr_withOpenEBSClient : Rstr_Controller → prog Rstr_Controller := withOpenEBSClient.
Definition Rstr_withLister : Rstr_Controller → prog Rstr_Controller := withLister.
Definition Rstr_withSynced : Rstr_Controller → prog Rstr_Controller := withSynced.
Definition Rstr_withWorkqueueRateLimiting : Rstr_Controller → prog Rstr_Controller :=
  withWorkqueueRateLimiting.
Definition Rstr_withRecorder : Rstr_Controller → prog Rstr_Controller := withRecorder.
Definition Rstr_withEventHandler : Rstr_Controller → prog Rstr_Controller := withEventHandler.
Definition Rstr_Build : Rstr_Controller → prog Rstr_Controller := Controller_Build.
Definition Rstr_enqueue `{!CacheKeys} : obj KRstr → prog unit := enqueue KRstr.
Definition Rstr_isDeletionCandidate : obj KRstr → bool := isDeletionCandidate KRstr.
Definition Rstr_Run : Rstr_Controller → nat → prog unit := Controller_Run.
Definition Rstr_processNextWorkItem `{!GoRange} `{!Globals} `{!ErrorsFmt} `{!CacheKeys}
    (fuel : nat) : prog bool := processNextWorkItem (Rstr_syncHandler fuel).

Definition Node_Controller := ResourceController KNode.
Definition Node_NewControllerBuilder : Node_Controller := NewControllerBuilder.
Definition Node_withKubeClient : Node_Controller → prog Node_Controller := withKubeClient.
Definition Node_withOpenEBSClient : Node_Controller → prog Node_Controller := withOpenEBSClient.
Definition Node_withLister : Node_Controller → prog Node_Controller := withLister.
Definition Node_withSynced : Node_Controller → prog Node_Controller := withSynced.
Definition Node_withWorkqueueRateLimiting : Node_Controller → prog Node_Controller :=
  withWorkqueueRateLimiting.
Definition Node_withRecorder : Node_Controller → prog Node_Controller := withRecorder.
Definition Node_withEventHandler : Node_Controller → prog Node_Controller := withEventHandler.
Definition Node_Build : Node_Controller → prog Node_Controller := Controller_Build.
Definition Node_processNextWorkItem `{!GoRange} `{!Globals} `{!ErrorsFmt} `{!CacheKeys}
    (ownerRef : OwnerReference) : prog bool := processNextWorkItem (Node_syncHandler ownerRef).

Definition ZV_processNextWorkItem `{!GoRange} `{!Globals} `{!ErrorsFmt} `{!CacheKeys} : prog bool :=
  processNextWorkItem ZV_syncHandler.
