(* ===== verification/WiringSpec.v ===== *)
(** * What the start of the agent guarantees

    The five controllers start side by side: the construction that touches the shared
    scheme is serialized and none of them waits for ever; a controller sees its events
    only when it is complete; the node resources belong to the node the agent runs on. *)

From S2P Require Import Prelude GoStr GoErr Api Csi Effects Kube ZfsArgs Builders VolumeOps ZfsOps Laws Sim Reconcilers Wiring.

(** ** The mutex of the controllers *)

(** What a command does with the mutex and with the scheme it protects. *)
Inductive use := Locks | Unlocks | Touches | Ignores.

Definition use_of (c : cmd) : use :=
  match c with
  | CUp UMtxLock => Locks
  | CUp UMtxUnlock => Unlocks
  | CUp UAddToScheme => Touches
  | _ => Ignores
  end.

(** What a goroutine may do next, by whether it holds the mutex, and whether it holds
    it afterwards. *)
Definition permitted (held : bool) (c : cmd) : bool :=
  match use_of c with
  | Locks => negb held
  | Unlocks | Touches => held
  | Ignores => true
  end.

Definition after (held : bool) (c : cmd) : bool :=
  match use_of c with
  | Locks => true
  | Unlocks => false
  | _ => held
  end.

(** A program that locks, unlocks and touches the scheme in turn, and ends without
    the mutex. *)
Fixpoint disciplined {A} (held : bool) (p : prog A) : Prop :=
  match p with
  | Vis c k => permitted held c = true ∧ ∀ r, disciplined (after held c) (k r)
  | _ => held = false
  end.

Lemma disciplined_bind {A B} h (p : prog A) (f : A → prog B) :
  disciplined h p → (∀ a, disciplined false (f a)) → disciplined h (p ≫= f).
Proof.
  intros Hp Hf. revert h Hp. induction p as [a| | | |c k IH]; intros h Hp; simpl in *; try done.
  - rewrite Hp. apply Hf.
  - destruct Hp as [Hc Hk]. split; [done|]. intros r. by apply IH.
Qed.

Lemma disciplined_attempt {A} h (p : prog A) : disciplined h p → disciplined h (attempt p).
Proof.
  revert h. induction p as [| | | |c k IH]; intros h Hp; simpl in *; try done.
  destruct Hp as [Hc Hk]. split; [done|]. intros r. by apply IH.
Qed.

Lemma disciplined_lift {A} (r : result A) : disciplined false (lift r).
Proof. by destruct r. Qed.

Lemma disciplined_deferred {A} d (p : prog A) :
  disciplined false d → disciplined false p → disciplined false (deferred d p).
Proof.
  intros Hd Hp. apply disciplined_bind; [by apply disciplined_attempt|]. intros r.
  apply disciplined_bind; [done|]. intros _. apply disciplined_lift.
Qed.

Section starts.
Context `{!Globals} `{!LabelSelectors}.

Lemma disciplined_poll fuel c : disciplined false (poll fuel c).
Proof.
  induction fuel as [|fuel IH]; [done|]. cbn. split; [done|]. intros []; [|done]. cbn.
  destruct (ctl_workqueue c); cbn; [|done]. by repeat (split; [done|]; intros ?).
Qed.

Lemma disciplined_workers k n : disciplined false (start_workers k n).
Proof. induction n as [|n IH]; [done|]. by split; [|intros ?]. Qed.

Lemma disciplined_run {k} (c : ResourceController k) (p : prog unit) :
  disciplined false p →
  disciplined false (deferred (_ ← field (ctl_workqueue c); up UQueueShutDown)
    (_ ← field (ctl_synced c);
     ok ← up (UWaitForCacheSync k);
     if negb ok then Throw (ErrText "failed to wait for caches to sync") else p)).
Proof.
  intros Hp. apply disciplined_deferred.
  - by destruct (ctl_workqueue c).
  - destruct (ctl_synced c); [|done]. cbn. split; [done|]. by intros [].
Qed.

Lemma disciplined_Controller_Run {k} (c : ResourceController k) n : disciplined false (Controller_Run c n).
Proof.
  apply disciplined_run, disciplined_bind; [apply disciplined_workers|]. by split.
Qed.

Lemma disciplined_Node_Run fuel c n : disciplined false (Node_Run fuel c n).
Proof.
  apply disciplined_run, disciplined_bind; [apply disciplined_workers|]. intros _.
  apply disciplined_poll.
Qed.

Lemma disciplined_connect : disciplined false connect.
Proof. cbn. repeat (split; [done|]; intros [[]|e]; [|done]). done. Qed.

Lemma disciplined_find : disciplined false find_k8s_node.
Proof.
  unfold find_k8s_node. cbn -[TrimSpace]. split; [done|]. intros nodeName.
  destruct (_ || _).
  - cbn. split; [done|]. by intros [].
  - destruct (equals_selector _ _); [|done]. cbn. split; [done|].
    by intros [[|? []]|].
Qed.

(** The critical section: a construction that only touches the scheme. *)
Lemma disciplined_locked {k} (build : prog (ResourceController k)) :
  disciplined true (attempt build ≫= λ r, _ ← up UMtxUnlock;
    match r with
    | Err err => Throw (ErrWrap err "error building controller instance")
    | Ok c => Ret c
    end) →
  disciplined false (locked_build build).
Proof. intros Hb. split; [done|]. intros []. exact Hb. Qed.

Lemma disciplined_Start k : disciplined false (Start k).
Proof.
  apply disciplined_bind; [apply disciplined_connect|]. intros _.
  apply disciplined_bind.
  - apply disciplined_locked. cbn. do 3 (split; [done|]; intros ?).
    split; [done|]. by intros [[]|e]; (split; [done|]).
  - intros c. apply disciplined_bind; [by split|]. intros _.
    apply disciplined_bind; [by split|]. intros _. apply disciplined_Controller_Run.
Qed.

Lemma disciplined_Node_Start fuel : disciplined false (Node_Start fuel).
Proof.
  apply disciplined_bind; [apply disciplined_connect|]. intros _.
  apply disciplined_bind; [apply disciplined_find|]. intros node.
  apply disciplined_bind.
  - apply disciplined_locked. cbn. do 3 (split; [done|]; intros ?).
    split; [done|]. by intros [[]|e]; (split; [done|]).
  - intros c. apply disciplined_bind; [by split|]. intros _. apply disciplined_Node_Run.
Qed.

Lemma disciplined_fatal format p :
  disciplined false p → disciplined false (start_or_fatal format p).
Proof.
  intros Hp. apply disciplined_bind; [by apply disciplined_attempt|]. by intros [].
Qed.

Lemma disciplined_NewNode fuel : Forall (disciplined false) (NewNode fuel).
Proof.
  unfold NewNode. rewrite !Forall_cons, Forall_nil.
  split_and!; try done; apply disciplined_fatal; [apply disciplined_Node_Start|apply disciplined_Start..].
Qed.

(** ** The starts side by side *)

Record starting := mkStarting {
  up_threads : list (prog unit);
  up_owner : option nat; (* the goroutine that holds the mutex *)
}.

Definition owner_after (i : nat) (c : cmd) (o : option nat) : option nat :=
  match use_of c with
  | Locks => Some i
  | Unlocks => None
  | _ => o
  end.

(** One command of one goroutine, with any answer; the mutex is taken when it is free. *)
Inductive up_step : starting → starting → Prop :=
| up_command s i c k r :
    up_threads s !! i = Some (Vis c k) →
    (use_of c = Locks → up_owner s = None) →
    up_step s (mkStarting (<[i := k r]> (up_threads s)) (owner_after i c (up_owner s))).

Inductive up_reachable (fuel : nat) : starting → Prop :=
| up_init : up_reachable fuel (mkStarting (NewNode fuel) None)
| up_more s s' : up_reachable fuel s → up_step s s' → up_reachable fuel s'.

Definition holds (s : starting) (i : nat) : bool := bool_decide (up_owner s = Some i).

(** Each goroutine goes on as one that holds the mutex exactly when it is the owner. *)
Definition up_inv (s : starting) : Prop :=
  (∀ i, up_owner s = Some i → is_Some (up_threads s !! i)) ∧
  ∀ i p, up_threads s !! i = Some p → disciplined (holds s i) p.

Lemma up_inv_step s s' : up_step s s' → up_inv s → up_inv s'.
Proof.
  intros Hs. destruct Hs as [s i c k r Hi Hfree]. intros [Ho Hinv]. destruct (Hinv i _ Hi) as [Hp Hk]. specialize (Hk r).
  assert (i < length (up_threads s))%nat as Hlt by (by eapply lookup_lt_Some).
  unfold up_inv, holds, permitted, after, owner_after in *. cbn [up_threads up_owner].
  split; intros j.
  - intros Hj. apply lookup_lt_is_Some. rewrite length_insert. apply lookup_lt_is_Some.
    destruct (decide (i = j)) as [<-|Hne]; [by eexists|]. apply Ho.
    destruct (use_of c); try done. congruence.
  - intros p Hj. destruct (decide (i = j)) as [<-|Hne].
    + rewrite list_lookup_insert_eq in Hj by done. injection Hj as <-.
      destruct (use_of c); try done. by rewrite bool_decide_true.
    + rewrite list_lookup_insert_ne in Hj by done. specialize (Hinv j p Hj).
      destruct (use_of c); try done.
      * rewrite bool_decide_false in Hinv by (rewrite Hfree by done; done).
        by rewrite bool_decide_false by congruence.
      * apply bool_decide_eq_true in Hp. rewrite Hp in Hinv.
        rewrite bool_decide_false in Hinv by congruence. by rewrite bool_decide_false.
Qed.

Lemma up_reachable_inv fuel s : up_reachable fuel s → up_inv s.
Proof.
  induction 1 as [|s s' _ IH Hs]; [|by eapply up_inv_step]. split; [done|].
  intros i p Hi. unfold holds. rewrite bool_decide_false by done.
  eapply Forall_lookup_1; [apply disciplined_NewNode|exact Hi].
Qed.

End starts.

(** ** Order of the start *)

Section order.
Context `{!Globals} `{!LabelSelectors} `{!GoRange} `{!ErrorsFmt} `{!CacheKeys}.

(** Events are delivered, and workers run, for a controller that is complete: its
    handlers, queue and recorder are there and its types are known; the workers start on
    a cache that is filled. *)
Definition order_guard (k : kind) (c : cmd) (tr : trace) : Prop :=
  match c with
  | CUp (UStartInformers (Some k')) =>
    k' = k ∧ ev (CUp (UAddEventHandler k)) tt ∈ tr ∧ ev (CUp (UNewQueue (queue_name k))) tt ∈ tr ∧
    ev (CUp (UNewRecorder (controllerAgentName k))) tt ∈ tr ∧ ev (CUp UAddToScheme) (Ok tt) ∈ tr
  | CUp (UGoWorker k') =>
    k' = k ∧ ev (CUp (UStartInformers (Some k))) tt ∈ tr ∧
    ev (CUp (UWaitForCacheSync k)) true ∈ tr
  | CQueueAdd _ => ev (CUp (UGoWorker k)) tt ∈ tr
  | _ => True
  end.

(** The guard of a command, from the events of the trace. *)
Ltac in_trace := first [exact I|split_and!; first [done|apply list_elem_of_In; simpl; tauto]].

(** A command whose answer does not matter, and one that may fail. *)
Ltac up_unit := split; [in_trace|]; intros []; trace_step.
Ltac up_fallible := split; [in_trace|]; intros [[]|]; trace_step; [|try done].

Lemma safe_Start k : safe any_env (order_guard k) (Start k) [].
Proof.
  cbn. do 3 up_fallible. do 4 up_unit.
  split; [done|]; intros [[]|]; trace_step; [|by split]. do 3 up_unit.
  split; [done|]; intros []; trace_step.
  - do 4 up_unit. done.
  - by split.
Qed.

Lemma safe_poll fuel c tr :
  ctl_workqueue c ≠ None → ev (CUp (UGoWorker KNode)) tt ∈ tr →
  safe any_env (order_guard KNode) (poll fuel c) tr.
Proof.
  intros Hq. destruct (ctl_workqueue c) as [q|] eqn:E; [|done]. clear Hq.
  revert tr. induction fuel as [|fuel IH]; intros tr Hw; [done|]. cbn. split; [done|].
  intros []; trace_step; [|done]. rewrite E. cbn. split; [set_solver|]. intros []; trace_step.
  split; [done|]. intros []; trace_step. apply IH. set_solver.
Qed.

Lemma safe_find tr : safe any_env (order_guard KNode) find_k8s_node tr.
Proof.
  unfold find_k8s_node. cbn -[TrimSpace]. split; [done|]. intros nodeName; trace_step.
  destruct (_ || _).
  - cbn. split; [done|]. intros []; by trace_step.
  - destruct (equals_selector _ _); [|done]. cbn. split; [done|]. intros [[|? []]|]; by trace_step.
Qed.

(** The commands of a program do not matter to the guard of what follows it. *)
Lemma safe_seq {A B} G (p : prog A) (f : A → prog B) tr :
  safe any_env G p tr → (∀ a rest, safe any_env G (f a) (tr ++ rest)) →
  safe any_env G (p ≫= f) tr.
Proof.
  intros Hp Hf. apply safe_bind; [done|]. apply trace_extends. by intros [a|e|m|] rest.
Qed.

Lemma safe_Node_Start fuel : safe any_env (order_guard KNode) (Node_Start fuel) [].
Proof.
  unfold Node_Start. apply safe_seq.
  { cbn. do 3 up_fallible. done. }
  intros _ tr0. simpl app. apply safe_seq; [apply safe_find|]. intros node tr1.
  generalize (tr0 ++ tr1). clear tr0 tr1. intros tr0.
  cbn -[poll]. do 4 up_unit.
  split; [done|]; intros [[]|]; trace_step; [|by split]. up_unit.
  split; [split_and!; [done|set_solver..]|]. intros []; trace_step.
  split; [done|]. intros []; trace_step.
  - split; [split_and!; [done|set_solver..]|]. intros []; trace_step.
    change (prog_bind ?f ?p) with (p ≫= f). apply safe_seq.
    + apply safe_attempt, safe_poll; [done|set_solver].
    + intros r rest. up_unit. by destruct r.
  - by split.
Qed.

(** Nothing is nil when it is used, and a controller whose workers were started shuts
    its queue down before it ends. *)
Definition run_post (k : kind) (o : outcome unit) (tr : trace) : Prop :=
  match o with
  | ORet _ | OErr _ =>
    ev (CUp (UGoWorker k)) tt ∈ tr → last tr = Some (ev (CUp UQueueShutDown) tt)
  | OSpin => True
  | OPanic _ => False
  end.

Ltac refuse := intros Hin%list_elem_of_In; simpl in Hin; by destruct_or? Hin.

Lemma wp_Start k : wp any_env (Start k) (run_post k) [].
Proof.
  cbn. do 3 (intros [[]|e]; trace_step; [|refuse]). do 4 (intros []; trace_step).
  intros [[]|e]; trace_step; intros []; trace_step; [|refuse].
  do 2 (intros []; trace_step). intros []; trace_step; repeat (intros []; trace_step); done.
Qed.

(** The events of a program are of its commands. *)
Lemma trace_only {A} (P : cmd → Prop) (p : prog A) tr :
  only P p → total p → Forall (λ x, P (projT1 x)) tr →
  wp any_env p (λ o tr', returned o ∧ Forall (λ x, P (projT1 x)) tr') tr.
Proof.
  revert tr. induction p as [a|e| | |c k IH]; intros tr Hp Ht Hl; try done; simpl.
  intros r tr' ->. destruct Hp as [Hc Hk]. apply IH; [done..|].
  apply Forall_app. split; [done|]. by constructor.
Qed.

Definition no_worker (c : cmd) : Prop := ∀ k, c ≠ CUp (UGoWorker k).

Lemma no_worker_in k tr : Forall (λ x, no_worker (projT1 x)) tr → ev (CUp (UGoWorker k)) tt ∉ tr.
Proof. intros Hf Hin. rewrite Forall_forall in Hf. by apply (Hf _ Hin k). Qed.

Lemma wp_before_build :
  wp any_env (_ ← connect; find_k8s_node)
    (λ o tr, returned o ∧ Forall (λ x, no_worker (projT1 x)) tr) [].
Proof.
  apply trace_only; [| |done]; unfold connect, find_k8s_node, wrap_err, up.
  - solve_only.
  - solve_total.
Qed.

Lemma wp_poll fuel c (Q : outcome unit → trace → Prop) tr :
  ctl_workqueue c ≠ None → (∀ rest, Q (ORet tt) (tr ++ rest)) → (∀ rest, Q OSpin (tr ++ rest)) →
  wp any_env (poll fuel c) Q tr.
Proof.
  intros Hq. destruct (ctl_workqueue c) as [q|] eqn:E; [|done]. clear Hq.
  revert tr. induction fuel as [|fuel IH]; intros tr Hr Hs.
  - rewrite <- (app_nil_r tr). apply Hs.
  - cbn. intros []; trace_step; [|by apply Hr]. rewrite E. cbn. intros []; trace_step.
    intros []; trace_step. rewrite <- !(assoc_L (++)).
    apply IH; intros rest; rewrite <- (assoc_L (++)); [apply Hr|apply Hs].
Qed.

Lemma wp_Node_Start fuel : wp any_env (Node_Start fuel) (run_post KNode) [].
Proof.
  unfold Node_Start. apply wp_bind.
  pose proof wp_before_build as Hb. apply wp_bind in Hb. eapply wp_mono, Hb.
  intros [[]|e|m|] tr; cbn [bind_post]; [|intros [_ Hn] Hin; by apply no_worker_in in Hin|by intros []..].
  intros Hf. apply wp_bind. eapply wp_mono, Hf. clear Hb Hf.
  intros [node|e|m|] tr1; cbn [bind_post]; [|intros [_ Hn] Hin; by apply no_worker_in in Hin|by intros []..].
  intros [_ Hn]. apply (no_worker_in KNode) in Hn. cbn -[poll]. do 4 (intros []; trace_step).
  intros [[]|e]; trace_step; intros []; trace_step; [|set_solver].
  intros []; trace_step. intros []; trace_step.
  - intros []; trace_step. change (prog_bind ?f ?p) with (p ≫= f). apply wp_bind, wp_attempt.
    apply wp_poll; [done| |done]. intros rest. cbn. intros []; trace_step. intros _. by rewrite last_snoc.
  - intros []; trace_step. intros _. by rewrite last_snoc.
Qed.

(** A controller sees events and runs workers only when it is complete: its
    handlers, work queue and recorder are in place and its types are registered before
    its informers start, and its workers start on a filled cache; nothing is nil when it
    is used; and once workers were started the queue is shut down before the controller
    ends. *)
Theorem controllers_complete fuel k :
  safe any_env (order_guard k) (Start k) [] ∧
  safe any_env (order_guard KNode) (Node_Start fuel) [] ∧
  wp any_env (Start k) (run_post k) [] ∧
  wp any_env (Node_Start fuel) (run_post KNode) [].
Proof.
  split_and!; [apply safe_Start|apply safe_Node_Start|apply wp_Start|apply wp_Node_Start].
Qed.
End order.

(** ** The node the agent runs on *)

(** The nodes of the cluster with their labels, which stay; the variables of the
    process; and what the selector of a label requirement selects. *)
Class ClusterLaws {St} (E : Env St) `{!LabelSelectors} (nodes : list (k8s_node * smap))
    (environ : string → string) := {
  cl_getenv n s v s' : E (CGetenv n) s v s' → v = environ n;
  cl_labels n s labels s' :
    E (CGetK8sNode n) s (Ok labels) s' → ∃ node, (node, labels) ∈ nodes ∧ kn_Name node = n;
  cl_get n s node s' :
    E (CUp (UK8sNode n)) s (Ok node) s' → kn_Name node = n ∧ ∃ labels, (node, labels) ∈ nodes;
  cl_list key v sel s items s' :
    equals_selector key v = Ok sel → E (CUp (UK8sNodeList sel)) s (Ok items) s' →
    ∀ node, node ∈ items ↔ ∃ labels, (node, labels) ∈ nodes ∧ labels !! key = Some v;
  cl_named node labels : (node, labels) ∈ nodes → TrimSpace (kn_Name node) ≠ "";
}.

Section own_node.
Context {St : Type} (E : Env St) `{!LabelSelectors}.
Context (nodes : list (k8s_node * smap)) (environ : string → string).
Context `{!ClusterLaws E nodes environ}.

Abbreviation this_node := (environ "OPENEBS_NODE_NAME").

(** The identifier the agent takes: the label of its node, or the name. *)
Definition own_id (id : string) : Prop :=
  ∃ node labels, (node, labels) ∈ nodes ∧ kn_Name node = this_node ∧
    (labels !! ZFSTopologyKey = Some id ∨ id = this_node).

Lemma wp_GetNodeID s :
  wp E (GetNodeID this_node)
    (λ o s', match o with ORet id => own_id id | OErr _ => True | _ => False end) s.
Proof.
  cbn. intros [labels|e] s1 H1; cbn; [|done].
  destruct (cl_labels _ _ _ _ H1) as (node & Hin & Hname).
  destruct (labels !! ZFSTopologyKey) as [v|] eqn:Hl; cbn; exists node, labels; eauto.
Qed.

Lemma wp_find_k8s_node {G : Globals} s :
  own_id NodeID →
  wp E find_k8s_node
    (λ o s', match o with ORet node => kn_Name node = this_node | OErr _ => True | _ => False end) s.
Proof.
  intros (own & labels & Hin & Hname & Hid). unfold find_k8s_node.
  cbn -[TrimSpace]. intros v s1 ->%cl_getenv.
  destruct (_ || _) eqn:Hc.
  - cbn. intros [node|e] s2 H2; cbn; [|done]. destruct (cl_get _ _ _ _ H2) as [Hn [ls Hls]].
    apply orb_true_iff in Hc as [Hc|Hc].
    + apply Z.eqb_eq, slen_zero in Hc. apply cl_named in Hls. by rewrite Hn in Hls.
    + apply String.eqb_eq in Hc. congruence.
  - apply orb_false_iff in Hc as [_ Hc%String.eqb_neq].
    destruct (equals_selector _ _) as [sel|] eqn:Hsel; [|done]. cbn.
    intros [items|e] s2 H2; cbn; [|done].
    destruct items as [|node []]; cbn; try done.
    assert (own ∈ [node]) as Hown; [|by apply list_elem_of_singleton in Hown as <-].
    eapply cl_list; [exact Hsel|exact H2|]. exists labels. split; [done|]. by destruct Hid.
Qed.

(** C23: the node object that owns the resource of the agent's pools is the node the
    agent runs on, however the node is labelled: the identifier that the start of the
    process takes and the search of the node controller fit together. *)
Theorem owner_is_own_node s :
  environ "OPENEBS_NODE_DRIVER" ≠ "" →
  wp E (G ← init; node ← find_k8s_node; Ret (owner_of node))
    (λ o s', match o with
             | ORet ref => ref_Kind ref = "Node" ∧ ref_Name ref = this_node
             | OSpin => False
             | _ => True
             end) s.
Proof.
  intros Hd. apply wp_bind. unfold init.
  generalize wp_GetNodeID. generalize (GetNodeID). intros get Hget.
  cbn [call mbind prog_mbind prog_bind wp]. intros ns s1 _ nd s2 ->%cl_getenv.
  destruct (String.eqb_spec (environ "OPENEBS_NODE_DRIVER") ""); [done|]. cbn [negb].
  destruct (ns =? ""); [done|].
  cbn [call mbind prog_mbind prog_bind wp]. intros nn s3 ->%cl_getenv.
  destruct (_ =? ""); [done|].
  apply wp_bind, wp_bind, wp_attempt. eapply wp_mono, Hget.
  intros [id|e|m|] s4 Hid; try done.
  cbn [call mbind prog_mbind prog_bind wp bind_post]. intros an s5 _ gc s6 _.
  apply wp_bind. eapply wp_mono; [|by apply wp_find_k8s_node].
  intros [node|e|m|] s7 Hn; try done.
Qed.
End own_node.

(** ** A simulated cluster *)

(** Selectors of the form [key=value], as the labels package prints them; a key with an
    equals sign is refused. *)
#[export] Instance sim_selectors : LabelSelectors := λ key v,
  if has_char "=" key then Err (ErrText "invalid label key") else Ok (key +:+ "=" +:+ v).

Definition cluster_handler (nodes : list (k8s_node * smap)) (environ : string → string)
    : handler sim := λ c s,
  match c as c return resp c * sim with
  | CGetenv n => (environ n, s)
  | CGetK8sNode n =>
    (match List.find (λ e, kn_Name e.1 =? n) nodes with Some e => Ok e.2 | None => not_found end, s)
  | CUp c =>
    (match c as c return up_resp c with
     | UK8sNode n =>
       match List.find (λ e, kn_Name e.1 =? n) nodes with Some e => Ok e.1 | None => not_found end
     | UK8sNodeList sel =>
       let '(key, v, _) := Cut "=" sel in
       Ok (map fst (List.filter (λ e, bool_decide (e.2 !! key = Some v)) nodes))
     | c => sim_up c
     end, s)
  | c => sim_handler c s
  end.

Definition cluster_env nodes environ : Env sim := env_of (cluster_handler nodes environ).

Lemma cluster_env_laws nodes environ :
  Forall (λ e : k8s_node * smap, TrimSpace (kn_Name e.1) ≠ "") nodes →
  ClusterLaws (cluster_env nodes environ) nodes environ.
Proof.
  intros Hn. unfold cluster_env, env_of. split.
  - by intros n s v s' [= -> _].
  - intros n s labels s'. simpl. destruct (List.find _ _) as [[node ls]|] eqn:Hf; [|done].
    intros [= -> _]. apply find_some in Hf as [Hin Hname]. exists node.
    rewrite list_elem_of_In. by apply String.eqb_eq in Hname.
  - intros n s node s'. simpl. destruct (List.find _ _) as [[node' ls]|] eqn:Hf; [|done].
    intros [= -> _]. apply find_some in Hf as [Hin Hname]. apply String.eqb_eq in Hname.
    split; [done|]. exists ls. by rewrite list_elem_of_In.
  - intros key v sel s items s'. unfold equals_selector, sim_selectors.
    destruct (has_char "=" key) eqn:Hk; [done|]. intros [= <-]. simpl.
    rewrite Cut_found by done. intros [= <- _] node.
    rewrite list_elem_of_In, in_map_iff. setoid_rewrite filter_In.
    setoid_rewrite bool_decide_eq_true. setoid_rewrite list_elem_of_In. split.
    + intros ([node' ls] & <- & Hin & Hl). by exists ls.
    + intros (ls & Hin & Hl). by exists (node, ls).
  - intros node labels Hin. rewrite Forall_forall in Hn. apply (Hn _ Hin).
Qed.

(** ** Polling *)

(** client-go's documented form of a key. *)
Class CacheKeyFormat `{CacheKeys} :=
  key_format m : Namespace m ≠ "" →
    MetaNamespaceKeyFunc m = Ok (Namespace m +:+ "/" +:+ Name m).

(** The item the node controller puts on its queue when it polls is the key of the
    agent's own node resource: the worker reconciles that resource with it. *)
Lemma polled_item_synced `{!Globals} `{!ErrorsFmt} `{!CacheKeys} `{!CacheKeysLaws} `{!CacheKeyFormat}
    ownerRef :
  OpenEBSNamespace ≠ "" → has_char "/" OpenEBSNamespace = false → has_char "/" NodeID = false →
  Node_syncHandler ownerRef (OpenEBSNamespace +:+ "/" +:+ NodeID) =
  syncNode ownerRef OpenEBSNamespace NodeID.
Proof.
  intros Hn Hs1 Hs2. unfold Node_syncHandler.
  destruct (split_key (emptyMeta {{ Namespace := OpenEBSNamespace }} {{ Name := NodeID }}))
    as (key & Hkey & Hsplit); try done.
  rewrite key_format in Hkey by done. injection Hkey as <-. cbn in Hsplit |- *.
  by rewrite Hsplit.
Qed.

(** ** Workers *)

(** A worker ends only when its queue is shut down; no failure of a reconciliation ends
    it. *)
Lemma runWorker_ends `{!ErrorsFmt} fuel (h : string → prog unit) tr :
  wp any_env (runWorker fuel (processNextWorkItem h))
    (λ o tr', match o with
              | ORet _ => last tr' = Some (ev CQueueGet None)
              | OErr _ => False
              | _ => True
              end) tr.
Proof.
  revert tr. induction fuel as [|fuel IH]; intros tr; [done|]. cbn [runWorker].
  apply wp_bind. unfold processNextWorkItem. cbn [call mbind prog_mbind prog_bind wp].
  intros [item|]; trace_step; [|by rewrite last_snoc].
  change (prog_bind ?f ?p) with (p ≫= f). apply wp_bind, wp_attempt.
  apply trace_extends. intros [u|e|m|] rest; cbn; try done.
Qed.
