(* ===== verification/Scheduler.v ===== *)
(** * Choosing a node and a pool (pkg/driver/schd_helper.go)

    The weights by which lib-csi's scheduler orders the nodes, the filter on the
    nodes that can hold a reservation, and the choice of a pool on a node.
    Go's [map[string]int64] is a [gmap string Z], 0 for an absent key. *)

From S2P Require Import Prelude GoStr GoErr Api Csi Effects Kube ZfsArgs Builders VolumeOps.

(** ** Regular expressions

    The engine of package regexp is a parameter; [QuoteMeta] is its function. *)

Class Regexp := {
  regex : Type;
  Compile : string → result regex;
  MatchString : regex → string → bool;
}.

Definition is_meta (c : ascii) : bool :=
  has_char c (String backslash ".+*?()|[]{}^$").

Fixpoint QuoteMeta (s : string) : string :=
  match s with
  | "" => ""
  | String c s => if is_meta c then String backslash (String c (QuoteMeta s))
                  else String c (QuoteMeta s)
  end.

Definition is_ascii (c : ascii) : bool := (Ascii.nat_of_ascii c <? 128)%nat.

Fixpoint all_ascii (s : string) : bool :=
  match s with "" => true | String c s => is_ascii c && all_ascii s end.

(** The documentation of QuoteMeta: the quoted text is an expression for the
    literal text, here between the anchors of the whole input. *)
Class RegexpLaws `{Regexp} :=
  compile_quoted s : all_ascii s = true →
    ∃ re, Compile ("^" +:+ QuoteMeta s +:+ "$") = Ok re ∧ ∀ t, MatchString re t = (t =? s).

(** ** Names *)

Definition VolumeWeighted := "VolumeWeighted".
Definition CapacityWeighted := "CapacityWeighted".
Definition SpaceWeighted := "SpaceWeighted".

Fixpoint k8sNodeName_ref (refs : list OwnerReference) : option string :=
  match refs with
  | [] => None
  | ref :: refs => if ref_Kind ref =? "Node" then Some (ref_Name ref) else k8sNodeName_ref refs
  end.

Definition k8sNodeName (node : ZFSNode) : string :=
  match k8sNodeName_ref (OwnerReferences (node_Meta node)) with
  | Some name => name
  | None => Name (node_Meta node)
  end.

(** [strings.SplitN(poolname, "/", 2)[0]] *)
Definition poolRoot (poolname : string) : string := (Cut "/" poolname).1.1.

(** [pmap[k]] *)
Definition zget (m : gmap string Z) (k : string) : Z := default 0%Z (m !! k).

Section scheduler.
Context `{!Regexp} `{!Globals}.

(** ** The pool parameters *)

(** [regexp.MustCompile] panics on an invalid expression. *)
Definition parsePoolParams (poolname poolpattern : string) : prog regex :=
  if negb (poolname =? "") && negb (poolpattern =? "") then
    Throw (ErrText "poolname and poolpattern are mutually exclusive, set only one of them")
  else if negb (poolpattern =? "") then
    match Compile poolpattern with
    | Err err =>
      Throw (ErrW (Sprintf "invalid poolpattern %q : %w" [poolpattern; Error err]) err)
    | Ok pattern => Ret pattern
    end
  else if negb (poolname =? "") then
    match Compile ("^" +:+ QuoteMeta (poolRoot poolname) +:+ "$") with
    | Err _ => Crash "regexp: Compile"
    | Ok pattern => Ret pattern
    end
  else Throw (ErrText "either poolname or poolpattern must be set").

Definition poolDesc (poolname poolpattern : string) : string :=
  if negb (poolpattern =? "") then Sprintf "poolpattern %q" [poolpattern]
  else Sprintf "poolname %q" [poolname].

Definition sourcePoolAllowed (srcPool poolname : string) (pattern : regex) : bool :=
  if negb (poolname =? "") then srcPool =? poolname
  else MatchString pattern (poolRoot srcPool).

Definition reservesSpace (vtype thinProvision : string) : bool :=
  if thinProvision =? "no" then true
  else negb (vtype =? VolTypeDataset) && negb (thinProvision =? "yes").

(** ** The roomiest pool *)

(** The loop, with its two variables. *)
Fixpoint maxFreePool_loop (pattern : regex) (pools : list Pool) (selected : string) (maxFree : Z)
    : string * Z :=
  match pools with
  | [] => (selected, maxFree)
  | pool :: pools =>
    if negb (MatchString pattern (pool_Name pool)) then
      maxFreePool_loop pattern pools selected maxFree
    else if (selected =? "") || (maxFree <? pool_Free pool)%Z then
      maxFreePool_loop pattern pools (pool_Name pool) (pool_Free pool)
    else maxFreePool_loop pattern pools selected maxFree
  end.

Definition maxFreePool (pools : list Pool) (pattern : regex) : string * Z :=
  maxFreePool_loop pattern pools "" 0.

(** ** Weights of the nodes *)

Definition listZFSNodes : prog (list ZFSNode) := Kubeclient_List KNode OpenEBSNamespace "".

(** [nodename[node.Name] = k8sNodeName(node)], for each node *)
Definition nodenames (nodelist : list ZFSNode) : smap :=
  fold_left (λ m node, <[Name (node_Meta node) := k8sNodeName node]> m) nodelist ∅.

(** The node a volume counts for. *)
Definition volume_node (nodelist : list ZFSNode) (zv : ZFSVolume) : string :=
  default (OwnerNodeID (vol_Spec zv)) (nodenames nodelist !! OwnerNodeID (vol_Spec zv)).

(** [m[k] += d] on [int64] values *)
Definition zadd (k : string) (d : Z) (m : gmap string Z) : gmap string Z :=
  <[k := wrap64 (zget m k + d)]> m.

Definition volumeWeightedMap (zvlist : list ZFSVolume) (nodelist : list ZFSNode) (pattern : regex)
    : gmap string Z :=
  fold_left
    (λ nmap zv, if negb (MatchString pattern (poolRoot (PoolName (vol_Spec zv)))) then nmap
                else zadd (volume_node nodelist zv) 1 nmap)
    zvlist ∅.

Definition getVolumeWeightedMap (pattern : regex) : prog (gmap string Z) :=
  zvlist ← Kubeclient_List KVol OpenEBSNamespace "";
  nodelist ← listZFSNodes;
  Ret (volumeWeightedMap zvlist nodelist pattern).

Definition capacityWeightedMap (nodelist : list ZFSNode) (pattern : regex) : gmap string Z :=
  fold_left
    (λ nmap node, fold_left
       (λ nmap pool, if MatchString pattern (pool_Name pool)
                     then zadd (k8sNodeName node) (pool_Used pool) nmap else nmap)
       (node_Pools node) nmap)
    nodelist ∅.

Definition getCapacityWeightedMap (pattern : regex) : prog (gmap string Z) :=
  nodelist ← listZFSNodes;
  Ret (capacityWeightedMap nodelist pattern).

(** One iteration of its loop. *)
Definition space_step (pattern : regex) (nmap : gmap string Z) (node : ZFSNode) : gmap string Z :=
  let '(pool, free) := maxFreePool (node_Pools node) pattern in
  if pool =? "" then nmap
  else <[k8sNodeName node := wrap64 (int64_max - free)]> nmap.

Definition spaceWeightedMap (nodelist : list ZFSNode) (pattern : regex) : gmap string Z :=
  fold_left (space_step pattern) nodelist ∅.

Definition getSpaceWeightedMap (pattern : regex) : prog (gmap string Z) :=
  nodelist ← listZFSNodes;
  Ret (spaceWeightedMap nodelist pattern).

Definition getNodeMap (schd : string) (pattern : regex) : prog (gmap string Z) :=
  if schd =? VolumeWeighted then getVolumeWeightedMap pattern
  else if schd =? CapacityWeighted then getCapacityWeightedMap pattern
  else if schd =? SpaceWeighted then getSpaceWeightedMap pattern
  else getCapacityWeightedMap pattern.

(** ** Nodes that can hold a reservation *)

(** The set of the nodes marked true, and whether any pool matched. *)
Definition suitableNodes (nodelist : list ZFSNode) (pattern : regex) (size : Z)
    : gset string * bool :=
  fold_left
    (λ '(suitable, matched) node,
       let '(pool, free) := maxFreePool (node_Pools node) pattern in
       if pool =? "" then (suitable, matched)
       else (if (size <? free)%Z then {[k8sNodeName node]} ∪ suitable else suitable, true))
    nodelist (∅, false).

Definition getSuitableNodes (pattern : regex) (size : Z) : prog (gset string * bool) :=
  nodelist ← listZFSNodes;
  match nodelist with
  | [] => Throw (ErrText "no ZFSNode found, the node agents have not reported their pools yet")
  | _ => Ret (suitableNodes nodelist pattern size)
  end.

Definition filterKeep (nodes : list string) (keep : gset string) : list string :=
  filter (λ node, node ∈ keep) nodes.

(** ** The pool on a node *)

Definition poolWeightMap (schd : string) (pools : list Pool) : gmap string Z :=
  fold_left
    (λ pmap pool,
       let weight := if schd =? SpaceWeighted then wrap64 (int64_max - pool_Free pool)
                     else pool_Used pool in
       <[pool_Name pool := weight]> pmap)
    pools ∅.

Definition poolVolumeMap (zvlist : list ZFSVolume) (nodeid : string) : gmap string Z :=
  fold_left
    (λ pmap zv, if OwnerNodeID (vol_Spec zv) =? nodeid
                then zadd (poolRoot (PoolName (vol_Spec zv))) 1 pmap else pmap)
    zvlist ∅.

Definition getPoolVolumeMap (nodeid : string) : prog (gmap string Z) :=
  zvlist ← Kubeclient_List KVol OpenEBSNamespace "";
  Ret (poolVolumeMap zvlist nodeid).

Definition getPoolMap (schd nodeid : string) (pools : list Pool) : prog (gmap string Z) :=
  if schd =? VolumeWeighted then getPoolVolumeMap nodeid
  else Ret (poolWeightMap schd pools).

Fixpoint poolForNode_loop (pattern : regex) (minFree : Z) (pmap : gmap string Z)
    (pools : list Pool) (selected : string) (selWeight : Z) : string :=
  match pools with
  | [] => selected
  | pool :: pools =>
    if negb (MatchString pattern (pool_Name pool)) then
      poolForNode_loop pattern minFree pmap pools selected selWeight
    else if (0 <? minFree)%Z && (pool_Free pool <=? minFree)%Z then
      poolForNode_loop pattern minFree pmap pools selected selWeight
    else
      let weight := zget pmap (pool_Name pool) in
      if (selected =? "") || (weight <? selWeight)%Z then
        poolForNode_loop pattern minFree pmap pools (pool_Name pool) weight
      else poolForNode_loop pattern minFree pmap pools selected selWeight
  end.

Definition poolForNode (pools : list Pool) (pattern : regex) (minFree : Z) (pmap : gmap string Z)
    : string :=
  poolForNode_loop pattern minFree pmap pools "" 0.

Definition resolvePool (schd nodeid : string) (pattern : regex) (minFree : Z) : prog string :=
  zfsNode ← Kubeclient_Get KNode OpenEBSNamespace nodeid;
  pmap ← getPoolMap schd nodeid (node_Pools zfsNode);
  Ret (poolForNode (node_Pools zfsNode) pattern minFree pmap).
End scheduler.
