(* ===== verification/RegexpSim.v ===== *)
(** * A fragment of regular expressions

    Literal text, quoted and between the anchors or searched for anywhere: enough
    of an engine to run the scheduler, and a model of the law the driver relies
    on. *)

From S2P Require Import Prelude GoStr GoErr Api Csi Effects Kube ZfsArgs Builders VolumeOps Scheduler.

Inductive lit_regex := Exact (s : string) | Within (s : string).

(** Quoted literal text up to the final anchor. *)
Fixpoint unquote (s : string) : option string :=
  match s with
  | "" => None
  | String c s' =>
    if Ascii.eqb c "$" then match s' with "" => Some "" | _ => None end
    else if Ascii.eqb c backslash then
      match s' with
      | String c' s'' => if is_meta c' then String c' <$> unquote s'' else None
      | "" => None
      end
    else if is_meta c then None
    else String c <$> unquote s'
  end.

Fixpoint plain (s : string) : bool :=
  match s with "" => true | String c s => negb (is_meta c) && plain s end.

#[export] Instance lit_engine : Regexp := {|
  regex := lit_regex;
  Compile p :=
    match p with
    | String "^" rest =>
      match unquote rest with Some s => Ok (Exact s) | None => Err (ErrText "unsupported") end
    | _ => if plain p then Ok (Within p) else Err (ErrText "unsupported")
    end;
  MatchString re t := match re with Exact s => t =? s | Within s => Contains t s end;
|}.

Lemma unquote_QuoteMeta s : unquote (QuoteMeta s +:+ "$") = Some s.
Proof.
  induction s as [|c s IH]; [done|]. cbn [QuoteMeta].
  destruct (is_meta c) eqn:Hm.
  - change (String backslash (String c (QuoteMeta s)) +:+ "$")
      with (String backslash (String c (QuoteMeta s +:+ "$"))).
    cbn [unquote]. rewrite Hm, IH. done.
  - change (String c (QuoteMeta s) +:+ "$") with (String c (QuoteMeta s +:+ "$")).
    cbn [unquote]. rewrite Hm, IH.
    destruct (Ascii.eqb_spec c "$"); [by subst|]. by destruct (Ascii.eqb_spec c backslash); [subst|].
Qed.

#[export] Instance lit_engine_laws : RegexpLaws.
Proof.
  intros s _. exists (Exact s). split; [|done].
  change ("^" +:+ QuoteMeta s +:+ "$") with (String "^" (QuoteMeta s +:+ "$")). simpl.
  by rewrite unquote_QuoteMeta.
Qed.
