(* ===== verification/SchedulerSpec.v ===== *)
(** * What the scheduler guarantees *)

From S2P Require Import Prelude GoStr GoErr Api Csi Effects.
From S2P Require Import Kube ZfsArgs ZfsArgsSpec Builders VolumeOps Scheduler RegexpSim.

(** ** Selecting a pool: the reference

    The first of the pools that qualify with the least key. *)
Fixpoint best (ok : Pool → bool) (key : Pool → Z) (pools : list Pool) (sel : option Pool)
    : option Pool :=
  match pools with
  | [] => sel
  | p :: pools =>
    if ok p then
      match sel with
      | None => best ok key pools (Some p)
      | Some q => best ok key pools (if (key p <? key q)%Z then Some p else sel)
      end
    else best ok key pools sel
  end.

(** [p] is the first least one of [pools] among those that qualify. *)
Definition first_least (ok : Pool → bool) (key : Pool → Z) (pools : list Pool) (p : Pool) : Prop :=
  ∃ l1 l2, pools = l1 ++ p :: l2 ∧ ok p = true ∧
           (∀ q, q ∈ l1 → ok q = true → (key p < key q)%Z) ∧
           (∀ q, q ∈ l2 → ok q = true → (key p <= key q)%Z).

Lemma best_Some ok key pools q :
  ok q = true →
  (best ok key pools (Some q) = Some q ∧ ∀ p, p ∈ pools → ok p = true → (key q <= key p)%Z) ∨
  (∃ p, best ok key pools (Some q) = Some p ∧ (key p < key q)%Z ∧ first_least ok key pools p).
Proof.
  revert q. induction pools as [|p pools IH]; intros q Hq; simpl; [left; set_solver|].
  destruct (ok p) eqn:Hp.
  - destruct (Z.ltb_spec (key p) (key q)) as [Hlt|Hge].
    + right. destruct (IH p Hp) as [[-> Hle]|(p' & -> & Hlt' & l1 & l2 & -> & Hok & H1 & H2)].
      * exists p. split_and!; [done..|]. exists [], pools. set_solver.
      * exists p'. split_and!; [done|lia|]. exists (p :: l1), l2. split_and!; [done..| |done].
        intros q' [->|?]%elem_of_cons; auto.
    + destruct (IH q Hq) as [[-> Hle]|(p' & -> & Hlt' & l1 & l2 & -> & Hok & H1 & H2)].
      * left. split; [done|]. intros p' [->|?]%elem_of_cons; auto.
      * right. exists p'. split_and!; [done..|]. exists (p :: l1), l2. split_and!; [done..| |done].
        intros q' [->|?]%elem_of_cons; [lia|auto].
  - destruct (IH q Hq) as [[-> Hle]|(p' & -> & Hlt' & l1 & l2 & -> & Hok & H1 & H2)].
    + left. split; [done|]. intros p' [->|?]%elem_of_cons; [congruence|auto].
    + right. exists p'. split_and!; [done..|]. exists (p :: l1), l2. split_and!; [done..| |done].
      intros q' [->|?]%elem_of_cons; [congruence|auto].
Qed.

Lemma best_spec ok key pools :
  match best ok key pools None with
  | None => ∀ p, p ∈ pools → ok p = false
  | Some p => first_least ok key pools p
  end.
Proof.
  induction pools as [|p pools IH]; simpl; [set_solver|].
  destruct (ok p) eqn:Hp.
  - destruct (best_Some ok key pools p Hp) as [[-> Hle]|(p' & -> & Hlt & l1 & l2 & -> & Hok & H1 & H2)].
    + exists [], pools. set_solver.
    + exists (p :: l1), l2. split_and!; [done..| |done].
      intros q' [->|?]%elem_of_cons; auto.
  - destruct (best ok key pools None) as [p'|].
    + destruct IH as (l1 & l2 & -> & Hok & H1 & H2). exists (p :: l1), l2.
      split_and!; [done..| |done]. intros q' [->|?]%elem_of_cons; [congruence|auto].
    + set_solver.
Qed.

Section scheduler.
Context `{!Regexp}.

(** ZFS pools have names. *)
Definition named (pools : list Pool) : Prop := ∀ p, p ∈ pools → pool_Name p ≠ "".

Definition matches (pattern : regex) (p : Pool) : bool := MatchString pattern (pool_Name p).

(** Matching, and with enough room when a minimum is asked for. *)
Definition qualifies (pattern : regex) (minFree : Z) (p : Pool) : bool :=
  matches pattern p && negb ((0 <? minFree)%Z && (pool_Free p <=? minFree)%Z).

Lemma maxFreePool_loop_best pattern pools q :
  named pools → pool_Name q ≠ "" →
  maxFreePool_loop pattern pools (pool_Name q) (pool_Free q) =
  match best (matches pattern) (λ p, - pool_Free p)%Z pools (Some q) with
  | Some p => (pool_Name p, pool_Free p)
  | None => ("", 0%Z)
  end.
Proof.
  revert q. induction pools as [|p pools IH]; intros q Hn Hq; simpl; [done|].
  assert (named pools) by (intros ? ?; apply Hn; set_solver).
  assert (pool_Name p ≠ "") by (apply Hn; set_solver).
  unfold matches at 1. destruct (MatchString pattern (pool_Name p)); simpl; [|by apply IH].
  rewrite (proj2 (String.eqb_neq (pool_Name q) "")) by done. simpl.
  replace (- pool_Free p <? - pool_Free q)%Z with (pool_Free q <? pool_Free p)%Z
    by (destruct (Z.ltb_spec (pool_Free q) (pool_Free p)), (Z.ltb_spec (- pool_Free p) (- pool_Free q)); lia).
  destruct (_ <? _)%Z; by apply IH.
Qed.

Lemma maxFreePool_best pools pattern :
  named pools →
  maxFreePool pools pattern =
  match best (matches pattern) (λ p, - pool_Free p)%Z pools None with
  | Some p => (pool_Name p, pool_Free p)
  | None => ("", 0%Z)
  end.
Proof.
  unfold maxFreePool. induction pools as [|p pools IH]; intros Hn; simpl; [done|].
  assert (named pools) by (intros ? ?; apply Hn; set_solver).
  unfold matches at 1. destruct (MatchString pattern (pool_Name p)); simpl; [|by apply IH].
  apply maxFreePool_loop_best; [done|]. apply Hn; set_solver.
Qed.

Lemma poolForNode_loop_best pattern minFree pmap pools q :
  named pools → pool_Name q ≠ "" →
  poolForNode_loop pattern minFree pmap pools (pool_Name q) (zget pmap (pool_Name q)) =
  match best (qualifies pattern minFree) (λ p, zget pmap (pool_Name p)) pools (Some q) with
  | Some p => pool_Name p
  | None => ""
  end.
Proof.
  revert q. induction pools as [|p pools IH]; intros q Hn Hq; simpl; [done|].
  assert (named pools) by (intros ? ?; apply Hn; set_solver).
  assert (pool_Name p ≠ "") by (apply Hn; set_solver).
  unfold qualifies at 1, matches. destruct (MatchString pattern (pool_Name p)); simpl; [|by apply IH].
  destruct (_ && _); simpl; [by apply IH|].
  rewrite (proj2 (String.eqb_neq (pool_Name q) "")) by done. simpl.
  destruct (_ <? _)%Z; by apply IH.
Qed.

Lemma poolForNode_best pools pattern minFree pmap :
  named pools →
  poolForNode pools pattern minFree pmap =
  match best (qualifies pattern minFree) (λ p, zget pmap (pool_Name p)) pools None with
  | Some p => pool_Name p
  | None => ""
  end.
Proof.
  unfold poolForNode. induction pools as [|p pools IH]; intros Hn; simpl; [done|].
  assert (named pools) by (intros ? ?; apply Hn; set_solver).
  unfold qualifies at 1, matches. destruct (MatchString pattern (pool_Name p)); simpl; [|by apply IH].
  destruct (_ && _); simpl; [by apply IH|].
  apply poolForNode_loop_best; [done|]. apply Hn; set_solver.
Qed.

(** ** Suitable nodes *)

(** The node marked suitable by one entry of the list. *)
Definition node_fits (pattern : regex) (size : Z) (node : ZFSNode) : bool :=
  let '(pool, free) := maxFreePool (node_Pools node) pattern in
  negb (pool =? "") && (size <? free)%Z.

Definition node_matches (pattern : regex) (node : ZFSNode) : bool :=
  negb ((maxFreePool (node_Pools node) pattern).1 =? "").

Lemma suitableNodes_loop nodelist pattern size acc b :
  fold_left
    (λ '(suitable, matched) node,
       let '(pool, free) := maxFreePool (node_Pools node) pattern in
       if pool =? "" then (suitable, matched)
       else (if (size <? free)%Z then {[k8sNodeName node]} ∪ suitable else suitable, true))
    nodelist (acc, b) =
  (list_to_set (map k8sNodeName (List.filter (node_fits pattern size) nodelist)) ∪ acc : gset string,
   b || existsb (node_matches pattern) nodelist).
Proof.
  revert acc b. induction nodelist as [|node nodes IH]; intros acc b; simpl.
  { rewrite orb_false_r. f_equal. set_solver. }
  unfold node_fits at 1, node_matches at 1.
  destruct (maxFreePool (node_Pools node) pattern) as [pool free]. simpl.
  destruct (pool =? ""); simpl; [apply IH|]. rewrite IH, orb_true_r. simpl.
  destruct (size <? free)%Z; simpl; f_equal; set_solver.
Qed.

Lemma suitableNodes_eq nodelist pattern size :
  suitableNodes nodelist pattern size =
  (list_to_set (map k8sNodeName (List.filter (node_fits pattern size) nodelist)),
   existsb (node_matches pattern) nodelist).
Proof. unfold suitableNodes. rewrite suitableNodes_loop. simpl. f_equal. set_solver. Qed.

(** A node fits exactly when one of its matching pools has more room than asked. *)
Lemma node_fits_spec pattern size node :
  named (node_Pools node) →
  node_fits pattern size node = true ↔
  ∃ p, p ∈ node_Pools node ∧ matches pattern p = true ∧ (size < pool_Free p)%Z.
Proof.
  intros Hn. unfold node_fits. rewrite maxFreePool_best by done.
  pose proof (best_spec (matches pattern) (λ p, - pool_Free p)%Z (node_Pools node)) as Hb.
  destruct (best _ _ _ None) as [p|].
  - destruct Hb as (l1 & l2 & Heq & Hok & H1 & H2).
    assert (p ∈ node_Pools node) by (rewrite Heq; set_solver).
    rewrite (proj2 (String.eqb_neq (pool_Name p) "")) by auto. simpl. rewrite Z.ltb_lt. split.
    + intros Hlt. exists p. auto.
    + intros (q & Hq & Hm & Hlt). rewrite Heq, elem_of_app, elem_of_cons in Hq.
      destruct Hq as [Hq|[->|Hq]]; [|done|].
      * specialize (H1 q Hq Hm). simpl in H1. lia.
      * specialize (H2 q Hq Hm). simpl in H2. lia.
  - simpl. split; [done|]. intros (q & Hq & Hm & _). rewrite Hb in Hm; done.
Qed.

(** Enough room on a node means the choice of a pool succeeds there. *)
Lemma fits_qualifies pattern size p :
  matches pattern p = true → (size < pool_Free p)%Z → qualifies pattern size p = true.
Proof.
  intros Hm Hlt. unfold qualifies. rewrite Hm. simpl.
  rewrite (proj2 (Z.leb_gt (pool_Free p) size)) by done. by rewrite andb_false_r.
Qed.

Lemma poolForNode_nonempty pools pattern minFree pmap :
  named pools → (∃ p, p ∈ pools ∧ qualifies pattern minFree p = true) →
  ∃ p, p ∈ pools ∧ qualifies pattern minFree p = true ∧
       poolForNode pools pattern minFree pmap = pool_Name p.
Proof.
  intros Hn (q & Hq & Hok). rewrite poolForNode_best by done.
  pose proof (best_spec (qualifies pattern minFree) (λ p, zget pmap (pool_Name p)) pools) as Hb.
  destruct (best _ _ _ None) as [p|]; [|by rewrite Hb in Hok].
  destruct Hb as (l1 & l2 & -> & Hp & _). exists p. set_solver.
Qed.

(** ** Counting *)

Lemma zget_zadd m k d k' :
  zget (zadd k d m) k' = if decide (k = k') then wrap64 (zget m k + d) else zget m k'.
Proof.
  unfold zget at 1, zadd. destruct (decide (k = k')) as [->|Hne].
  - by rewrite lookup_insert_eq.
  - by rewrite lookup_insert_ne.
Qed.

(** Does the volume count for the node? *)
Definition counts_for (nodelist : list ZFSNode) (pattern : regex) (node : string) (zv : ZFSVolume)
    : bool :=
  MatchString pattern (poolRoot (PoolName (vol_Spec zv))) &&
  (volume_node nodelist zv =? node).

Lemma wrap64_succ z k : wrap64 (wrap64 (z + 1) + k) = wrap64 (z + (k + 1)).
Proof.
  unfold wrap64. f_equal.
  replace ((z + 1 + 9223372036854775808) mod 18446744073709551616 - 9223372036854775808 + k +
           9223372036854775808)%Z
    with ((z + 1 + 9223372036854775808) mod 18446744073709551616 + k)%Z by lia.
  rewrite Z.add_mod_idemp_l by lia. f_equal. lia.
Qed.

Lemma wrap64_idem z : wrap64 (wrap64 z) = wrap64 z.
Proof. apply wrap64_id, wrap64_in_range. Qed.

Lemma count_loop nodelist pattern zvlist nmap node :
  zget nmap node = wrap64 (zget nmap node) →
  zget (fold_left
    (λ nmap zv, if negb (MatchString pattern (poolRoot (PoolName (vol_Spec zv)))) then nmap
                else zadd (volume_node nodelist zv) 1 nmap) zvlist nmap) node =
  wrap64 (zget nmap node
          + Z.of_nat (length (List.filter (counts_for nodelist pattern node) zvlist))).
Proof.
  revert nmap. induction zvlist as [|zv zvlist IH]; intros nmap Hw; simpl.
  { by rewrite Z.add_0_r. }
  unfold counts_for at 1. destruct (MatchString _ _); simpl; [|by apply IH].
  rewrite IH; rewrite zget_zadd; destruct (decide _) as [->|Hne]; try done.
  - rewrite String.eqb_refl. simpl length. rewrite wrap64_succ. f_equal. lia.
  - by rewrite (proj2 (String.eqb_neq _ _) Hne).
  - by rewrite wrap64_idem.
Qed.
End scheduler.

Section space.
Context `{!Regexp}.

Lemma space_loop_notin nodelist pattern nmap name :
  name ∉ map k8sNodeName nodelist →
  fold_left (space_step pattern) nodelist nmap !! name = nmap !! name.
Proof.
  revert nmap. induction nodelist as [|node nodes IH]; intros nmap Hn; [done|]. cbn [fold_left].
  simpl in Hn. rewrite IH by set_solver. unfold space_step.
  destruct (maxFreePool _ _) as [pool free]. destruct (pool =? ""); [done|].
  rewrite lookup_insert_ne; set_solver.
Qed.

Lemma space_loop_lookup nodelist pattern nmap n :
  NoDup (map k8sNodeName nodelist) → n ∈ nodelist → node_matches pattern n = true →
  fold_left (space_step pattern) nodelist nmap !! k8sNodeName n =
  Some (wrap64 (int64_max - (maxFreePool (node_Pools n) pattern).2)).
Proof.
  revert nmap. induction nodelist as [|node nodes IH]; intros nmap Hnd Hin Hm; [set_solver|].
  cbn [fold_left]. apply NoDup_cons in Hnd as [Hnotin Hnd].
  apply elem_of_cons in Hin as [->|Hin].
  - rewrite space_loop_notin by done. unfold node_matches in Hm. unfold space_step.
    destruct (maxFreePool _ _) as [pool free]. simpl in *. destruct (pool =? ""); [done|].
    by rewrite lookup_insert_eq.
  - by apply IH.
Qed.

(** The free space of the roomiest pool is that of one of the pools, or 0. *)
Lemma maxFree_range pools pattern :
  (∀ p, p ∈ pools → pool_Name p ≠ "" ∧ (0 <= pool_Free p <= int64_max)%Z) →
  (0 <= (maxFreePool pools pattern).2 <= int64_max)%Z.
Proof.
  intros Hp. rewrite maxFreePool_best by (intros p ?; by apply Hp).
  pose proof (best_spec (matches pattern) (λ p, - pool_Free p)%Z pools) as Hb.
  destruct (best _ _ _ None) as [p|]; simpl; [|unfold int64_max; lia].
  destruct Hb as (l1 & l2 & -> & _). apply Hp. set_solver.
Qed.

Lemma spaceWeightedMap_lookup nodelist pattern n :
  NoDup (map k8sNodeName nodelist) →
  (∀ node p, node ∈ nodelist → p ∈ node_Pools node →
             pool_Name p ≠ "" ∧ (0 <= pool_Free p <= int64_max)%Z) →
  n ∈ nodelist → node_matches pattern n = true →
  spaceWeightedMap nodelist pattern !! k8sNodeName n =
    Some (int64_max - (maxFreePool (node_Pools n) pattern).2)%Z ∧
  (0 <= (maxFreePool (node_Pools n) pattern).2 <= int64_max)%Z.
Proof.
  intros Hnd Hpools Hin Hm.
  assert (0 <= (maxFreePool (node_Pools n) pattern).2 <= int64_max)%Z as Hr
    by (apply maxFree_range; naive_solver).
  split; [|done]. unfold spaceWeightedMap. rewrite space_loop_lookup by done.
  f_equal. apply wrap64_id. unfold in_int64, int64_min, int64_max in *. lia.
Qed.
End space.

(** ** Properties *)

(** The loop over the pools of a node returns the first of the matching pools
    with the most free space, and no name exactly when no pool matches. *)
Theorem maxFreePool_correct `{!Regexp} pools pattern :
  named pools →
  (maxFreePool pools pattern = ("", 0%Z) ∧ ∀ p, p ∈ pools → matches pattern p = false) ∨
  ∃ p, maxFreePool pools pattern = (pool_Name p, pool_Free p) ∧
       first_least (matches pattern) (λ p, - pool_Free p)%Z pools p.
Proof.
  intros Hn. rewrite maxFreePool_best by done.
  pose proof (best_spec (matches pattern) (λ p, - pool_Free p)%Z pools) as Hb.
  destruct (best _ _ _ None) as [p|]; eauto.
Qed.

(** C34: the pool chosen on a node is the first of least weight among the matching
    pools that can hold the volume; none is chosen exactly when there is none. *)
Theorem poolForNode_correct `{!Regexp} pools pattern minFree pmap :
  named pools →
  (poolForNode pools pattern minFree pmap = "" ∧
   ∀ p, p ∈ pools → qualifies pattern minFree p = false) ∨
  ∃ p, poolForNode pools pattern minFree pmap = pool_Name p ∧
       first_least (qualifies pattern minFree) (λ p, zget pmap (pool_Name p)) pools p.
Proof.
  intros Hn. rewrite poolForNode_best by done.
  pose proof (best_spec (qualifies pattern minFree) (λ p, zget pmap (pool_Name p)) pools) as Hb.
  destruct (best _ _ _ None) as [p|]; eauto.
Qed.

(** The filter and the choice of a pool agree: on a node that passes the filter
    for a size, the choice with that size as the minimum succeeds, with a pool that
    has more than that free. *)
Theorem suitable_node_has_pool `{!Regexp} nodelist pattern size name pmap :
  (∀ node, node ∈ nodelist → named (node_Pools node)) →
  name ∈ (suitableNodes nodelist pattern size).1 →
  ∃ node p, node ∈ nodelist ∧ k8sNodeName node = name ∧ p ∈ node_Pools node ∧
            poolForNode (node_Pools node) pattern size pmap = pool_Name p ∧
            matches pattern p = true ∧ (0 < size → size < pool_Free p)%Z.
Proof.
  intros Hn. rewrite suitableNodes_eq. simpl.
  rewrite elem_of_list_to_set, list_elem_of_In, in_map_iff.
  intros (node & <- & [Hin Hfit]%filter_In). rewrite <- list_elem_of_In in Hin.
  apply node_fits_spec in Hfit as (q & Hq & Hm & Hlt); [|auto].
  destruct (poolForNode_nonempty (node_Pools node) pattern size pmap) as (p & Hp & Hok & Heq);
    [auto|exists q; auto using fits_qualifies|].
  apply andb_true_iff in Hok as [Hok Hfree%negb_true_iff]. exists node, p. split_and!; try done.
  intros Hpos. apply andb_false_iff in Hfree as [Hf|Hf]; to_prop; lia.
Qed.

(** The weight of a node under VolumeWeighted is the number of volumes in a
    matching pool that are on it. *)
Theorem volumeWeightedMap_counts `{!Regexp} zvlist nodelist pattern node :
  (Z.of_nat (length zvlist) <= int64_max)%Z →
  zget (volumeWeightedMap zvlist nodelist pattern) node =
  Z.of_nat (length (List.filter (counts_for nodelist pattern node) zvlist)).
Proof.
  intros Hlen. unfold volumeWeightedMap. rewrite count_loop by done.
  change (zget ∅ node) with 0%Z. rewrite Z.add_0_l. apply wrap64_id.
  pose proof (List.filter_length_le (counts_for nodelist pattern node) zvlist).
  unfold in_int64, int64_min, int64_max in *. lia.
Qed.

(** Under SpaceWeighted the node with more room in its roomiest matching pool
    has the smaller weight; the subtraction does not overflow, and a node appears
    in the map exactly when one of its pools matches. *)
Theorem spaceWeightedMap_order `{!Regexp} nodelist pattern n1 n2 :
  NoDup (map k8sNodeName nodelist) →
  (∀ node p, node ∈ nodelist → p ∈ node_Pools node →
             pool_Name p ≠ "" ∧ (0 <= pool_Free p <= int64_max)%Z) →
  n1 ∈ nodelist → n2 ∈ nodelist →
  node_matches pattern n1 = true → node_matches pattern n2 = true →
  ∃ w1 w2,
    spaceWeightedMap nodelist pattern !! k8sNodeName n1 = Some w1 ∧
    spaceWeightedMap nodelist pattern !! k8sNodeName n2 = Some w2 ∧
    (0 <= w1 <= int64_max)%Z ∧
    (w1 < w2 ↔ (maxFreePool (node_Pools n2) pattern).2 < (maxFreePool (node_Pools n1) pattern).2)%Z.
Proof.
  intros Hnd Hpools H1 H2 Hm1 Hm2.
  destruct (spaceWeightedMap_lookup nodelist pattern n1) as [Hl1 Hr1]; try done.
  destruct (spaceWeightedMap_lookup nodelist pattern n2) as [Hl2 Hr2]; try done.
  eexists _, _. split_and!; [exact Hl1|exact Hl2|..]; unfold int64_max in *; lia.
Qed.

(** Exactly one of poolname and poolpattern is accepted, an invalid pattern is
    an error and never a panic, and a poolname selects the one pool of that name:
    quoting keeps its metacharacters literal. *)
Theorem parsePoolParams_correct `{!Regexp} `{!RegexpLaws} poolname poolpattern :
  all_ascii (poolRoot poolname) = true →
  match parsePoolParams poolname poolpattern with
  | Ret re =>
    (poolname ≠ "" ∧ poolpattern = "" ∧ ∀ t, MatchString re t = (t =? poolRoot poolname)) ∨
    (poolname = "" ∧ poolpattern ≠ "" ∧ Compile poolpattern = Ok re)
  | Throw _ =>
    (poolname ≠ "" ∧ poolpattern ≠ "") ∨ (poolname = "" ∧ poolpattern = "") ∨
    (poolname = "" ∧ ∃ e, Compile poolpattern = Err e)
  | _ => False
  end.
Proof.
  intros Hascii. unfold parsePoolParams.
  destruct (String.eqb_spec poolname ""), (String.eqb_spec poolpattern "");
    cbn [negb andb]; try naive_solver.
  - destruct (Compile poolpattern) eqn:Hc; naive_solver.
  - destruct (compile_quoted _ Hascii) as (re & -> & Hre). naive_solver.
Qed.

(** The reservation a volume's creation asks zfs for: a dataset's is a property, a
    zvol has one unless it is sparse. *)
Definition create_reserves (vol : ZFSVolume) (cl : cmdline) : Prop :=
  if VolumeType (vol_Spec vol) =? VolTypeDataset then
    ∃ v, (reservationPropertyName (QuotaType (vol_Spec vol)), v) ∈ cl_props cl
  else "-s" ∉ cl_flags cl.

(** A reservation property comes only from the dataset properties. *)
Lemma reservation_only_fs `{!GoRange} spec v :
  Validate spec = None →
  let k := reservationPropertyName (QuotaType spec) in
  fs_prop k spec k v ∨ common_prop spec k v ∨ key_prop spec k v ∨ user_prop spec k v →
  ThinProvision spec = "no".
Proof.
  intros HV k Hp. subst k.
  destruct Hp as [Hp|[Hp|[Hp|[_ Hpre]%(proj1 (Validate_ok spec) HV)]]];
    destruct (quota_cases (QuotaType spec)) as [[Hq Hr]|[Hq Hr]]; rewrite Hr in *;
    [inversion Hp; congruence..|done|done].
Qed.

(** C36: the controller counts a volume as reserving space exactly when the command
    line the node agent creates it with reserves it. *)
Theorem reservesSpace_correct `{!GoRange} vol :
  Validate (vol_Spec vol) = None → HasPrefix (PoolName (vol_Spec vol)) "-" = false →
  ∃ args cl,
    (if VolumeType (vol_Spec vol) =? VolTypeDataset
     then buildDatasetCreateArgs vol else buildZvolCreateArgs vol) = ZFSCreateArg :: args ∧
    read_args args = Some cl ∧
    (reservesSpace (VolumeType (vol_Spec vol)) (ThinProvision (vol_Spec vol)) = true ↔
     create_reserves vol cl).
Proof.
  intros HV Hpool. unfold create_reserves, reservesSpace.
  destruct (VolumeType (vol_Spec vol) =? VolTypeDataset); simpl.
  - destruct (dataset_create_spec vol HV Hpool) as (args & props & -> & Hr & _ & Hp).
    eexists _, _. split_and!; [done..|]. simpl. setoid_rewrite Hp. split.
    + destruct (String.eqb_spec (ThinProvision (vol_Spec vol)) "no"); [|done].
      intros _. eexists. left. by constructor.
    + intros (v & Hv%reservation_only_fs); [|done]. by rewrite Hv.
  - destruct (zvol_create_spec vol HV Hpool) as (args & props & -> & Hr & _ & _).
    eexists _, _. split_and!; [done..|]. simpl.
    destruct (String.eqb_spec (ThinProvision (vol_Spec vol)) "no") as [->|]; [set_solver|].
    destruct (_ =? "yes"); simpl; set_solver.
Qed.
