(* ===== verification/Controller.v ===== *)
(** * The CSI controller service (pkg/driver/controller.go)

    The remote procedures of the controller: provisioning, cloning, expansion and
    deletion of volumes, snapshots, and the capacity report.  The volume lock is
    taken with the commands [CLock] and [CUnlock], whose implementation is the
    subject of [VolumeLock]. *)

From S2P Require Import Prelude GoStr GoErr Api Csi.
From S2P Require Import Effects Kube ZfsArgs Builders VolumeOps Scheduler Responses.

(** lib-csi's helpers on storage class parameters and apimachinery's label
    selectors: parameters of the model. *)
Class LibHelpers := {
  GetCaseInsensitiveMap : smap → smap;
  GetInsensitiveParameter : smap → string → string;
  selector_Matches : smap → smap → bool;
  (* event names of the usage statistics *)
  VolumeProvision : string;
  VolumeDeprovision : string;
}.

(** ** Sizes *)

Definition MB : Z := 1000000.
Definition GB : Z := 1000000000.
Definition Mi : Z := 1048576.
Definition Gi : Z := 1073741824.

(** The names the usage statistics are sent under. *)
Definition Ping := "zfs-ping".
Definition Heartbeat := "zfs-heartbeat".
Definition DefaultCASType := "zfs-localpv".
Definition LocalPVReplicaCount := "1".

(** [((size + unit - 1) / unit) * unit] on [int64]; Go's division truncates. *)
Definition round_up (size unit : Z) : Z :=
  wrap64 (Z.quot (wrap64 (wrap64 (size + unit) - 1)) unit * unit).

Definition getRoundedCapacity (size : Z) : Z :=
  if (Gi <? size)%Z then round_up size Gi else round_up size Mi.

(** ** Capabilities *)

Inductive rpc_type :=
| RPC_CREATE_DELETE_VOLUME | RPC_CREATE_DELETE_SNAPSHOT | RPC_CLONE_VOLUME
| RPC_EXPAND_VOLUME | RPC_GET_CAPACITY | RPC_OTHER.

#[export] Instance rpc_type_eq_dec : EqDecision rpc_type.
Proof. solve_decision. Defined.

Definition rpc_String (c : rpc_type) : string :=
  match c with
  | RPC_CREATE_DELETE_VOLUME => "CREATE_DELETE_VOLUME"
  | RPC_CREATE_DELETE_SNAPSHOT => "CREATE_DELETE_SNAPSHOT"
  | RPC_CLONE_VOLUME => "CLONE_VOLUME"
  | RPC_EXPAND_VOLUME => "EXPAND_VOLUME"
  | RPC_GET_CAPACITY => "GET_CAPACITY"
  | RPC_OTHER => "OTHER"
  end.

Definition newControllerCapabilities : list rpc_type :=
  [RPC_CREATE_DELETE_VOLUME; RPC_CREATE_DELETE_SNAPSHOT; RPC_CLONE_VOLUME;
   RPC_EXPAND_VOLUME; RPC_GET_CAPACITY].

Definition validateRequest (c : rpc_type) : option error :=
  if existsb (λ cap, bool_decide (c = cap)) newControllerCapabilities then None
  else Some (ErrStatus InvalidArgument
               (Sprintf "failed to validate request: {%s} is not supported" [rpc_String c])).

Definition SupportedVolumeCapabilityAccessModes : list AccessMode := [SINGLE_NODE_WRITER].

Definition IsSupportedVolumeCapabilityAccessMode (accessMode : AccessMode) : bool :=
  existsb (λ access, bool_decide (accessMode = access)) SupportedVolumeCapabilityAccessModes.

Definition isValidVolumeCapabilities (volCaps : list VolumeCapability) : bool :=
  fold_left
    (λ foundAll c,
       if existsb (λ m, bool_decide (m = vc_AccessMode c)) SupportedVolumeCapabilityAccessModes
       then foundAll else false)
    volCaps true.

Definition validateVolumeCreateReq (req : CreateVolumeRequest) : option error :=
  match validateRequest RPC_CREATE_DELETE_VOLUME with
  | Some err =>
    Some (ErrWrap err (Sprintf "failed to handle create volume request for {%s}" [cv_Name req]))
  | None =>
    if cv_Name req =? "" then
      Some (ErrStatus InvalidArgument "failed to handle create volume request: missing volume name")
    else match cv_VolumeCapabilities req with
         | None => Some (ErrStatus InvalidArgument
             "failed to handle create volume request: missing volume capabilities")
         | Some _ => None
         end
  end.

Definition validateDeleteVolumeReq (volumeID : string) : option error :=
  if volumeID =? "" then
    Some (ErrStatus InvalidArgument "failed to handle delete volume request: missing volume id")
  else match validateRequest RPC_CREATE_DELETE_VOLUME with
       | Some err =>
         Some (ErrWrap err (Sprintf
           "failed to handle delete volume request for {%s} : validation failed" [volumeID]))
       | None => None
       end.

Section controller.
Context `{!GoRange} `{!Globals} `{!ErrorsFmt} `{!Regexp} `{!LibHelpers}.

Definition sendEventOrIgnore (pvcName pvName capacity method : string) : prog unit :=
  if GoogleAnalyticsEnabled =? "true" then call (CAnalytics pvcName pvName capacity method)
  else Ret tt.

(** ** Waiting *)

Fixpoint waitForVolDestroy (fuel : nat) (volname : string) : prog unit :=
  match fuel with
  | O => Spin
  | S fuel =>
    r ← attempt (GetZFSVolume volname);
    match r with
    | Err err =>
      if IsNotFound err then Ret tt
      else Throw (StatusErrorf Internal
                    "zfs: destroy wait failed, not able to get the volume %s %s"
                    [volname; Error err])
    | Ok _ => _ ← call (CSleep 1); waitForVolDestroy fuel volname
    end
  end.

Fixpoint waitForReadySnapshot (fuel : nat) (snapname : string) : prog unit :=
  match fuel with
  | O => Spin
  | S fuel =>
    r ← attempt (GetZFSSnapshot snapname);
    match r with
    | Err err =>
      Throw (StatusErrorf Internal "zfs: wait failed, not able to get the snapshot %s %s"
               [snapname; Error err])
    | Ok snap =>
      if snap_State snap =? ZFSStatusReady then Ret tt
      else if snap_State snap =? ZFSStatusFailed then
        Throw (StatusErrorf Internal "snapshot %s creation failed on node %s"
                 [snapname; OwnerNodeID (snap_Spec snap)])
      else
        sel ← call (CSelectAfter 1);
        match sel with
        | SelCtx => Throw (StatusErrorf DeadlineExceeded
                             "snapshot %s creation: context deadline reached" [snapname])
        | _ => waitForReadySnapshot fuel snapname
        end
    end
  end.

(** ** Provisioning a new volume *)

(** The volume of that name if there is one to answer with: it exists with the
    same capacity and is ready.  Under deletion it is waited for, if asked to. *)
Definition existing_volume (fuel : nat) (parameters : smap) (volName capacity : string)
    : prog (option ZFSVolume) :=
  r ← attempt (GetZFSVolume volName);
  match r with
  | Err _ => Ret None
  | Ok vol =>
    match DeletionTimestamp (vol_Meta vol) with
    | Some _ =>
      match parameters !! "wait" with
      | Some _ => _ ← waitForVolDestroy fuel volName; Ret None
      | None => Ret None
      end
    | None =>
      if negb (Capacity (vol_Spec vol) =? capacity) then
        Throw (StatusErrorf AlreadyExists "volume %s already present" [volName])
      else if negb (vol_State vol =? ZFSStatusReady) then
        Throw (StatusErrorf Aborted "volume %s request already pending" [volName])
      else Ret (Some vol)
    end
  end.

(** The pool for the volume on one node, or the reason to skip the node. *)
Definition pool_on_node (schld pool poolpattern : string) (pattern : regex) (minFree : Z)
    (node nodeid : string) : prog (string + error) :=
  if negb (poolpattern =? "") then
    r ← attempt (resolvePool schld nodeid pattern minFree);
    match r with
    | Err err => Ret (inr err)
    | Ok volPool =>
      if volPool =? "" then
        Ret (inr (Errorf "no pool matching poolpattern %q on node %s" [poolpattern; node]))
      else Ret (inl volPool)
    end
  else Ret (inl pool).

(** The loop over the nodes: the volume provisioned, or the last error, which is
    nil before the first node. *)
Fixpoint try_nodes (fuel : nat) (schld pool poolpattern : string) (pattern : regex) (minFree : Z)
    (prfList : list string) (volObj : ZFSVolume) (err : option error)
    : prog (ZFSVolume + option error) :=
  match prfList with
  | [] => Ret (inr err)
  | node :: prfList =>
    let next := try_nodes fuel schld pool poolpattern pattern minFree prfList in
    id ← attempt (GetNodeID node);
    match id with
    | Err err => next volObj (Some err)
    | Ok nodeid =>
      vp ← pool_on_node schld pool poolpattern pattern minFree node nodeid;
      match vp with
      | inr err => next volObj (Some err)
      | inl volPool =>
        let b := BuildFrom (Some volObj) .> WithOwnerNodeID nodeid .> WithPoolName volPool
                 .> WithVolumeStatus ZFSStatusPending in
        match Build b with
        | Err err => next (b_volume b) (Some err)
        | Ok vol =>
          res ← ProvisionVolume fuel vol;
          match res with
          | (_, None) => Ret (inl vol)
          | (true, Some err) => Ret (inr (Some err))
          | (false, Some err) => next (b_volume b) (Some err)
          end
        end
      end
    end
  end.

(** The object of a new volume, before it has a node and a pool. *)
Definition new_volume (originalParams parameters : smap) (volName capacity : string)
    : result ZFSVolume :=
  let fstype := sget parameters "fstype" in
  Build (NewBuilder
         .> WithName volName
         .> WithPVCName (GetInsensitiveParameter originalParams "csi.storage.k8s.io/pvc/name")
         .> WithPVCNamespace
              (GetInsensitiveParameter originalParams "csi.storage.k8s.io/pvc/namespace")
         .> WithPVName (GetInsensitiveParameter originalParams "csi.storage.k8s.io/pv/name")
         .> WithCapacity capacity
         .> WithRecordSize (sget parameters "recordsize")
         .> WithVolBlockSize (sget parameters "volblocksize")
         .> WithDedup (sget parameters "dedup")
         .> WithEncryption (sget parameters "encryption")
         .> WithKeyFormat (sget parameters "keyformat")
         .> WithKeyLocation (sget parameters "keylocation")
         .> WithThinProv (sget parameters "thinprovision")
         .> WithVolumeType (GetVolumeType fstype)
         .> WithVolumeStatus ZFSStatusPending
         .> WithFsType fstype
         .> WithQuotaType (sget parameters "quotatype")
         .> WithShared (sget parameters "shared")
         .> WithATime (sget parameters "atime")
         .> WithLogBias (sget parameters "logbias")
         .> WithCompression (sget parameters "compression")).

(** The scheduler's nodes, less the ones that cannot hold a reservation. *)
Definition preferred_nodes (req : CreateVolumeRequest) (parameters : smap)
    (pool poolpattern schld : string) (pattern : regex) (reserves : bool) (size : Z)
    (volName : string) : prog (list string) :=
  nmap ← map_err (λ err, StatusErrorf Internal "get node map failed : %s" [Error err])
           (getNodeMap schld pattern);
  prfList ← match parameters !! "node" with
            | Some node => Ret [node]
            | None => call (CScheduler req nmap)
            end;
  if (length prfList =? 0)%nat then
    Throw (ErrStatus Internal "scheduler failed, node list is empty for creating the PV")
  else
    suitable ←
      (if negb (poolpattern =? "") || reserves then
         sm ← map_err (λ err, StatusErrorf Internal "get suitable nodes failed : %s" [Error err])
                (getSuitableNodes pattern size);
         if negb (poolpattern =? "") && negb sm.2 then
           Throw (StatusErrorf FailedPrecondition
                    "no pool matching %s is present on any node, volume %s"
                    [poolDesc pool poolpattern; volName])
         else Ret sm.1
       else Ret ∅);
    if reserves then
      let prfList := filterKeep prfList suitable in
      if (length prfList =? 0)%nat then
        Throw (StatusErrorf ResourceExhausted "no pool matching %s has %d bytes free, volume %s"
                 [poolDesc pool poolpattern; FormatInt size; volName])
      else Ret prfList
    else Ret prfList.

Definition CreateZFSVolume (fuel : nat) (req : CreateVolumeRequest) : prog ZFSVolume :=
  let volName := ToLower (cv_Name req) in
  match cv_RequiredBytes req with
  | None => Crash "nil pointer dereference"
  | Some requiredBytes =>
    let size := getRoundedCapacity requiredBytes in
    let originalParams := cv_Parameters req in
    let parameters := GetCaseInsensitiveMap originalParams in
    let pool := sget parameters "poolname" in
    let poolpattern := sget parameters "poolpattern" in
    let tp := sget parameters "thinprovision" in
    let schld := sget parameters "scheduler" in
    let vtype := GetVolumeType (sget parameters "fstype") in
    let capacity := FormatInt size in
    found ← existing_volume fuel parameters volName capacity;
    match found with
    | Some vol => Ret vol
    | None =>
      pattern ← map_err (λ err, ErrStatus InvalidArgument (Error err))
                  (parsePoolParams pool poolpattern);
      let reserves := reservesSpace vtype tp in
      let minFree := if reserves then size else 0%Z in
      prfList ← preferred_nodes req parameters pool poolpattern schld pattern reserves size volName;
      match new_volume originalParams parameters volName capacity with
      | Err err => Throw (ErrStatus Internal (Error err))
      | Ok volObj =>
        res ← try_nodes fuel schld pool poolpattern pattern minFree prfList volObj None;
        match res with
        | inl vol => Ret vol
        | inr (Some err) =>
          _ ← attempt (VolumeOps.DeleteVolume volName);
          Throw (StatusErrorf Internal "not able to provision the volume, nodes %v, err : %s"
                   [fmt_list prfList; Error err])
        | inr None => Crash "nil pointer dereference"
        end
      end
    end
  end.

(** ** Clones *)

(** A parameter error, reported as an invalid argument. *)
Definition pool_params (pool poolpattern : string) : prog regex :=
  map_err (λ err, ErrStatus InvalidArgument (Error err)) (parsePoolParams pool poolpattern).

(** The object of a clone: named, labelled and pending, with the spec of its source
    and its own user properties. *)
Definition clone_volume (parameters : smap) (volName : string) (labels : smap)
    (src : VolumeInfo) (snapName : string) : result ZFSVolume :=
  match Build (NewBuilder
               .> WithName volName
               .> WithPVCName (GetInsensitiveParameter parameters "csi.storage.k8s.io/pvc/name")
               .> WithPVCNamespace
                    (GetInsensitiveParameter parameters "csi.storage.k8s.io/pvc/namespace")
               .> WithPVName (GetInsensitiveParameter parameters "csi.storage.k8s.io/pv/name")
               .> WithVolumeStatus ZFSStatusPending
               .> WithLabels labels) with
  | Err err => Err err
  | Ok volObj =>
    let userProps := UserProperties (vol_Spec volObj) in
    Ok (volObj {{ vol_Spec := src {{ UserProperties := userProps }} {{ SnapName := snapName }} }})
  end.

Definition CreateVolClone (fuel : nat) (req : CreateVolumeRequest) (srcVol : string)
    : prog ZFSVolume :=
  let volName := ToLower (cv_Name req) in
  let parameters := cv_Parameters req in
  let pool := GetInsensitiveParameter parameters "poolname" in
  let poolpattern := GetInsensitiveParameter parameters "poolpattern" in
  match cv_RequiredBytes req with
  | None => Crash "nil pointer dereference"
  | Some requiredBytes =>
    let volsize := FormatInt (getRoundedCapacity requiredBytes) in
    pattern ← pool_params pool poolpattern;
    vol ← map_err (λ err, ErrStatus NotFound (Error err)) (GetZFSVolume srcVol);
    if negb (sourcePoolAllowed (PoolName (vol_Spec vol)) pool pattern) then
      Throw (StatusErrorf InvalidArgument "clone: source pool %s is not covered by %s"
               [PoolName (vol_Spec vol); poolDesc pool poolpattern])
    else if negb (Capacity (vol_Spec vol) =? volsize) then
      Throw (ErrStatus Internal "clone: volume size is not matching")
    else
      volObj ← lift (clone_volume parameters volName {[ZFSSrcVolKey := Name (vol_Meta vol)]}
                       (vol_Spec vol) (Name (vol_Meta vol) +:+ "@" +:+ volName));
      res ← ProvisionVolume fuel volObj;
      match res.2 with
      | Some err => Throw (StatusErrorf Internal
                             "clone: not able to provision the volume err : %s" [Error err])
      | None => Ret volObj
      end
  end.

Definition CreateSnapClone (fuel : nat) (req : CreateVolumeRequest) (snapshot : string)
    : prog ZFSVolume :=
  let volName := ToLower (cv_Name req) in
  let parameters := cv_Parameters req in
  let pool := GetInsensitiveParameter parameters "poolname" in
  let poolpattern := GetInsensitiveParameter parameters "poolpattern" in
  match cv_RequiredBytes req with
  | None => Crash "nil pointer dereference"
  | Some requiredBytes =>
    let volsize := FormatInt (getRoundedCapacity requiredBytes) in
    pattern ← pool_params pool poolpattern;
    match Split "@" snapshot with
    | [_; snapname] =>
      snap ← map_err (λ err, ErrStatus NotFound (Error err)) (GetZFSSnapshot snapname);
      if negb (sourcePoolAllowed (PoolName (snap_Spec snap)) pool pattern) then
        Throw (StatusErrorf InvalidArgument "clone: snapshot pool %s is not covered by %s"
                 [PoolName (snap_Spec snap); poolDesc pool poolpattern])
      else if negb (Capacity (snap_Spec snap) =? volsize) then
        Throw (ErrStatus Internal "clone volume size is not matching")
      else
        volObj ← lift (clone_volume parameters volName ∅ (snap_Spec snap) (ToLower snapshot));
        res ← ProvisionVolume fuel volObj;
        match res.2 with
        | Some err => Throw (StatusErrorf Internal
                               "not able to provision the clone volume err : %s" [Error err])
        | None => Ret volObj
        end
    | _ => Throw (StatusErrorf NotFound "snap name is not valid %s, {%s}"
                    [snapshot; "invalid snapshot name"])
    end
  end.

(** ** The volume lock, around a procedure *)

Definition with_lock {A} (name : string) (p : prog A) : prog A :=
  _ ← call (CLock name);
  deferred (call (CUnlock name)) p.

(** [LockVolumeWithSnapshot]: the two names in this order, released in the same. *)
Definition with_locks {A} (volume snapshot : string) (p : prog A) : prog A :=
  _ ← call (CLock volume);
  _ ← call (CLock snapshot);
  deferred (_ ← call (CUnlock volume); call (CUnlock snapshot)) p.

(** ** The remote procedures *)

Definition CreateVolume (fuel : nat) (req : CreateVolumeRequest) : prog CreateVolumeResponse :=
  match validateVolumeCreateReq req with
  | Some err => Throw err
  | None =>
    let volName := ToLower (cv_Name req) in
    let parameters := cv_Parameters req in
    let size := getRoundedCapacity (default 0%Z (cv_RequiredBytes req)) in
    let contentSource := cv_ContentSource req in
    let pvcName := GetInsensitiveParameter parameters "csi.storage.k8s.io/pvc/name" in
    with_lock volName (
      vol ← match contentSource with
            | Some (SourceSnapshot snapshotID) => CreateSnapClone fuel req snapshotID
            | Some (SourceVolume srcVol) => CreateVolClone fuel req srcVol
            | None => CreateZFSVolume fuel req
            end;
      _ ← sendEventOrIgnore pvcName volName (FormatInt size) VolumeProvision;
      let cntx := {[PoolNameKey := PoolName (vol_Spec vol); OpenEBSCasTypeKey := ZFSCasTypeName]} in
      let formatOptions := GetInsensitiveParameter parameters "formatoptions" in
      let cntx := if negb (formatOptions =? "") then <[FormatOptionsKey := formatOptions]> cntx
                  else cntx in
      let topology := {[ZFSTopologyKey := OwnerNodeID (vol_Spec vol)]} in
      Ret (cvb_Build (NewCreateVolumeResponseBuilder
             .> cvb_WithName volName
             .> cvb_WithCapacity size
             .> cvb_WithTopology topology
             .> cvb_WithContext cntx
             .> cvb_WithContentSource contentSource)))
  end.

Definition DeleteVolume (reqVolumeId : string) : prog unit :=
  match validateDeleteVolumeReq reqVolumeId with
  | Some err => Throw err
  | None =>
    let volumeID := ToLower reqVolumeId in
    with_lock volumeID (
      r ← attempt (GetZFSVolume volumeID);
      match r with
      | Err err =>
        if IsNotFound err then Ret tt
        else Throw (ErrWrap err (Sprintf "failed to get volume for {%s}" [volumeID]))
      | Ok vol =>
        match DeletionTimestamp (vol_Meta vol) with
        | Some _ => Ret tt
        | None =>
          if negb (vol_State vol =? ZFSStatusReady) then
            Throw (ErrStatus Internal "can not delete, volume creation is in progress")
          else
            snapList ← map_err (λ err, StatusErrorf NotFound
                ("failed to handle delete volume request for {%s}, " +:+
                 "validation failed checking for snapshots. Error: %s")
                [reqVolumeId; Error err]) (GetSnapshotForVolume volumeID);
            _ ← (if (length snapList =? 0)%nat then
                   map_err (λ err, ErrWrap err (Sprintf
                     "failed to handle delete volume request for {%s}" [volumeID]))
                     (VolumeOps.DeleteVolume volumeID)
                 else
                   map_err (λ err, ErrWrap err (Sprintf
                     "failed to annotate volume on deletion request for {%s}" [volumeID]))
                     (MarkForDeletion volumeID));
            sendEventOrIgnore "" volumeID (Capacity (vol_Spec vol)) VolumeDeprovision
        end
      end)
  end.

(** The capabilities confirmed, if any. *)
Definition ValidateVolumeCapabilities (reqVolumeId : string) (volCaps : list VolumeCapability)
    : prog (option (list VolumeCapability)) :=
  let volumeID := ToLower reqVolumeId in
  if (slen volumeID =? 0)%Z then Throw (ErrStatus InvalidArgument "Volume ID not provided")
  else if (length volCaps =? 0)%nat then
    Throw (ErrStatus InvalidArgument "Volume capabilities not provided")
  else
    _ ← map_err (λ err, StatusErrorf NotFound "Get volume failed err %s" [Error err])
          (GetZFSVolume volumeID);
    Ret (if isValidVolumeCapabilities volCaps then Some volCaps else None).

Definition ControllerExpandVolume (req : ExpandVolumeRequest) : prog ExpandVolumeResponse :=
  let volumeID := ToLower (ev_VolumeId req) in
  if volumeID =? "" then
    Throw (StatusErrorf InvalidArgument "ControllerExpandVolume: no volumeID provided" [])
  else
    with_lock volumeID (
      let updatedSize := getRoundedCapacity (default 0%Z (ev_RequiredBytes req)) in
      vol ← map_err (λ err, StatusErrorf Internal
              "ControllerExpandVolumeRequest: failed to get ZFSVolume in for %s, {%s}"
              [volumeID; Error err]) (GetZFSVolume volumeID);
      match ParseInt (Capacity (vol_Spec vol)) with
      | None => Throw (StatusErrorf Internal
                  "ControllerExpandVolumeRequest: failed to parse volsize in for %s, {%s}"
                  [volumeID; ParseInt_error (Capacity (vol_Spec vol))])
      | Some volsize =>
        if (updatedSize <=? volsize)%Z then
          Ret (evb_Build (NewControllerExpandVolumeResponseBuilder .> evb_WithCapacityBytes volsize))
        else
          _ ← map_err (λ err, StatusErrorf Internal
                "failed to handle ControllerExpandVolumeRequest for %s, {%s}"
                [volumeID; Error err]) (ResizeVolume vol updatedSize);
          Ret (evb_Build (NewControllerExpandVolumeResponseBuilder
                 .> evb_WithCapacityBytes updatedSize
                 .> evb_WithNodeExpansionRequired true))
      end).

(** ** Snapshots *)

Definition verifySnapshotRequest (req : CreateSnapshotRequest) : prog unit :=
  let snapName := ToLower (cs_Name req) in
  let volumeID := ToLower (cs_SourceVolumeId req) in
  if (snapName =? "") || (volumeID =? "") then
    Throw (StatusErrorf InvalidArgument "CreateSnapshot error invalid request %s: %s"
             [volumeID; snapName])
  else
    r ← attempt (GetZFSSnapshot snapName);
    match r with
    | Err err =>
      if IsNotFound err then Ret tt
      else Throw (StatusErrorf NotFound "CreateSnapshot error snap %s %s get failed : %s"
                    [snapName; volumeID; Error err])
    | Ok snap =>
      let src := sget (Labels (snap_Meta snap)) ZFSVolKey in
      if negb (src =? volumeID) then
        Throw (StatusErrorf AlreadyExists
          "CreateSnapshot error snapshot %s already exist for different source vol %s: %s"
          [snapName; src; volumeID])
      else Ret tt
    end.

(** The answer for a snapshot object. *)
Definition snapshot_response (volumeID snapName : string) (timestamp : Z) (snap : ZFSSnapshot)
    : prog CreateSnapshotResponse :=
  match GetZFSSnapshotCapacity (Some snap) with
  | Err err => Throw (Errorf "get zfssnapshot capacity failed: %v, capacity: %v"
                        [Error err; Capacity (snap_Spec snap)])
  | Ok size =>
    Ret (csb_Build (NewCreateSnapshotResponseBuilder
           .> csb_WithSourceVolumeID volumeID
           .> csb_WithSnapshotID (volumeID +:+ "@" +:+ snapName)
           .> csb_WithSize size
           .> csb_WithCreationTime timestamp 0
           .> csb_WithReadyToUse (snap_State snap =? ZFSStatusReady)))
  end.

(** The object of a new snapshot of a volume. *)
Definition new_snapshot (params : smap) (snapName : string) (vol : ZFSVolume) : result ZFSSnapshot :=
  match snap_Build (snap_NewBuilder
          .> snap_WithName snapName
          .> WithVSName (GetInsensitiveParameter params "csi.storage.k8s.io/volumesnapshot/name")
          .> WithVSNamespace
               (GetInsensitiveParameter params "csi.storage.k8s.io/volumesnapshot/namespace")
          .> WithVSCName
               (GetInsensitiveParameter params "csi.storage.k8s.io/volumesnapshotcontent/name")
          .> snap_WithLabels {[ZFSVolKey := Name (vol_Meta vol)]}) with
  | Err err => Err err
  | Ok snapObj =>
    let userProps := UserProperties (snap_Spec snapObj) in
    Ok (snapObj {{ snap_Spec := (vol_Spec vol) {{ UserProperties := userProps }} }}
                {{ snap_State := ZFSStatusPending }})
  end.

Definition CreateSnapshot (fuel : nat) (req : CreateSnapshotRequest) : prog CreateSnapshotResponse :=
  let snapName := ToLower (cs_Name req) in
  let volumeID := ToLower (cs_SourceVolumeId req) in
  _ ← verifySnapshotRequest req;
  with_locks volumeID snapName (
    let originalParams := cs_Parameters req in
    snapTimeStamp ← call CUnixTime;
    r ← attempt (GetZFSSnapshot snapName);
    match r with
    | Ok snapObj => snapshot_response volumeID snapName snapTimeStamp snapObj
    | Err _ =>
      vol ← map_err (λ err, StatusErrorf NotFound
              "CreateSnapshot not able to get volume %s: %s, {%s}" [volumeID; snapName; Error err])
              (GetZFSVolume volumeID);
      snapObj ← map_err (λ err, StatusErrorf Internal
              "failed to create snapshotobject for %s: %s, {%s}" [volumeID; snapName; Error err])
              (lift (new_snapshot originalParams snapName vol));
      _ ← map_err (λ err, StatusErrorf Internal
              "failed to handle CreateSnapshotRequest for %s: %s, {%s}"
              [volumeID; snapName; Error err]) (ProvisionSnapshot snapObj);
      _ ← match GetCaseInsensitiveMap originalParams !! "wait" with
          | Some _ => waitForReadySnapshot fuel snapName
          | None => Ret tt
          end;
      snapObj ← map_err (λ err, Errorf "get zfssnapshot failed, err: %v" [Error err])
                  (GetZFSSnapshot snapName);
      snapshot_response volumeID snapName snapTimeStamp snapObj
    end).

Definition DeleteSnapshot (reqSnapshotId : string) : prog unit :=
  if reqSnapshotId =? "" then
    Throw (StatusErrorf InvalidArgument "DeleteSnapshot: empty snapshotID" [])
  else
    match Split "@" reqSnapshotId with
    | [volumeID; snapname] =>
      with_locks volumeID snapname (
        r ← attempt (GetZFSSnapshot snapname);
        match r with
        | Err err =>
          if IsNotFound err then Ret tt
          else Throw (ErrWrap err (Sprintf "failed to get snapshot for {%s}" [snapname]))
        | Ok _ =>
          snapList ← map_err (λ err, StatusErrorf FailedPrecondition
              ("failed to handle delete snapshot request for {%s}, " +:+
               "validation failed checking for snapshot list for volume. Error: %s")
              [volumeID; Error err]) (GetSnapshotForVolume volumeID);
          _ ← map_err (λ err, StatusErrorf Internal "failed to handle DeleteSnapshot for %s, {%s}"
                [reqSnapshotId; Error err]) (VolumeOps.DeleteSnapshot snapname);
          eligible ← map_err (λ err, StatusErrorf FailedPrecondition
              ("failed to handle delete snapshot request for {%s}, " +:+
               "validation failed checking for eligible for deletion. Error: %s")
              [volumeID; Error err]) (IsVolumeEligibleForDeletion volumeID);
          if (length snapList =? 1)%nat && eligible then
            map_err (λ err, ErrWrap err (Sprintf
              "failed to handle delete volume request for {%s}" [volumeID]))
              (VolumeOps.DeleteVolume volumeID)
          else Ret tt
        end)
    | _ => Ret tt
    end.

(** ** The capacity report *)

Definition LabelIndexName (label : string) : string := "l:" +:+ label.

(** The index values of an object: the value of the label, if it has it. *)
Definition LabelIndexFunc (label : string) (labels : smap) : list string :=
  match labels !! label with Some v => [v] | None => [] end.

Definition filterNodes (segments : smap) (vs : list (string * smap)) : list string :=
  map fst (List.filter (λ v, selector_Matches segments v.2) vs).

Definition filterNodesByTopology (indexedLabel : string) (segments : smap) : prog (list string) :=
  if bool_decide (segments = ∅) then call CK8sNodeKeys
  else
    let indexName := LabelIndexName indexedLabel in
    has ← call (CK8sHasIndex indexName);
    if negb has then vs ← call CK8sNodes; Ret (filterNodes segments vs)
    else
      match segments !! indexedLabel with
      | Some segValue =>
        r ← call (CK8sByIndex indexName segValue);
        match r with
        | Err err => Throw (ErrWrap err (Sprintf "query indexed store indexName=%v indexKey=%v"
                                           [indexName; segValue]))
        | Ok vs => Ret (filterNodes segments vs)
        end
      | None => vs ← call CK8sNodes; Ret (filterNodes segments vs)
      end.

Fixpoint max_capacity (pattern : regex) (nodeNames : list string) (availableCapacity : Z) : prog Z :=
  match nodeNames with
  | [] => Ret availableCapacity
  | nodeName :: nodeNames =>
    id ← attempt (GetNodeID nodeName);
    let mappedNodeID := match id with Ok id => id | Err _ => nodeName end in
    v ← call (CZfsNodeByKey (OpenEBSNamespace +:+ "/" +:+ mappedNodeID));
    match v with
    | Ok (Some zfsNode) =>
      let freeCapacity := (maxFreePool (node_Pools zfsNode) pattern).2 in
      max_capacity pattern nodeNames
        (if (availableCapacity <? freeCapacity)%Z then freeCapacity else availableCapacity)
    | _ => max_capacity pattern nodeNames availableCapacity
    end
  end.

Definition GetCapacity (indexedLabel : string) (segments params : smap) : prog Z :=
  nodeNames ← map_err (λ err, ErrStatus Internal (Error err))
                (filterNodesByTopology indexedLabel segments);
  r ← attempt (parsePoolParams (GetInsensitiveParameter params "poolname")
                 (GetInsensitiveParameter params "poolpattern"));
  match r with
  | Err _ => Ret 0%Z
  | Ok pattern => max_capacity pattern nodeNames 0
  end.
End controller.

(** ** What the controller does not offer

    The controller publishes nothing itself, and lists neither volumes nor snapshots. *)

Definition ListSnapshots : prog unit := Throw (ErrStatus Unimplemented "").
Definition ControllerUnpublishVolume : prog unit := Throw (ErrStatus Unimplemented "").
Definition ControllerPublishVolume : prog unit := Throw (ErrStatus Unimplemented "").
Definition ListVolumes : prog unit := Throw (ErrStatus Unimplemented "").
Definition ControllerGetVolume : prog unit :=
  Throw (ErrStatus Unimplemented "ControllerGetVolume is not implemented").
Definition ControllerModifyVolume : prog unit :=
  Throw (ErrStatus Unimplemented "ControllerModifyVolume is not implemented").
