(* ===== verification/ControllerSpec.v ===== *)
(** * What the controller service guarantees *)

From S2P Require Import Prelude GoStr GoErr Api Csi Effects Kube ZfsArgs.
From S2P Require Import Builders VolumeOps Laws Sim ZfsOpsSpec Scheduler RegexpSim SchedulerSpec Controller.

(** ** Rounding *)

Definition unit_of (size : Z) : Z := if (Gi <? size)%Z then Gi else Mi.

Lemma round_up_exact size u :
  (u = Mi ∨ u = Gi) → (0 <= size)%Z → (size + u <= int64_max)%Z →
  round_up size u = ((size + u - 1) / u * u)%Z.
Proof.
  intros Hu H0 Hmax. unfold round_up.
  assert (0 < u <= Gi)%Z by (unfold Mi, Gi in *; lia).
  unfold Gi, int64_max in *.
  rewrite (wrap64_id (size + u)) by (unfold in_int64, int64_min, int64_max; lia).
  rewrite (wrap64_id (size + u - 1)) by (unfold in_int64, int64_min, int64_max; lia).
  rewrite Z.quot_div_nonneg by lia. apply wrap64_id.
  pose proof (Z.mul_div_le (size + u - 1) u). pose proof (Z.div_pos (size + u - 1) u).
  unfold in_int64, int64_min, int64_max. nia.
Qed.

Lemma round_up_spec size u :
  (u = Mi ∨ u = Gi) → (0 <= size)%Z → (size + u <= int64_max)%Z →
  (size <= round_up size u < size + u)%Z ∧ (u | round_up size u)%Z.
Proof.
  intros Hu H0 Hmax. rewrite round_up_exact by done.
  assert (0 < u)%Z by (unfold Mi, Gi in *; lia).
  split; [|by exists ((size + u - 1) / u)%Z].
  pose proof (Z.div_mod (size + u - 1) u). pose proof (Z.mod_pos_bound (size + u - 1) u). nia.
Qed.

Lemma round_up_multiple size u :
  (u = Mi ∨ u = Gi) → (0 <= size)%Z → (size + u <= int64_max)%Z → (u | size)%Z →
  round_up size u = size.
Proof.
  intros Hu H0 Hmax [k ->]. rewrite round_up_exact by done.
  assert (0 < u)%Z by (unfold Mi, Gi in *; lia). f_equal.
  symmetry. apply (Z.div_unique _ _ k (u - 1)); lia.
Qed.


Lemma wrap64_over z :
  (int64_max < z <= int64_max + 9223372036854775808)%Z → wrap64 z = (z - 18446744073709551616)%Z.
Proof.
  unfold wrap64, int64_max. intros.
  rewrite <- (Z.mod_unique (z + 9223372036854775808) 18446744073709551616 1
                (z - 9223372036854775808)); lia.
Qed.

(** Sizes within 1Gi of the largest int64 overflow: they are rounded to a
    negative size. *)
Theorem getRoundedCapacity_overflow size :
  (int64_max - Gi + 1 < size <= int64_max)%Z → (getRoundedCapacity size < 0)%Z.
Proof.
  intros Hs. unfold getRoundedCapacity, round_up, Gi, int64_max in *.
  rewrite (proj2 (Z.ltb_lt _ _)) by lia.
  rewrite (wrap64_over (size + _)) by (unfold int64_max; lia).
  rewrite (wrap64_id (_ - 1)) by (unfold in_int64, int64_min, int64_max; lia).
  set (x := (size + 1073741824 - 18446744073709551616 - 1)%Z).
  replace (Z.quot x 1073741824) with (- ((- x) / 1073741824))%Z.
  - pose proof (Z.div_le_lower_bound (- x) 1073741824 1).
    pose proof (Z.mul_div_le (- x) 1073741824).
    rewrite wrap64_id by (unfold in_int64, int64_min, int64_max; lia). lia.
  - rewrite <- Z.quot_div_nonneg by lia. rewrite Z.quot_opp_l by lia. lia.
Qed.

(** ** Expansion *)

Section expansion.
Context `{!Globals}.

(** The volume a trace says the API server holds under a name. *)
Definition got_volume (name : string) (tr : trace) (vol : ZFSVolume) : Prop :=
  ev (CGet KVol OpenEBSNamespace name) (Ok vol) ∈ tr.

(** An expansion writes the volume it read, with a capacity that is larger. *)
Definition expand_guard (req : ExpandVolumeRequest) (c : cmd) (tr : trace) : Prop :=
  match c with
  | CUpdate k ns o =>
    (match k as k return obj k → Prop with
     | KVol => λ v, ns = OpenEBSNamespace ∧
         ∃ vol old new,
           got_volume (ToLower (ev_VolumeId req)) tr vol ∧
           ParseInt (Capacity (vol_Spec vol)) = Some old ∧
           new = getRoundedCapacity (default 0%Z (ev_RequiredBytes req)) ∧ (old < new)%Z ∧
           v = vol {{ vol_Spec := (vol_Spec vol) {{ Capacity := FormatInt new }} }}
     | _ => λ _, False
     end) o
  | CCreate _ _ _ | CDelete _ _ _ => False
  | _ => True
  end.

Lemma safe_expand req : safe any_env (expand_guard req) (ControllerExpandVolume req) [].
Proof.
  unfold ControllerExpandVolume. destruct (String.eqb_spec (ToLower (ev_VolumeId req)) "") as [|Hn]; [done|].
  unfold with_lock, deferred, GetZFSVolume, Kubeclient_Get, ResizeVolume, Kubeclient_Update.
  rewrite (proj2 (String.eqb_neq _ _) Hn). simpl.
  split; [done|]. intros [] tr ->. split; [done|]. intros [[]|e] tr ->; simpl.
  2: { split; [done|]. by intros [] tr ->. }
  split; [done|]. intros [vol|e] tr ->; simpl.
  2: { split; [done|]. by intros [] tr ->. }
  destruct (ParseInt _) as [old|] eqn:Hp; simpl.
  2: { split; [done|]. by intros [] tr ->. }
  destruct (Z.leb_spec (getRoundedCapacity (default 0%Z (ev_RequiredBytes req))) old) as [|Hlt]; simpl.
  { split; [done|]. by intros [] tr ->. }
  split; [done|]. intros [[]|e] tr ->; simpl.
  2: { split; [done|]. by intros [] tr ->. }
  split.
  - split; [done|]. eexists vol, old, _. split_and!; try done. unfold got_volume. set_solver.
  - intros [v|e] tr ->; simpl; (split; [done|]); by intros [] tr ->.
Qed.

(** What an expansion answers: at least the size asked for, rounded. *)
Lemma wp_expand {St} (E : Env St) req s :
  wp E (ControllerExpandVolume req)
    (λ o _, match o with
            | ORet r => (getRoundedCapacity (default 0%Z (ev_RequiredBytes req)) <= evr_CapacityBytes r)%Z
            | OErr _ => True
            | _ => False
            end) s.
Proof.
  unfold ControllerExpandVolume. destruct (_ =? ""); [done|].
  unfold with_lock, deferred, GetZFSVolume, Kubeclient_Get, ResizeVolume, Kubeclient_Update.
  destruct (_ =? ""); simpl; [done|].
  intros [] s1 _ [[]|e] s2 _; simpl; [|done].
  intros [vol|e] s3 _; simpl; [|done].
  destruct (ParseInt _) as [old|]; simpl; [|done].
  destruct (Z.leb_spec (getRoundedCapacity (default 0%Z (ev_RequiredBytes req))) old); simpl; [done|].
  intros [[]|e] s4 _; simpl; [|done]. intros [v|e] s5 _; simpl; [|done]. intros [] s6 _. lia.
Qed.
End expansion.

(** ** Deletion *)

Section deletion.
Context `{!GoRange} `{!Globals} `{!ErrorsFmt} `{!Regexp} `{!LibHelpers}.

(** The answers of the API server recorded in a trace. *)
Definition got_snapshots (volumeID : string) (tr : trace) (snaps : list ZFSSnapshot) : Prop :=
  ev (CList KSnap OpenEBSNamespace (ZFSVolKey +:+ "=" +:+ volumeID)) (Ok snaps) ∈ tr.

(** Deleting a volume: the resource is deleted when the listing of its snapshots
    was empty; otherwise it only gets the deletion mark. *)
Definition delete_guard (volumeID : string) (c : cmd) (tr : trace) : Prop :=
  match c with
  | CDelete k ns name =>
    k = KVol ∧ ns = OpenEBSNamespace ∧ name = volumeID ∧ got_snapshots volumeID tr [] ∧
    ∃ vol, got_volume volumeID tr vol ∧ DeletionTimestamp (vol_Meta vol) = None ∧
           vol_State vol = ZFSStatusReady
  | CUpdate k ns o =>
    (match k as k return obj k → Prop with
     | KVol => λ v, ns = OpenEBSNamespace ∧
         ∃ vol snaps, got_volume volumeID tr vol ∧ got_snapshots volumeID tr snaps ∧ snaps ≠ [] ∧
           v = vol {{ vol_Meta := (vol_Meta vol)
                 {{ Annotations := <[MarkForDeletionAnnotation := "true"]>
                                     (Annotations (vol_Meta vol)) }} }}
     | _ => λ _, False
     end) o
  | CCreate _ _ _ => False
  | _ => True
  end.

(** The end of a locked procedure. *)
Ltac unlock := split; [done|]; by intros [] tr ->.

Lemma safe_DeleteVolume reqVolumeId :
  safe any_env (delete_guard (ToLower reqVolumeId)) (DeleteVolume reqVolumeId) [].
Proof.
  unfold DeleteVolume. destruct (validateDeleteVolumeReq reqVolumeId); [done|].
  unfold with_lock, deferred, GetZFSVolume, GetSnapshotForVolume, VolumeOps.DeleteVolume,
    MarkForDeletion, UpdateZFSVolumeAnnotation, GetZFSVolume, Kubeclient_Get, Kubeclient_List,
    Kubeclient_Delete, Kubeclient_Update, sendEventOrIgnore, got_volume, got_snapshots.
  destruct (String.eqb_spec (ToLower reqVolumeId) "") as [|Hn]; simpl.
  { split; [done|]. intros [] tr ->. unlock. }
  split; [done|]. intros [] tr ->. split; [done|]. intros [[]|e] tr ->; simpl.
  2: { destruct (IsNotFound e); unlock. }
  split; [done|]. intros [vol|e] tr ->; simpl.
  2: { destruct (IsNotFound e); unlock. }
  destruct (DeletionTimestamp (vol_Meta vol)) eqn:Hdel; simpl; [unlock|].
  destruct (String.eqb_spec (vol_State vol) ZFSStatusReady) as [Hready|]; simpl; [|unlock].
  split; [done|]. intros [[]|e] tr ->; simpl; [|unlock].
  split; [done|]. intros [snaps|e] tr ->; simpl; [|unlock].
  destruct snaps as [|snap snaps]; simpl.
  - split; [done|]. intros [[]|e] tr ->; simpl; [|unlock].
    split. { split_and!; [done..|set_solver|]. exists vol. split; [set_solver|done]. }
    intros [[]|e] tr ->; simpl; [|unlock].
    destruct (_ =? "true"); simpl; [|unlock]. split; [done|]. intros [] tr ->. simpl. unlock.
  - split; [done|]. intros [[]|e] tr ->; simpl; [|unlock].
    split; [done|]. intros [vol'|e] tr ->; simpl; [|unlock].
    split; [done|]. intros [[]|e] tr ->; simpl; [|unlock].
    split.
    { split; [done|]. exists vol', (snap :: snaps). split_and!; [set_solver..|done|].
      by destruct vol' as [[] ? ?]. }
    intros [v|e] tr ->; simpl; [|unlock].
    destruct (_ =? "true"); simpl; [|unlock]. split; [done|]. intros [] tr ->. simpl. unlock.
Qed.

(** Deleting a snapshot: the snapshot named is deleted; the volume too, after it,
    when it was the only one listed and the volume carries the deletion mark. *)
Definition delete_snap_guard (volumeID snapname : string) (c : cmd) (tr : trace) : Prop :=
  match c with
  | CDelete k ns name =>
    ns = OpenEBSNamespace ∧
    match k with
    | KSnap => name = snapname ∧ ∃ snaps, got_snapshots volumeID tr snaps
    | KVol =>
      name = volumeID ∧
      ev (CDelete KSnap OpenEBSNamespace snapname) (Ok tt) ∈ tr ∧
      (∃ snap, got_snapshots volumeID tr [snap]) ∧
      ∃ vol, got_volume volumeID tr vol ∧
             Annotations (vol_Meta vol) !! MarkForDeletionAnnotation = Some "true"
    | _ => False
    end
  | CUpdate _ _ _ | CCreate _ _ _ => False
  | _ => True
  end.

Lemma sget_true m k : sget m k = "true" → m !! k = Some "true".
Proof. unfold sget. destruct (m !! k); simpl; [by intros ->|done]. Qed.

Lemma safe_DeleteSnapshot volumeID snapname :
  has_char "@" volumeID = false → has_char "@" snapname = false →
  safe any_env (delete_snap_guard volumeID snapname)
    (DeleteSnapshot (volumeID +:+ "@" +:+ snapname)) [].
Proof.
  intros Hv Hs. unfold DeleteSnapshot.
  destruct (_ =? ""); [done|].
  change (volumeID +:+ "@" +:+ snapname) with (volumeID +:+ String "@" snapname).
  rewrite Split_app, (Split_nosep "@" snapname) by done.
  unfold with_locks, deferred, GetZFSSnapshot, GetSnapshotForVolume, VolumeOps.DeleteVolume,
    VolumeOps.DeleteSnapshot, IsVolumeEligibleForDeletion, GetZFSVolume, Kubeclient_Get,
    Kubeclient_List, Kubeclient_Delete, got_volume, got_snapshots.
  simpl. split; [done|]. intros [] tr ->. split; [done|]. intros [] tr ->.
  assert (∀ tr, safe any_env (delete_snap_guard volumeID snapname)
    (Vis (CUnlock volumeID) (λ _, Vis (CUnlock snapname) (λ _, Ret tt))) tr) as Hun.
  { intros tr. split; [done|]. intros [] tr' _. split; [done|]. by intros [] tr'' _. }
  destruct (snapname =? ""); [apply Hun|]. simpl.
  split; [done|]. intros [[]|e] tr ->; simpl; [|destruct (IsNotFound e); apply Hun].
  split; [done|]. intros [snap|e] tr ->; simpl; [|destruct (IsNotFound e); apply Hun].
  split; [done|]. intros [[]|e] tr ->; simpl; [|apply Hun].
  split; [done|]. intros [snaps|e] tr ->; simpl; [|apply Hun].
  split; [done|]. intros [[]|e] tr ->; simpl; [|apply Hun].
  split. { split_and!; [done..|]. exists snaps. set_solver. }
  intros [[]|e] tr ->; simpl; [|apply Hun].
  destruct (volumeID =? ""); [apply Hun|]. simpl.
  split; [done|]. intros [[]|e] tr ->; simpl; [|apply Hun].
  split; [done|]. intros [vol|e] tr ->; simpl; [|apply Hun].
  destruct snaps as [|sn [|sn' snaps]]; simpl; try apply Hun.
  destruct (String.eqb_spec (sget (Annotations (vol_Meta vol)) MarkForDeletionAnnotation) "true")
    as [Hm%sget_true|]; simpl; [|apply Hun].
  split; [done|]. intros [[]|e] tr ->; simpl; [|apply Hun].
  split.
  { split_and!; [done..|set_solver|exists sn; set_solver|]. exists vol. split; [set_solver|done]. }
  intros [[]|e] tr ->; simpl; apply Hun.
Qed.
End deletion.

(** ** The objects the controller creates are acceptable to the node agent *)

Section objects.
Context `{!GoRange} `{!Globals} `{!ErrorsFmt} `{!Regexp} `{!LibHelpers}.

(** Builder methods that leave the user properties alone. *)
Lemma b_ok_spec f b :
  (∀ s, UserProperties (f s) = UserProperties s) → b_ok b → b_ok (b_spec f b).
Proof. intros Hf Hb. unfold b_ok, b_spec. simpl. rewrite Hf. done. Qed.

Lemma b_ok_meta f b : b_ok b → b_ok (b_meta f b).
Proof. done. Qed.

Lemma b_ok_fail e b : b_ok (b_fail e b).
Proof. unfold b_ok, b_fail. simpl. by destruct (b_errs b). Qed.

Lemma b_ok_status st b : b_ok b → b_ok (WithVolumeStatus st b).
Proof. done. Qed.

(** The reserved properties of the three names. *)
Lemma b_ok_reserved pvc pvcns pv b :
  b_ok b → b_ok (WithPVName pv (WithPVCNamespace pvcns (WithPVCName pvc b))).
Proof. intros Hb. do 3 (apply WithReservedUserProp_ok; [done|]). done. Qed.

Lemma b_ok_Build b vol : b_ok b → Build b = Ok vol → Validate (vol_Spec vol) = None.
Proof. intros Hb [Herr <-]%Build_ok. apply Validate_ok. by apply Hb. Qed.

Lemma b_ok_WithName name b : b_ok b → b_ok (WithName name b).
Proof. intros Hb. unfold WithName. destruct (_ =? ""); auto using b_ok_fail, b_ok_meta. Qed.

Lemma b_ok_WithCapacity c b : b_ok b → b_ok (WithCapacity c b).
Proof.
  intros Hb. unfold WithCapacity. destruct (_ =? ""); [apply b_ok_fail|]. by apply b_ok_spec.
Qed.

Lemma new_volume_valid originalParams parameters volName capacity vol :
  new_volume originalParams parameters volName capacity = Ok vol →
  Validate (vol_Spec vol) = None.
Proof.
  apply b_ok_Build. unfold WithCompression, WithLogBias, WithATime, WithShared, WithQuotaType,
    WithFsType, WithVolumeType, WithThinProv, WithKeyLocation, WithKeyFormat, WithEncryption,
    WithDedup, WithVolBlockSize, WithRecordSize.
  repeat first [ apply b_ok_spec; [done|] | apply b_ok_status | apply b_ok_WithCapacity
               | apply b_ok_reserved | apply b_ok_WithName ].
  done.
Qed.

Lemma clone_volume_valid parameters volName labels src snapName vol :
  clone_volume parameters volName labels src snapName = Ok vol → Validate (vol_Spec vol) = None.
Proof.
  unfold clone_volume. destruct (Build _) as [volObj|] eqn:Hb; [|done]. intros [= <-].
  apply b_ok_Build in Hb; [by rewrite Validate_ok in *; destruct src|].
  apply b_ok_meta, b_ok_status, b_ok_reserved, b_ok_WithName. done.
Qed.
End objects.

(** ** Properties *)

Section properties.
Context `{!GoRange} `{!Globals} `{!ErrorsFmt} `{!Regexp} `{!LibHelpers}.




(** A request without a capacity range passes the validation, and the handler
    dereferences the nil range: in every environment it panics, with the lock of the
    volume held. *)
Theorem nil_capacity_panics {St} (E : Env St) fuel req s :
  validateVolumeCreateReq req = None → cv_RequiredBytes req = None →
  cv_ContentSource req = None →
  wp E (Controller.CreateVolume fuel req) (λ o _, ∃ m, o = OPanic m) s.
Proof.
  intros Hv Hr Hc. unfold Controller.CreateVolume, with_lock. rewrite Hv, Hc.
  apply wp_call. intros [] s1 _. unfold CreateZFSVolume. rewrite Hr. simpl. by eexists.
Qed.
End properties.
