(* ===== verification/ProvisionSpec.v ===== *)
(** * What the controller asks of a node when it provisions a volume

    Every write of [CreateZFSVolume] to the API server, over every trace. *)

From S2P Require Import Prelude GoStr GoErr Api Csi Effects Kube ZfsArgs.
From S2P Require Import Builders VolumeOps Scheduler SchedulerSpec Controller PipeSpec ReconcilersSpec ControllerSpec.

(** Commands that write no resource. *)
Definition no_write (c : cmd) : Prop :=
  match c with CCreate _ _ _ | CUpdate _ _ _ | CDelete _ _ _ => False | _ => True end.

Section provision.
Context `{!GoRange} `{!Globals} `{!ErrorsFmt} `{!Regexp} `{!LibHelpers}.

(** ** The parts that only read *)

Lemma only_Get k ns name : only no_write (Kubeclient_Get k ns name).
Proof. unfold Kubeclient_Get, getClientOrCached. solve_only. Qed.

Lemma only_List k ns opts : only no_write (Kubeclient_List k ns opts).
Proof. unfold Kubeclient_List, getClientOrCached. solve_only. Qed.

Lemma only_GetZFSVolume name : only no_write (GetZFSVolume name).
Proof. apply (only_Get KVol). Qed.

Lemma only_listZFSNodes : only no_write listZFSNodes.
Proof. apply (only_List KNode). Qed.

Lemma only_waitForVolDestroy fuel name : only no_write (waitForVolDestroy fuel name).
Proof.
  induction fuel as [|fuel IH]; simpl; [done|].
  apply only_bind; [apply only_attempt, only_GetZFSVolume|]. intros [vol|e]; [|by case_match].
  split; [done|]. intros []. apply IH.
Qed.

Lemma only_existing_volume fuel parameters volName capacity :
  only no_write (existing_volume fuel parameters volName capacity).
Proof.
  unfold existing_volume. apply only_bind; [apply only_attempt, only_GetZFSVolume|].
  intros [vol|e]; [|done]. destruct (DeletionTimestamp _); [|by repeat case_match].
  destruct (_ !! _); [|done]. apply only_bind; [apply only_waitForVolDestroy|done].
Qed.

Lemma only_parsePoolParams pool poolpattern : only no_write (parsePoolParams pool poolpattern).
Proof. unfold parsePoolParams. solve_only. Qed.

Lemma leaf_parsePoolParams pool poolpattern : leaf (parsePoolParams pool poolpattern).
Proof. unfold parsePoolParams. by repeat case_match. Qed.

Lemma only_getNodeMap schd pattern : only no_write (getNodeMap schd pattern).
Proof.
  unfold getNodeMap, getVolumeWeightedMap, getCapacityWeightedMap, getSpaceWeightedMap.
  repeat case_match; repeat (apply only_bind; [apply only_listZFSNodes || apply (only_List KVol)|intros ?]);
    done.
Qed.

Lemma only_preferred_nodes req parameters pool poolpattern schld pattern reserves size volName :
  only no_write (preferred_nodes req parameters pool poolpattern schld pattern reserves size volName).
Proof.
  unfold preferred_nodes, getSuitableNodes.
  apply only_bind; [apply only_map_err, only_getNodeMap|intros nmap].
  apply only_bind; [by case_match|intros prfList]. case_match; [done|].
  apply only_bind; [|intros; solve_only].
  case_match; [|done]. apply only_bind; [|intros; solve_only].
  apply only_map_err, only_bind; [apply only_listZFSNodes|]. intros []; done.
Qed.

Lemma only_pool_on_node schld pool poolpattern pattern minFree node nodeid :
  only no_write (pool_on_node schld pool poolpattern pattern minFree node nodeid).
Proof.
  unfold pool_on_node, resolvePool, getPoolMap, getPoolVolumeMap. case_match; [|done].
  apply only_bind; [|intros; solve_only]. apply only_attempt, only_bind; [apply (only_Get KNode)|intros ?].
  apply only_bind; [|done]. case_match; [|done]. apply only_bind; [apply (only_List KVol)|done].
Qed.

Lemma only_checkVolCreation fuel name : only no_write (checkVolCreation fuel name).
Proof.
  unfold checkVolCreation. split; [done|]. intros timeout. simpl.
  induction fuel as [|fuel IH]; simpl; [done|]. split; [done|]. intros []; try done.
  apply only_bind; [apply only_attempt, only_GetZFSVolume|]. intros [vol|e]; [|done].
  by repeat case_match.
Qed.

(** ** The choice of a pool *)

Lemma poolForNode_loop_mem pattern minFree pmap pools selected w :
  let r := poolForNode_loop pattern minFree pmap pools selected w in
  r = selected ∨ ∃ p, p ∈ pools ∧ qualifies pattern minFree p = true ∧ r = pool_Name p.
Proof.
  revert selected w. induction pools as [|p pools IH]; intros selected w; simpl; [auto|].
  assert (∀ s v, let r := poolForNode_loop pattern minFree pmap pools s v in
    r = s ∨ ∃ q, q ∈ p :: pools ∧ qualifies pattern minFree q = true ∧ r = pool_Name q) as Hskip.
  { intros s v. destruct (IH s v) as [|(q & ? & ?)]; [auto|right; exists q; set_solver]. }
  unfold qualifies, matches in *. destruct (MatchString pattern (pool_Name p)) eqn:Hm; simpl; [|apply Hskip].
  destruct (_ && _) eqn:Hf; simpl; [apply Hskip|].
  destruct (_ || _); [|apply Hskip].
  destruct (Hskip (pool_Name p) (zget pmap (pool_Name p))) as [->|]; [|auto].
  right. exists p. rewrite Hm, Hf. set_solver.
Qed.

(** The pool is the one named, or one of a pattern's that the API server reported
    for the node and that can hold the volume. *)
Definition pool_chosen (pool poolpattern : string) (pattern : regex) (minFree : Z)
    (nodeid volPool : string) (tr : trace) : Prop :=
  if poolpattern =? "" then volPool = pool
  else ∃ node p, ev (CGet KNode OpenEBSNamespace nodeid) (Ok node) ∈ tr ∧ p ∈ node_Pools node ∧
                 volPool = pool_Name p ∧ qualifies pattern minFree p = true.

Lemma pool_chosen_app pool poolpattern pattern minFree nodeid volPool tr rest :
  pool_chosen pool poolpattern pattern minFree nodeid volPool tr →
  pool_chosen pool poolpattern pattern minFree nodeid volPool (tr ++ rest).
Proof. unfold pool_chosen. case_match; [done|]. set_solver. Qed.

Lemma wp_pool_on_node schld pool poolpattern pattern minFree node nodeid tr0 :
  wp any_env (pool_on_node schld pool poolpattern pattern minFree node nodeid)
    (λ o tr, ∀ volPool, o = ORet (inl volPool) →
       pool_chosen pool poolpattern pattern minFree nodeid volPool tr) tr0.
Proof.
  unfold pool_on_node, pool_chosen. destruct (poolpattern =? ""); simpl; [naive_solver|].
  unfold resolvePool, Kubeclient_Get. destruct (nodeid =? ""); simpl; [done|].
  intros [[]|e]; trace_step; [|done]. intros [nobj|e]; trace_step; [|done].
  assert (∀ tr pm, wp any_env
    (let p := poolForNode (node_Pools nobj) pattern minFree pm in
     if p =? "" then Ret (inr (Errorf "no pool matching poolpattern %q on node %s" [poolpattern; node]))
     else Ret (inl p))
    (λ o tr, ∀ volPool, o = ORet (inl volPool) → ∃ node' p,
       ev (CGet KNode OpenEBSNamespace nodeid) (Ok node') ∈ tr ∧ p ∈ node_Pools node' ∧
       volPool = pool_Name p ∧ qualifies pattern minFree p = true)
    ((tr0 ++ [ev CClientset (Ok tt)]) ++ [ev (CGet KNode OpenEBSNamespace nodeid) (Ok nobj)] ++ tr))
    as Hdone.
  { intros tr pm. simpl. destruct (String.eqb_spec (poolForNode (node_Pools nobj) pattern minFree pm) "")
      as [|Hne]; simpl; [done|]. intros volPool [= <-].
    destruct (poolForNode_loop_mem pattern minFree pm (node_Pools nobj) "" 0) as [Hs|(p & ? & ? & ?)];
      [done|]. exists nobj, p. set_solver. }
  unfold getPoolMap, getPoolVolumeMap, Kubeclient_List.
  destruct (schld =? VolumeWeighted); simpl.
  - intros [[]|e]; trace_step; [|done]. intros [zvlist|e]; trace_step; [|done].
    specialize (Hdone [ev CClientset (Ok tt); ev (CList KVol OpenEBSNamespace "") (Ok zvlist)]).
    simpl in Hdone. rewrite <- !(assoc_L (++)) in *. simpl in *. eapply wp_mono; [|apply Hdone]. done.
  - specialize (Hdone []). rewrite app_nil_r in Hdone. rewrite <- !(assoc_L (++)) in *. apply Hdone.
Qed.

(** ** The object of a new volume *)

Lemma reserved_keeps name value b :
  vol_Meta (b_volume (WithReservedUserProp name value b)) = vol_Meta (b_volume b) ∧
  (b_errs (WithReservedUserProp name value b) = [] → b_errs b = []).
Proof.
  unfold WithReservedUserProp. destruct (ValidateUserProperty name value); simpl; [|done].
  split; [done|]. by destruct (b_errs b).
Qed.

Lemma reserved_three pvc pvcns pv b :
  let b' := WithPVName pv (WithPVCNamespace pvcns (WithPVCName pvc b)) in
  vol_Meta (b_volume b') = vol_Meta (b_volume b) ∧ (b_errs b' = [] → b_errs b = []).
Proof.
  unfold WithPVName, WithPVCNamespace, WithPVCName. set (b1 := WithReservedUserProp _ pvc b).
  set (b2 := WithReservedUserProp _ pvcns b1). set (b' := WithReservedUserProp _ pv b2).
  destruct (reserved_keeps _ pvc b : _ (_ b1) = _ ∧ (_ b1 = _ → _)) as [M1 E1].
  destruct (reserved_keeps _ pvcns b1 : _ (_ b2) = _ ∧ (_ b2 = _ → _)) as [M2 E2].
  destruct (reserved_keeps _ pv b2 : _ (_ b') = _ ∧ (_ b' = _ → _)) as [M3 E3].
  rewrite M3, M2, M1. auto.
Qed.

Lemma new_volume_fields originalParams parameters volName capacity vol :
  new_volume originalParams parameters volName capacity = Ok vol →
  Name (vol_Meta vol) = volName ∧ Capacity (vol_Spec vol) = capacity.
Proof.
  unfold new_volume. intros [Herr <-]%Build_ok. revert Herr.
  unfold WithCapacity, WithCompression, WithLogBias,
    WithATime, WithShared, WithQuotaType, WithFsType, WithVolumeType, WithThinProv, WithKeyLocation,
    WithKeyFormat, WithEncryption, WithDedup, WithVolBlockSize, WithRecordSize.
  set (b0 := WithName volName NewBuilder). set (b3 := WithPVName _ _).
  destruct (reserved_three _ _ _ b0 : _ (_ b3) = _ ∧ (_ b3 = _ → _)) as [M3 E3]. clearbody b3.
  destruct b3 as [v3 e3]. simpl in M3, E3. destruct (capacity =? ""); simpl; [by destruct e3|].
  intros Herr. destruct v3 as [m3 [] st3]. simpl in *. split; [|done]. subst m3.
  apply E3 in Herr. unfold b0, WithName in *. by destruct (volName =? "").
Qed.

(** ** The writes *)

(** The request, read as the code reads it. *)
Definition req_size (req : CreateVolumeRequest) : Z :=
  getRoundedCapacity (default 0%Z (cv_RequiredBytes req)).
Definition req_param (req : CreateVolumeRequest) (k : string) : string :=
  sget (GetCaseInsensitiveMap (cv_Parameters req)) k.
Definition req_reserves (req : CreateVolumeRequest) : bool :=
  reservesSpace (GetVolumeType (req_param req "fstype")) (req_param req "thinprovision").
Definition req_minFree (req : CreateVolumeRequest) : Z :=
  if req_reserves req then req_size req else 0%Z.

(** A volume as the controller may ask for it: pending, of the rounded size, valid
    for the agent, with the node and pool chosen. *)
Definition asked (req : CreateVolumeRequest) (pattern : regex) (v : ZFSVolume) (tr : trace) : Prop :=
  vol_State v = ZFSStatusPending ∧ Capacity (vol_Spec v) = FormatInt (req_size req) ∧
  Validate (vol_Spec v) = None ∧
  parsePoolParams (req_param req "poolname") (req_param req "poolpattern") = Ret pattern ∧
  pool_chosen (req_param req "poolname") (req_param req "poolpattern") pattern (req_minFree req)
    (OwnerNodeID (vol_Spec v)) (PoolName (vol_Spec v)) tr.

(** An update of the resource under a name: its metadata are those that were read. *)
Definition updates (name : string) (v : ZFSVolume) (tr : trace) : Prop :=
  ∃ zv, got_volume name tr zv ∧ vol_Meta v = vol_Meta zv.

Definition provision_guard (req : CreateVolumeRequest) (c : cmd) (tr : trace) : Prop :=
  match c with
  | CCreate k ns o =>
    (match k as k return obj k → Prop with
     | KVol => λ v, ns = OpenEBSNamespace ∧ Name (vol_Meta v) = ToLower (cv_Name req) ∧
                    ∃ pattern, asked req pattern v tr
     | _ => λ _, False
     end) o
  | CUpdate k ns o =>
    (match k as k return obj k → Prop with
     | KVol => λ v, ns = OpenEBSNamespace ∧ updates (ToLower (cv_Name req)) v tr ∧
                    ∃ pattern, asked req pattern v tr
     | _ => λ _, False
     end) o
  | CDelete k ns name => k = KVol ∧ ns = OpenEBSNamespace ∧ name = ToLower (cv_Name req)
  | _ => True
  end.

Lemma no_write_provision req c tr : no_write c → provision_guard req c tr.
Proof. by destruct c. Qed.

Lemma safe_read {A} req (p : prog A) tr : only no_write p → safe any_env (provision_guard req) p tr.
Proof. apply only_safe, no_write_provision. Qed.

Lemma asked_app req pattern v tr rest : asked req pattern v tr → asked req pattern v (tr ++ rest).
Proof. intros (? & ? & ? & ? & ?). split_and!; try done. by apply pool_chosen_app. Qed.

Lemma wp_got_attempt name tr :
  wp any_env (attempt (GetZFSVolume name)) (λ o tr', ∀ zv, o = ORet (Ok zv) → got_volume name tr' zv) tr.
Proof.
  apply wp_attempt. unfold GetZFSVolume, Kubeclient_Get, getClientOrCached. destruct (name =? ""); [done|].
  simpl. intros [[]|e]; trace_step; [|done]. intros [zv|e]; trace_step; [|done].
  intros zv' [= <-]. unfold got_volume. set_solver.
Qed.

(** Provisioning creates the object, or updates the existing one to its spec and
    status; the rest only reads. *)
Lemma safe_provision (G : cmd → trace → Prop) fuel vol tr :
  (∀ c tr', no_write c → G c tr') →
  (∀ rest, G (CCreate KVol OpenEBSNamespace vol) (tr ++ rest)) →
  (∀ zv rest, got_volume (Name (vol_Meta vol)) (tr ++ rest) zv →
     G (CUpdate KVol OpenEBSNamespace
          (zv {{ vol_Spec := vol_Spec vol }} {{ vol_State := vol_State vol }})) (tr ++ rest)) →
  safe any_env G (ProvisionVolume fuel vol) tr.
Proof.
  intros Hread Hcreate Hupdate. unfold ProvisionVolume, Kubeclient_Update, Kubeclient_Create.
  apply safe_bind; [by eapply only_safe, only_attempt, only_GetZFSVolume|].
  eapply wp_mono; [|apply wp_and; [apply wp_got_attempt|]].
  2: { apply (trace_extends _ (λ _ tr', ∃ rest, tr' = tr ++ rest)). eauto. }
  intros [zv|e| |] tr1 [Hgot [rest1 ->]]; try done.
  apply safe_bind.
  - apply safe_attempt. destruct zv as [zv|e]; simpl; (split; [by apply Hread|]);
      intros [[]|e'] tr' ->; simpl; try done; (split; [|by intros []]);
      rewrite <- (assoc_L (++)); [apply Hupdate|apply Hcreate].
    rewrite (assoc_L (++)). apply elem_of_app. left. by apply Hgot.
  - apply trace_extends. intros [[v|e]|e| |] rest2; try done.
    by eapply only_safe, only_checkVolCreation.
Qed.

Lemma safe_ProvisionVolume req pattern fuel vol tr :
  Name (vol_Meta vol) = ToLower (cv_Name req) → asked req pattern vol tr →
  safe any_env (provision_guard req) (ProvisionVolume fuel vol) tr.
Proof.
  intros Hname Hasked. apply safe_provision; [apply no_write_provision|..].
  - intros rest. split_and!; try done. exists pattern. by apply asked_app.
  - intros zv rest Hgot. split; [done|]. split; [exists zv; split; [by rewrite <- Hname|by destruct zv]|].
    exists pattern. apply asked_app. by destruct Hasked as (? & ? & ? & ? & ?), vol as [? [] ?].
Qed.

(** What the loop over the nodes keeps of the object under construction. *)
Definition template (req : CreateVolumeRequest) (v : ZFSVolume) : Prop :=
  Name (vol_Meta v) = ToLower (cv_Name req) ∧
  Capacity (vol_Spec v) = FormatInt (req_size req) ∧ Validate (vol_Spec v) = None.

(** The object with the node and pool of one iteration. *)
Lemma build_for_node nodeid volPool volObj :
  let b := BuildFrom (Some volObj) .> WithOwnerNodeID nodeid .> WithPoolName volPool
           .> WithVolumeStatus ZFSStatusPending in
  (∀ req, template req volObj → template req (b_volume b)) ∧
  (∀ vol, Build b = Ok vol →
     vol = b_volume b ∧ vol_State vol = ZFSStatusPending ∧
     OwnerNodeID (vol_Spec vol) = nodeid ∧ PoolName (vol_Spec vol) = volPool).
Proof.
  destruct volObj as [m spec st]. destruct spec.
  unfold template, WithPoolName, WithOwnerNodeID, b_spec. simpl.
  destruct (volPool =? ""); simpl; (split; [by intros req|]); intros vol [Herr <-]%Build_ok; done.
Qed.

Lemma GetNodeID_no_write node : only no_write (GetNodeID node).
Proof. unfold GetNodeID. solve_only. Qed.

Lemma safe_try_nodes req fuel pattern prfList volObj err tr :
  template req volObj →
  parsePoolParams (req_param req "poolname") (req_param req "poolpattern") = Ret pattern →
  safe any_env (provision_guard req)
    (try_nodes fuel (req_param req "scheduler") (req_param req "poolname")
       (req_param req "poolpattern") pattern (req_minFree req) prfList volObj err) tr.
Proof.
  intros Ht Hparse. revert volObj err tr Ht.
  induction prfList as [|node nodes IH]; intros volObj err tr Ht; [done|].
  cbn [try_nodes]. apply safe_bind; [apply safe_read, only_attempt, GetNodeID_no_write|].
  apply trace_extends. intros [[nodeid|e]|e| |] rest; try done; [|by apply IH].
  apply safe_bind; [apply safe_read, only_pool_on_node|].
  eapply wp_mono, wp_pool_on_node. intros [[volPool|e]|e| |] tr1 Hpool; try done; [|by apply IH].
  specialize (Hpool volPool eq_refl).
  destruct (build_for_node nodeid volPool volObj) as [Htempl Hbuild].
  specialize (Htempl req Ht). cbv zeta. revert Htempl Hbuild.
  set (b := WithVolumeStatus _ _). intros Htempl Hbuild.
  destruct (Build b) as [vol|e]; [|by apply IH].
  destruct (Hbuild vol eq_refl) as (-> & Hst & Hnode & Hp).
  apply safe_bind.
  - eapply safe_ProvisionVolume; [apply Htempl|].
    split_and!; [done|apply Htempl|apply Htempl|done|by rewrite Hnode, Hp].
  - apply trace_extends. intros [[[] [e|]]|e| |] rest1; try done. by apply IH.
Qed.

Lemma safe_CreateZFSVolume fuel req tr :
  safe any_env (provision_guard req) (CreateZFSVolume fuel req) tr.
Proof.
  unfold CreateZFSVolume. destruct (cv_RequiredBytes req) as [rb|] eqn:Hrb; [|done].
  assert (getRoundedCapacity rb = req_size req) as -> by (unfold req_size; by rewrite Hrb).
  apply safe_bind; [apply safe_read, only_existing_volume|].
  apply trace_extends. intros [[vol|]|e| |] rest1; try done.
  cbv zeta. pose proof (leaf_parsePoolParams (req_param req "poolname") (req_param req "poolpattern")) as Hl.
  fold (req_param req "poolname") (req_param req "poolpattern").
  destruct (parsePoolParams (req_param req "poolname") (req_param req "poolpattern"))
    as [pattern|e|m| |] eqn:Hparse; try done.
  change (map_err ?f (Ret pattern) ≫= ?k) with (k pattern). cbv beta.
  apply safe_bind; [apply safe_read, only_preferred_nodes|].
  apply trace_extends. intros [prfList|e| |] rest3; try done.
  destruct (new_volume _ _ _ _) as [volObj|e] eqn:Hnew; [|done].
  apply safe_bind.
  - apply safe_try_nodes; [|done]. destruct (new_volume_fields _ _ _ _ _ Hnew) as [Hn Hc].
    split_and!; [done..|]. by eapply new_volume_valid.
  - apply trace_extends. intros [[vol|[e|]]|e| |] rest4; try done.
    unfold VolumeOps.DeleteVolume, Kubeclient_Delete.
    destruct (_ =? ""); [done|]. simpl. split; [done|]. intros [[]|e'] tr' ->; simpl; [|done].
    split; [done|]. by intros [[]|e''] tr'' ->.
Qed.

(** ** Clones *)

(** The clone of a source spec that was read from the API server: everything of the
    source but the snapshot it is made of and the user properties. *)
Definition cloned (req : CreateVolumeRequest) (src : VolumeInfo) (snapName : string)
    (v : ZFSVolume) : Prop :=
  vol_State v = ZFSStatusPending ∧ Validate (vol_Spec v) = None ∧
  Capacity src = FormatInt (req_size req) ∧
  vol_Spec v = src {{ UserProperties := UserProperties (vol_Spec v) }} {{ SnapName := snapName }} ∧
  ∃ pattern,
    pool_params (GetInsensitiveParameter (cv_Parameters req) "poolname")
      (GetInsensitiveParameter (cv_Parameters req) "poolpattern") = Ret pattern ∧
    sourcePoolAllowed (PoolName src) (GetInsensitiveParameter (cv_Parameters req) "poolname") pattern = true.

(** The sources of a clone that a trace knows of: a volume or a snapshot, with the
    snapshot the dataset is cloned from. *)
Definition vol_source (req : CreateVolumeRequest) (srcVol : string) (src : VolumeInfo)
    (snapName : string) (tr : trace) : Prop :=
  ∃ vol, got_volume srcVol tr vol ∧ src = vol_Spec vol ∧
         snapName = Name (vol_Meta vol) +:+ "@" +:+ ToLower (cv_Name req).

Definition snap_source (snapshot : string) (src : VolumeInfo) (snapName : string) (tr : trace) : Prop :=
  ∃ volname snapname snap,
    snapshot = volname +:+ "@" +:+ snapname ∧
    ev (CGet KSnap OpenEBSNamespace snapname) (Ok snap) ∈ tr ∧
    src = snap_Spec snap ∧ snapName = ToLower snapshot.

Definition clone_guard (req : CreateVolumeRequest)
    (source : VolumeInfo → string → trace → Prop) (c : cmd) (tr : trace) : Prop :=
  match c with
  | CCreate k ns o =>
    (match k as k return obj k → Prop with
     | KVol => λ v, ns = OpenEBSNamespace ∧ Name (vol_Meta v) = ToLower (cv_Name req) ∧
                    ∃ src snapName, source src snapName tr ∧ cloned req src snapName v
     | _ => λ _, False
     end) o
  | CUpdate k ns o =>
    (match k as k return obj k → Prop with
     | KVol => λ v, ns = OpenEBSNamespace ∧ updates (ToLower (cv_Name req)) v tr ∧
                    ∃ src snapName, source src snapName tr ∧ cloned req src snapName v
     | _ => λ _, False
     end) o
  | CDelete _ _ _ => False
  | _ => True
  end.

Lemma clone_volume_fields parameters volName labels src snapName vol :
  clone_volume parameters volName labels src snapName = Ok vol →
  Name (vol_Meta vol) = volName ∧ vol_State vol = ZFSStatusPending ∧
  vol_Spec vol = src {{ UserProperties := UserProperties (vol_Spec vol) }} {{ SnapName := snapName }}.
Proof.
  unfold clone_volume. destruct (Build _) as [volObj|] eqn:Hb; [|done]. intros [= <-].
  apply Build_ok in Hb as [Herr <-]. revert Herr.
  set (b0 := WithName volName NewBuilder). set (b3 := WithPVName _ _).
  destruct (reserved_three _ _ _ b0 : _ (_ b3) = _ ∧ (_ b3 = _ → _)) as [M3 E3]. clearbody b3.
  destruct b3 as [[m3 sp3 st3] e3]. simpl in *. intros Herr.
  apply E3 in Herr. unfold b0, WithName in *. destruct (volName =? ""); [done|]. simpl in *. subst m3. destruct src. done.
Qed.

Lemma safe_clone req source fuel src snapName labels pattern vol tr :
  (∀ rest, source src snapName (tr ++ rest)) →
  Capacity src = FormatInt (req_size req) →
  pool_params (GetInsensitiveParameter (cv_Parameters req) "poolname")
    (GetInsensitiveParameter (cv_Parameters req) "poolpattern") = Ret pattern →
  sourcePoolAllowed (PoolName src) (GetInsensitiveParameter (cv_Parameters req) "poolname") pattern = true →
  clone_volume (cv_Parameters req) (ToLower (cv_Name req)) labels src snapName = Ok vol →
  safe any_env (clone_guard req source) (ProvisionVolume fuel vol) tr.
Proof.
  intros Hsrc Hcap Hparse Hpool Hvol.
  destruct (clone_volume_fields _ _ _ _ _ _ Hvol) as (Hname & Hst & Hspec).
  apply clone_volume_valid in Hvol as Hvalid.
  apply safe_provision; [by intros []|..].
  - intros rest. split_and!; try done. exists src, snapName. split; [done|].
    split_and!; try done. eauto.
  - intros zv rest Hgot. split; [done|]. split; [exists zv; split; [by rewrite <- Hname|by destruct zv]|].
    exists src, snapName. split; [done|]. destruct zv. split_and!; try done. eauto.
Qed.

Lemma leaf_pool_params pool poolpattern : leaf (pool_params pool poolpattern).
Proof.
  pose proof (leaf_parsePoolParams pool poolpattern). unfold pool_params.
  by destruct (parsePoolParams pool poolpattern).
Qed.

Lemma safe_CreateVolClone fuel req srcVol :
  safe any_env (clone_guard req (vol_source req srcVol)) (CreateVolClone fuel req srcVol) [].
Proof.
  unfold CreateVolClone. destruct (cv_RequiredBytes req) as [rb|] eqn:Hrb; [|done].
  assert (getRoundedCapacity rb = req_size req) as -> by (unfold req_size; by rewrite Hrb).
  set (pool := GetInsensitiveParameter _ "poolname"). set (pp := GetInsensitiveParameter _ "poolpattern").
  pose proof (leaf_pool_params pool pp) as Hl.
  destruct (pool_params pool pp) as [pattern|e|m| |] eqn:Hparse; try done.
  change (Ret pattern ≫= ?k) with (k pattern). cbv beta.
  unfold GetZFSVolume, Kubeclient_Get. destruct (String.eqb_spec srcVol "") as [|Hn]; [done|].
  simpl. split; [done|]. intros [[]|e] tr ->; simpl; [|done].
  split; [done|]. intros [vol|e] tr ->; simpl; [|done].
  destruct (sourcePoolAllowed _ _ _) eqn:Hpool; simpl; [|done].
  destruct (String.eqb_spec (Capacity (vol_Spec vol)) (FormatInt (req_size req))) as [Hcap|]; simpl; [|done].
  destruct (clone_volume _ _ _ _ _) as [volObj|e] eqn:Hvol; [|done]. simpl.
  apply safe_bind; [|by apply trace_extends; intros [[b [e|]]|e| |] rest].
  eapply safe_clone; try done. intros rest. exists vol. unfold got_volume. set_solver.
Qed.

Lemma safe_CreateSnapClone fuel req snapshot :
  safe any_env (clone_guard req (snap_source snapshot)) (CreateSnapClone fuel req snapshot) [].
Proof.
  unfold CreateSnapClone. destruct (cv_RequiredBytes req) as [rb|] eqn:Hrb; [|done].
  assert (getRoundedCapacity rb = req_size req) as -> by (unfold req_size; by rewrite Hrb).
  set (pool := GetInsensitiveParameter _ "poolname"). set (pp := GetInsensitiveParameter _ "poolpattern").
  pose proof (leaf_pool_params pool pp) as Hl.
  destruct (pool_params pool pp) as [pattern|e|m| |] eqn:Hparse; try done.
  change (Ret pattern ≫= ?k) with (k pattern). cbv beta.
  pose proof (Join_Split "@" snapshot) as Hj.
  destruct (Split "@" snapshot) as [|volname [|snapname [|x l]]]; try done. simpl in Hj.
  unfold GetZFSSnapshot, Kubeclient_Get. destruct (String.eqb_spec snapname "") as [|Hn]; [done|].
  simpl. split; [done|]. intros [[]|e] tr ->; simpl; [|done].
  split; [done|]. intros [snap|e] tr ->; simpl; [|done].
  destruct (sourcePoolAllowed _ _ _) eqn:Hpool; simpl; [|done].
  destruct (String.eqb_spec (Capacity (snap_Spec snap)) (FormatInt (req_size req))) as [Hcap|]; simpl; [|done].
  destruct (clone_volume _ _ _ _ _) as [volObj|e] eqn:Hvol; [|done]. simpl.
  apply safe_bind; [|by apply trace_extends; intros [[b [e|]]|e| |] rest].
  eapply safe_clone; try done. intros rest. exists volname, snapname, snap. set_solver.
Qed.

(** ** Properties *)

(** C4: what the controller asks of a node.  Provisioning writes volume resources
    only: the one it creates is named after the request, and each it creates or
    updates is pending, of the rounded size, valid for the agent, on a node and in
    the pool named by the request or in a pool that matches the pattern, that the
    API server reported for that node and that can hold the volume; an update keeps
    the metadata of the resource that was read; it deletes no other resource than
    that of the volume asked for. *)
Theorem CreateZFSVolume_guarded fuel req :
  safe any_env (provision_guard req) (CreateZFSVolume fuel req) [].
Proof. apply safe_CreateZFSVolume. Qed.

(** C7: a clone, of a volume or of a snapshot, is asked for with the specification of
    its source as the API server has it, changed only in the snapshot it is made of
    and in the reserved properties; with the size of the source, in a pool the
    request allows; nothing is deleted. *)
Theorem clones_guarded fuel req source :
  safe any_env (clone_guard req (vol_source req source)) (CreateVolClone fuel req source) [] ∧
  safe any_env (clone_guard req (snap_source source)) (CreateSnapClone fuel req source) [].
Proof. split; [apply safe_CreateVolClone|apply safe_CreateSnapClone]. Qed.
End provision.
