(* ===== verification/SnapshotSpec.v ===== *)
(** * What the controller guarantees when it takes a snapshot

    The writes and the answer of [CreateSnapshot], over every trace. *)

From S2P Require Import Prelude GoStr GoErr Api Csi Effects Kube ZfsArgs.
From S2P Require Import Builders VolumeOps Scheduler Controller PipeSpec ReconcilersSpec ControllerSpec ProvisionSpec.

Section snapshots.
Context `{!GoRange} `{!Globals} `{!ErrorsFmt} `{!Regexp} `{!LibHelpers}.

(** ** The object of a new snapshot *)

Definition sb_ok (b : SnapBuilder) : Prop :=
  sb_errs b = [] → props_reserved (UserProperties (snap_Spec (sb_snap b))).

Lemma snap_reserved_ok name value b :
  HasPrefix name "openebs.io:" = true → sb_ok b →
  let b' := snap_WithReservedUserProp name value b in
  sb_ok b' ∧ snap_Meta (sb_snap b') = snap_Meta (sb_snap b) ∧ (sb_errs b' = [] → sb_errs b = []).
Proof.
  intros Hp Hb. unfold snap_WithReservedUserProp, sb_ok.
  destruct (ValidateUserProperty name value) eqn:Hv; simpl; split_and!; try done.
  - intros Hn. by destruct (sb_errs b).
  - by destruct (sb_errs b).
  - intros Hn. apply props_reserved_insert; auto.
Qed.

Lemma snap_reserved_three vs vsns vsc b :
  sb_ok b →
  let b' := WithVSCName vsc (WithVSNamespace vsns (WithVSName vs b)) in
  sb_ok b' ∧ snap_Meta (sb_snap b') = snap_Meta (sb_snap b) ∧ (sb_errs b' = [] → sb_errs b = []).
Proof.
  intros Hok. unfold WithVSName, WithVSNamespace, WithVSCName.
  destruct (snap_reserved_ok "openebs.io:vs-name" vs b) as (O1 & M1 & E1); [done..|].
  set (b1 := snap_WithReservedUserProp _ vs b) in *.
  destruct (snap_reserved_ok "openebs.io:vs-namespace" vsns b1) as (O2 & M2 & E2); [done..|].
  set (b2 := snap_WithReservedUserProp _ vsns b1) in *.
  destruct (snap_reserved_ok "openebs.io:vsc-name" vsc b2) as (O3 & M3 & E3); [done..|].
  split_and!; [exact O3|congruence|auto].
Qed.

Lemma new_snapshot_fields params snapName vol snap :
  new_snapshot params snapName vol = Ok snap →
  Name (snap_Meta snap) = snapName ∧ Labels (snap_Meta snap) = {[ZFSVolKey := Name (vol_Meta vol)]} ∧
  snap_State snap = ZFSStatusPending ∧ Validate (snap_Spec snap) = None ∧
  snap_Spec snap = (vol_Spec vol) {{ UserProperties := UserProperties (snap_Spec snap) }}.
Proof.
  unfold new_snapshot. destruct (snap_Build _) as [obj|] eqn:Hb; [|done]. intros [= <-].
  apply snap_Build_ok in Hb as [Herr <-]. revert Herr.
  set (b0 := snap_WithName snapName snap_NewBuilder). set (b3 := WithVSCName _ _).
  assert (sb_ok b0) as Hok0 by (unfold b0, snap_WithName, sb_ok; by case_match).
  destruct (snap_reserved_three _ _ _ b0 Hok0 : sb_ok b3 ∧ _ (_ b3) = _ ∧ (_ b3 = _ → _))
    as (O3 & M3 & E3).
  clearbody b3. destruct b3 as [[m3 sp3 st3] e3]. unfold sb_ok in *. simpl in *. intros Herr.
  specialize (O3 Herr). apply E3 in Herr. unfold b0, snap_WithName in *.
  destruct (snapName =? ""); [done|]. simpl in *. subst m3.
  destruct (vol_Spec vol). simpl. split_and!; try done. by apply Validate_ok.
Qed.

(** ** The writes *)

Definition got_snapshot (name : string) (tr : trace) (snap : ZFSSnapshot) : Prop :=
  ev (CGet KSnap OpenEBSNamespace name) (Ok snap) ∈ tr.

(** One snapshot resource is created: pending, named as asked, of the volume asked
    for, with the spec of that volume as the API server has it, and valid for the
    agent. *)
Definition snapshot_guard (req : CreateSnapshotRequest) (c : cmd) (tr : trace) : Prop :=
  match c with
  | CCreate k ns o =>
    (match k as k return obj k → Prop with
     | KSnap => λ snap,
         ns = OpenEBSNamespace ∧ Name (snap_Meta snap) = ToLower (cs_Name req) ∧
         snap_State snap = ZFSStatusPending ∧ Validate (snap_Spec snap) = None ∧
         ∃ vol, got_volume (ToLower (cs_SourceVolumeId req)) tr vol ∧
                Labels (snap_Meta snap) = {[ZFSVolKey := Name (vol_Meta vol)]} ∧
                snap_Spec snap = (vol_Spec vol) {{ UserProperties := UserProperties (snap_Spec snap) }}
     | _ => λ _, False
     end) o
  | CUpdate _ _ _ | CDelete _ _ _ => False
  | _ => True
  end.

Lemma only_GetZFSSnapshot name : only no_write (GetZFSSnapshot name).
Proof. apply (only_Get KSnap). Qed.

Lemma only_waitForReadySnapshot fuel name : only no_write (waitForReadySnapshot fuel name).
Proof.
  induction fuel as [|fuel IH]; simpl; [done|].
  apply only_bind; [apply only_attempt, only_GetZFSSnapshot|]. intros [snap|e]; [|done].
  repeat case_match; try done. split; [done|]. by intros [].
Qed.

Lemma only_snapshot_response v n ts snap : only no_write (snapshot_response v n ts snap).
Proof. unfold snapshot_response. by case_match. Qed.

Lemma safe_snap_read {A} req (p : prog A) tr :
  only no_write p → safe any_env (snapshot_guard req) p tr.
Proof. apply only_safe. by intros []. Qed.

(** What follows the creation. *)
Lemma only_after_create fuel (w : option string) snapName volumeID ts :
  only no_write
    (_ ← match w with Some _ => waitForReadySnapshot fuel snapName | None => Ret tt end;
     snapObj ← map_err (λ err, Errorf "get zfssnapshot failed, err: %v" [Error err])
                 (GetZFSSnapshot snapName);
     snapshot_response volumeID snapName ts snapObj).
Proof.
  apply only_bind; [destruct w; [apply only_waitForReadySnapshot|done]|]. intros [].
  apply only_bind; [apply only_map_err, only_GetZFSSnapshot|]. intros; apply only_snapshot_response.
Qed.

Lemma only_verify req : only no_write (verifySnapshotRequest req).
Proof.
  unfold verifySnapshotRequest. case_match; [done|].
  apply only_bind; [apply only_attempt, only_GetZFSSnapshot|]. intros []; by case_match.
Qed.

Lemma safe_CreateSnapshot fuel req :
  safe any_env (snapshot_guard req) (Controller.CreateSnapshot fuel req) [].
Proof.
  apply safe_bind; [apply safe_snap_read, only_verify|].
  apply trace_extends. intros [[]|e| |] rest0; try done.
  unfold with_locks, deferred. cbn [app]. do 2 (split; [done|]; intros [] ? ->; cbn [mbind prog_mbind prog_bind]).
  apply safe_bind; [|apply trace_extends; intros [r|e| |] rest; try done; apply safe_snap_read;
                     destruct r; simpl; auto].
  apply safe_attempt. split; [done|]. intros ts tr ->. cbn [mbind prog_mbind prog_bind].
  apply safe_bind; [apply safe_snap_read, only_attempt, only_GetZFSSnapshot|].
  apply trace_extends. intros [[snap|e]|e| |] rest; try done;
    [apply safe_snap_read, only_snapshot_response|].
  unfold GetZFSVolume, Kubeclient_Get. destruct (_ =? ""); [done|]. simpl.
  split; [done|]. intros [[]|e1] tr1 ->; simpl; [|done].
  split; [done|]. intros [vol|e1] tr1 ->; simpl; [|done].
  destruct (new_snapshot _ _ _) as [snap|e1] eqn:Hnew; simpl; [|done].
  split; [done|]. intros [[]|e1] tr1 ->; simpl; [|done].
  split; [|intros [r|e1] tr1 ->; simpl; [|done]; apply safe_snap_read, only_after_create].
  apply new_snapshot_fields in Hnew as (Hname & Hlabels & Hst & Hvalid & Hspec).
  split_and!; try done. exists vol. split_and!; try done. unfold got_volume. set_solver.
Qed.

(** ** The answer *)

(** An answer is about a snapshot the API server has: its identifiers are the ones
    asked for, its size that of the snapshot, and it is ready to use exactly when
    the agent said so. *)
Definition answered (req : CreateSnapshotRequest) (o : outcome CreateSnapshotResponse)
    (tr : trace) : Prop :=
  ∀ r, o = ORet r →
    let volumeID := ToLower (cs_SourceVolumeId req) in
    let snapName := ToLower (cs_Name req) in
    csr_SourceVolumeId r = volumeID ∧ csr_SnapshotId r = volumeID +:+ "@" +:+ snapName ∧
    ∃ snap, got_snapshot snapName tr snap ∧
            GetZFSSnapshotCapacity (Some snap) = Ok (csr_SizeBytes r) ∧
            (csr_ReadyToUse r = true ↔ snap_State snap = ZFSStatusReady).

Lemma answered_app req o tr rest : answered req o tr → answered req o (tr ++ rest).
Proof.
  intros Ha r Hr. destruct (Ha r Hr) as (? & ? & snap & ? & ?). split_and!; try done.
  exists snap. unfold got_snapshot in *. set_solver.
Qed.

Lemma wp_got_snapshot name tr0 :
  wp any_env (GetZFSSnapshot name) (λ o tr, ∀ snap, o = ORet snap → got_snapshot name tr snap) tr0.
Proof.
  unfold GetZFSSnapshot, Kubeclient_Get. destruct (_ =? ""); [done|]. simpl.
  intros [[]|e]; trace_step; [|done]. intros [snap|e]; trace_step; [|done].
  intros ? [= <-]. unfold got_snapshot. set_solver.
Qed.

Lemma wp_response req ts snap tr :
  got_snapshot (ToLower (cs_Name req)) tr snap →
  wp any_env (snapshot_response (ToLower (cs_SourceVolumeId req)) (ToLower (cs_Name req)) ts snap)
    (answered req) tr.
Proof.
  intros Hg. unfold snapshot_response. destruct (GetZFSSnapshotCapacity _) as [size|e] eqn:Hc; [|done].
  intros r [= <-]. simpl. split_and!; try done. exists snap. split_and!; try done.
  apply String.eqb_eq.
Qed.

Lemma wp_answered fuel req :
  wp any_env (Controller.CreateSnapshot fuel req) (answered req) [].
Proof.
  apply wp_bind, wp_any. intros [[]|e| |] tr0; try done. unfold with_locks, deferred.
  apply wp_call. intros [] tr1 _. apply wp_call. intros [] tr2 _. cbn [mbind prog_mbind prog_bind].
  apply wp_bind, wp_attempt.
  apply (wp_mono any_env _ (answered req)).
  { intros [r|e| |] tr Ha; try done. simpl. do 2 (intros []; trace_step).
    rewrite <- (assoc_L (++)). by apply answered_app. }
  apply wp_call. intros ts tr3 _. cbn [mbind prog_mbind prog_bind].
  apply wp_bind, wp_attempt. eapply wp_mono, wp_got_snapshot.
  intros [snap|e| |] tr4 Hg; try done; cbn [bind_post]; [by apply wp_response, Hg|].
  do 4 (apply wp_bind, wp_any; intros [?|?| |] ?; try done; cbn [bind_post]).
  unfold map_err. apply wp_bind, wp_bind, wp_attempt. eapply wp_mono, wp_got_snapshot.
  intros [snap|e'| |] tr5 Hg'; try done; cbn [bind_post wp]. by apply wp_response, Hg'.
Qed.

(** ** Properties *)

End snapshots.
