(* ===== verification/Scenarios.v ===== *)
(** * The driver at work in the simulated environment

    Executable instances of the remaining parameters, and runs of the controller
    and the reconcilers together: the life of a volume, and the behaviours that
    depart from what the code means to do. *)

From S2P Require Import Prelude GoStr GoErr Api Csi Effects Kube ZfsArgs.
From S2P Require Import Builders VolumeOps ZfsOps Laws Sim Reconcilers Scheduler RegexpSim Controller.

(** ** Instances *)

#[export] Instance sim_errors : ErrorsFmt := λ errs, fmt_list (map Error errs).

Definition lower_keys (m : smap) : smap :=
  list_to_map (map (λ '(k, v), (ToLower k, v)) (map_to_list m)).

#[export] Instance sim_helpers : LibHelpers := {|
  GetCaseInsensitiveMap := lower_keys;
  GetInsensitiveParameter m k := sget (lower_keys m) (ToLower k);
  selector_Matches segments labels := bool_decide (segments ⊆ labels);
  VolumeProvision := "volume-provision";
  VolumeDeprovision := "volume-deprovision";
|}.

#[export] Instance sim_keys : CacheKeys := {|
  MetaNamespaceKeyFunc m := Ok (if Namespace m =? "" then Name m else Namespace m +:+ "/" +:+ Name m);
  SplitMetaNamespaceKey key :=
    match Split "/" key with
    | [name] => Ok ("", name)
    | [ns; name] => Ok (ns, name)
    | _ => Err (ErrText "unexpected key format")
    end;
|}.

#[export] Instance sim_keys_laws : CacheKeysLaws.
Proof.
  intros m Hns Hs Hn. eexists. simpl. split; [done|].
  rewrite (proj2 (String.eqb_neq _ _) Hns).
  change (Namespace m +:+ "/" +:+ Name m) with (Namespace m +:+ String "/" (Name m)).
  by rewrite Split_app, Split_nosep.
Qed.

(** ** Requests *)

Definition pool1 : Pool := mkPool "zpool" "1" (100 * Gi) (10 * Gi).

Definition node1 : ZFSNode :=
  mkZFSNode (emptyMeta {{ Name := "node-1" }} {{ Namespace := "openebs" }}) [pool1].

(** A cluster with one node, whose pool is empty. *)
Definition cluster : sim :=
  (sim_init ["zpool"]) {{ sim_nodes := {["node-1" := node1]} }}.

Definition create_req (size : option Z) : CreateVolumeRequest :=
  mkCreateVolumeRequest "PVC-1" size (Some [])
    {["PoolName" := "zpool"; "FsType" := "zfs"; "node" := "node-1"]} None None.

(** ** Steps of the node agent *)

(** Reconcile a volume, a snapshot, from the cache. *)
Definition agent_vol (name : string) : prog unit := ZV_syncHandler ("openebs/" +:+ name).
Definition agent_snap (name : string) : prog unit := Snap_syncHandler ("openebs/" +:+ name).

(** The object the controller leaves in the API server for [create_req]. *)
Definition asked_vol : ZFSVolume :=
  mkZFSVolume (emptyMeta {{ Name := "pvc-1" }})
    (emptyInfo {{ OwnerNodeID := "node-1" }} {{ PoolName := "zpool" }}
               {{ Capacity := FormatInt Gi }} {{ VolumeType := "DATASET" }}
               {{ QuotaType := "quota" }} {{ FsType := "zfs" }}
               {{ UserProperties := {["openebs.io:pvc-name" := ""; "openebs.io:pvc-namespace" := "";
                                      "openebs.io:pv-name" := ""]} }}) "Pending".

(** What is observable of a run: the outcome, the datasets, and the names of the
    volumes and snapshots the API server holds. *)
Definition failed {A} (o : outcome A) : bool :=
  match o with OErr _ => true | _ => false end.

Definition volumes (s : sim) : list string := map fst (map_to_list (sim_vols s)).
Definition snapshots (s : sim) : list string := map fst (map_to_list (sim_snaps s)).
Definition datasets (s : sim) : list string := elements (sim_ds s).

Definition observe {A} (r : outcome A * sim) : bool * list string * list string * list string :=
  (failed r.1, datasets r.2, volumes r.2, snapshots r.2).

(** Without an agent the controller gives up after its ten seconds and takes the
    resource away again. *)
Example create_times_out :
  let r := run sim_handler (Controller.CreateVolume 20 (create_req (Some Gi))) cluster in
  (observe r, sim_now r.2) = (true, ["zpool"], [], [], 10%Z).
Proof. vm_compute. reflexivity. Qed.

(** The agent's side: the dataset is created, the resource gets the finalizer, and
    a deletion takes both away. *)
Example volume_life :
  let s0 := cluster {{ sim_vols := {["pvc-1" := asked_vol]} }} in
  let r1 := run sim_handler (agent_vol "pvc-1") s0 in
  let r2 := run sim_handler (_ ← Controller.DeleteVolume "pvc-1"; agent_vol "pvc-1") r1.2 in
  observe r1 = (false, ["zpool/pvc-1"; "zpool"], ["pvc-1"], []) ∧
  observe r2 = (false, ["zpool"], [], []).
Proof. vm_compute. split; reflexivity. Qed.

(** ** A volume in use can be deleted by a repeated request

    The controller takes any error of reading the volume for its absence.  While
    reads of volumes fail, a repeated request for a ready volume goes on to create
    it, fails because it exists, and deletes it. *)

(** The simulated environment with an API server that fails the next [n] reads of
    volumes. *)
Definition flaky_handler : handler (sim * nat) := λ c '(s, n),
  match c as c return resp c * (sim * nat) with
  | CGet k ns name =>
    match k as k, n return resp (CGet k ns name) * (sim * nat) with
    | KVol, S n => (Err (ErrAPI ReasonOther "etcdserver: request timed out"), (s, n))
    | k, _ => let '(r, s) := sim_handler (CGet k ns name) s in (r, (s, n))
    end
  | c => let '(r, s) := sim_handler c s in (r, (s, n))
  end.

Definition ready_vol : ZFSVolume :=
  asked_vol {{ vol_Meta := emptyMeta {{ Name := "pvc-1" }} {{ Finalizers := [ZFSFinalizer] }} }}
            {{ vol_State := "Ready" }}.

Definition in_use : sim :=
  cluster {{ sim_vols := {["pvc-1" := ready_vol]} }} {{ sim_ds := {["zpool"; "zpool/pvc-1"]} }}.

(** Repeating the request of a ready volume answers with the volume and changes
    nothing; but when two reads of the volume fail in between, the same request
    deletes the volume, and the agent then destroys its dataset. *)
Theorem repeated_create_deletes_volume :
  let req := create_req (Some Gi) in
  let ok := run sim_handler (Controller.CreateVolume 20 req) in_use in
  let bad := run flaky_handler (Controller.CreateVolume 20 req) (in_use, 2%nat) in
  let after := run sim_handler (agent_vol "pvc-1") bad.2.1 in
  observe ok = (false, ["zpool/pvc-1"; "zpool"], ["pvc-1"], []) ∧
  failed bad.1 = true ∧
  observe after = (false, ["zpool"], [], []).
Proof. vm_compute. split_and!; reflexivity. Qed.

(** ** A dataset can be left without a resource

    The controller deletes the resource of a volume whose creation timed out, and
    the agent, still at work on it, creates the dataset: the resource has no
    finalizer before the dataset exists. *)

(** An agent that reconciles a volume whose resource was deleted in the meantime
    creates the dataset, and fails to record it: nothing remains that would ever
    destroy it. *)
Theorem timed_out_create_leaks_dataset :
  let gone := run sim_handler (Controller.CreateVolume 20 (create_req (Some Gi))) cluster in
  let late := run sim_handler (syncZV asked_vol) gone.2 in
  observe gone = (true, ["zpool"], [], []) ∧
  observe late = (true, ["zpool/pvc-1"; "zpool"], [], []).
Proof. vm_compute. split; reflexivity. Qed.

(** ** A volume made on a node that does not own it

    The events of a volume are looked at for its owner when they arrive; the key that is
    put in the queue is not.  When a reconciliation fails and its key is put back, and the
    controller moves the volume to another node in the meantime, the agent of the first
    node acts on the volume all the same. *)

Definition moved_vol : ZFSVolume :=
  asked_vol {{ vol_Spec := (vol_Spec asked_vol) {{ OwnerNodeID := "node-2" }} }}.

(** The agent of [node-1] drops the event that says the volume is now of [node-2]; with its
    key still in the queue it creates the dataset and reports the volume ready, with
    nothing on [node-2]. *)
Theorem requeued_key_wrong_node :
  let s0 := cluster {{ sim_vols := {["pvc-1" := moved_vol]} }} in
  let r := run sim_handler (agent_vol "pvc-1") s0 in
  updateZV (@DObj KVol asked_vol) (@DObj KVol moved_vol) = Ret tt ∧
  observe r = (false, ["zpool/pvc-1"; "zpool"], ["pvc-1"], []) ∧
  (λ v, (OwnerNodeID (vol_Spec v), vol_State v)) <$> sim_vols r.2 !! "pvc-1" = Some ("node-2", "Ready").
Proof. vm_compute. split_and!; reflexivity. Qed.

(** ** The last snapshot of a deleted volume *)

Definition snap_of (name : string) : ZFSSnapshot :=
  mkZFSSnapshot (emptyMeta {{ Name := name }} {{ Labels := {[ZFSVolKey := "pvc-1"]} }}
                           {{ Finalizers := [ZFSFinalizer] }})
    (vol_Spec asked_vol) "Ready".

Definition marked_vol : ZFSVolume :=
  ready_vol {{ vol_Meta := (vol_Meta ready_vol)
                 {{ Annotations := {[MarkForDeletionAnnotation := "true"]} }} }}.

Definition two_snaps : sim :=
  cluster {{ sim_vols := {["pvc-1" := marked_vol]} }}
          {{ sim_snaps := {["s1" := snap_of "s1"; "s2" := snap_of "s2"]} }}
          {{ sim_ds := {["zpool"; "zpool/pvc-1"; "zpool/pvc-1@s1"; "zpool/pvc-1@s2"]} }}.

(** A volume marked for deletion is deleted with its last snapshot when the
    agent finishes with each snapshot before the next request; but with both
    snapshots requested before it is done with the first, each request counts two
    snapshots, and the volume stays for good. *)
Theorem last_snapshot_race :
  let del n := Controller.DeleteSnapshot ("pvc-1@" +:+ n) in
  let slow := run sim_handler (_ ← del "s1"; _ ← agent_snap "s1"; _ ← del "s2"; _ ← agent_snap "s2";
                               agent_vol "pvc-1") two_snaps in
  let fast := run sim_handler (_ ← del "s1"; _ ← del "s2"; _ ← agent_snap "s1"; _ ← agent_snap "s2";
                               agent_vol "pvc-1") two_snaps in
  observe slow = (false, ["zpool"], [], []) ∧
  observe fast = (false, ["zpool/pvc-1"; "zpool"], ["pvc-1"], []).
Proof. vm_compute. split; reflexivity. Qed.

(** ** A snapshot name taken while the request waits for its lock

    The source of an existing snapshot is compared with the request before the lock
    is taken, and not after. *)

Definition with_snap : sim :=
  in_use {{ sim_snaps := {["s1" := snap_of "s1"]} }}.

(** A request for the same name on "pvc-1" finishes while this one waits. *)
Definition raced_handler : handler sim := λ c s,
  match c as c return resp c * sim with
  | CLock _ => (tt, with_snap)
  | c => sim_handler c s
  end.

(** A request for a snapshot of one volume under the name of an existing snapshot of
    another is refused; but it succeeds, with the other volume's snapshot, when that
    was taken while the request waited for the lock. *)
Theorem raced_snapshot_has_wrong_source :
  let req := mkCreateSnapshotRequest "s1" "pvc-2" ∅ in
  let late := run sim_handler (Controller.CreateSnapshot 5 req) with_snap in
  let raced := run raced_handler (Controller.CreateSnapshot 5 req) in_use in
  failed late.1 = true ∧
  raced.1 = ORet (mkCreateSnapshotResponse "pvc-2" "pvc-2@s1" Gi (Some (0, 0)%Z) true) ∧
  sget (Labels (snap_Meta (snap_of "s1"))) ZFSVolKey = "pvc-1".
Proof. vm_compute. split_and!; reflexivity. Qed.

(** ** A snapshot of a volume that is being deleted

    [DeleteVolume] leaves the volume to its agent once the API server lists no snapshot of
    it; [CreateSnapshot] does not look whether its volume is being deleted. *)

Definition snap_state (s : sim) (name : string) : option string := snap_State <$> sim_snaps s !! name.

(** A snapshot taken after the answer to [DeleteVolume] and before the agent turns to the
    volume is made and reported ready; then the agent destroys the volume with all that is
    below it, and the resource of the snapshot stays, ready, with nothing behind it. *)
Theorem snapshot_of_deleted_volume :
  let del := Controller.DeleteVolume "pvc-1" in
  let snap := Controller.CreateSnapshot 5 (mkCreateSnapshotRequest "s1" "pvc-1" ∅) in
  let taken := run sim_handler (_ ← del; _ ← snap; _ ← agent_snap "s1"; snap) in_use in
  let gone := run sim_handler (agent_vol "pvc-1") taken.2 in
  taken.1 = ORet (mkCreateSnapshotResponse "pvc-1" "pvc-1@s1" Gi (Some (0, 0)%Z) true) ∧
  observe taken = (false, ["zpool/pvc-1@s1"; "zpool/pvc-1"; "zpool"], ["pvc-1"], ["s1"]) ∧
  observe gone = (false, ["zpool"], [], ["s1"]) ∧ snap_state gone.2 "s1" = Some "Ready".
Proof. vm_compute. split_and!; reflexivity. Qed.
