(* ===== verification/Lifecycle.v ===== *)
(** * A resource between the controller, the API server and the agents

    The controller writes the resource of a volume or of a snapshot, the API server keeps
    it, the informers of the agents see its versions later, and a worker of an agent acts
    on a version that may be stale.  Here these parts run side by side, for the resource of
    one kind and one name: the requests are the programs of the controller, the worker runs
    the reconciler of the kind, and each command of one of them is a step of the whole.

    The API server gives each version of the resource a number, refuses an update of any
    but the current one, keeps the time of deletion, and removes a resource that is being
    deleted when its finalizers are gone.  The cache of an agent goes through the versions
    in their order and may skip some; the work queue lets one worker of an agent at a time
    act on a name, and a worker may stop at any command, with its process.  Others change
    the datasets of a node, but not the one of this resource. *)

From stdpp Require Import pretty functions.
From S2P Require Import Prelude GoStr GoErr Api Csi Effects Kube ZfsArgs Builders VolumeOps ZfsOps Laws.
From S2P Require Import Scheduler Reconcilers Controller.

(** ** The datasets of a node, seen from one name

    [b] and [b'] say whether the dataset [D] exists before and after a command. *)
Definition env_at (D : string) : Env bool := λ c b r b',
  (may_change_datasets c = false → b' = b) ∧
  (match c as c return resp c → Prop with
   | CExec cmd (sub :: args) => λ r,
       cmd = "zfs" →
       (sub = "list" → args = [D] → po_err r = None ↔ b = true) ∧
       (sub ∈ ["create"; "clone"; "snapshot"] →
        (b = true → b' = true) ∧ (last args = Some D → po_err r = None → b' = true)) ∧
       (sub = "destroy" → (b' = true → b = true) ∧
                          (args = [D] ∨ args = ["-r"; D] → po_err r = None → b' = false))
   | _ => λ _, True
   end) r.

(** ** What an agent keeps alive *)

(** The program of the agent of a node. *)
Definition at_node `{G : !Globals} (n : string) : Globals :=
  {| OpenEBSNamespace := @OpenEBSNamespace G; NodeID := n;
     GoogleAnalyticsEnabled := GoogleAnalyticsEnabled; ZFSBackupGCEnabled := ZFSBackupGCEnabled |}.

(** A kind of resource that stands for a dataset of a node: its metadata written anew, its
    state, the node it belongs to, the dataset, and the reconciler of the agent of a node. *)
Class Lived (k : kind) := {
  put_meta : (ObjectMeta → ObjectMeta) → obj k → obj k;
  status_of : obj k → string;
  owner_node : obj k → string;
  data_of : obj k → string;
  reconcile : string → obj k → prog unit;
}.

#[export] Instance lived_volume `{!GoRange} `{!Globals} `{!ErrorsFmt} : Lived KVol := {
  put_meta := λ f (v : ZFSVolume), v {{ vol_Meta := f (vol_Meta v) }};
  status_of := vol_State;
  owner_node := λ v : ZFSVolume, OwnerNodeID (vol_Spec v);
  data_of := vol_dataset;
  reconcile n := syncZV (H0 := at_node n);
}.

#[export] Instance lived_snapshot `{!GoRange} `{!Globals} `{!ErrorsFmt} : Lived KSnap := {
  put_meta := λ f (snap : ZFSSnapshot), snap {{ snap_Meta := f (snap_Meta snap) }};
  status_of := snap_State;
  owner_node := λ snap : ZFSSnapshot, OwnerNodeID (snap_Spec snap);
  data_of := snap_dataset;
  reconcile n := syncSnap (H0 := at_node n);
}.

Section lifecycle.
Context `{!GoRange} `{G : !Globals} `{!ErrorsFmt} `{!Regexp} `{!LibHelpers}.
Context (k : kind) `{!Lived k} (name : string).

(** ** The API server *)

(** The versions of the resource, the oldest first; [None] where there is none. *)
Abbreviation history := (list (option (obj k))).

Definition current (h : history) : option (obj k) := default None (last h).

Definition version_of (n : nat) : string := pretty n.

Definition stamped (h : history) (v : obj k) : obj k :=
  put_meta (λ m, m {{ ResourceVersion := version_of (length h) }}) v.

Definition deleted_at (t : option Z) (v : obj k) : obj k :=
  put_meta (λ m, m {{ DeletionTimestamp := t }}) v.

(** An update [v] of the version [b]. *)
Definition updated (h : history) (b v : obj k) : option (obj k) :=
  let v := deleted_at (DeletionTimestamp (meta k b)) v in
  if bool_decide (DeletionTimestamp (meta k v) ≠ None ∧ Finalizers (meta k v) = []) then None
  else Some (stamped h v).

(** The deletion of the version [b], at time [t]; what is being deleted stays so. *)
Definition removed (h : history) (t : Z) (b : obj k) : option (obj k) :=
  if bool_decide (Finalizers (meta k b) = []) then None
  else Some (stamped h (deleted_at (Some (default t (DeletionTimestamp (meta k b)))) b)).

(** The writes to the resource of this name that take effect, and the versions they
    make. *)
Inductive written (h : history) : cmd → option (obj k) → Prop :=
| WCreate v :
    Name (meta k v) = name → current h = None →
    written h (CCreate k OpenEBSNamespace v) (Some (stamped h (deleted_at None v)))
| WUpdate b v :
    Name (meta k v) = name → current h = Some b →
    ResourceVersion (meta k v) = ResourceVersion (meta k b) →
    written h (CUpdate k OpenEBSNamespace v) (updated h b v)
| WDelete b t :
    current h = Some b → written h (CDelete k OpenEBSNamespace name) (removed h t b).

(** What a trace says the API server holds under a name. *)
Definition got (n : string) (tr : trace) (v : obj k) : Prop :=
  ev (CGet k OpenEBSNamespace n) (Ok v) ∈ tr.

(** A command to the API server.  A read gives the current version.  The answer to a
    write is left open, since it may be lost. *)
Definition served (h : history) (c : cmd) (r : resp c) (h' : history) : Prop :=
  (h' = h ∨ ∃ new, written h c new ∧ h' = h ++ [new]) ∧
  (∀ n v, got n [ev c r] v → Name (meta k v) = n ∧ (n = name → current h = Some v)).

(** ** The agents *)

(** Its cache holds the version of this number; the worker that acts on the name, if there
    is one, with the number of the version it read; the datasets of the node. *)
Record agent := mkAgent {
  ag_cache : nat;
  ag_worker : option (nat * prog unit);
  ag_datasets : gset string;
}.

Definition own (v : obj k) (s : gset string) : bool := bool_decide (data_of v ∈ s).

(** A command does to the datasets of this name what the tool does. *)
Definition datasets_step (c : cmd) (s : gset string) (r : resp c) (s' : gset string) : Prop :=
  ∀ v : obj k, Name (meta k v) = name → env_at (data_of v) c (own v s) r (own v s').

(** ** The whole *)

(** The requests to the controller; whatever else runs, on the controller and on the
    nodes, writes no resource of the kind. *)
Definition no_edit (c : cmd) : Prop :=
  match c with CUpdate k' _ _ | CCreate k' _ _ => k' ≠ k | _ => True end.

Inductive client : prog unit → Prop :=
| CliCreate fuel req : client (_ ← Controller.CreateVolume fuel req; Ret tt)
| CliDelete id : client (Controller.DeleteVolume id)
| CliExpand req : client (_ ← ControllerExpandVolume req; Ret tt)
| CliCreateSnapshot fuel req : client (_ ← Controller.CreateSnapshot fuel req; Ret tt)
| CliDeleteSnapshot id : client (Controller.DeleteSnapshot id)
| CliOther p : only no_edit p → client p.

Record system := mkCluster {
  cl_history : history;
  cl_threads : list (prog unit * trace);
  cl_agents : string → agent;
}.

Definition linit (ds : string → gset string) : system :=
  mkCluster [None] [] (λ n, mkAgent 0 None (ds n)).

(** With [strict], a worker takes only what its node owns. *)
Inductive lstep (strict : bool) : system → system → Prop :=
| LRequest h ts a p :
    client p → lstep strict (mkCluster h ts a) (mkCluster h (ts ++ [(p, [])]) a)
| LThread h ts a i c f tr r h' :
    ts !! i = Some (Vis c f, tr) → served h c r h' →
    lstep strict (mkCluster h ts a) (mkCluster h' (<[i := (f r, tr ++ [ev c r])]> ts) a)
| LInformer h ts a n j :
    ag_cache (a n) ≤ j < length h →
    lstep strict (mkCluster h ts a) (mkCluster h ts (<[n := (a n) {{ ag_cache := j }}]> a))
| LTake h ts a n zv :
    ag_worker (a n) = None → h !! ag_cache (a n) = Some (Some zv) →
    (strict = true → owner_node zv = n) →
    lstep strict (mkCluster h ts a)
      (mkCluster h ts (<[n := (a n) {{ ag_worker := Some (ag_cache (a n), reconcile n zv) }}]> a))
| LWork h ts a n i c f r h' ds' :
    ag_worker (a n) = Some (i, Vis c f) →
    served h c r h' → datasets_step c (ag_datasets (a n)) r ds' →
    lstep strict (mkCluster h ts a)
      (mkCluster h' ts (<[n := (a n) {{ ag_worker := Some (i, f r) }} {{ ag_datasets := ds' }}]> a))
| LStop h ts a n :
    lstep strict (mkCluster h ts a) (mkCluster h ts (<[n := (a n) {{ ag_worker := None }}]> a))
| LOthers h ts a n ds' :
    (∀ v : obj k, Name (meta k v) = name → own v ds' = own v (ag_datasets (a n))) →
    lstep strict (mkCluster h ts a) (mkCluster h ts (<[n := (a n) {{ ag_datasets := ds' }}]> a)).
End lifecycle.
