(* ===== verification/LifecycleSpec.v ===== *)
(** * What holds of a resource at any time

    The commands of the parts are kept to what each of them promises: the clients, to
    change little of what they read ([Clients]); the reconciler, to report only what it
    found ([Worker]).  From that follow invariants of the whole.  [LifecycleVol] and
    [LifecycleSnap] show that the controller and the agent keep these promises. *)

From stdpp Require Import pretty functions.
From S2P Require Import Prelude GoStr GoErr Api Csi Effects Kube ZfsArgs Builders VolumeOps ZfsOps Laws ZfsOpsSpec.
From S2P Require Import Scheduler Reconcilers Controller ControllerSpec ProvisionSpec SnapshotSpec Lifecycle.

(** The guard may be weakened, and commands put before. *)
Lemma safe_weaken {A} (G G' : cmd → trace → Prop) (p : prog A) tr t :
  (∀ c t, G c t → G' c (tr ++ t)) → safe any_env G p t → safe any_env G' p (tr ++ t).
Proof.
  intros HG. revert t. induction p as [| | | |c k IH]; intros t; simpl; try done.
  intros [Hc Hk]. split; [auto|]. intros r s' ->. rewrite <- (assoc_L (++)). apply IH, Hk. done.
Qed.

(** ** The requests *)

(** Deleting a snapshot writes no resource of any kind. *)
Lemma only_DeleteSnapshot `{!GoRange} `{!Globals} `{!ErrorsFmt} k id :
  only (no_edit k) (Controller.DeleteSnapshot id).
Proof.
  unfold Controller.DeleteSnapshot, with_locks, deferred, GetZFSSnapshot, GetSnapshotForVolume,
    VolumeOps.DeleteSnapshot, VolumeOps.DeleteVolume, IsVolumeEligibleForDeletion, GetZFSVolume,
    Kubeclient_Get, Kubeclient_List, Kubeclient_Delete, getClientOrCached.
  solve_only.
Qed.

(** A guard of the clients, when each request has shown its own to be at least as strict. *)
Section requests.
Context `{!GoRange} `{!Globals} `{!ErrorsFmt} `{!Regexp} `{!LibHelpers}.
Context (k : kind) (G : cmd → trace → Prop).
Hypothesis (others : ∀ c tr, no_edit k c → G c tr).
Hypothesis (provisions : ∀ req c tr tr', provision_guard req c tr' → G c (tr ++ tr')).
Hypothesis (clones : ∀ req source c tr tr', clone_guard req source c tr' → G c (tr ++ tr')).
Hypothesis (deletes : ∀ id c tr, delete_guard id c tr → G c tr).
Hypothesis (expands : ∀ req c tr, expand_guard req c tr → G c tr).
Hypothesis (snapshots : ∀ req c tr, snapshot_guard req c tr → G c tr).

Lemma safe_client_bind {A B} (p : prog A) (f : A → prog B) tr :
  safe any_env G p tr → (∀ a, only (no_edit k) (f a)) →
  safe any_env G (p ≫= f) tr.
Proof.
  intros Hp Hf. apply safe_bind; [done|]. apply wp_any. intros [a| | |] tr'; try done.
  eapply only_safe; [apply others|apply Hf].
Qed.

Lemma safe_CreateVolume fuel req : safe any_env G (Controller.CreateVolume fuel req) [].
Proof.
  unfold Controller.CreateVolume. destruct (validateVolumeCreateReq req); [done|].
  unfold with_lock. simpl. split; [by apply others|]. intros [] tr ->. unfold deferred.
  apply safe_client_bind; [apply safe_attempt, safe_client_bind|].
  - destruct (cv_ContentSource req) as [[snapshotID|srcVol]|].
    + apply (safe_weaken _ _ _ [_] []) with (2 := safe_CreateSnapClone fuel req snapshotID).
      intros c t. apply clones.
    + apply (safe_weaken _ _ _ [_] []) with (2 := safe_CreateVolClone fuel req srcVol).
      intros c t. apply clones.
    + apply (safe_weaken _ _ _ [_] []) with (2 := safe_CreateZFSVolume fuel req []).
      intros c t. apply provisions.
  - intros vol. unfold sendEventOrIgnore. solve_only.
  - intros [|]; simpl; by split.
Qed.

Lemma requests_safe p : client k p → safe any_env G p [].
Proof.
  intros [fuel req|id|req|fuel req|id|p' Hp].
  - apply safe_client_bind; [apply safe_CreateVolume|done].
  - apply (safe_weaken _ _ _ [] []) with (2 := safe_DeleteVolume id). intros c t. apply deletes.
  - apply safe_client_bind; [|done].
    apply (safe_weaken _ _ _ [] []) with (2 := safe_expand req). intros c t. apply expands.
  - apply safe_client_bind; [|done].
    apply (safe_weaken _ _ _ [] []) with (2 := safe_CreateSnapshot fuel req). intros c t. apply snapshots.
  - eapply only_safe; [apply others|apply only_DeleteSnapshot].
  - eapply only_safe; [apply others|done].
Qed.
End requests.

(** ** One dataset of a node *)

#[export] Instance env_at_laws D : ZfsLawsAt (env_at D) D (λ b, b = true).
Proof.
  split.
  - intros b r b' [_ Hc]. destruct (Hc eq_refl) as (Hl & _). by apply Hl.
  - intros sub args d b r b' Hsub Hlast [_ Hc]. destruct (Hc eq_refl) as (_ & Ha & _).
    destruct (Ha Hsub) as [Hkeep Hadd]. split; [done|]. intros ->. auto.
  - intros d b r b' [_ Hc]. destruct (Hc eq_refl) as (_ & _ & Hd). destruct (Hd eq_refl) as [Hb Hgone].
    split; [done|]. intros -> Hok. by rewrite Hgone by auto.
  - intros d b r b' [_ Hc]. destruct (Hc eq_refl) as (_ & _ & Hd). destruct (Hd eq_refl) as [Hb Hgone].
    split; [done|]. intros -> Hok. by rewrite Hgone by auto.
  - intros c b r b' Hc [Hframe _]. by rewrite (Hframe Hc).
Qed.

(** A command that does not destroy keeps the dataset. *)
Lemma env_at_keeps D c (b : bool) r (b' : bool) :
  (∀ args, c ≠ CExec "zfs" ("destroy" :: args)) →
  match c with CStart _ _ _ | CKill _ | CWaitProc _ | CGoWait _ | CRecvExit => False | _ => True end →
  env_at D c b r b' → b = true → b' = true.
Proof.
  intros Hnd Hnp [Hframe Hc] Hb. destruct (may_change_datasets c) eqn:Hm; [|by rewrite (Hframe eq_refl)].
  destruct c; try discriminate Hm; try contradiction Hnp.
  destruct args as [|sub args]; [discriminate Hm|].
  apply andb_true_iff in Hm as [->%String.eqb_eq Hsub].
  cbn [existsb] in Hsub. rewrite !orb_true_iff, !String.eqb_eq in Hsub.
  destruct (Hc eq_refl) as (_ & Hadd & _).
  destruct Hsub as [-> | [-> | [-> | [->|]]]]; try discriminate;
    first [destruct (Hadd ltac:(set_solver)) as [Hkeep _]; by auto|by destruct (Hnd args)].

Qed.

(** ** The versions of the resource *)

(** Writing the metadata anew changes nothing else. *)
Class LivedLaws (k : kind) `{!Lived k} := {
  meta_put f (v : obj k) : meta k (put_meta f v) = f (meta k v);
  status_put f v : status_of (put_meta f v) = status_of v;
  owner_put f v : owner_node (put_meta f v) = owner_node v;
  data_put f v :
    Name (f (meta k v)) = Name (meta k v) → Labels (f (meta k v)) = Labels (meta k v) →
    data_of (put_meta f v) = data_of v;
}.

Section versions.
Context `{!Globals} (k : kind) `{!Lived k, !LivedLaws k} (name : string).
Abbreviation history := (list (option (obj k))).
Implicit Types (h : history) (v w a b : obj k).

Definition deleting v : Prop := DeletionTimestamp (meta k v) ≠ None.

Lemma deletion_candidate v : isDeletionCandidate k v = true ↔ deleting v.
Proof. unfold isDeletionCandidate, deleting. by destruct (DeletionTimestamp _). Qed.

(** [w] is [v], with the time of deletion [t], as the next version. *)
Record renewed h (t : option Z) v w : Prop := {
  rn_name : Name (meta k w) = Name (meta k v);
  rn_version : ResourceVersion (meta k w) = version_of (length h);
  rn_labels : Labels (meta k w) = Labels (meta k v);
  rn_finalizers : Finalizers (meta k w) = Finalizers (meta k v);
  rn_deletion : DeletionTimestamp (meta k w) = t;
  rn_status : status_of w = status_of v;
  rn_owner : owner_node w = owner_node v;
  rn_data : data_of w = data_of v;
}.

Lemma renew h t v : renewed h t v (stamped k h (deleted_at k t v)).
Proof.
  unfold stamped, deleted_at.
  split; rewrite ?meta_put, ?status_put, ?owner_put; try (by destruct (meta k v)).
  rewrite !data_put; try done; rewrite ?meta_put; by destruct (meta k v).
Qed.

Lemma updated_cases h b v :
  (updated k h b v = None ∧ deleting b ∧ Finalizers (meta k v) = []) ∨
  ∃ w, updated k h b v = Some w ∧ renewed h (DeletionTimestamp (meta k b)) v w ∧
       (deleting b → Finalizers (meta k v) ≠ []).
Proof.
  unfold updated, deleting. case_bool_decide as Hd.
  - left. unfold deleted_at in Hd. rewrite meta_put in Hd. by destruct (meta k v).
  - right. eexists. split_and!; [done|apply renew|].
    intros Hb Hnil. apply Hd. unfold deleted_at. rewrite meta_put. by destruct (meta k v).
Qed.

Lemma removed_cases h t b :
  (removed k h t b = None ∧ Finalizers (meta k b) = []) ∨
  ∃ w t', removed k h t b = Some w ∧ renewed h (Some t') b w.
Proof. unfold removed. case_bool_decide as Hd; [by left|right]. eexists _, _. split; [done|apply renew]. Qed.

Record versions_ok h : Prop := {
  vo_some : h ≠ [];
  vo_name i v : h !! i = Some (Some v) →
    Name (meta k v) = name ∧ ResourceVersion (meta k v) = version_of i;
  vo_deleting i a b : h !! i = Some (Some a) → h !! S i = Some (Some b) → deleting a → deleting b;
}.

(** No deletion since version [i]. *)
Definition alive h (i : nat) : Prop := ∀ j, i ≤ j < length h → h !! j ≠ Some None.

Lemma current_lookup h v : current k h = Some v → h !! (length h - 1) = Some (Some v) ∧ 0 < length h.
Proof.
  unfold current. rewrite last_lookup. replace (Nat.pred (length h)) with (length h - 1) by lia.
  destruct (h !! _) as [o|] eqn:Ho; [|done]. intros Hv. cbn in Hv. subst. split; [done|].
  apply lookup_lt_Some in Ho. lia.
Qed.

Lemma current_snoc h new : current k (h ++ [new]) = new.
Proof. unfold current. by rewrite last_snoc. Qed.

(** A version with the number of the current one is the current one. *)
Lemma same_version h i a b :
  versions_ok h → h !! i = Some (Some a) → current k h = Some b →
  ResourceVersion (meta k a) = ResourceVersion (meta k b) → S i = length h ∧ a = b.
Proof.
  intros Hok Ha [Hb Hlen]%current_lookup Heq.
  destruct (vo_name _ Hok _ _ Ha) as [_ Hva], (vo_name _ Hok _ _ Hb) as [_ Hvb].
  assert (i = length h - 1) as -> by (apply (inj pretty); unfold version_of in *; congruence).
  split; [lia|congruence].
Qed.

Lemma deleting_stays h i a b :
  versions_ok h → h !! i = Some (Some a) → alive h i → deleting a → current k h = Some b → deleting b.
Proof.
  intros Hok Ha Hlive Hdel [Hb Hlen]%current_lookup.
  assert (∀ n c, h !! (i + n) = Some (Some c) → deleting c) as Hall.
  { intros n. induction n as [|n IH]; intros c Hc.
    - rewrite Nat.add_0_r in Hc. congruence.
    - rewrite Nat.add_succ_r in Hc. pose proof (lookup_lt_Some _ _ _ Hc).
      destruct (lookup_lt_is_Some_2 h (i + n) ltac:(lia)) as [[d|] Hd].
      + eapply vo_deleting; eauto.
      + by destruct (Hlive (i + n) ltac:(lia)). }
  apply lookup_lt_Some in Ha. apply (Hall (length h - 1 - i)). by replace (i + _) with (length h - 1) by lia.
Qed.

Lemma alive_snoc h i v : alive h i → alive (h ++ [Some v]) i.
Proof.
  intros Hl j [Hij Hj] Hn. rewrite length_app in Hj; cbn in Hj. apply lookup_app_Some in Hn as [Hn|[Hge Hn]].
  - apply (Hl j); [|done]. split; [done|]. by eapply lookup_lt_Some.
  - by apply list_lookup_singleton_Some in Hn as [_ Hn].
Qed.

Lemma alive_last h i v : S i = length h → h !! i = Some (Some v) → alive h i.
Proof. intros Hi Hv j Hj. replace j with i by lia. congruence. Qed.

Lemma versions_snoc h new :
  versions_ok h →
  (∀ v, new = Some v → Name (meta k v) = name ∧ ResourceVersion (meta k v) = version_of (length h)) →
  (∀ a b, current k h = Some a → new = Some b → deleting a → deleting b) → versions_ok (h ++ [new]).
Proof.
  intros Hok Hnew Hdel. split; [by destruct h| |].
  - intros i v [Hi|[Hge Hi]]%lookup_app_Some; [by apply Hok|].
    apply list_lookup_singleton_Some in Hi as [Hi ->]. replace i with (length h) by lia. by apply Hnew.
  - intros i a b Ha [Hb|[Hge Hb]]%lookup_app_Some Hd.
    + apply lookup_app_Some in Ha as [Ha|[Hge Ha]]; [by apply (vo_deleting _ Hok i a b)|].
      apply lookup_lt_Some in Hb. lia.
    + apply list_lookup_singleton_Some in Hb as [Hb ->]. apply lookup_app_Some in Ha as [Ha|[Hge' Ha]].
      * apply (Hdel a b); try done. unfold current. rewrite last_lookup.
        replace (Nat.pred (length h)) with i by lia. by rewrite Ha.
      * apply list_lookup_singleton_Some in Ha as [? _]. lia.
Qed.

Lemma versions_written h c new : versions_ok h → written k name h c new → versions_ok (h ++ [new]).
Proof.
  intros Hok Hw. destruct Hw as [v Hn Hnone|b v Hn Hb Hver|b t Hb].
  - destruct (renew h None v). apply versions_snoc; [done|..].
    + intros w [= <-]. split; congruence.
    + congruence.
  - destruct (updated_cases h b v) as [(-> & _)|(w & -> & [] & _)]; apply versions_snoc; try done.
    + intros w' [= <-]. split; congruence.
    + intros a w' Ha [= <-]. unfold deleting. congruence.
  - pose proof (vo_name _ Hok _ _ (proj1 (current_lookup _ _ Hb))) as [Hn _].
    destruct (removed_cases h t b) as [(-> & _)|(w & t' & -> & [])]; apply versions_snoc; try done.
    + intros w' [= <-]. split; congruence.
    + intros a w' Ha [= <-]. unfold deleting. congruence.
Qed.
End versions.

(** ** What the parts promise *)

Section promises.
Context `{!GoRange} `{G : !Globals} `{!ErrorsFmt} `{!Regexp} `{!LibHelpers}.
Context (k : kind) `{!Lived k}.

(** How a client changes a version: it keeps the metadata that matter here, and either
    asks for the resource anew or keeps its state and its place. *)
Definition client_edit (b v : obj k) : Prop :=
  Name (meta k v) = Name (meta k b) ∧
  ResourceVersion (meta k v) = ResourceVersion (meta k b) ∧
  Labels (meta k v) = Labels (meta k b) ∧ Finalizers (meta k v) = Finalizers (meta k b) ∧
  (status_of v = ZFSStatusPending ∨
   status_of v = status_of b ∧ data_of v = data_of b ∧ owner_node v = owner_node b).

(** The clients create what is still to be made, and update only what they read. *)
Class Clients (guard : cmd → trace → Prop) := {
  client_safe p : client k p → safe any_env guard p [];
  client_creates ns (v : obj k) tr : guard (CCreate k ns v) tr → status_of v = ZFSStatusPending;
  client_updates ns (v : obj k) tr :
    guard (CUpdate k ns v) tr → ∃ n b, got k n tr b ∧ client_edit b v;
}.

(** What the agent of the node [n] may write of the version [zv], when the dataset exists
    or not: while the resource is being deleted, that the finalizers are gone, once the
    dataset is gone; otherwise it takes no finalizer away, and calls the resource ready
    with the finalizer and the label of the node, once the dataset exists. *)
Definition worker_edit (n : string) (zv v : obj k) (has : bool) : Prop :=
  ResourceVersion (meta k v) = ResourceVersion (meta k zv) ∧
  data_of v = data_of zv ∧ owner_node v = owner_node zv ∧
  if isDeletionCandidate k zv then
    Finalizers (meta k v) = [] ∧ has = false
  else
    Finalizers (meta k zv) ⊆ Finalizers (meta k v) ∧
    (status_of v = ZFSStatusReady →
     ZFSFinalizer ∈ Finalizers (meta k v) ∧ Labels (meta k v) !! ZFSNodeKey = Some n ∧ has = true).

(** A reconciler writes as above, of its own kind, and destroys only while the resource is
    being deleted. *)
Class Worker (guard : string → obj k → cmd → bool → Prop) := {
  worker_safe n zv b : safe (env_at (data_of zv)) (guard n zv) (reconcile n zv) b;
  worker_creates n zv ns (v : obj k) b : ¬ guard n zv (CCreate k ns v) b;
  worker_deletes n zv ns m b : ¬ guard n zv (CDelete k ns m) b;
  worker_updates n zv ns v b : guard n zv (CUpdate k ns v) b → worker_edit n zv v b;
  worker_keeps n zv c b0 D b r b' :
    isDeletionCandidate k zv = false → guard n zv c b0 → env_at D c b r b' → b = true → b' = true;
}.
End promises.

(** ** The invariant *)

Section invariant.
Context `{!GoRange} `{G : !Globals} `{!ErrorsFmt} `{!Regexp} `{!LibHelpers}.
Context (k : kind) `{!Lived k, !LivedLaws k} (name : string) (strict : bool).
Context (cguard : cmd → trace → Prop) `{!Clients k cguard}.
Context (wguard : string → obj k → cmd → bool → Prop) `{!Worker k wguard}.
Abbreviation history := (list (option (obj k))).
Abbreviation system := (Lifecycle.system k).
Implicit Types (h : history) (v zv : obj k) (a : string → agent).

(** The oldest version an agent may still act on. *)
Definition acts_from (x : agent) : nat :=
  match ag_worker x with Some (i, _) => i | None => ag_cache x end.

(** What holds of a resource that is ready: it has the finalizer; the node it is labelled
    with is its owner's and holds its dataset, unless it is being deleted; and that
    node's agent acts on no older resource of the name. *)
Definition ready_at h a v : Prop :=
  ZFSFinalizer ∈ Finalizers (meta k v) ∧
  ∃ n, Labels (meta k v) !! ZFSNodeKey = Some n ∧ (strict = true → owner_node v = n) ∧
       (¬ deleting k v → own k v (ag_datasets (a n)) = true) ∧
       alive k h (acts_from (a n)).

(** The worker of a node: the version it read, and its program, which keeps to the guard
    of the reconciler. *)
Definition worker_at h (n : string) (ds : gset string) (i : nat) (p : prog unit) : Prop :=
  ∃ zv, h !! i = Some (Some zv) ∧ (strict = true → owner_node zv = n) ∧
        safe (env_at (data_of zv)) (wguard n zv) p (own k zv ds).

Record agent_ok h (n : string) (x : agent) : Prop := {
  ao_cache : (ag_cache x < length h)%nat;
  ao_worker i p : ag_worker x = Some (i, p) → (i ≤ ag_cache x)%nat ∧ worker_at h n (ag_datasets x) i p;
}.

(** What a trace read of the name is in the history. *)
Definition reads_ok h (tr : trace) : Prop :=
  ∀ n v, got k n tr v → Name (meta k v) = n ∧ (n = name → Some v ∈ h).

Definition thread_ok h (p : prog unit) (tr : trace) : Prop :=
  safe any_env cguard p tr ∧ reads_ok h tr.

Record cluster_ok (w : system) : Prop := {
  co_versions : versions_ok k name (cl_history k w);
  co_threads p tr : (p, tr) ∈ cl_threads k w → thread_ok (cl_history k w) p tr;
  co_agents n : agent_ok (cl_history k w) n (cl_agents k w n);
  co_ready v : current k (cl_history k w) = Some v → status_of v = ZFSStatusReady →
    ready_at (cl_history k w) (cl_agents k w) v;
}.

(** *** A longer history *)

Lemma thread_ok_snoc h new p tr : thread_ok h p tr → thread_ok (h ++ [new]) p tr.
Proof. intros [Hs Hg]. split; [done|]. intros n v Hv. destruct (Hg n v Hv). set_solver. Qed.

Lemma worker_at_snoc h new n ds i p : worker_at h n ds i p → worker_at (h ++ [new]) n ds i p.
Proof. intros (zv & Hi & Ho & Hs). exists zv. split_and!; try done. by apply lookup_app_l_Some. Qed.

Lemma agent_ok_snoc h new n x : agent_ok h n x → agent_ok (h ++ [new]) n x.
Proof.
  intros [Hc Hw]. split; [rewrite length_app; lia|]. intros i p Hp.
  destruct (Hw i p Hp) as [Hi Hat]. split; [done|]. by apply worker_at_snoc.
Qed.

(** *** Other agents *)

Definition same_data (x y : agent) : Prop :=
  ∀ v, Name (meta k v) = name → own k v (ag_datasets x) = own k v (ag_datasets y).

Lemma ready_mono h a a' v :
  Name (meta k v) = name →
  (∀ n, (acts_from (a n) ≤ acts_from (a' n))%nat) → (∀ n, same_data (a' n) (a n)) →
  ready_at h a v → ready_at h a' v.
Proof.
  intros Hn Hf Hd (Hfin & n & Hl & Ho & Hds & Hlive). split; [done|]. exists n.
  split_and!; try done; [by rewrite (Hd n v Hn)|]. intros j [Hj ?]. apply Hlive. specialize (Hf n). lia.
Qed.

Lemma current_name h v : versions_ok k name h → current k h = Some v → Name (meta k v) = name.
Proof. intros Hok [Hv _]%current_lookup. by apply (vo_name _ _ _ Hok _ _ Hv). Qed.

(** One agent changes, without the datasets of the name, and acts on nothing older. *)
Lemma agent_step_ok h ts a n x :
  cluster_ok (mkCluster k h ts a) → agent_ok h n x → (acts_from (a n) ≤ acts_from x)%nat →
  same_data x (a n) → cluster_ok (mkCluster k h ts (<[n := x]> a)).
Proof.
  intros [Hv Ht Ha Hr] Hx Hf Hd; cbn in *. split; cbn; try done.
  - intros m. destruct (decide (m = n)) as [->|Hne]; [by rewrite fn_lookup_insert|].
    by rewrite fn_lookup_insert_ne.
  - intros v Hcur Hst. apply (ready_mono h a); [by eapply current_name|..|by apply Hr]; intros m;
      (destruct (decide (m = n)) as [->|Hne]; [rewrite fn_lookup_insert|rewrite fn_lookup_insert_ne by done]); try done.

Qed.

(** *** The writes *)

(** What follows from a version, when the next one has its finalizers, labels and place. *)
Lemma ready_next h a b w v t :
  renewed k h t v w → ready_at h a b →
  Labels (meta k v) = Labels (meta k b) → Finalizers (meta k v) = Finalizers (meta k b) →
  data_of v = data_of b → owner_node v = owner_node b → (t = None → ¬ deleting k b) →
  ready_at (h ++ [Some w]) a w.
Proof.
  intros [] (Hfin & n & Hl & Ho & Hds & Hlive) Hlab Hf Hdata Hown Ht.
  split; [congruence|]. exists n. split_and!; [congruence|..|by apply alive_snoc].
  - intros Hs. rewrite <- (Ho Hs). congruence.
  - unfold deleting, own in *. intros Hd. replace (data_of w) with (data_of b) by congruence. apply Hds, Ht.
    destruct t; [|done]. destruct Hd. congruence.
Qed.

(** The version a client read is the current one, if it can still be updated. *)
Lemma client_read h tr n b' b v :
  versions_ok k name h → reads_ok h tr → got k n tr b' → client_edit k b' v →
  Name (meta k v) = name → current k h = Some b →
  ResourceVersion (meta k v) = ResourceVersion (meta k b) → b' = b.
Proof.
  intros Hok Hgot Hb' (Hname & Hver' & _) Hn Hb Hver.
  destruct (Hgot _ _ Hb') as [<- Hin]. rewrite <- Hname, Hn in Hin. specialize (Hin eq_refl).
  apply list_elem_of_lookup_1 in Hin as [i Hi]. eapply (same_version k name h i b' b); try done. congruence.
Qed.

(** The new version when a client writes: if it is ready, the one before was. *)
Lemma client_written h a c new tr :
  versions_ok k name h → cguard c tr → reads_ok h tr →
  (∀ v, current k h = Some v → status_of v = ZFSStatusReady → ready_at h a v) →
  written k name h c new →
  ∀ v, new = Some v → status_of v = ZFSStatusReady → ready_at (h ++ [new]) a v.
Proof.
  intros Hok Hg Hgot Hr Hwr. revert Hg. destruct Hwr as [v Hn Hnone|b v Hn Hb Hver|b t Hb]; intros Hg w Hw Hst.
  - apply (client_creates k) in Hg. injection Hw as <-.
    by rewrite (rn_status _ _ _ _ _ (renew k h None v)), Hg in Hst.
  - apply (client_updates k) in Hg as (m & b' & Hb' & He).
    rewrite (client_read h tr m b' b v Hok Hgot Hb' He Hn Hb Hver) in He.
    destruct (updated_cases k h b v) as [(Hnone & _)|(w' & Hw' & Hren & _)]; [by rewrite Hnone in Hw|].
    rewrite Hw in Hw' |- *. injection Hw' as <-. destruct He as (_ & _ & Hlab & Hfin & Hplace). rewrite (rn_status _ _ _ _ _ Hren) in Hst.
    destruct Hplace as [Hp|(Hstb & Hdata & Hown)]; [by rewrite Hst in Hp|].
    eapply (ready_next h a b w v); try done; [apply Hr; congruence|]. unfold deleting. intros Hd Hne. by apply Hne.
  - destruct (removed_cases k h t b) as [(Hnone & _)|(w' & t' & Hw' & Hren)]; [by rewrite Hnone in Hw|].
    rewrite Hw in Hw' |- *. injection Hw' as <-. rewrite (rn_status _ _ _ _ _ Hren) in Hst.
    by eapply (ready_next h a b w b); [|apply Hr|..].
Qed.

(** *** Steps of the threads *)

Lemma served_history h c r h' :
  versions_ok k name h → served k name h c r h' →
  h' = h ∨ ∃ new, written k name h c new ∧ h' = h ++ [new] ∧ versions_ok k name h'.
Proof.
  intros Hok [[->|(new & Hw & ->)] _]; [by left|right]. exists new. split_and!; try done.
  by eapply versions_written.
Qed.

Lemma thread_ok_step h c f tr r h' :
  thread_ok h (Vis c f) tr → served k name h c r h' → thread_ok h (f r) (tr ++ [ev c r]).
Proof.
  intros [[_ Hs] Hg] [_ Hread]. split; [by apply Hs|]. intros n v [Hv|Hv]%elem_of_app; [by apply Hg|].
  destruct (Hread n v Hv) as [Hn Hcur]. split; [done|]. intros Heq.
  destruct (current_lookup k h v (Hcur Heq)) as [Hl _]. by eapply list_elem_of_lookup_2.
Qed.

Lemma thread_step_ok h ts a i c f tr r h' :
  cluster_ok (mkCluster k h ts a) → ts !! i = Some (Vis c f, tr) → served k name h c r h' →
  cluster_ok (mkCluster k h' (<[i := (f r, tr ++ [ev c r])]> ts) a).
Proof.
  intros [Hv Ht Ha Hr] Hi Hs; cbn in *.
  assert (thread_ok h (Vis c f) tr) as Hth by by eapply Ht, list_elem_of_lookup_2.
  assert (∀ p tr', (p, tr') ∈ <[i := (f r, tr ++ [ev c r])]> ts → thread_ok h p tr') as Hth'.
  { intros p tr' [j Hj]%list_elem_of_lookup_1. apply list_lookup_insert_Some in Hj as [(_ & [= <- <-] & _)|[_ Hj]].
    - by eapply thread_ok_step.
    - by eapply Ht, list_elem_of_lookup_2. }
  destruct (served_history h c r h' Hv Hs) as [->|(new & Hw & -> & Hv')]; [by split|].
  split; cbn [cl_history cl_threads cl_agents]; [done|..].
  - intros p tr' Hin. by apply thread_ok_snoc, Hth'.
  - intros n. by apply agent_ok_snoc.
  - intros v. rewrite current_snoc. intros Hn Hst. destruct Hth as [[Hg _] Hgot].
    by eapply client_written.
Qed.

(** *** Steps of the workers *)

Definition worked (x : agent) (i : nat) (p : prog unit) (ds' : gset string) : agent :=
  x {{ ag_worker := Some (i, p) }} {{ ag_datasets := ds' }}.

(** A worker writes only to the version it read, and only as its guard says. *)
Lemma worker_write h n x i c f new :
  versions_ok k name h → agent_ok h n x → ag_worker x = Some (i, Vis c f) → written k name h c new →
  ∃ b v, c = CUpdate k OpenEBSNamespace v ∧ new = updated k h b v ∧ current k h = Some b ∧
         h !! i = Some (Some b) ∧ S i = length h ∧ Name (meta k v) = Name (meta k b) ∧
         (strict = true → owner_node b = n) ∧ worker_edit k n b v (own k b (ag_datasets x)).
Proof.
  intros Hok [_ Hag] Hi Hw. destruct (Hag _ _ Hi) as [_ (zv & Hzv & Hown & [Hg _])]. clear Hag Hi. revert Hg.
  destruct Hw as [v Hn Hnone|b v Hn Hb Hver|b t Hb]; intros Hg.
  - by apply (worker_creates k) in Hg.
  - apply (worker_updates k) in Hg. pose proof Hg as [Hver' _].
    destruct (same_version k name h i zv b Hok Hzv Hb) as [Hlen ->]; [congruence|].
    exists b, v. split_and!; try done. rewrite Hn. symmetry. by eapply current_name.
  - by apply (worker_deletes k) in Hg.
Qed.

(** A resource that is ready keeps its dataset while a worker is at work: the worker of
    its node would destroy it only for one that is being deleted. *)
Lemma work_keeps_ready h a n i c f r ds' v :
  versions_ok k name h → agent_ok h n (a n) → ag_worker (a n) = Some (i, Vis c f) →
  datasets_step k name c (ag_datasets (a n)) r ds' →
  current k h = Some v → ready_at h a v → ready_at h (<[n := worked (a n) i (f r) ds']> a) v.
Proof.
  intros Hv [_ Hw] Hi Hds Hcur (Hfin & m & Hl & Ho & Hown & Hlive).
  destruct (Hw _ _ Hi) as [_ (zv & Hzv & _ & [Hg _])].
  split; [done|]. exists m. destruct (decide (m = n)) as [->|Hne].
  2: { rewrite fn_lookup_insert_ne by done. by split_and!. }
  rewrite fn_lookup_insert. unfold acts_from, worked in *. rewrite Hi in Hlive.
  specialize (Hds v (current_name h v Hv Hcur)). destruct (a n) as [ca wo dd]; cbn in *.
  split_and!; try done. intros Hnd. specialize (Hown Hnd).
  eapply (worker_keeps k n zv c _ (data_of v)); [|exact Hg|exact Hds|done].
  apply not_true_iff_false. rewrite deletion_candidate. intros Hd. apply Hnd.
  by apply (deleting_stays k name h i zv v).
Qed.

(** The version a worker writes: ready only with its dataset there. *)
Lemma worker_written h a n i c f r ds' new :
  versions_ok k name h → agent_ok h n (a n) → ag_worker (a n) = Some (i, Vis c f) →
  datasets_step k name c (ag_datasets (a n)) r ds' → written k name h c new →
  ∀ v, new = Some v → status_of v = ZFSStatusReady →
  ready_at (h ++ [new]) (<[n := worked (a n) i (f r) ds']> a) v.
Proof.
  intros Hok Hag Hi Hds Hwr w Hw Hst.
  destruct (worker_write _ _ _ _ _ _ _ Hok Hag Hi Hwr)
    as (b & v & -> & -> & Hb & Hzv & Hlen & Hname & Hown & _ & Hdata & Howner & Hsays).
  destruct (updated_cases k h b v) as [(Hnone & _)|(w' & Hw' & [] & Hlives)]; [by rewrite Hnone in Hw|].
  rewrite Hw in Hw' |- *. injection Hw' as <-.
  destruct (isDeletionCandidate k b) eqn:Hdel.
  { apply deletion_candidate in Hdel. by destruct (Hlives Hdel), Hsays as [-> _]. }
  destruct Hsays as [_ Hready]. destruct Hready as (Hfin & Hlab & Hhas); [congruence|].
  split; [congruence|]. exists n. rewrite fn_lookup_insert. split_and!; [congruence|..].
  - intros Hs. rewrite <- (Hown Hs). congruence.
  - intros _. unfold own. replace (data_of w) with (data_of b) by congruence.
    destruct (Hds b) as [Hsame _]; [by eapply current_name|]. cbn. fold (own k b ds'). by rewrite (Hsame eq_refl).
  - apply alive_snoc. by apply (alive_last k h i b).
Qed.

Lemma work_step_ok h ts a n i c f r h' ds' :
  cluster_ok (mkCluster k h ts a) → ag_worker (a n) = Some (i, Vis c f) →
  served k name h c r h' → datasets_step k name c (ag_datasets (a n)) r ds' →
  cluster_ok (mkCluster k h' ts (<[n := worked (a n) i (f r) ds']> a)).
Proof.
  intros [Hv Ht Ha Hr] Hi Hs Hds; cbn [cl_history cl_threads cl_agents] in *.
  assert (∀ m, agent_ok h m ((<[n := worked (a n) i (f r) ds']> a) m)) as Ha'.
  { intros m. destruct (decide (m = n)) as [->|Hne]; [rewrite fn_lookup_insert|by rewrite fn_lookup_insert_ne].
    destruct (Ha n) as [Hc Hw]. destruct (Hw _ _ Hi) as [Hle (zv & Hzv & Ho & [_ Hsafe])].
    unfold worked. destruct (a n) as [ca wo dd]; cbn in *. split; [done|]. intros i' p' [= <- <-]; cbn.
    split; [done|]. exists zv. split_and!; try done. apply Hsafe, Hds.
    by destruct (vo_name _ _ _ Hv _ _ Hzv). }
  destruct (served_history h c r h' Hv Hs) as [->|(new & Hw & -> & Hv')]; split; cbn [cl_history cl_threads cl_agents]; try done.
  - intros v Hcur Hst. by eapply work_keeps_ready; auto.
  - intros p tr Hin. by apply thread_ok_snoc, Ht.
  - intros m. by apply agent_ok_snoc.
  - intros v. rewrite current_snoc. intros Hnew Hst. by eapply worker_written.
Qed.

(** *** The invariant holds *)

Lemma init_cluster_ok ds : cluster_ok (linit k ds).
Proof.
  split; cbn; try done.
  - split; [done|..]; intros [|[|i]]; done.
  - by intros p tr ?%not_elem_of_nil.
  - intros n. split; cbn; [lia|done].
Qed.

Lemma take_ok h n ca ds zv :
  (ca < length h)%nat → h !! ca = Some (Some zv) → (strict = true → owner_node zv = n) →
  agent_ok h n (mkAgent ca (Some (ca, reconcile n zv)) ds).
Proof.
  intros Hca Hzv Ho. split; cbn; [done|]. intros i p [= <- <-]. split; [done|]. exists zv.
  split_and!; try done. apply (worker_safe k).
Qed.

Lemma lstep_ok w w' : lstep k name strict w w' → cluster_ok w → cluster_ok w'.
Proof.
  intros [h ts a p Hp|h ts a i c f tr r h' Hi Hs|h ts a n j Hj|h ts a n zv Hn Hzv Ho
         |h ts a n i c f r h' ds' Hi Hs Hds|h ts a n|h ts a n ds' Hds'] Hok.
  - destruct Hok as [Hv Ht Ha Hr]. split; try done. cbn. intros p' tr [Hin|Hin]%elem_of_app; [by apply Ht|].
    apply list_elem_of_singleton in Hin as [= -> ->]. split; [by apply (client_safe k)|].
    by intros n v ?%not_elem_of_nil.
  - by eapply thread_step_ok.
  - destruct (co_agents _ Hok n) as [Hc Hw]; cbn in Hc, Hw. apply agent_step_ok; [done|..];
      unfold acts_from; destruct (a n) as [ca [[i p]|] dd]; cbn in *; try done; try lia.
    + split; cbn; [lia|]. intros i' p' [= <- <-]. destruct (Hw _ _ eq_refl). split; [lia|done].
    + split; cbn; [lia|done].
  - destruct (co_agents _ Hok n) as [Hc Hw]; cbn in Hc, Hw.
    pose proof (take_ok h n _ (ag_datasets (a n)) zv Hc Hzv Ho) as Htake.
    apply agent_step_ok; [done|..]; unfold acts_from; destruct (a n) as [ca [[i p]|] dd]; cbn in *; done.
  - by eapply work_step_ok.
  - destruct (co_agents _ Hok n) as [Hc Hw]; cbn in Hc, Hw. apply agent_step_ok; [done|..];
      unfold acts_from; destruct (a n) as [ca [[i p]|] dd]; cbn in *; try done.
    destruct (Hw _ _ eq_refl). lia.
  - destruct (co_agents _ Hok n) as [Hc Hw]; cbn in Hc, Hw. apply agent_step_ok; [done|..];
      unfold acts_from; destruct (a n) as [ca wo dd]; cbn in *; try done.
    split; cbn; [done|]. intros i p Hp. destruct (Hw _ _ Hp) as [Hle (zv & Hzv & Ho & Hs)].
    split; [done|]. exists zv. rewrite Hds'; [done|]. by destruct (vo_name _ _ _ (co_versions _ Hok) _ _ Hzv).
Qed.

Lemma lsteps_ok w w' : rtc (lstep k name strict) w w' → cluster_ok w → cluster_ok w'.
Proof. induction 1; eauto using lstep_ok. Qed.

(** ** The finalizer *)

Definition finalized (o : option (obj k)) : Prop :=
  ∃ v, o = Some v ∧ ZFSFinalizer ∈ Finalizers (meta k v).

Lemma updated_finalized h b v : ZFSFinalizer ∈ Finalizers (meta k v) → finalized (updated k h b v).
Proof.
  intros Hf. destruct (updated_cases k h b v) as [(_ & _ & Hnil)|(w & -> & [] & _)].
  - rewrite Hnil in Hf. by apply not_elem_of_nil in Hf.
  - exists w. split; [done|congruence].
Qed.

(** Clients never take it away. *)
Lemma client_keeps_finalizer h c new tr b :
  versions_ok k name h → cguard c tr → reads_ok h tr → written k name h c new →
  current k h = Some b → ZFSFinalizer ∈ Finalizers (meta k b) → finalized new.
Proof.
  intros Hok Hg Hgot Hw Hb Hfin. revert Hg. destruct Hw as [v Hn Hnone|b' v Hn Hb' Hver|b' t Hb']; intros Hg.
  - congruence.
  - assert (b' = b) as -> by congruence. apply (client_updates k) in Hg as (m & b' & Hm & He).
    rewrite (client_read h tr m b' b v Hok Hgot Hm He Hn Hb Hver) in He.
    destruct He as (_ & _ & _ & Hf & _). apply updated_finalized. congruence.
  - assert (b' = b) as -> by congruence. destruct (removed_cases k h t b) as [(_ & Hnil)|(w & t' & -> & [])].
    + rewrite Hnil in Hfin. by apply not_elem_of_nil in Hfin.
    + exists w. split; [done|congruence].
Qed.

(** A worker does, of a resource that is being deleted, when the dataset is gone. *)
Lemma worker_drops_finalizer h n x i c f new b :
  versions_ok k name h → agent_ok h n x → ag_worker x = Some (i, Vis c f) → written k name h c new →
  current k h = Some b → ZFSFinalizer ∈ Finalizers (meta k b) →
  finalized new ∨
  (may_change_datasets c = false ∧ deleting k b ∧ (strict = true → owner_node b = n) ∧
   own k b (ag_datasets x) = false).
Proof.
  intros Hok Hag Hi Hw Hb Hfin.
  destruct (worker_write _ _ _ _ _ _ _ Hok Hag Hi Hw)
    as (b' & v & -> & -> & Hb' & _ & _ & _ & Hown & _ & _ & _ & Hsays).
  assert (b' = b) as -> by congruence. destruct (isDeletionCandidate k b) eqn:Hdel.
  - right. apply deletion_candidate in Hdel. by destruct Hsays.
  - left. destruct Hsays as [Hsub _]. by apply updated_finalized, Hsub.
Qed.

Lemma finalizer_step w w' b :
  cluster_ok w → lstep k name strict w w' → current k (cl_history k w) = Some b →
  ZFSFinalizer ∈ Finalizers (meta k b) → ¬ finalized (current k (cl_history k w')) →
  deleting k b ∧ ∃ n, (strict = true → owner_node b = n) ∧ own k b (ag_datasets (cl_agents k w' n)) = false.
Proof.
  intros Hok Hstep Hb Hfin Hlost.
  assert (finalized (current k (cl_history k w))) as Hkept by by exists b.
  destruct Hstep as [| h ts a i c f tr r h' Hi Hs| | | h ts a n i c f r h' ds' Hi Hs Hds | |];
    cbn [cl_history cl_agents] in *; try done.
  - destruct Hok as [Hv Ht _ _]; cbn [cl_history cl_threads] in *. destruct (Ht _ _ (list_elem_of_lookup_2 _ _ _ Hi)) as [[Hg _] Hgot].
    destruct (served_history h c r h' Hv Hs) as [->|(new & Hw & -> & _)]; [done|].
    destruct Hlost. rewrite current_snoc. by eapply client_keeps_finalizer.
  - destruct Hok as [Hv _ Ha _]; cbn [cl_history cl_agents] in *.
    destruct (served_history h c r h' Hv Hs) as [->|(new & Hw & -> & _)]; [done|].
    rewrite current_snoc in Hlost.
    destruct (worker_drops_finalizer h n (a n) i c f new b) as [?|(Hc & Hd & Ho & Hgone)]; try done.
    split; [done|]. exists n. split; [done|]. rewrite fn_lookup_insert.
    destruct (Hds b) as [Hsame _]; [by eapply current_name|].
    specialize (Hsame Hc). destruct (a n) as [ca wo dd]; cbn in *. congruence.
Qed.

(** ** The life of a resource *)

(** A resource that is ready has the finalizer, and unless it is being deleted its dataset
    exists on the node it is labelled with; the finalizer goes only from a resource that is
    being deleted, when its dataset is gone from the node that takes it away. *)
Lemma lifecycle ds w :
  rtc (lstep k name strict) (linit k ds) w →
  (∀ v, current k (cl_history k w) = Some v → status_of v = ZFSStatusReady →
     ZFSFinalizer ∈ Finalizers (meta k v) ∧
     ∃ n, Labels (meta k v) !! ZFSNodeKey = Some n ∧ (strict = true → owner_node v = n) ∧
          (DeletionTimestamp (meta k v) = None → data_of v ∈ ag_datasets (cl_agents k w n))) ∧
  (∀ v w', current k (cl_history k w) = Some v → ZFSFinalizer ∈ Finalizers (meta k v) →
     lstep k name strict w w' → ¬ finalized (current k (cl_history k w')) →
     DeletionTimestamp (meta k v) ≠ None ∧
     ∃ n, (strict = true → owner_node v = n) ∧ data_of v ∉ ag_datasets (cl_agents k w' n)).
Proof.
  intros Hrtc. pose proof (lsteps_ok _ _ Hrtc (init_cluster_ok ds)) as Hok. split.
  - intros v Hcur Hst. destruct (co_ready _ Hok v Hcur Hst) as (Hfin & n & Hl & Ho & Hds & _).
    split; [done|]. exists n. split_and!; try done. intros Hnone.
    eapply bool_decide_eq_true_1, Hds. intros Hd. by apply Hd.
  - intros v w' Hcur Hfin Hstep Hlost.
    destruct (finalizer_step w w' v Hok Hstep Hcur Hfin Hlost) as (Hd & n & Ho & Hgone).
    split; [done|]. exists n. split; [done|]. by eapply bool_decide_eq_false_1.
Qed.
End invariant.
