(* ===== verification/LifecycleVol.v ===== *)
(** * The life of a volume

    The controller and the volume reconciler keep the promises of [LifecycleSpec], and
    with them a volume is what its resource says. *)

From S2P Require Import Prelude GoStr GoErr Api Csi Effects Kube ZfsArgs Builders VolumeOps ZfsOps Laws ZfsOpsSpec.
From S2P Require Import Scheduler Reconcilers ReconcilersSpec Controller ControllerSpec ProvisionSpec SnapshotSpec.
From S2P Require Import Lifecycle LifecycleSpec.

(** ** The clients *)

Section clients.
Context `{!GoRange} `{!Globals} `{!ErrorsFmt} `{!Regexp} `{!LibHelpers}.

#[export] Instance volume_laws : LivedLaws KVol.
Proof. split; try done. intros f v Hn _. cbn in *. unfold vol_dataset. by rewrite <- Hn. Qed.

Definition vol_client_guard (c : cmd) (tr : trace) : Prop :=
  match c with
  | CUpdate k ns o =>
    (match k as k return obj k → Prop with
     | KVol => λ v, ∃ n b, got KVol n tr b ∧ client_edit KVol b v
     | _ => λ _, True
     end) o
  | CCreate k ns o =>
    (match k as k return obj k → Prop with
     | KVol => λ v, vol_State v = ZFSStatusPending
     | _ => λ _, True
     end) o
  | _ => True
  end.

Lemma no_edit_guard c tr : no_edit KVol c → vol_client_guard c tr.
Proof. destruct c; try done; by destruct k. Qed.

Lemma updates_edit n v tr tr' :
  updates n v tr' → vol_State v = ZFSStatusPending →
  ∃ n b, got KVol n (tr ++ tr') b ∧ client_edit KVol b v.
Proof.
  intros (b & Hgot & Hmeta) Hst. exists n, b. split; [by apply elem_of_app; right|].
  unfold client_edit. cbn. rewrite Hmeta. split_and!; auto.
Qed.

Lemma provision_client req c tr tr' : provision_guard req c tr' → vol_client_guard c (tr ++ tr').
Proof.
  destruct c; try done; destruct k; try done; simpl.
  - by intros (_ & _ & pattern & Hst & _).
  - intros (_ & Hup & pattern & Hst & _). by apply (updates_edit (ToLower (cv_Name req))).
Qed.

Lemma clone_client req source c tr tr' : clone_guard req source c tr' → vol_client_guard c (tr ++ tr').
Proof.
  destruct c; try done; destruct k; try done; simpl.
  - intros (_ & _ & src & snapName & _ & Hcl). by apply Hcl.
  - intros (_ & Hup & src & snapName & _ & Hcl). apply (updates_edit (ToLower (cv_Name req))); [done|by apply Hcl].
Qed.

Lemma delete_client id c tr : delete_guard id c tr → vol_client_guard c tr.
Proof.
  destruct c; try done; destruct k; try done; simpl.
  intros (_ & vol & snaps & Hgot & _ & _ & ->). exists id, vol. split; [done|].
  destruct vol as [[] ? ?]. by split_and!; try right.
Qed.

Lemma expand_client req c tr : expand_guard req c tr → vol_client_guard c tr.
Proof.
  destruct c; try done; destruct k; try done; simpl.
  intros (_ & vol & old & new & Hgot & _ & _ & _ & ->). eexists _, vol. split; [done|].
  destruct vol as [[] [] ?]. by split_and!; try right.
Qed.

Lemma snapshot_client req c tr : snapshot_guard req c tr → vol_client_guard c tr.
Proof. destruct c; try done; by destruct k. Qed.

#[export] Instance volume_clients : Clients KVol vol_client_guard.
Proof.
  split; [|by intros|by intros]. intros p. apply (requests_safe KVol);
    eauto using no_edit_guard, provision_client, clone_client, delete_client, expand_client, snapshot_client.
Qed.
End clients.

(** ** The reconciler *)

Section worker.
Context `{!GoRange} `{!Globals} `{!ErrorsFmt}.

Definition vol_worker_guard (n : string) (zv : ZFSVolume) (c : cmd) (has : bool) : Prop :=
  vol_guard (H0 := at_node n) zv (λ b : bool, b = true) c has.

Lemma vol_update_edit n zv ns v (has : bool) :
  vol_update_ok (H0 := at_node n) zv ns v (has = true) → worker_edit KVol n zv v has.
Proof.
  intros (_ & Hname & Hver & Hspec & Hsays). unfold worker_edit. split_and!; [done|..].
  - cbn. unfold vol_dataset. by rewrite Hname, Hspec.
  - cbn. by rewrite Hspec.
  - destruct (isDeletionCandidate KVol zv).
    + destruct Hsays as [? Hgone]. split; [done|]. by apply not_true_iff_false.
    + destruct Hsays as (Hlab & Hsub & Hst). split; [done|]. cbn. intros Hready.
      destruct Hst as [(_ & Hfin & Hhas)|(Hfail & _)]; [|by rewrite Hready in Hfail].
      split_and!; try done. rewrite Hlab. by rewrite lookup_union_l', lookup_singleton.
Qed.

#[export] Instance volume_worker : Worker KVol vol_worker_guard.
Proof.
  split.
  - intros n zv b. exact (safe_syncZV (H0 := at_node n) (env_at (vol_dataset zv)) zv (λ b : bool, b = true) b).
  - intros n zv ns v b Hg. exact Hg.
  - intros n zv ns m b Hg. exact Hg.
  - intros n zv ns v b. apply vol_update_edit.
  - intros n zv c b0 D b r b' Hnd Hg. unfold vol_worker_guard, vol_guard in Hg. rewrite Hnd in Hg.
    apply env_at_keeps; [intros args ->; by simpl in Hg|by destruct c].
Qed.
End worker.

(** ** The property *)

Section volume.
Context `{!GoRange} `{!Globals} `{!ErrorsFmt} `{!Regexp} `{!LibHelpers}.
Context (name : string) (strict : bool).

End volume.
