(* ===== verification/LifecycleSnap.v ===== *)
(** * The life of a snapshot

    As [LifecycleVol], for the snapshots.  The reconciler destroys a snapshot with [zfs
    destroy], and leaves a snapshot that is ready alone. *)

From S2P Require Import Prelude GoStr GoErr Api Csi Effects Kube ZfsArgs ZfsArgsSpec Builders VolumeOps ZfsOps Laws ZfsOpsSpec.
From S2P Require Import Scheduler Reconcilers Controller ControllerSpec ProvisionSpec SnapshotSpec.
From S2P Require Import Lifecycle LifecycleSpec.

(** ** The clients *)

Section clients.
Context `{!GoRange} `{!Globals} `{!ErrorsFmt} `{!Regexp} `{!LibHelpers}.

#[export] Instance snapshot_laws : LivedLaws KSnap.
Proof. split; try done. intros f v Hn Hl. cbn in *. unfold snap_dataset. cbn. by rewrite <- Hn, <- Hl. Qed.

(** No request updates a snapshot. *)
Definition snap_client_guard (c : cmd) (tr : trace) : Prop :=
  match c with
  | CUpdate KSnap _ _ => False
  | CCreate k ns o =>
    (match k as k return obj k → Prop with
     | KSnap => λ snap, snap_State snap = ZFSStatusPending
     | _ => λ _, True
     end) o
  | _ => True
  end.

Ltac by_kind := intros; match goal with c : cmd |- _ => destruct c end; try done;
  match goal with k : kind |- _ => destruct k end; simpl in *; naive_solver.

#[export] Instance snapshot_clients : Clients KSnap snap_client_guard.
Proof. split; [|by intros|by intros]. intros p. apply (requests_safe KSnap); by_kind. Qed.
End clients.

(** ** The reconciler *)

Section worker.
Context `{!GoRange} `{!Globals} `{!ErrorsFmt}.

(** Commands that neither write snapshots nor work through a pipe; without [del] they
    destroy nothing either. *)
Definition no_snap_write (del : bool) (c : cmd) : Prop :=
  match c with
  | CUpdate KSnap _ _ | CCreate KSnap _ _ | CDelete KSnap _ _ => False
  | CStart _ _ _ | CKill _ | CWaitProc _ | CGoWait _ | CRecvExit => False
  | CExec _ ("destroy" :: _) => del = true
  | _ => True
  end.

Definition snap_worker_guard (n : string) (snap : ZFSSnapshot) (c : cmd) (has : bool) : Prop :=
  match c with
  | CUpdate k ns o =>
    (match k as k return obj k → Prop with
     | KSnap => λ v, worker_edit KSnap n snap v has
     | _ => λ _, True
     end) o
  | _ => no_snap_write (isDeletionCandidate KSnap snap) c
  end.

Lemma safe_no_snap_write {A} E n snap del (p : prog A) b :
  (del = true → isDeletionCandidate KSnap snap = true) → only (no_snap_write del) p →
  safe E (snap_worker_guard n snap) p b.
Proof.
  intros Hdel. apply only_safe. intros c b'.
  destruct c; simpl; try done; try (by destruct k); repeat case_match; auto.
Qed.

(** An event, then an update that holds of the dataset as it is. *)
Lemma safe_snap_update n snap t reason msg v b :
  worker_edit KSnap n snap v b →
  safe (env_at (snap_dataset snap)) (snap_worker_guard n snap)
    (_ ← call (CEvent KSnap snap t reason msg);
     _ ← Kubeclient_Update KSnap OpenEBSNamespace v; Ret tt) b.
Proof.
  intros Hv. simpl. split; [done|]. intros [] b1 [Hb1 _]. rewrite Hb1 by done.
  split; [done|]. intros r b2 [Hb2 _]. rewrite Hb2 by done. destruct r; simpl; [|done].
  split; [done|]. by intros [] b3 _.
Qed.

Lemma destroy_no_snap_write snap : only (no_snap_write true) (DestroySnapshot snap).
Proof. unfold DestroySnapshot, getVolume, zfs_exec, runCmd. solve_only. Qed.

Lemma create_no_snap_write snap : only (no_snap_write false) (ZfsOps.CreateSnapshot snap).
Proof.
  unfold ZfsOps.CreateSnapshot. destruct (snap_args_shape snap) as (args & -> & _).
  unfold getVolume, zfs_exec, runCmd. solve_only.
Qed.

Lemma safe_syncSnap n snap b :
  safe (env_at (snap_dataset snap)) (snap_worker_guard n snap) (syncSnap (H0 := at_node n) snap) b.
Proof.
  unfold syncSnap. destruct (isDeletionCandidate KSnap snap) eqn:Hdel.
  - destruct (length _ =? 0)%nat; [|done].
    apply safe_bind; [by eapply safe_no_snap_write, only_attempt, destroy_no_snap_write|].
    apply wp_attempt. eapply wp_mono, (wp_at_snapshot_destroyed _ (snap_dataset snap) (λ b : bool, b = true)); [|done].
    intros [[]|e| |] b1 Hgone; cbn; try done.
    apply safe_snap_update. unfold worker_edit. rewrite Hdel.
    destruct snap as [[] ? ?]. split_and!; try done. by apply not_true_iff_false, Hgone.
  - destruct (Validate (snap_Spec snap)); [done|]. destruct (negb _) eqn:Hst; [|done].
    apply safe_bind; [by eapply (safe_no_snap_write _ _ _ false), only_attempt, create_no_snap_write|].
    apply wp_attempt. eapply wp_mono, (wp_at_CreateSnapshot _ (snap_dataset snap) (λ b : bool, b = true)); [|done].
    intros [[]|e| |] b1 Hhas; cbn; try done.
    apply safe_snap_update. unfold worker_edit. rewrite Hdel.
    destruct snap as [[] ? ?]; cbn in *. split_and!; try done; [|set_solver|].
    + unfold snap_dataset, sget. cbn. by rewrite lookup_union_r.
    + intros _. split_and!; [set_solver| |by apply Hhas]. by rewrite lookup_union_l', lookup_insert.
Qed.

#[export] Instance snapshot_worker : Worker KSnap snap_worker_guard.
Proof.
  split.
  - intros n snap b. exact (safe_syncSnap n snap b).
  - intros n snap ns v b Hg. exact Hg.
  - intros n snap ns m b Hg. exact Hg.
  - intros n snap ns v b Hg. exact Hg.
  - intros n snap c b0 D b r b' Hnd Hg. unfold snap_worker_guard in Hg. rewrite Hnd in Hg.
    apply env_at_keeps; [intros args ->; by simpl in Hg|by destruct c].
Qed.
End worker.

(** ** The property *)

Section snapshot.
Context `{!GoRange} `{!Globals} `{!ErrorsFmt} `{!Regexp} `{!LibHelpers}.
Context (name : string) (strict : bool).

End snapshot.
