(* ===== verification/LifecycleRun.v ===== *)
(** * A life of a volume, and of a snapshot

    The whole of [Lifecycle] run step by step: a request makes the controller create the
    resource, the informer of a node shows it to the agent, and the worker makes the
    dataset and reports the resource ready. *)

From stdpp Require Import functions.
From S2P Require Import Prelude GoStr GoErr Api Csi Effects Kube ZfsArgs Builders VolumeOps ZfsOps Laws Sim.
From S2P Require Import Scheduler RegexpSim Reconcilers Controller Scenarios Lifecycle LifecycleSpec LifecycleVol LifecycleSnap.

Section run.
Context (k : kind) `{!Lived k} (name : string).
Abbreviation history := (list (option (obj k))).

(** An object of any kind, as one of this kind. *)
Definition as_kind {k'} (o : obj k') : option (obj k) :=
  match decide (k' = k) with left e => Some (eq_rect k' obj o k e) | right _ => None end.

Lemma as_kind_Some k' (o : obj k') v : as_kind o = Some v → existT k' o = existT k v.
Proof. unfold as_kind. destruct (decide (k' = k)) as [->|]; [|done]. by intros [= <-]. Qed.

(** The version a command writes, if it takes effect. *)
Definition written_by (h : history) (c : cmd) : option (option (obj k)) :=
  match c with
  | CCreate _ ns o =>
    v ← as_kind o;
    if bool_decide (ns = OpenEBSNamespace ∧ Name (meta k v) = name) then
      match current k h with Some _ => None | None => Some (Some (stamped k h (deleted_at k None v))) end
    else None
  | CUpdate _ ns o =>
    v ← as_kind o;
    b ← current k h;
    if bool_decide (ns = OpenEBSNamespace ∧ Name (meta k v) = name ∧
                    ResourceVersion (meta k v) = ResourceVersion (meta k b))
    then Some (updated k h b v) else None
  | _ => None
  end.

Definition after_cmd (h : history) (c : cmd) : history :=
  match written_by h c with Some new => h ++ [new] | None => h end.

(** No resource of the kind is read. *)
Definition reads_none (e : event) : bool :=
  let 'existT c r := e in
  (match c as c return resp c → bool with
   | CGet k' _ _ => λ r, match r with Ok _ => bool_decide (k' ≠ k) | Err _ => true end
   | _ => λ _, true
   end) r.

Lemma written_by_ok h c new : written_by h c = Some new → written k name h c new.
Proof.
  destruct c; try done; cbn -[decide as_kind].
  - destruct (as_kind o) as [v|] eqn:Ho; [|done]. apply as_kind_Some in Ho. cbn -[decide].
    case_bool_decide as Hn; [|done]. destruct Hn as [-> Hn].
    destruct (current k h) eqn:Hc; [done|]. intros [= <-].
    change (CCreate _ _ _) with (let 'existT k o := existT k0 o in CCreate k OpenEBSNamespace o).
    rewrite Ho. by constructor.
  - destruct (as_kind o) as [v|] eqn:Ho; [|done]. apply as_kind_Some in Ho. cbn -[decide].
    destruct (current k h) as [b|] eqn:Hc; [|done]. cbn -[decide].
    case_bool_decide as Hn; [|done]. destruct Hn as (-> & Hn & Hver). intros [= <-].
    change (CUpdate _ _ _) with (let 'existT k o := existT k0 o in CUpdate k OpenEBSNamespace o).
    rewrite Ho. by constructor.
Qed.

Lemma after_cmd_served h c r : reads_none (ev c r) = true → served k name h c r (after_cmd h c).
Proof.
  intros Hr. split.
  - unfold after_cmd. destruct (written_by h c) as [new|] eqn:Hw; [|by left].
    right. exists new. split; [by apply written_by_ok|done].
  - intros n v Hv%list_elem_of_singleton. rewrite <- Hv in Hr. cbn in Hr. by apply bool_decide_eq_true in Hr.
Qed.

(** A thread, answered by the simulated environment, for [n] commands at most. *)
Fixpoint pursue (n : nat) (s : sim) (h : history) (p : prog unit) (tr : trace) : history * prog unit * trace :=
  match n, p with
  | S n, Vis c f =>
    let '(r, s') := sim_handler c s in
    if reads_none (ev c r) then pursue n s' (after_cmd h c) (f r) (tr ++ [ev c r]) else (h, p, tr)
  | _, _ => (h, p, tr)
  end.

Lemma pursue_steps strict n s h ts a p tr :
  let '(h', p', tr') := pursue n s h p tr in
  rtc (lstep k name strict) (mkCluster k h (ts ++ [(p, tr)]) a) (mkCluster k h' (ts ++ [(p', tr')]) a).
Proof.
  revert s h p tr. induction n as [|n IH]; intros s h p tr; [apply rtc_refl|].
  destruct p as [| | | |c f]; try apply rtc_refl. cbn [pursue].
  destruct (sim_handler c s) as [r s']. destruct (reads_none (ev c r)) eqn:Hr; [|apply rtc_refl].
  specialize (IH s' (after_cmd h c) (f r) (tr ++ [ev c r])).
  destruct (pursue n s' (after_cmd h c) (f r) (tr ++ [ev c r])) as [[h' p'] tr'].
  eapply rtc_l; [|exact IH].
  pose proof (LThread k name strict h (ts ++ [(Vis c f, tr)]) a (length ts) c f tr r (after_cmd h c)) as Hstep.
  rewrite list_lookup_middle, insert_app_r_alt, Nat.sub_diag in Hstep by done. cbn in Hstep.
  apply Hstep; [done|]. by apply after_cmd_served.
Qed.

(** The commands of the tool that its laws speak of. *)
Definition shaped (c : cmd) : bool :=
  match c with
  | CExec cmd (sub :: args) =>
    if (cmd =? "zfs") && (sub =? "destroy") then
      match args with [_] => true | [o; _] => o =? "-r" | _ => false end
    else bool_decide (is_Some (last args))
  | CStart _ _ _ | CKill _ | CWaitProc _ | CGoWait _ | CRecvExit => false
  | _ => true
  end.

(** The laws of the tool give what a name sees of them. *)
Lemma laws_datasets_step {S} (E : Env S) ds `{HE : !ZfsLaws E ds} c s r s' :
  shaped c = true → E c s r s' → datasets_step k name c (ds s) r (ds s').
Proof.
  intros Hsh Hstep v _. unfold own. set (D := data_of v). split.
  { intros Hm. by rewrite (zfs_frame (ds := ds) c s r s' Hm Hstep). }
  destruct c; try done. destruct args as [|sub args]; [done|]. intros ->. split_and!.
  - intros -> ->. rewrite bool_decide_eq_true. by apply (zfs_list (ds := ds)) in Hstep as [_ ?].
  - intros Hsub. cbn in Hsh. assert (is_Some (last args)) as [d Hd].
    { assert ((sub =? "destroy") = false) as Hne by (apply String.eqb_neq; set_solver).
      rewrite Hne in Hsh. by apply bool_decide_eq_true in Hsh. }
    rewrite !bool_decide_eq_true.
    rewrite (zfs_add (ds := ds) sub args d s r s' Hsub Hd Hstep). split; [destruct (po_err r); set_solver|].
    intros Hl ->. rewrite Hl in Hd. injection Hd as ->. set_solver.
  - intros ->. cbn in Hsh. rewrite !bool_decide_eq_true, bool_decide_eq_false.
    destruct args as [|x [|y [|]]]; try done.
    + rewrite (zfs_destroy (ds := ds) x s r s' Hstep).
      split; [destruct (po_err r); set_solver|]. intros [[= ->]|[=]] ->. set_solver.
    + apply String.eqb_eq in Hsh as ->. apply (zfs_destroy_r (ds := ds)) in Hstep as (Hsub & _ & Hgone).
      split; [set_solver|]. intros [[=]|[= ->]] Hok. apply (Hgone Hok). by left.
Qed.

(** A worker likewise, on the datasets of its node. *)
Fixpoint toil (n : nat) (s : sim) (h : history) (p : prog unit) : history * prog unit * sim :=
  match n, p with
  | S n, Vis c f =>
    let '(r, s') := sim_handler c s in
    if reads_none (ev c r) && shaped c then toil n s' (after_cmd h c) (f r) else (h, p, s)
  | _, _ => (h, p, s)
  end.

Lemma toil_steps strict n s h ts a m i p :
  ag_worker (a m) = Some (i, p) → ag_datasets (a m) = sim_ds s →
  let '(h', p', s') := toil n s h p in
  ∃ a', rtc (lstep k name strict) (mkCluster k h ts a) (mkCluster k h' ts a') ∧
        a' m = mkAgent (ag_cache (a m)) (Some (i, p')) (sim_ds s').
Proof.
  revert s h p a. induction n as [|n IH]; intros s h p a Hw Hds.
  { exists a. split; [apply rtc_refl|]. rewrite <- Hds, <- Hw. by destruct (a m). }
  destruct p as [| | | |c f]; try (exists a; split; [apply rtc_refl|]; rewrite <- Hds, <- Hw; by destruct (a m)).
  cbn [toil]. destruct (sim_handler c s) as [r s'] eqn:Hh.
  destruct (reads_none (ev c r) && shaped c) eqn:Hr.
  2: { exists a. split; [apply rtc_refl|]. rewrite <- Hds, <- Hw. by destruct (a m). }
  apply andb_true_iff in Hr as [Hr Hsh].
  set (x := (a m) {{ ag_worker := Some (i, f r) }} {{ ag_datasets := sim_ds s' }}).
  specialize (IH s' (after_cmd h c) (f r) (<[m := x]> a)). rewrite fn_lookup_insert in IH.
  specialize (IH ltac:(unfold x; by destruct (a m)) ltac:(unfold x; by destruct (a m))).
  destruct (toil n s' (after_cmd h c) (f r)) as [[h' p'] s'']. destruct IH as (a' & Hsteps & Ha').
  exists a'. split; [|rewrite Ha'; unfold x; by destruct (a m)].
  eapply rtc_l; [|exact Hsteps]. apply (LWork k name strict h ts a m i c f r (after_cmd h c) (sim_ds s')); [done|..].
  - by apply after_cmd_served.
  - rewrite Hds. by apply (laws_datasets_step sim_env sim_ds c s r s' Hsh).
Qed.
(** A request that makes the controller create the resource, and the worker of the node on
    what it created. *)
Lemma made_reached strict m s p v h1 p1 tr1 h2 p2 s2 :
  client k p → pursue 30 s [None] p [] = (h1, p1, tr1) →
  h1 !! 1 = Some (Some v) → (strict = true → owner_node v = m) →
  toil 30 s h1 (reconcile m v) = (h2, p2, s2) →
  ∃ w, rtc (lstep k name strict) (linit k (λ _, sim_ds s)) w ∧ cl_history k w = h2 ∧
       ag_datasets (cl_agents k w m) = sim_ds s2.
Proof.
  intros Hp H1 Hv Ho H2. set (a0 := λ _ : string, mkAgent 0 None (sim_ds s)).
  set (a1 := <[m := mkAgent 1 None (sim_ds s)]> a0).
  set (x := mkAgent 1 (Some (1, reconcile m v)) (sim_ds s)).
  pose proof (pursue_steps strict 30 s [None] [] a0 p []) as Hreq. rewrite H1 in Hreq. cbn [app] in Hreq.
  pose proof (toil_steps strict 30 s h1 [(p1, tr1)] (<[m := x]> a1) m 1 (reconcile m v)) as Hwork.
  rewrite fn_lookup_insert, H2 in Hwork. destruct (Hwork eq_refl eq_refl) as (a2 & Hsteps & Ha2).
  exists (mkCluster k h2 [(p1, tr1)] a2). split_and!; [|done|by cbn; rewrite Ha2].
  eapply rtc_l; [by apply (LRequest k name strict)|].
  transitivity (mkCluster k h1 [(p1, tr1)] a0); [exact Hreq|].
  eapply rtc_l; [apply (LInformer k name strict h1 [(p1, tr1)] a0 m 1)|].
  { apply lookup_lt_Some in Hv. cbn. lia. }
  pose proof (LTake k name strict h1 [(p1, tr1)] a1 m v) as Htake.
  assert (a1 m = mkAgent 1 None (sim_ds s)) as Ha1 by (unfold a1; by rewrite fn_lookup_insert).
  rewrite Ha1 in Htake. eapply rtc_l; [by apply Htake|exact Hsteps].
Qed.
End run.

(** ** A volume *)

Definition creation : prog unit := (_ ← Controller.CreateVolume 20 (create_req (Some Gi)); Ret tt).

(** The controller up to the wait for the volume; then the worker of the node. *)
Definition asked_run := pursue KVol "pvc-1" 30 Scenarios.cluster [None] creation [].
Definition asked_version : ZFSVolume := default asked_vol (current KVol asked_run.1.1).
Definition made_run :=
  toil KVol "pvc-1" 30 Scenarios.cluster asked_run.1.1 (reconcile "node-1" (asked_version : obj KVol)).

Lemma volume_made :
  ∃ w, rtc (lstep KVol "pvc-1" true) (linit KVol (λ _, sim_ds Scenarios.cluster)) w ∧
       cl_history KVol w = made_run.1.1.
Proof.
  destruct (made_reached KVol "pvc-1" true "node-1" Scenarios.cluster creation asked_version
              asked_run.1.1 asked_run.1.2 asked_run.2 made_run.1.1 made_run.1.2 made_run.2) as (w & Hw & Hh & _).
  - apply (CliCreate KVol 20 (create_req (Some Gi))).
  - unfold asked_run. by destruct (pursue _ _ _ _ _ _ _) as [[]].
  - vm_compute. reflexivity.
  - intros _. vm_compute. reflexivity.
  - unfold made_run. by destruct (toil _ _ _ _ _ _) as [[]].
  - exists w. exact (conj Hw Hh).
Qed.

Lemma made_version :
  (λ v, (vol_State v, DeletionTimestamp (vol_Meta v))) <$> current KVol made_run.1.1 = Some (ZFSStatusReady, None).
Proof. vm_compute. reflexivity. Qed.


(** ** A snapshot *)

Definition snapshotting : prog unit :=
  (_ ← Controller.CreateSnapshot 5 (mkCreateSnapshotRequest "s1" "pvc-1" ∅); Ret tt).

Definition snap_asked := pursue KSnap "s1" 30 in_use [None] snapshotting [].
Definition snap_version : ZFSSnapshot := default (snap_of "s1") (current KSnap snap_asked.1.1).
Definition snap_made :=
  toil KSnap "s1" 30 in_use snap_asked.1.1 (reconcile "node-1" (snap_version : obj KSnap)).

Lemma snapshot_made :
  ∃ w, rtc (lstep KSnap "s1" true) (linit KSnap (λ _, sim_ds in_use)) w ∧ cl_history KSnap w = snap_made.1.1.
Proof.
  destruct (made_reached KSnap "s1" true "node-1" in_use snapshotting snap_version
              snap_asked.1.1 snap_asked.1.2 snap_asked.2 snap_made.1.1 snap_made.1.2 snap_made.2) as (w & Hw & Hh & _).
  - apply (CliCreateSnapshot KSnap 5 (mkCreateSnapshotRequest "s1" "pvc-1" ∅)).
  - unfold snap_asked. by destruct (pursue _ _ _ _ _ _ _) as [[]].
  - vm_compute. reflexivity.
  - intros _. vm_compute. reflexivity.
  - unfold snap_made. by destruct (toil _ _ _ _ _ _) as [[]].
  - exists w. exact (conj Hw Hh).
Qed.

Lemma made_snapshot :
  (λ v, (snap_State v, DeletionTimestamp (snap_Meta v))) <$> current KSnap snap_made.1.1 = Some (ZFSStatusReady, None).
Proof. vm_compute. reflexivity. Qed.

