(* ===== verification/CapacitySpec.v ===== *)
(** * What the capacity report says (GetCapacity of controller.go)

    The scheduler of Kubernetes asks how large a volume can be in a part of the cluster.
    The answer is the free space of the roomiest matching pool of the nodes there, and is
    the same whether the nodes are found through the index of the cache or by a scan. *)

From S2P Require Import Prelude GoStr GoErr Api Csi Effects Kube ZfsArgs Builders VolumeOps.
From S2P Require Import Laws Sim Scheduler RegexpSim SchedulerSpec Responses Controller Scenarios.

(** The caches of the controller: the nodes of the cluster with their labels, each once,
    which the API server has too, and the resources the agents report their pools in.
    The selector of a set of labels selects the objects that have them. *)
Class NodeCacheLaws {St} (E : Env St) `{!LibHelpers} (nodes : list (string * smap))
    (reported : string → option ZFSNode) := {
  nc_unique : NoDup nodes.*1;
  nc_keys s r s' : E CK8sNodeKeys s r s' → r ≡ₚ nodes.*1;
  nc_nodes s r s' : E CK8sNodes s r s' → r ≡ₚ nodes;
  nc_index label v s r s' : E (CK8sByIndex (LabelIndexName label) v) s (Ok r) s' →
    r ≡ₚ List.filter (λ n, bool_decide (v ∈ LabelIndexFunc label n.2)) nodes;
  nc_get n s labels s' : E (CGetK8sNode n) s (Ok labels) s' → n ∈ nodes.*1 → (n, labels) ∈ nodes;
  nc_cached key s z s' : E (CZfsNodeByKey key) s (Ok z) s' → z = reported key;
  nc_named key z : reported key = Some z → named (node_Pools z);
  nc_selector segments labels : selector_Matches segments labels = true ↔ segments ⊆ labels;
}.

Section capacity.
Context {St : Type} (E : Env St) `{!Globals} `{!ErrorsFmt} `{!Regexp} `{!LibHelpers}.
Context (nodes : list (string * smap)) (reported : string → option ZFSNode).
Context `{!NodeCacheLaws E nodes reported}.

(** ** The nodes of a part of the cluster *)

(** The reference: a scan. *)
Definition selected (segments : smap) : list string :=
  (List.filter (λ n, bool_decide (segments ⊆ n.2)) nodes).*1.

Lemma selected_filter segments vs :
  filterNodes segments vs = (List.filter (λ n, bool_decide (segments ⊆ n.2)) vs).*1.
Proof.
  unfold filterNodes. change (map fst) with (fmap (M := list) (@fst string smap)).
  f_equal. apply List.filter_ext. intros [n labels]. cbn. apply eq_bool_prop_intro.
  rewrite !Is_true_true, bool_decide_eq_true. apply nc_selector.
Qed.

Lemma filter_Permutation {A} (f : A → bool) l l' : l ≡ₚ l' → List.filter f l ≡ₚ List.filter f l'.
Proof.
  induction 1 as [|x l l' _ IH|x y l|]; cbn; [done|by destruct (f x); rewrite IH| |by etrans].
  destruct (f x), (f y); try done. apply Permutation_swap.
Qed.

(** Nodes that have the label of a segment are all the index may leave out. *)
Lemma index_complete label v segments (ns : list (string * smap)) :
  segments !! label = Some v →
  List.filter (λ n, bool_decide (segments ⊆ n.2))
    (List.filter (λ n, bool_decide (v ∈ LabelIndexFunc label n.2)) ns) =
  List.filter (λ n, bool_decide (segments ⊆ n.2)) ns.
Proof.
  intros Hv. induction ns as [|[n labels] ns IH]; [done|]. cbn.
  destruct (bool_decide (v ∈ _)) eqn:Hin; cbn; [by rewrite IH|].
  rewrite IH, (bool_decide_false (segments ⊆ labels)); [done|].
  apply bool_decide_eq_false in Hin. intros Hsub. apply Hin. unfold LabelIndexFunc.
  rewrite (lookup_weaken _ _ _ _ Hv Hsub). set_solver.
Qed.

Lemma wp_filterNodesByTopology label segments s :
  wp E (filterNodesByTopology label segments)
    (λ o s', match o with
             | ORet names => names ≡ₚ selected segments
             | OErr _ => True
             | _ => False
             end) s.
Proof.
  assert (∀ vs, vs ≡ₚ nodes → filterNodes segments vs ≡ₚ selected segments) as Hscan.
  { intros vs Hvs. rewrite selected_filter. unfold selected. by rewrite (filter_Permutation _ _ _ Hvs). }
  unfold filterNodesByTopology. case_bool_decide as Hempty.
  - subst segments. intros r s' Hr. cbn. rewrite (nc_keys _ _ _ Hr). unfold selected.
    rewrite List.forallb_filter_id; [done|]. apply forallb_forall. intros n _.
    apply bool_decide_eq_true, map_empty_subseteq.
  - cbn. intros has s1 _. destruct has; cbn.
    + destruct (segments !! label) as [v|] eqn:Hv; cbn.
      * intros [vs|e] s2 Hr; cbn; [|done]. rewrite selected_filter. unfold selected.
        rewrite (filter_Permutation _ _ _ (nc_index _ _ _ _ _ Hr)). by rewrite (index_complete _ v).
      * intros vs s2 Hr%nc_nodes. cbn. by apply Hscan.
    + intros vs s2 Hr%nc_nodes. cbn. by apply Hscan.
Qed.

(** ** The pools of the nodes *)

(** The resource of a node: its agent goes by its label, or by its name. *)
Definition resource_key (id : string) : string := OpenEBSNamespace +:+ "/" +:+ id.
Definition agent_id (n : string) (labels : smap) : string := default n (labels !! ZFSTopologyKey).

(** A pool of a node with [segments], as its agent reported it; a node whose labels
    cannot be read is taken to go by its name. *)
Definition offered (segments : smap) (pattern : regex) (p : Pool) : Prop :=
  ∃ n labels id z, (n, labels) ∈ nodes ∧ segments ⊆ labels ∧ (id = agent_id n labels ∨ id = n) ∧
    reported (resource_key id) = Some z ∧ p ∈ node_Pools z ∧ matches pattern p = true.

(** The reads of the API server and of the cache do not fail. *)
Definition reliable : Prop :=
  (∀ n s r s', E (CGetK8sNode n) s r s' → n ∈ nodes.*1 → ∃ labels, r = Ok labels) ∧
  (∀ key s r s', E (CZfsNodeByKey key) s r s' → ∃ z, r = Ok z).

(** The free space of a node is that of its roomiest matching pool. *)
Lemma maxFreePool_free pools pattern :
  named pools →
  ((maxFreePool pools pattern).2 = 0%Z ∨
   ∃ p, p ∈ pools ∧ matches pattern p = true ∧ (maxFreePool pools pattern).2 = pool_Free p) ∧
  ∀ p, p ∈ pools → matches pattern p = true → (pool_Free p <= (maxFreePool pools pattern).2)%Z.
Proof.
  intros Hn. rewrite maxFreePool_best by done.
  pose proof (best_spec (matches pattern) (λ p, - pool_Free p)%Z pools) as Hb.
  destruct (best _ _ _ None) as [p|]; cbn.
  - destruct Hb as (l1 & l2 & -> & Hok & Hl1 & Hl2). split.
    + right. exists p. set_solver.
    + intros q Hq Hm. apply elem_of_app in Hq as [Hq|Hq%elem_of_cons].
      * specialize (Hl1 q Hq Hm). lia.
      * destruct Hq as [->|Hq]; [lia|]. specialize (Hl2 q Hq Hm). lia.
  - split; [by left|]. intros p Hp Hm. by rewrite Hb in Hm.
Qed.

Lemma selected_elem segments n :
  n ∈ selected segments ↔ ∃ labels, (n, labels) ∈ nodes ∧ segments ⊆ labels.
Proof.
  unfold selected. rewrite list_elem_of_fmap. setoid_rewrite list_elem_of_In.
  setoid_rewrite filter_In. setoid_rewrite bool_decide_eq_true. split.
  - intros ([n' labels] & -> & ? & ?). by exists labels.
  - intros (labels & ? & ?). by exists (n, labels).
Qed.

Lemma unique_labels {A} (l : list (string * A)) n a b :
  NoDup l.*1 → (n, a) ∈ l → (n, b) ∈ l → a = b.
Proof.
  induction l as [|[m c] l IH]; cbn; [set_solver|]. intros [Hm Hl]%NoDup_cons.
  assert (∀ d, (m, d) ∉ l) as Hno.
  { intros d Hd. apply Hm, list_elem_of_fmap. by exists (m, d). }
  intros [?|?]%elem_of_cons [?|?]%elem_of_cons; simplify_eq; try done; [by destruct (Hno b)|by destruct (Hno a)|auto].
Qed.

(** Reading the identifier of a node. *)
Lemma wp_mapped_id n labels s (Q : string → St → Prop) :
  (n, labels) ∈ nodes →
  (∀ id s', (id = agent_id n labels ∨ id = n) → (reliable → id = agent_id n labels) → Q id s') →
  wp E (attempt (GetNodeID n))
    (λ o s', match o with
             | ORet r => Q (match r with Ok id => id | Err _ => n end) s'
             | _ => False
             end) s.
Proof.
  intros Hn HQ. cbn. assert (n ∈ nodes.*1) as Hin by (apply list_elem_of_fmap; by exists (n, labels)).
  intros [labels'|e] s1 Hr; cbn.
  - assert (labels' = labels) as ->.
    { pose proof (nc_get _ _ _ _ Hr Hin) as Hn'. pose proof nc_unique as Hu.
      by eapply unique_labels. }
    destruct (labels !! ZFSTopologyKey) eqn:Hl; cbn; apply HQ; unfold agent_id; rewrite Hl; auto.
  - apply HQ; [by right|]. intros [Hg _]. by destruct (Hg _ _ _ _ Hr Hin).
Qed.

(** The largest of [acc] and of the free spaces of the matching pools of [names]. *)
Definition best_of (segments : smap) (pattern : regex) (names : list string) (acc : Z)
    (o : outcome Z) : Prop :=
  ∃ c, o = ORet c ∧ (acc <= c)%Z ∧
    (c = acc ∨ ∃ p, offered segments pattern p ∧ pool_Free p = c) ∧
    (reliable → ∀ n labels z p, n ∈ names → (n, labels) ∈ nodes →
       reported (resource_key (agent_id n labels)) = Some z → p ∈ node_Pools z →
       matches pattern p = true → (pool_Free p <= c)%Z).

Lemma best_of_cons segments pattern n labels names acc acc' o :
  (n, labels) ∈ nodes → (acc <= acc')%Z →
  (acc' = acc ∨ ∃ p, offered segments pattern p ∧ pool_Free p = acc') →
  (reliable → ∀ z p, reported (resource_key (agent_id n labels)) = Some z → p ∈ node_Pools z →
     matches pattern p = true → (pool_Free p <= acc')%Z) →
  best_of segments pattern names acc' o → best_of segments pattern (n :: names) acc o.
Proof.
  intros Hn Hle Hacc Hall (c & -> & Hc & Hor & Hmax). exists c. split_and!; [done|lia| |].
  - destruct Hor as [->|?]; auto.
  - intros Hr n' labels' z p [->|Hin]%elem_of_cons Hn' Hrep Hp Hm; [|by eapply Hmax].
    assert (labels' = labels) as -> by (eapply unique_labels; [apply nc_unique|done..]).
    specialize (Hall Hr z p Hrep Hp Hm). lia.
Qed.

Lemma wp_max_capacity segments pattern names acc s :
  (∀ n, n ∈ names → n ∈ selected segments) → (0 <= acc)%Z →
  wp E (max_capacity pattern names acc) (λ o s', best_of segments pattern names acc o) s.
Proof.
  revert acc s. induction names as [|n names IH]; intros acc s Hsel Hacc.
  { cbn. exists acc. split_and!; [done|lia|by left|]. set_solver. }
  cbn [max_capacity]. destruct (proj1 (selected_elem segments n)) as (labels & Hn & Hsub); [set_solver|].
  assert (∀ m, m ∈ names → m ∈ selected segments) as Hrest by set_solver.
  apply wp_bind. eapply wp_mono; [|apply (wp_mapped_id n labels _
    (λ id s', (id = agent_id n labels ∨ id = n) ∧ (reliable → id = agent_id n labels))); [done|auto]].
  intros [r|e|m|] s1; cbn [bind_post]; try done.
  set (id := match r with Ok id => id | Err _ => n end). intros [Hid Hrel].
  cbn [call mbind prog_mbind prog_bind wp]. intros [[z|]|e] s2 Hz.
  - apply nc_cached in Hz. symmetry in Hz. change (_ +:+ "/" +:+ id) with (resource_key id) in Hz.
    destruct (maxFreePool_free (node_Pools z) pattern) as [Hfree Hmax]; [by eapply nc_named|].
    assert (∀ z' p, reliable → reported (resource_key (agent_id n labels)) = Some z' →
      p ∈ node_Pools z' → matches pattern p = true →
      (pool_Free p <= (maxFreePool (node_Pools z) pattern).2)%Z) as Hown.
    { intros z' p Hr Hrep. rewrite <- (Hrel Hr), Hz in Hrep. injection Hrep as <-. apply Hmax. }
    destruct (Z.ltb_spec acc (maxFreePool (node_Pools z) pattern).2) as [Hlt|Hge].
    + eapply wp_mono; [|by apply IH; [|lia]]. intros o s3. apply (best_of_cons _ _ _ labels); [done|lia| |eauto].
      destruct Hfree as [Hz0|(p & Hp & Hm & Heq)]; [lia|].
      right. exists p. split; [|done]. by exists n, labels, id, z.
    + eapply wp_mono; [|by apply IH]. intros o s3.
      apply (best_of_cons _ _ _ labels); [done|lia|by left|]. intros Hr z' p Hrep Hp Hm.
      specialize (Hown z' p Hr Hrep Hp Hm). lia.
  - apply nc_cached in Hz. eapply wp_mono; [|by apply IH]. intros o s3.
    apply (best_of_cons _ _ _ labels); [done|lia|by left|]. intros Hr z' p Hrep.
    rewrite <- (Hrel Hr) in Hrep. unfold resource_key in Hrep. congruence.
  - eapply wp_mono; [|by apply IH]. intros o s3.
    apply (best_of_cons _ _ _ labels); [done|lia|by left|].
    intros Hr. by destruct (proj2 Hr _ _ _ _ Hz).
Qed.

(** C35: the capacity that is reported for a part of the cluster is the free space of a
    matching pool of a node there, or 0; when no read fails, no matching pool of these
    nodes has more.  It does not matter whether the nodes are found through the index or
    by a scan, nor which label is indexed. *)
Theorem GetCapacity_correct label segments params s pattern :
  parsePoolParams (GetInsensitiveParameter params "poolname")
    (GetInsensitiveParameter params "poolpattern") = Ret pattern →
  wp E (GetCapacity label segments params)
    (λ o s', match o with
       | ORet c =>
         (c = 0%Z ∨ ∃ p, offered segments pattern p ∧ pool_Free p = c) ∧
         (reliable → ∀ n labels z p, (n, labels) ∈ nodes → segments ⊆ labels →
            reported (resource_key (agent_id n labels)) = Some z → p ∈ node_Pools z →
            matches pattern p = true → (pool_Free p <= c)%Z)
       | OErr err => ∃ msg, err = ErrStatus Internal msg
       | _ => False
       end) s.
Proof.
  intros Hparse. unfold GetCapacity. apply wp_bind. unfold map_err.
  apply wp_bind, wp_attempt. eapply wp_mono; [|apply wp_filterNodesByTopology].
  intros [names|e|m|] s1 Hnames; try done; cbn; [|by eexists].
  rewrite Hparse. cbn. eapply wp_mono; [|apply (wp_max_capacity segments)]; [|by intros n; rewrite Hnames|done].
  intros o s2 (c & -> & Hc & Hor & Hmax). split; [done|].
  intros Hr n labels z p Hn Hsub Hrep Hp Hm. eapply Hmax; try done.
  rewrite Hnames. apply selected_elem. by exists labels.
Qed.
End capacity.

(** ** Simulated caches *)

Definition caches_handler (nodes : list (string * smap)) (reported : string → option ZFSNode)
    : handler sim := λ c s,
  match c as c return resp c * sim with
  | CK8sNodeKeys => (nodes.*1, s)
  | CK8sNodes => (nodes, s)
  | CK8sHasIndex _ => (true, s)
  | CK8sByIndex index v =>
    (Ok (List.filter (λ n, bool_decide (v ∈ LabelIndexFunc (drop_str 2 index) n.2)) nodes), s)
  | CGetK8sNode n =>
    (match List.find (λ e, e.1 =? n) nodes with Some e => Ok e.2 | None => not_found end, s)
  | CZfsNodeByKey key => (Ok (reported key), s)
  | c => sim_handler c s
  end.

Lemma caches_laws nodes reported :
  NoDup nodes.*1 → (∀ key z, reported key = Some z → named (node_Pools z)) →
  NodeCacheLaws (env_of (caches_handler nodes reported)) nodes reported.
Proof.
  intros Hu Hn. unfold env_of. split; try done.
  - by intros s r s' [= -> _].
  - by intros s r s' [= -> _].
  - intros label v s r s'. cbn. by intros [= <- _].
  - intros n s labels s'. simpl. destruct (List.find _ _) as [[m ls]|] eqn:Hf; [|done].
    intros [= -> _] _. apply find_some in Hf as [Hin Heq%String.eqb_eq].
    cbn in Heq. subst m. by apply list_elem_of_In.
  - by intros key s z s' [= -> _].
  - intros segments labels. cbn. apply bool_decide_eq_true.
Qed.

Definition two_nodes : list (string * smap) :=
  [("node-1", {["zone" := "a"]}); ("node-2", {["zone" := "b"]})].

Definition one_report (key : string) : option ZFSNode :=
  if key =? "openebs/node-1" then Some node1 else None.

Lemma GetCapacity_witness :
  ∃ pattern, wp (env_of (caches_handler two_nodes one_report))
    (GetCapacity "zone" {["zone" := "a"]} {["poolname" := "zpool"]})
    (λ o s', match o with
             | ORet c => c = 0%Z ∨ ∃ p, offered two_nodes one_report {["zone" := "a"]} pattern p ∧ pool_Free p = c
             | _ => True
             end) (sim_init []).
Proof.
  eexists. eapply wp_mono; [|refine (GetCapacity_correct _ two_nodes one_report _ _ _ _ _ _)].
  - by intros [c|e|m|] s'; [intros [? _]|..].
  - apply caches_laws; [by apply (bool_decide_unpack _)|]. intros key z. unfold one_report.
    case_match; [|done]. intros [= <-]. intros p [->|Hp]%elem_of_cons; [done|]. set_solver.
  - vm_compute. reflexivity.
Defined.
