(* ===== verification/BackupGC.v ===== *)
(** * Garbage collection of backups (pkg/driver/backup_gc.go)

    The controller watches the backup resources: an incremental backup whose previous
    snapshot no backup holds any more is of no use, and is deleted.  The handlers of
    the informer's events start goroutines, which look backups up in the indices of the
    informer's cache and delete resources.  A handler is modelled as the list of the
    goroutines it starts. *)

From S2P Require Import Prelude GoStr GoErr Api Csi Effects Kube ZfsArgs Builders VolumeOps Reconcilers Wiring.

(** ** Indices *)

Definition BackupSnapshotIndex := "BackupSnapshotIndex".
Definition BackupPreviousSnapshotIndex := "BackupPreviousSnapshotIndex".

Definition BackupSnapshotIndexFunc (o : stored_backup) : list string :=
  match o with
  | StoredOther _ => []
  | StoredBackup backup =>
    let spec := bkp_Spec backup in
    [bkp_VolumeName spec +:+ "." +:+ bkp_OwnerNodeID spec +:+ "." +:+ bkp_SnapName spec]
  end.

Definition BackupPreviousSnapshotIndexFunc (o : stored_backup) : list string :=
  match o with
  | StoredOther _ => []
  | StoredBackup backup =>
    let spec := bkp_Spec backup in
    if bkp_PrevSnapName spec =? "" then []
    else [bkp_VolumeName spec +:+ "." +:+ bkp_OwnerNodeID spec +:+ "." +:+ bkp_PrevSnapName spec]
  end.

(** [setupIndexers]: the indices by name. *)
Definition indexers (index : string) : option (stored_backup → list string) :=
  if index =? BackupSnapshotIndex then Some BackupSnapshotIndexFunc
  else if index =? BackupPreviousSnapshotIndex then Some BackupPreviousSnapshotIndexFunc
  else None.

Definition getBackupKeyBySpec (volumeName ownerNodeID snapName : string) : string :=
  volumeName +:+ "." +:+ ownerNodeID +:+ "." +:+ snapName.

(** The typed objects of an answer of the indexer; [i] is the position. *)
Fixpoint parse_backups (i : Z) (objects : list stored_backup) : result (list ZFSBackup) :=
  match objects with
  | [] => Ok []
  | StoredOther goType :: _ =>
    Err (Errorf "item[%d]: expected *zfsapi.ZFSBackup, got %T" [FormatInt i; goType])
  | StoredBackup backup :: objects =>
    match parse_backups (i + 1) objects with
    | Ok backups => Ok (backup :: backups)
    | Err err => Err err
    end
  end.

Definition parseBackupsFromIndexResults (objects : list stored_backup) : result (list ZFSBackup) :=
  parse_backups 0 objects.

Section gc.
Context `{!Globals}.

(** ** Goroutines *)

(** The loop over the dependent backups: a failure is logged. *)
Fixpoint delete_backups (backups : list ZFSBackup) : prog unit :=
  match backups with
  | [] => Ret tt
  | backup :: backups =>
    _ ← attempt (Kubeclient_Delete KBkp OpenEBSNamespace (Name (bkp_Meta backup)));
    delete_backups backups
  end.

Definition deleteOrphanedIncBackup (backup : ZFSBackup) : prog unit :=
  let spec := bkp_Spec backup in
  if bkp_PrevSnapName spec =? "" then Ret tt else
  let parentBackupKey := getBackupKeyBySpec (bkp_VolumeName spec) (bkp_OwnerNodeID spec)
                           (bkp_PrevSnapName spec) in
  parentItem ← call (CBkpByIndex BackupSnapshotIndex parentBackupKey);
  match parentItem with
  | Err _ => Ret tt
  | Ok [] =>
    _ ← attempt (Kubeclient_Delete KBkp OpenEBSNamespace (Name (bkp_Meta backup)));
    Ret tt
  | Ok _ => Ret tt
  end.

Definition deleteBackupsReferencingDeletedBackup (backup : ZFSBackup) : prog unit :=
  let spec := bkp_Spec backup in
  let childBackupKey := getBackupKeyBySpec (bkp_VolumeName spec) (bkp_OwnerNodeID spec)
                          (bkp_SnapName spec) in
  possibleChildBackups ← call (CBkpByIndex BackupPreviousSnapshotIndex childBackupKey);
  match possibleChildBackups with
  | Err _ => Ret tt
  | Ok [] => Ret tt
  | Ok possibleChildBackups =>
    match parseBackupsFromIndexResults possibleChildBackups with
    | Err _ => Ret tt
    | Ok childBackups => delete_backups childBackups
    end
  end.

(** ** Event handlers *)

Definition handleBackupCreation (o : delivered KBkp) : list (prog unit) :=
  match o with
  | DObj backup =>
    if negb (bkp_PrevSnapName (bkp_Spec backup) =? "") then [deleteOrphanedIncBackup backup]
    else []
  | _ => []
  end.

Definition handleBackupUpdate (oldObj newObj : delivered KBkp) : list (prog unit) :=
  match oldObj, newObj with
  | DObj oldBackup, DObj newBackup =>
    if negb (bkp_PrevSnapName (bkp_Spec oldBackup) =? bkp_PrevSnapName (bkp_Spec newBackup)) &&
       negb (bkp_PrevSnapName (bkp_Spec newBackup) =? "")
    then [deleteOrphanedIncBackup newBackup]
    else []
  | _, _ => []
  end.

Definition handleBackupDeletion (o : delivered KBkp) : list (prog unit) :=
  match o with
  | DObj backup | DTombstone (Some backup) => [deleteBackupsReferencingDeletedBackup backup]
  | _ => []
  end.
End gc.

(** ** Start *)

(** The field is nil until the informer is made. *)
Record BackupGarbageCollector := mkBackupGC { bgc_zfsBackupInformer : option unit }.

(** The indices by their names, which [indexers] takes apart. *)
Definition setupIndexers (bgc : BackupGarbageCollector) : prog unit :=
  _ ← field (bgc_zfsBackupInformer bgc);
  r ← up (UAddIndexers (Some KBkp) [BackupSnapshotIndex; BackupPreviousSnapshotIndex]); lift r.

Definition registerEventHandlers (bgc : BackupGarbageCollector) : prog unit :=
  _ ← field (bgc_zfsBackupInformer bgc); up (UAddEventHandler KBkp).

Definition startAndWaitForInformer (bgc : BackupGarbageCollector) : prog unit :=
  _ ← field (bgc_zfsBackupInformer bgc);
  _ ← up (UGoInformer (Some KBkp));
  ok ← up (UWaitForCaches [Some KBkp]);
  if negb ok then Throw (ErrText "timed out waiting for ZFS backup informer cache to sync")
  else Ret tt.

Definition Initialize : prog BackupGarbageCollector :=
  let bgc := mkBackupGC (Some tt) in
  r ← attempt (setupIndexers bgc);
  match r with
  | Err err => Throw (ErrWrap err "failed to set up informer indexers")
  | Ok _ =>
    _ ← registerEventHandlers bgc;
    _ ← startAndWaitForInformer bgc;
    Ret bgc
  end.

(** The tests make the collector with a stop channel of its own. *)
Definition InitializeForTesting : prog BackupGarbageCollector :=
  _ ← up USetupSignalHandler;
  let bgc := mkBackupGC (Some tt) in
  _ ← setupIndexers bgc;
  _ ← registerEventHandlers bgc;
  _ ← startAndWaitForInformer bgc;
  Ret bgc.
