(* ===== verification/BackupGCSpec.v ===== *)
(** * What the garbage collection of backups guarantees

    The collector runs beside the API server, the informer that follows it and the
    clients that create, change and delete backups.  [gstep] is one step of that system:
    a request of a client, the delivery of a change to the informer's cache, the call of
    an event handler, or one command of a goroutine that a handler started.  Between two
    steps anything of that kind may happen. *)

From S2P Require Import Prelude GoStr GoErr Api Csi Effects Kube ZfsArgs Builders VolumeOps Reconcilers BackupGC.

(** ** Keys *)

Definition backup_key (b : ZFSBackup) : string :=
  getBackupKeyBySpec (bkp_VolumeName (bkp_Spec b)) (bkp_OwnerNodeID (bkp_Spec b))
    (bkp_SnapName (bkp_Spec b)).

Definition parent_key (b : ZFSBackup) : string :=
  getBackupKeyBySpec (bkp_VolumeName (bkp_Spec b)) (bkp_OwnerNodeID (bkp_Spec b))
    (bkp_PrevSnapName (bkp_Spec b)).

Definition incremental (b : ZFSBackup) : Prop := bkp_PrevSnapName (bkp_Spec b) ≠ "".

Abbreviation bname b := (Name (bkp_Meta b)).

(** The key determines the volume, the node and the snapshot when volumes and
    snapshots are not named with dots; the name of the node may have dots. *)
Lemma last_dot n1 s1 n2 s2 :
  has_char "." s1 = false → has_char "." s2 = false →
  n1 +:+ "." +:+ s1 = n2 +:+ "." +:+ s2 → n1 = n2 ∧ s1 = s2.
Proof.
  intros H1 H2. revert n2. induction n1 as [|a n1 IH]; intros [|b n2] Heq; simpl in *.
  - by injection Heq.
  - injection Heq as Hb Hs. exfalso. subst s1.
    rewrite !has_char_app in H1. simpl in H1. by rewrite orb_true_r in H1.
  - injection Heq as Ha Hs. exfalso. subst s2.
    rewrite !has_char_app in H2. simpl in H2. by rewrite orb_true_r in H2.
  - injection Heq as <- Heq. by destruct (IH _ Heq) as [-> ->].
Qed.

Lemma backup_key_inj v1 n1 s1 v2 n2 s2 :
  has_char "." v1 = false → has_char "." v2 = false →
  has_char "." s1 = false → has_char "." s2 = false →
  getBackupKeyBySpec v1 n1 s1 = getBackupKeyBySpec v2 n2 s2 → v1 = v2 ∧ n1 = n2 ∧ s1 = s2.
Proof.
  intros Hv1 Hv2 Hs1 Hs2 Heq. unfold getBackupKeyBySpec in Heq.
  apply (f_equal (Cut ".")) in Heq. simpl in Heq. rewrite !Cut_found in Heq by done.
  injection Heq as -> Heq. by destruct (last_dot _ _ _ _ Hs1 Hs2 Heq) as [-> ->].
Qed.

(** With dots in the names of volumes, different backups share a key. *)
Lemma backup_key_collision :
  getBackupKeyBySpec "pvc.a" "node" "s" = getBackupKeyBySpec "pvc" "a.node" "s".
Proof. done. Qed.

(** ** What a goroutine deletes *)

Section guards.
Context `{!Globals}.

(** The check of a new backup deletes that backup, after the index of the snapshots
    answered that there is none it builds on. *)
Definition orphan_guard (b : ZFSBackup) (c : cmd) (tr : trace) : Prop :=
  match c with
  | CDelete k ns n => k = KBkp ∧ ns = OpenEBSNamespace ∧ n = bname b ∧ incremental b ∧
                      ev (CBkpByIndex BackupSnapshotIndex (parent_key b)) (Ok []) ∈ tr
  | CCreate _ _ _ | CUpdate _ _ _ => False
  | _ => True
  end.

(** The follow-up of a deletion deletes backups that the index answered to build on the
    deleted one. *)
Definition children_guard (a : ZFSBackup) (c : cmd) (tr : trace) : Prop :=
  match c with
  | CDelete k ns n =>
    k = KBkp ∧ ns = OpenEBSNamespace ∧
    ∃ items b, ev (CBkpByIndex BackupPreviousSnapshotIndex (backup_key a)) (Ok items) ∈ tr ∧
               StoredBackup b ∈ items ∧ n = bname b
  | CCreate _ _ _ | CUpdate _ _ _ => False
  | _ => True
  end.

Lemma safe_delete (G : cmd → trace → Prop) n tr :
  (∀ tr, G CClientset tr) → (∀ r, G (CDelete KBkp OpenEBSNamespace n) (tr ++ r)) →
  safe any_env G (Kubeclient_Delete KBkp OpenEBSNamespace n) tr.
Proof.
  intros Hc Hd. unfold Kubeclient_Delete. destruct (n =? ""); [done|]. simpl.
  split; [done|]. intros [[]|e] tr1 ->; simpl; [|done].
  split; [apply Hd|]. by intros [] tr2 ->.
Qed.

Lemma safe_delete_backups (G : cmd → trace → Prop) bs tr :
  (∀ tr, G CClientset tr) →
  (∀ b r, b ∈ bs → G (CDelete KBkp OpenEBSNamespace (bname b)) (tr ++ r)) →
  safe any_env G (delete_backups bs) tr.
Proof.
  intros Hc. revert tr. induction bs as [|b bs IH]; intros tr Hd; simpl; [done|].
  apply safe_bind.
  - apply safe_attempt, safe_delete; [done|]. intros r. apply Hd. by left.
  - apply trace_extends. intros [u|e| |] r; try done. apply IH. intros b' r' Hb'.
    rewrite <- (assoc_L (++)). apply Hd. by right.
Qed.

Lemma parse_backups_items i items bs :
  parse_backups i items = Ok bs → items = map StoredBackup bs.
Proof.
  revert i bs. induction items as [|[b|t] items IH]; intros i bs; simpl; [by intros [= <-]| |done].
  destruct (parse_backups (i + 1) items) as [bs'|] eqn:E; [|done]. intros [= <-].
  simpl. f_equal. by eapply IH.
Qed.

(** The collector only deletes backups: one that names a previous snapshot, after
    the index answered that no backup of the volume and node has it, or, when a backup was
    deleted, those the index answered to build on its snapshot. *)
Theorem collector_guarded b :
  safe any_env (orphan_guard b) (deleteOrphanedIncBackup b) [] ∧
  safe any_env (children_guard b) (deleteBackupsReferencingDeletedBackup b) [].
Proof.
  split.
  - unfold deleteOrphanedIncBackup.
    destruct (String.eqb_spec (bkp_PrevSnapName (bkp_Spec b)) "") as [|Hi]; [done|].
    split; [done|]. intros [[|x items]|e] tr ->; try done.
    apply (safe_delete_backups (orphan_guard b) [b]); [done|].
    intros b' r ->%list_elem_of_singleton. split_and!; try done. apply elem_of_app. left. by left.
  - split; [done|]. intros [items|e] tr ->; [|exact I].
    destruct items as [|x items]; [exact I|]. set (l := x :: items).
    change (safe any_env (children_guard b)
              (match parse_backups 0 l with Err _ => Ret tt | Ok bs => delete_backups bs end)
              [ev (CBkpByIndex BackupPreviousSnapshotIndex (backup_key b)) (Ok l)]).
    destruct (parse_backups 0 l) as [bs|] eqn:E; [|done]. apply parse_backups_items in E.
    apply safe_delete_backups; [done|]. intros b' r Hb'. split_and!; [done..|].
    exists l, b'. split_and!; [apply elem_of_app; left; by left| |done].
    rewrite E, list_elem_of_In, in_map_iff. exists b'. by rewrite <- list_elem_of_In.
Qed.
End guards.

(** ** The system *)

(** A change of the API server's backups, as the informer's watch reports it. *)
Inductive delta := Changed (b : ZFSBackup) | Removed (b : ZFSBackup).

(** An event of the informer whose handler is to be called. *)
Inductive notice := NAdd (b : ZFSBackup) | NUpdate (old new : ZFSBackup) | NDelete (b : ZFSBackup).

Record gsys := mkGsys {
  g_api : gmap string ZFSBackup;   (* the resources of the API server *)
  g_cache : gmap string ZFSBackup; (* the informer's cache *)
  g_pend : list delta;             (* changes the informer has not received *)
  g_todo : list notice;            (* events whose handler has not been called *)
  g_threads : list (prog unit);    (* goroutines *)
  g_failed : bool;                 (* a request of the collector failed *)
}.

Definition g_init : gsys := mkGsys ∅ ∅ [] [] [] false.

Definition marked (b : ZFSBackup) : bool := isDeletionCandidate KBkp b.

(** The API server stores an object, or lets it go if it is being deleted and has no
    finalizers. *)
Definition g_store (b : ZFSBackup) (s : gsys) : gsys :=
  if marked b && bool_decide (Finalizers (bkp_Meta b) = []) then
    s {{ g_api := delete (bname b) (g_api s) }} {{ g_pend := g_pend s ++ [Removed b] }}
  else
    s {{ g_api := <[bname b := b]> (g_api s) }} {{ g_pend := g_pend s ++ [Changed b] }}.

Definition mark (b : ZFSBackup) : ZFSBackup :=
  b {{ bkp_Meta := (bkp_Meta b) {{ DeletionTimestamp := Some 0%Z }} }}.

(** A request to delete: the object is marked, and goes when nothing holds it. *)
Definition g_delete (n : string) (s : gsys) : result unit * gsys :=
  match g_api s !! n with
  | None => (Err (ErrAPI ReasonNotFound "not found"), s)
  | Some b => (Ok tt, if marked b then s else g_store (mark b) s)
  end.

(** The fields of a backup that stay: only the previous snapshot of the spec may be
    changed, and the mark is not taken back. *)
Definition later (b b' : ZFSBackup) : Prop :=
  bname b' = bname b ∧
  bkp_VolumeName (bkp_Spec b') = bkp_VolumeName (bkp_Spec b) ∧
  bkp_OwnerNodeID (bkp_Spec b') = bkp_OwnerNodeID (bkp_Spec b) ∧
  bkp_SnapName (bkp_Spec b') = bkp_SnapName (bkp_Spec b) ∧
  (marked b = true → marked b' = true).

(** client-go's informer: a change is an update of a cached object or a new one. *)
Definition g_deliver (d : delta) (s : gsys) : gsys :=
  match d with
  | Changed b =>
    s {{ g_cache := <[bname b := b]> (g_cache s) }}
      {{ g_todo := g_todo s ++ [match g_cache s !! bname b with
                                | Some old => NUpdate old b
                                | None => NAdd b
                                end] }}
  | Removed b =>
    s {{ g_cache := delete (bname b) (g_cache s) }} {{ g_todo := g_todo s ++ [NDelete b] }}
  end.

Section system.
Context `{!Globals}.

Definition g_handle (e : notice) : list (prog unit) :=
  match e with
  | NAdd b => handleBackupCreation (@DObj KBkp b)
  | NUpdate old new => handleBackupUpdate (@DObj KBkp old) (@DObj KBkp new)
  | NDelete b => handleBackupDeletion (@DObj KBkp b)
  end.

(** The answers to the commands of a goroutine. *)
Definition g_answer (c : cmd) (s : gsys) : resp c → gsys → Prop :=
  match c as c return resp c → gsys → Prop with
  | CBkpByIndex index key => λ r s',
      s' = s ∧ ∃ f items, indexers index = Some f ∧ r = Ok items ∧
        ∀ x, x ∈ items ↔ ∃ n b, g_cache s !! n = Some b ∧ x = StoredBackup b ∧ key ∈ f x
  | CClientset => λ r s',
      (r = Ok tt ∧ s' = s) ∨ (∃ e, r = Err e ∧ s' = s {{ g_failed := true }})
  | CDelete k _ n =>
    match k with
    | KBkp => λ r s',
        (r = (g_delete n s).1 ∧ s' = (g_delete n s).2) ∨
        (∃ e, r = Err e ∧ s' = s {{ g_failed := true }})
    | _ => λ _ _, False
    end
  | _ => λ _ _, False
  end.

(** One step of goroutine [i]: a command, or its end. *)
Definition thread_step (i : nat) (s s' : gsys) : Prop :=
  match g_threads s !! i with
  | Some (Vis c k) =>
    ∃ r s1, g_answer c s r s1 ∧ s' = s1 {{ g_threads := <[i := k r]> (g_threads s) }}
  | Some (Ret _) => s' = s {{ g_threads := delete i (g_threads s) }}
  | _ => False
  end.

Inductive gstep (s : gsys) : gsys → Prop :=
| g_create b :
    g_api s !! bname b = None → bname b ≠ "" → marked b = false →
    gstep s (g_store b s)
| g_update b b' :
    g_api s !! bname b = Some b → later b b' →
    gstep s (g_store b' s)
| g_client_delete n :
    gstep s (g_delete n s).2
| g_informer d ds :
    g_pend s = d :: ds →
    gstep s (g_deliver d s {{ g_pend := ds }})
| g_handler e es :
    g_todo s = e :: es →
    gstep s (s {{ g_todo := es }} {{ g_threads := g_threads s ++ g_handle e }})
| g_thread i s' :
    thread_step i s s' → gstep s s'.

Inductive greachable : gsys → Prop :=
| greach_init : greachable g_init
| greach_step s s' : greachable s → gstep s s' → greachable s'.

(** ** The invariant *)

(** The informer's cache becomes the API server's state by the pending changes. *)
Fixpoint sync (m : gmap string ZFSBackup) (ds : list delta) (api : gmap string ZFSBackup) : Prop :=
  match ds with
  | [] => m = api
  | Changed b :: ds =>
    bname b ≠ "" ∧ (∀ old, m !! bname b = Some old → later old b) ∧
    sync (<[bname b := b]> m) ds api
  | Removed b :: ds =>
    (∃ old, m !! bname b = Some old ∧ later old b) ∧ sync (delete (bname b) m) ds api
  end.

(** The pending changes tell that the object of this name is being deleted or gone. *)
Definition going (n : string) (ds : list delta) : Prop :=
  ∃ d, d ∈ ds ∧ match d with
                | Removed b => bname b = n
                | Changed b => bname b = n ∧ marked b = true
                end.

Definition has_parent (m : gmap string ZFSBackup) (key : string) : Prop :=
  ∃ p a, m !! p = Some a ∧ backup_key a = key.

(** An event that will have the backup [n] with the parent [key] looked at. *)
Definition announces (n key : string) (e : notice) : Prop :=
  match e with
  | NAdd b => bname b = n ∧ incremental b ∧ parent_key b = key
  | NUpdate old b => bname b = n ∧ incremental b ∧ parent_key b = key ∧
                     bkp_PrevSnapName (bkp_Spec old) ≠ bkp_PrevSnapName (bkp_Spec b)
  | NDelete a => backup_key a = key
  end.

(** The rest of a deletion when the client is at hand. *)
Definition delete_ready (b : ZFSBackup) (bs : list ZFSBackup) : prog unit :=
  _ ← attempt (r ← call (CDelete KBkp OpenEBSNamespace (bname b)); lift r);
  delete_backups bs.

Definition named_all (bs : list ZFSBackup) : Prop := Forall (λ b, bname b ≠ "") bs.

(** A goroutine that will look for the parent, or delete the backup. *)
Inductive handles (n key : string) : prog unit → Prop :=
| h_check b : bname b = n → incremental b → parent_key b = key →
    handles n key (deleteOrphanedIncBackup b)
| h_children a : backup_key a = key →
    handles n key (deleteBackupsReferencingDeletedBackup a)
| h_delete bs : named_all bs → n ∈ map (λ b, bname b) bs →
    handles n key (delete_backups bs)
| h_ready b bs : named_all bs → n ∈ map (λ b, bname b) (b :: bs) →
    handles n key (delete_ready b bs).

(** An incremental backup has its parent, or is going, or will be seen to. *)
Inductive covered (s : gsys) (n : string) (b : ZFSBackup) : Prop :=
| c_marked : marked b = true → covered s n b
| c_going : going n (g_pend s) → covered s n b
| c_parent : has_parent (g_cache s) (parent_key b) → covered s n b
| c_todo e : e ∈ g_todo s → announces n (parent_key b) e → covered s n b
| c_thread t : t ∈ g_threads s → handles n (parent_key b) t → covered s n b.

Definition keyed (m : gmap string ZFSBackup) : Prop :=
  ∀ n b, m !! n = Some b → bname b = n ∧ n ≠ "".

Record ginv (s : gsys) : Prop := mkGinv {
  gi_named : keyed (g_cache s);
  gi_sync : sync (g_cache s) (g_pend s) (g_api s);
  gi_covered : g_failed s = false →
    ∀ n b, g_cache s !! n = Some b → incremental b → covered s n b;
}.

(** *** Changes of the API server *)

Lemma later_key b b' : later b b' → backup_key b' = backup_key b.
Proof. intros (_ & Hv & Hn & Hs & _). unfold backup_key. by rewrite Hv, Hn, Hs. Qed.

Lemma later_parent b b' :
  later b b' → bkp_PrevSnapName (bkp_Spec b) = bkp_PrevSnapName (bkp_Spec b') →
  parent_key b' = parent_key b.
Proof. intros (_ & Hv & Hn & _ & _) Hp. unfold parent_key. by rewrite Hv, Hn, Hp. Qed.

Lemma sync_changed m ds api b :
  sync m ds api → bname b ≠ "" → (∀ old, api !! bname b = Some old → later old b) →
  sync m (ds ++ [Changed b]) (<[bname b := b]> api).
Proof.
  revert m. induction ds as [|[b'|b'] ds IH]; intros m; simpl.
  - by intros ->.
  - intros (Hn & Hl & Hs) Hb Hlater. eauto.
  - intros (Ho & Hs) Hb Hlater. eauto.
Qed.

Lemma sync_removed m ds api b old :
  sync m ds api → api !! bname b = Some old → later old b →
  sync m (ds ++ [Removed b]) (delete (bname b) api).
Proof.
  revert m. induction ds as [|[b'|b'] ds IH]; intros m; simpl.
  - intros ->. eauto.
  - intros (Hn & Hl & Hs) Hb Hlater. eauto.
  - intros (Ho & Hs) Hb Hlater. eauto.
Qed.

Lemma going_app n ds ds' : going n ds → going n (ds ++ ds').
Proof. intros (d & Hd & Hm). exists d. split; [|done]. apply elem_of_app. by left. Qed.

(** What is marked or gone at the API server is so in the cache, or on its way. *)
Lemma sync_going m ds api n b :
  sync m ds api → m !! n = Some b → (∀ b', api !! n = Some b' → marked b' = true) →
  marked b = true ∨ going n ds.
Proof.
  revert m b. induction ds as [|d ds IH]; intros m b Hs Hm Hend.
  { simpl in Hs. subst. left. by apply Hend. }
  assert (∀ b0, marked b0 = true ∨ going n ds → bname b0 = n → d = Changed b0 → going n (d :: ds)) as Hch.
  { intros b0 [Hb|(d' & Hd & Hd')] Hn ->; [exists (Changed b0)|exists d']; (split; [|done]);
      [by left|by right]. }
  destruct d as [b1|b1]; simpl in Hs.
  - destruct Hs as (_ & _ & Hs). destruct (decide (bname b1 = n)) as [Hn|Hn].
    + right. apply (Hch b1); [|done..]. apply (IH _ _ Hs); [|done]. by rewrite Hn, lookup_insert_eq.
    + destruct (IH _ b Hs) as [?|(d' & ? & ?)]; [by rewrite lookup_insert_ne|done|by left|].
      right. exists d'. split; [by right|done].
  - destruct Hs as (_ & Hs). destruct (decide (bname b1 = n)) as [Hn|Hn].
    + right. exists (Removed b1). split; [by left|done].
    + destruct (IH _ b Hs) as [?|(d' & ? & ?)]; [by rewrite lookup_delete_ne|done|by left|].
      right. exists d'. split; [by right|done].
Qed.

Lemma covered_pend s s' n b ds :
  covered s n b → g_cache s' = g_cache s → g_pend s' = g_pend s ++ ds → g_todo s' = g_todo s →
  g_threads s' = g_threads s → covered s' n b.
Proof.
  intros Hc Hca Hp Ht Hth. destruct Hc as [| | |e|t].
  - by apply c_marked.
  - apply c_going. rewrite Hp. by apply going_app.
  - apply c_parent. by rewrite Hca.
  - eapply (c_todo _ _ _ e); [by rewrite Ht|done].
  - eapply (c_thread _ _ _ t); [by rewrite Hth|done].
Qed.

Lemma ginv_store b s :
  ginv s → bname b ≠ "" → (∀ old, g_api s !! bname b = Some old → later old b) →
  (marked b = true → is_Some (g_api s !! bname b)) → ginv (g_store b s).
Proof.
  intros [Hn Hs Hc] Hb Hl Hm. unfold g_store. destruct (marked b && _) eqn:Hgo; split; simpl; try done.
  - apply andb_true_iff in Hgo as [[old Ho]%Hm _]. eapply sync_removed; eauto.
  - intros Hf n b' Hb' Hi. eapply covered_pend; [by apply Hc|done..].
  - by apply sync_changed.
  - intros Hf n b' Hb' Hi. eapply covered_pend; [by apply Hc|done..].
Qed.

Lemma sync_named m ds api : keyed m → sync m ds api → keyed api.
Proof.
  revert m. induction ds as [|[b|b] ds IH]; intros m Hm; simpl.
  - by intros <-.
  - intros (Hb & _ & Hs). eapply IH, Hs. intros n b' [[<- <-]|[_ H']]%lookup_insert_Some; eauto.
  - intros (_ & Hs). eapply IH, Hs. intros n b' [_ H']%lookup_delete_Some. eauto.
Qed.

Lemma bname_mark b : bname (mark b) = bname b.
Proof. by destruct b as [[] ? ?]. Qed.

Lemma later_mark b : later b (mark b).
Proof. by destruct b as [[] ? ?]. Qed.

Lemma ginv_delete n s : ginv s → ginv (g_delete n s).2.
Proof.
  intros Hi. unfold g_delete. destruct (g_api s !! n) as [b|] eqn:Hb; [|done]. simpl.
  destruct (marked b); [done|].
  destruct (sync_named _ _ _ (gi_named _ Hi) (gi_sync _ Hi) n b Hb) as [Hn Hne].
  apply ginv_store; rewrite ?bname_mark, ?Hn, ?Hb; [done..| |].
  - intros old [= <-]. apply later_mark.
  - by eexists.
Qed.

(** After a request to delete, the object is marked or gone, or on its way there. *)
Lemma delete_going n s b :
  ginv s → g_cache s !! n = Some b → marked b = true ∨ going n (g_pend (g_delete n s).2).
Proof.
  intros Hi Hb. unfold g_delete. destruct (g_api s !! n) as [b'|] eqn:Ha; simpl.
  2: { apply (sync_going _ _ _ n b (gi_sync _ Hi) Hb). intros; by simplify_eq. }
  destruct (marked b') eqn:Hm.
  { apply (sync_going _ _ _ n b (gi_sync _ Hi) Hb). intros; by simplify_eq. }
  right. destruct (sync_named _ _ _ (gi_named _ Hi) (gi_sync _ Hi) n b' Ha) as [Hn _].
  unfold g_store. destruct (marked (mark b') && _); simpl.
  - exists (Removed (mark b')). rewrite bname_mark. split; [apply elem_of_app; right; by left|done].
  - exists (Changed (mark b')). rewrite bname_mark. split; [apply elem_of_app; right; by left|].
    split; [done|by destruct b' as [[] ? ?]].
Qed.

(** *** Deliveries and handlers *)

Lemma going_tail n d ds :
  going n (d :: ds) → going n ds ∨ match d with
                                   | Removed b => bname b = n
                                   | Changed b => bname b = n ∧ marked b = true
                                   end.
Proof. intros (d' & [->|Hd]%elem_of_cons & Hm); [by right|left; by exists d']. Qed.

Lemma has_parent_insert m b key :
  (∀ old, m !! bname b = Some old → later old b) → has_parent m key →
  has_parent (<[bname b := b]> m) key.
Proof.
  intros Hl (p & a & Ha & Hk). destruct (decide (bname b = p)) as [<-|Hne].
  - exists (bname b), b. rewrite lookup_insert_eq. split; [done|].
    rewrite (later_key a b); auto.
  - exists p, a. by rewrite lookup_insert_ne.
Qed.

(** A backup whose parent key is as before stays covered when a change arrives. *)
Lemma covered_changed s b ds n b0 b1 :
  g_pend s = Changed b :: ds → (∀ old, g_cache s !! bname b = Some old → later old b) →
  covered s n b0 → parent_key b1 = parent_key b0 →
  (marked b0 = true ∨ (bname b = n ∧ marked b = true) → marked b1 = true) →
  covered (g_deliver (Changed b) s {{ g_pend := ds }}) n b1.
Proof.
  intros Hp Hl Hc Hk Hm. destruct Hc as [Hmk|Hg|Hpar|e He Ha|t Ht Hh].
  - apply c_marked. auto.
  - rewrite Hp in Hg. apply going_tail in Hg as [Hg|Hg]; [by apply c_going|apply c_marked; auto].
  - apply c_parent. rewrite Hk. by apply has_parent_insert.
  - apply (c_todo _ _ _ e); [apply elem_of_app; by left|by rewrite Hk].
  - apply (c_thread _ _ _ t); [done|by rewrite Hk].
Qed.

Lemma todo_changed s b ds e :
  e = match g_cache s !! bname b with Some old => NUpdate old b | None => NAdd b end →
  e ∈ g_todo (g_deliver (Changed b) s {{ g_pend := ds }}).
Proof. intros ->. apply elem_of_app. right. by left. Qed.

Lemma ginv_changed s b ds :
  ginv s → g_pend s = Changed b :: ds → ginv (g_deliver (Changed b) s {{ g_pend := ds }}).
Proof.
  intros [Hn Hs Hc] Hp. rewrite Hp in Hs. destruct Hs as (Hb & Hl & Hs). split; [|exact Hs|].
  { intros n b'. cbn. intros [[<- <-]|[_ H']]%lookup_insert_Some; eauto. }
  intros Hf n b' Hb'. cbn in Hb'. revert Hb'. intros [[<- <-]|[Hne Hb']]%lookup_insert_Some Hi.
  2: { eapply covered_changed; eauto. intros [?|[? _]]; [done|]. by subst. }
  destruct (g_cache s !! bname b) as [old|] eqn:Ho.
  - destruct (decide (bkp_PrevSnapName (bkp_Spec old) = bkp_PrevSnapName (bkp_Spec b))) as [He|He].
    + assert (later old b) as Hlo by auto. eapply (covered_changed s b ds _ old b); [done|by rewrite Ho|..].
      * apply Hc; [done..|]. unfold incremental in *. congruence.
      * by apply later_parent.
      * destruct Hlo as (_ & _ & _ & _ & Hmk). naive_solver.
    + eapply (c_todo _ _ _ (NUpdate old b)); [|done]. apply todo_changed. by rewrite Ho.
  - eapply (c_todo _ _ _ (NAdd b)); [|done]. apply todo_changed. by rewrite Ho.
Qed.

Lemma ginv_removed s b ds :
  ginv s → g_pend s = Removed b :: ds → ginv (g_deliver (Removed b) s {{ g_pend := ds }}).
Proof.
  intros [Hn Hs Hc] Hp. rewrite Hp in Hs. destruct Hs as ((old & Ho & Hl) & Hs). split; [|exact Hs|].
  { intros n b'. cbn. intros [_ H']%lookup_delete_Some. eauto. }
  intros Hf n b' Hb' Hi. cbn in Hb'. apply lookup_delete_Some in Hb' as [Hne Hb'].
  destruct (Hc Hf n b' Hb' Hi) as [Hmk|Hg|(p & a & Ha & Hk)|e He Han|t Ht Hh].
  - by apply c_marked.
  - rewrite Hp in Hg. apply going_tail in Hg as [Hg|Hg]; [by apply c_going|done].
  - destruct (decide (bname b = p)) as [<-|Hnp].
    + eapply (c_todo _ _ _ (NDelete b)); [apply elem_of_app; right; by left|].
      simpl. simplify_eq. rewrite <- Hk. by apply later_key.
    + apply c_parent. exists p, a. simpl. by rewrite lookup_delete_ne.
  - apply (c_todo _ _ _ e); [apply elem_of_app; by left|done].
  - by apply (c_thread _ _ _ t).
Qed.

Lemma announces_handled n key e : announces n key e → ∃ t, t ∈ g_handle e ∧ handles n key t.
Proof.
  destruct e as [b|old b|b]; simpl.
  - intros (Hn & Hi & Hk). exists (deleteOrphanedIncBackup b).
    rewrite (proj2 (String.eqb_neq _ _) Hi). split; [by left|by constructor].
  - intros (Hn & Hi & Hk & Hd). exists (deleteOrphanedIncBackup b).
    rewrite (proj2 (String.eqb_neq _ _) Hi), (proj2 (String.eqb_neq _ _) Hd).
    split; [by left|by constructor].
  - intros Hk. exists (deleteBackupsReferencingDeletedBackup b). split; [by left|by constructor].
Qed.

Lemma ginv_handler s e es :
  ginv s → g_todo s = e :: es →
  ginv (s {{ g_todo := es }} {{ g_threads := g_threads s ++ g_handle e }}).
Proof.
  intros [Hn Hs Hc] He. split; [done..|]. intros Hf n b Hb Hi.
  destruct (Hc Hf n b Hb Hi) as [Hmk|Hg|Hpar|e' He' Han|t Ht Hh].
  - by apply c_marked.
  - by apply c_going.
  - by apply c_parent.
  - rewrite He in He'. apply elem_of_cons in He' as [->|He'].
    + apply announces_handled in Han as (t & Ht & Hh).
      apply (c_thread _ _ _ t); [apply elem_of_app; by right|done].
    + by apply (c_todo _ _ _ e').
  - apply (c_thread _ _ _ t); [apply elem_of_app; by left|done].
Qed.

(** *** Goroutines *)

(** The answers change the pending deletions only. *)
Lemma answer_frame c s r s' :
  ginv s → g_answer c s r s' →
  g_cache s' = g_cache s ∧ g_todo s' = g_todo s ∧ g_threads s' = g_threads s ∧
  (∃ ds, g_pend s' = g_pend s ++ ds) ∧ sync (g_cache s') (g_pend s') (g_api s') ∧
  (g_failed s' = false → g_failed s = false).
Proof.
  intros Hi Ha. assert (∃ ds, g_pend s = g_pend s ++ ds) as Hnil by (exists []; by rewrite app_nil_r).
  destruct c; try done; simpl in Ha.
  - destruct Ha as [[_ ->]|(e & _ & ->)]; split_and!; try done; apply Hi.
  - destruct k; try done. destruct Ha as [[_ ->]|(e & _ & ->)]; [|split_and!; try done; apply Hi].
    pose proof (gi_sync _ (ginv_delete name s Hi)) as Hs. revert Hs. unfold g_delete, g_store.
    destruct (g_api s !! name) as [b|]; cbn [snd]; [|done]. destruct (marked b); [done|].
    destruct (marked (mark b) && _); intros Hs; split_and!; try done; by eexists.
  - destruct Ha as [-> _]. split_and!; try done. apply Hi.
Qed.

Lemma parse_backups_ok i items bs :
  items = map StoredBackup bs → parse_backups i items = Ok bs.
Proof.
  intros ->. revert i. induction bs as [|b bs IH]; intros i; simpl; [done|]. by rewrite IH.
Qed.

(** What the indexer answers is the list of the cached backups with the key. *)
Lemma indexed_backups (m : gmap string ZFSBackup) (f : stored_backup → list string) key items :
  keyed m →
  (∀ x, x ∈ items ↔ ∃ n b, m !! n = Some b ∧ x = StoredBackup b ∧ key ∈ f x) →
  ∃ bs, items = map StoredBackup bs ∧ named_all bs ∧
        ∀ n b, m !! n = Some b → key ∈ f (StoredBackup b) → b ∈ bs.
Proof.
  intros Hm Hit.
  assert (∃ bs, items = map StoredBackup bs) as [bs Hbs].
  { assert (∀ x, x ∈ items → ∃ b, x = StoredBackup b) as Hall by naive_solver.
    clear Hit. induction items as [|x items IH]; [by exists []|].
    destruct (Hall x) as [b ->]; [by left|].
    destruct IH as [bs ->]; [intros; apply Hall; by right|]. by exists (b :: bs). }
  exists bs. subst items.
  assert (∀ b, StoredBackup b ∈ map StoredBackup bs ↔ b ∈ bs) as Hin.
  { intros b. rewrite !list_elem_of_In, in_map_iff. naive_solver. }
  split_and!; [done| |].
  - apply Forall_forall. intros b (n & b' & Hb & [= <-] & _)%Hin%Hit.
    destruct (Hm _ _ Hb). congruence.
  - intros n b Hb Hk. apply Hin, Hit. eauto.
Qed.

(** A goroutine that sees to a backup does so after its next command, unless the backup
    turns out to have a parent or is deleted. *)
Lemma handles_step s n b t :
  ginv s → g_cache s !! n = Some b → incremental b → handles n (parent_key b) t →
  match t with
  | Vis c k => ∀ r s', g_answer c s r s' → g_failed s' = false →
      handles n (parent_key b) (k r) ∨ marked b = true ∨ going n (g_pend s') ∨
      has_parent (g_cache s') (parent_key b)
  | _ => False
  end.
Proof.
  intros Hi Hb Hinc Hh. destruct (gi_named _ Hi n b Hb) as [Hn Hne].
  destruct Hh as [b0 Hn0 Hi0 Hk0|a Hka|bs Hbs Hin|b0 bs Hbs Hin].
  - unfold deleteOrphanedIncBackup. rewrite (proj2 (String.eqb_neq _ _) Hi0). cbn.
    intros r s' (-> & f & items & [= <-] & -> & Hit) _.
    destruct items as [|x items].
    + left. apply (h_delete n (parent_key b) [b0]); [constructor; [congruence|constructor]|].
      apply elem_of_cons. by left.
    + do 3 right. destruct (proj1 (Hit x)) as (p & a & Ha & -> & Hkey); [by left|].
      exists p, a. split; [done|]. apply list_elem_of_singleton in Hkey. rewrite <- Hk0. done.
  - cbn. intros r s' (-> & f & items & [= <-] & -> & Hit) _. left.
    destruct (indexed_backups _ _ _ _ (gi_named _ Hi) Hit) as (bs & -> & Hbs & Hall).
    assert (b ∈ bs) as Hin.
    { apply (Hall n b Hb). simpl. rewrite (proj2 (String.eqb_neq _ _) Hinc).
      apply elem_of_cons. by left. }
    destruct bs as [|b1 bs]; [by apply elem_of_nil in Hin|]. cbn [map].
    change (StoredBackup b1 :: map StoredBackup bs) with (map StoredBackup (b1 :: bs)).
    unfold parseBackupsFromIndexResults. rewrite (parse_backups_ok 0 _ (b1 :: bs) eq_refl).
    apply h_delete; [done|]. rewrite list_elem_of_In, in_map_iff. exists b.
    by rewrite <- list_elem_of_In.
  - destruct bs as [|b0 bs]; [by apply elem_of_nil in Hin|]. apply Forall_cons in Hbs as [Hb0 Hbs'].
    cbn [delete_backups]. unfold Kubeclient_Delete. rewrite (proj2 (String.eqb_neq _ _) Hb0). cbn.
    intros r s' [[-> ->]|(e & -> & ->)] Hf; [|done]. left. by apply (h_ready n _ b0 bs).
  - cbn. intros r s' [[-> ->]|(e & -> & ->)] Hf; [|done].
    apply elem_of_cons in Hin as [Hin|Hin].
    + right. rewrite <- Hin. destruct (delete_going n s b Hi Hb) as [?|?]; auto.
    + left. destruct (g_delete _ s).1; by apply h_delete.
Qed.

Lemma elem_of_delete {A} (l : list A) i j x : l !! j = Some x → j ≠ i → x ∈ delete i l.
Proof.
  intros Hj Hne. destruct (decide (j < i)%nat) as [Hlt|Hge].
  - apply (list_elem_of_lookup_2 _ j). by rewrite list_lookup_delete_lt.
  - apply (list_elem_of_lookup_2 _ (j - 1)). rewrite list_lookup_delete_ge by lia.
    by replace (S (j - 1)) with j by lia.
Qed.

Lemma ginv_thread i s s' : ginv s → thread_step i s s' → ginv s'.
Proof.
  intros Hi. unfold thread_step. destruct (g_threads s !! i) as [t|] eqn:Ht; [|done].
  destruct t as [[]| | | |c k]; try done.
  - intros ->. destruct Hi as [Hn Hs Hc]. split; [done..|]. intros Hf n b Hb Hinc.
    destruct (Hc Hf n b Hb Hinc) as [| | |e|t Hin Hh];
      [by apply c_marked|by apply c_going|by apply c_parent|by apply (c_todo _ _ _ e)|].
    apply (c_thread _ _ _ t); [|done]. apply list_elem_of_lookup in Hin as [j Hj].
    destruct (decide (j = i)) as [->|Hne].
    + simplify_eq. by apply (handles_step s n b (Ret tt)) in Hh.
    + by apply (elem_of_delete _ i j).
  - intros (r & s1 & Ha & ->).
    destruct (answer_frame c s r s1 Hi Ha) as (Hca & Htd & Hth & [ds Hp] & Hs & Hf).
    split; [change (keyed (g_cache s1)); rewrite Hca; apply Hi|done|]. intros Hf1 n b Hb Hinc.
    change (g_cache s1 !! n = Some b) in Hb. rewrite Hca in Hb.
    destruct (gi_covered _ Hi (Hf Hf1) n b Hb Hinc) as [Hm|Hg|Hpar|e He Han|t Hin Hh].
    + by apply c_marked.
    + apply c_going. change (going n (g_pend s1)). rewrite Hp. by apply going_app.
    + apply c_parent. change (has_parent (g_cache s1) (parent_key b)). by rewrite Hca.
    + apply (c_todo _ _ _ e); [|done]. change (e ∈ g_todo s1). by rewrite Htd.
    + apply list_elem_of_lookup in Hin as [j Hj]. destruct (decide (i = j)) as [<-|Hne].
      * simplify_eq. destruct (handles_step s n b _ Hi Hb Hinc Hh r s1 Ha Hf1) as [Hk|[Hk|[Hk|Hk]]];
          [|by apply c_marked|by apply c_going|by apply c_parent].
        apply (c_thread _ _ _ (k r)); [|done]. apply list_elem_of_insert.
        by eapply lookup_lt_Some.
      * apply (c_thread _ _ _ t); [|done]. apply (list_elem_of_lookup_2 _ j).
        change (<[i := k r]> (g_threads s) !! j = Some t). by rewrite list_lookup_insert_ne.
Qed.

Lemma ginv_step s s' : ginv s → gstep s s' → ginv s'.
Proof.
  intros Hi. destruct 1 as [b Hb Hne Hm|b b' Hb Hl|n|[b|b] ds Hp|e es He|i s' Hs].
  - apply ginv_store; [done..| |]; [by rewrite Hb|by rewrite Hm].
  - destruct (sync_named _ _ _ (gi_named _ Hi) (gi_sync _ Hi) _ b Hb) as [_ Hne].
    destruct Hl as [Hn Hl]. apply ginv_store; rewrite ?Hn, ?Hb; try done.
    intros old [= <-]. by split.
  - by apply ginv_delete.
  - by apply ginv_changed.
  - by apply ginv_removed.
  - by apply ginv_handler.
  - by eapply ginv_thread.
Qed.

Lemma greachable_inv s : greachable s → ginv s.
Proof.
  induction 1 as [|s s' _ IH Hs]; [|by eapply ginv_step].
  by split; [done|done|]; intros _ n b Hb.
Qed.

(** Nothing is left to be done. *)
Definition quiet (s : gsys) : Prop := g_pend s = [] ∧ g_todo s = [] ∧ g_threads s = [].

(** Volumes and snapshots are named without dots. *)
Definition well_named (b : ZFSBackup) : Prop :=
  has_char "." (bkp_VolumeName (bkp_Spec b)) = false ∧
  has_char "." (bkp_SnapName (bkp_Spec b)) = false ∧
  has_char "." (bkp_PrevSnapName (bkp_Spec b)) = false.

End system.

(** ** Runs *)

Section runs.
Context `{!Globals}.

Definition run_backup (name snap prev : string) : ZFSBackup :=
  {| bkp_Meta := emptyMeta {{ Name := name }};
     bkp_Spec := mkZFSBackupSpec "pvc-1" "node-1" snap prev "10.0.0.1:9000";
     bkp_Status := BKPZFSStatusDone |}.

Definition full := run_backup "b-1" "s-1" "".
Definition incr := run_backup "b-2" "s-2" "s-1".

(** A full backup and one on top of it are created and delivered. *)
Definition two_created : gsys := g_store incr (g_store full g_init).

Definition two_cached : gsys :=
  g_deliver (Changed incr) (g_deliver (Changed full) two_created {{ g_pend := [Changed incr] }})
    {{ g_pend := [] }}.

Lemma two_created_reachable : greachable two_created.
Proof.
  eapply greach_step; [eapply greach_step; [apply greach_init|]|].
  - apply (g_create g_init full); done.
  - apply (g_create (g_store full g_init) incr); done.
Qed.

Lemma two_cached_reachable : greachable two_cached.
Proof.
  eapply greach_step; [eapply greach_step; [apply two_created_reachable|]|].
  - by apply (g_informer two_created (Changed full) [Changed incr]).
  - by apply (g_informer _ (Changed incr) []).
Qed.

(** Calls of handlers and steps of the first goroutine. *)
Lemma reach_handler s e es :
  greachable s → g_todo s = e :: es →
  greachable (s {{ g_todo := es }} {{ g_threads := g_threads s ++ g_handle e }}).
Proof. intros Hs He. eapply greach_step; [exact Hs|]. by apply g_handler. Qed.

Lemma reach_command s c (k : resp c → prog unit) r s' :
  greachable s → g_threads s = [Vis c k] → g_answer c s r s' →
  greachable (s' {{ g_threads := [k r] }}).
Proof.
  intros Hs Ht Ha. eapply greach_step; [exact Hs|]. apply (g_thread s 0).
  unfold thread_step. rewrite Ht. simpl. by exists r, s'.
Qed.

Lemma reach_end s :
  greachable s → g_threads s = [Ret tt] → greachable (s {{ g_threads := [] }}).
Proof.
  intros Hs Ht. eapply greach_step; [exact Hs|]. apply (g_thread s 0).
  unfold thread_step. by rewrite Ht.
Qed.

(** The answer of an index, for a cache with one match. *)
Lemma answer_index index f key s n b :
  indexers index = Some f → g_cache s !! n = Some b → key ∈ f (StoredBackup b) →
  (∀ n' b', g_cache s !! n' = Some b' → key ∈ f (StoredBackup b') → b' = b) →
  g_answer (CBkpByIndex index key) s (Ok [StoredBackup b]) s.
Proof.
  intros Hf Hb Hk Hone. split; [done|]. exists f, [StoredBackup b]. split_and!; [done..|].
  intros x. rewrite list_elem_of_singleton. split; [intros ->; eauto|].
  intros (n' & b' & Hb' & -> & Hk'). f_equal. eauto.
Qed.

Definition two_settled : gsys := two_cached {{ g_todo := [] }}.

Lemma two_settled_reachable : greachable two_settled.
Proof.
  pose proof (reach_handler two_cached (NAdd full) [NAdd incr] two_cached_reachable eq_refl) as H1.
  pose proof (reach_handler _ (NAdd incr) [] H1 eq_refl) as H2. clear H1.
  set (s2 := two_cached {{ g_todo := [NAdd incr] }} {{ g_threads := _ }} {{ g_todo := [] }}
               {{ g_threads := _ }}) in H2.
  refine (reach_end _ (reach_command s2 (CBkpByIndex BackupSnapshotIndex (parent_key incr)) _
                        (Ok [StoredBackup full]) s2 H2 eq_refl _) eq_refl).
  apply (answer_index _ BackupSnapshotIndexFunc _ s2 "b-1" full); [done|done|by left|].
  intros n' b'. cbn. rewrite !lookup_insert_Some, lookup_empty.
  intros [[_ <-]|[_ [[_ <-]|[_ [=]]]]] Hk; [|done].
  apply list_elem_of_singleton in Hk. by vm_compute in Hk.
Qed.

(** The full backup is deleted by a client, and the collector's request to delete the
    one on top of it fails. *)
Definition full_gone : gsys :=
  g_deliver (Removed (mark full)) (g_delete "b-1" two_settled).2 {{ g_pend := [] }}.

Lemma full_gone_reachable : greachable full_gone.
Proof.
  eapply greach_step; [eapply greach_step; [apply two_settled_reachable|]|].
  - apply (g_client_delete two_settled "b-1").
  - by apply (g_informer _ (Removed (mark full)) []).
Qed.

(** A request of the collector that fails is logged and not made again: the backup it
    was for stays, with nothing left to be done, though it builds on none. *)
Theorem failed_collection_leaves_orphan :
  ∃ s, greachable s ∧ quiet s ∧ g_api s !! "b-2" = Some incr ∧ incremental incr ∧
       marked incr = false ∧ ¬ has_parent (g_api s) (parent_key incr).
Proof.
  pose proof (reach_handler full_gone _ [] full_gone_reachable eq_refl) as H1.
  set (s1 := full_gone {{ g_todo := [] }} {{ g_threads := _ }}) in H1.
  assert (greachable (s1 {{ g_threads := [delete_backups [incr]] }})) as H2.
  { refine (reach_command s1 (CBkpByIndex BackupPreviousSnapshotIndex (backup_key full)) _
              (Ok [StoredBackup incr]) s1 H1 eq_refl _).
    apply (answer_index _ BackupPreviousSnapshotIndexFunc _ s1 "b-2" incr); [done|done|by left|].
    intros n' b' Hb' _. assert (g_cache s1 = {["b-2" := incr]}) as Hc by (by vm_compute).
    rewrite Hc in Hb'. by apply lookup_singleton_Some in Hb' as [_ <-]. }
  pose proof (reach_command _ CClientset _ (Err (ErrText "timeout")) _ H2 eq_refl
                (or_intror (ex_intro _ (ErrText "timeout") (conj eq_refl eq_refl)))) as H3.
  apply reach_end in H3; [|done]. eexists. split; [exact H3|].
  split_and!; try done. intros (p & a & Ha & Hk).
  assert (g_api s1 = {["b-2" := incr]}) as Hc by (by vm_compute).
  change (g_api s1 !! p = Some a) in Ha. rewrite Hc in Ha.
  apply lookup_singleton_Some in Ha as [_ <-]. by vm_compute in Hk.
Qed.

Lemma two_settled_named n b : g_api two_settled !! n = Some b → well_named b.
Proof.
  change ((<["b-2" := incr]> (<["b-1" := full]> ∅) : gmap string ZFSBackup) !! n = Some b → well_named b).
  rewrite !lookup_insert_Some, lookup_empty. by intros [[_ <-]|[_ [[_ <-]|[_ [=]]]]].
Qed.
End runs.
