(* ===== verification/Server.v ===== *)
(** * Settings, version, identity and endpoint (pkg/config, pkg/version; pkg/driver: identity.go, grpc.go)

    The settings of the process, its version, the identity service, and the endpoint the
    services are served on.  The process itself is the subject of Process. *)

From S2P Require Import Prelude GoStr GoErr Api Csi Effects Kube ZfsArgs Builders VolumeOps ZfsOps Mount.

Record Config := mkConfig {
  cfg_DriverName : string;
  cfg_PluginType : string;
  cfg_Version : string;
  cfg_Endpoint : string;
  cfg_Nodename : string;
  cfg_DefaultFormatOptions : list string;
}.

Definition Default : Config := mkConfig "" "" "" "" "" [].

(** ** Version *)

(** The variables the compiler fills in. *)
Class BuildInfo := {
  GitCommit : string;
  Version : string;
  VersionMeta : string;
}.

Section version.
Context `{!BuildInfo}.

Definition versionFile := "/src/github.com/openebs/zfs-localpv/VERSION".
Definition buildMetaFile := "/src/github.com/openebs/zfs-localpv/BUILDMETA".

(** A file below GOPATH; [filepath.Join] of one element cleans it, and leaves an empty
    one empty. *)
Definition repo_file (file : string) : prog (result string) :=
  gopath ← call (CGetenv "GOPATH");
  call (CReadFile (Clean (Clean (gopath +:+ file)))).

Definition version_Get : prog string :=
  if negb (Version =? "") then Ret Version else
  r ← repo_file versionFile;
  match r with Err _ => Ret "" | Ok text => Ret (TrimSpace text) end.

Definition Current : prog string := version_Get.

Definition GetBuildMeta : prog string :=
  if negb (VersionMeta =? "") then Ret ("-" +:+ VersionMeta) else
  r ← repo_file buildMetaFile;
  match r with Err _ => Ret "" | Ok text => Ret ("-" +:+ TrimSpace text) end.

Definition GetGitCommit : prog string :=
  if negb (GitCommit =? "") then Ret GitCommit else
  po ← call (CExec "git" ["rev-parse"; "--verify"; "HEAD"]);
  match po_err po with Some _ => Ret "" | None => Ret (TrimSpace (po_out po)) end.

(** [s[0:7]] *)
Definition short_commit (s : string) : prog string :=
  if (slen s <? 7)%Z then Crash "slice bounds out of range" else Ret (take_str 7 s).

Definition Verbose : prog string :=
  v ← version_Get; commit ← GetGitCommit; short ← short_commit commit;
  Ret (Join [v; short] "-").

Definition GetVersionDetails : prog string :=
  v ← version_Get; commit ← GetGitCommit; short ← short_commit commit;
  Ret ("zfs-" +:+ Join [v; short] "-").

(** ** Identity *)

Record GetPluginInfoResponse := mkPluginInfo { pi_Name : string; pi_VendorVersion : string }.

Definition GetPluginInfo (config : Config) : prog GetPluginInfoResponse :=
  if cfg_DriverName config =? "" then Throw (ErrStatus Unavailable "missing driver name") else
  if cfg_Version config =? "" then Throw (ErrStatus Unavailable "missing driver version") else
  v ← Current;
  Ret (mkPluginInfo (cfg_DriverName config) v).
End version.

Inductive PluginService := CONTROLLER_SERVICE | VOLUME_ACCESSIBILITY_CONSTRAINTS.

Definition GetPluginCapabilities : list PluginService :=
  [CONTROLLER_SERVICE; VOLUME_ACCESSIBILITY_CONSTRAINTS].

Definition Probe : prog unit := Ret tt.

(** ** Endpoint *)

(** [strings.SplitN(s, "://", 2)]: the text before the first separator and after it. *)
Fixpoint split_scheme (s : string) : option (string * string) :=
  if HasPrefix s "://" then Some ("", drop_str 3 s)
  else match s with
       | "" => None
       | String c s' =>
         match split_scheme s' with
         | Some (x, y) => Some (String c x, y)
         | None => None
         end
       end.

(** With the prefix there is a separator. *)
Definition parseEndpoint (ep : string) : result (string * string) :=
  let invalid := Err (Errorf "invalid endpoint: %v" [ep]) in
  if HasPrefix (ToLower ep) "unix://" || HasPrefix (ToLower ep) "tcp://" then
    match split_scheme ep with
    | Some (proto, addr) => if negb (addr =? "") then Ok (proto, addr) else invalid
    | None => invalid
    end
  else invalid.

Definition isInfotrmativeLog (info : string) : bool :=
  negb (existsb (Contains info) ["NodeGetVolumeStats"; "NodeGetCapabilities"]).

(** The interceptor of the requests: the answer, and the lines it logs.  The text of a
    message without its secrets is protosanitizer's. *)
Class Protosanitizer (M : Type) := StripSecrets : M → string.

Definition logGRPC {Req Resp} `{!Protosanitizer Req} `{!Protosanitizer Resp}
    (FullMethod : string) (handler : Req → prog Resp) (req : Req)
    : prog (result Resp * list string) :=
  let log := isInfotrmativeLog FullMethod in
  let before := if log then [Sprintf "GRPC call: %s requests %s" [FullMethod; StripSecrets req]]
                else [] in
  r ← attempt (handler req);
  let after := if log then
                 match r with
                 | Err err => [Sprintf "GRPC error: %v" [Error err]]
                 | Ok resp => [Sprintf "GRPC response: %s" [StripSecrets resp]]
                 end
               else [] in
  Ret (r, before ++ after).

(** The part of [serve] before the gRPC server: the listener's network and address. *)
Definition serve_listen (endpoint : string) : prog (string * string) :=
  match parseEndpoint endpoint with
  | Err err => Crash (Error err)
  | Ok (proto, addr) =>
    addr ← (if proto =? "unix" then
              let addr := "/" +:+ addr in
              r ← call (CRemove addr);
              match r with
              | Err err =>
                if negb (IsNotExist err) then
                  Crash (Sprintf "Failed to remove %s, error: %s" [addr; Error err])
                else Ret addr
              | Ok _ => Ret addr
              end
            else Ret addr);
    l ← call (CListen proto addr);
    match l with
    | Err err => Crash (Sprintf "Failed to listen: %v" [Error err])
    | Ok _ => Ret (proto, addr)
    end
  end.

(** ** The endpoint is read back *)

Lemma split_scheme_app p a :
  has_char ":" p = false → split_scheme (p +:+ "://" +:+ a) = Some (p, a).
Proof.
  induction p as [|c p IH]; [by destruct a|]. cbn [has_char]. intros [Hc Hp]%orb_false_iff.
  specialize (IH Hp). cbn [String.append] in *. set (r := p +:+ _) in *.
  cbn [split_scheme]. rewrite IH. cbn [HasPrefix].
  by rewrite (Ascii.eqb_sym ":" c), Hc.
Qed.

Lemma lower_prefix_nocolon s p : ToLower s = p → has_char ":" p = false → has_char ":" s = false.
Proof.
  revert p. induction s as [|c s IH]; intros p <-; [done|]. simpl.
  intros [Hc Hs]%orb_false_iff. rewrite (IH _ eq_refl Hs), orb_false_r.
  by destruct c as [[] [] [] [] [] [] [] []].
Qed.

Lemma lower_sep x c : c = ":"%char ∨ c = "/"%char → lower_char x = c → x = c.
Proof. by intros [->| ->]; destruct x as [[] [] [] [] [] [] [] []]. Qed.

(** A text whose lower-case form starts with a scheme is the scheme in some case, the
    separator and the rest. *)
Lemma lower_split s p t :
  ToLower s = p +:+ "://" +:+ t → ∃ p' a, s = p' +:+ "://" +:+ a ∧ ToLower p' = p ∧ ToLower a = t.
Proof.
  revert s. induction p as [|c p IH]; intros s; simpl.
  - destruct s as [|x [|y [|z s]]]; try done. simpl. intros [= Hx Hy Hz Ht].
    exists "", s. split_and!; try done.
    by rewrite (lower_sep x ":"), (lower_sep y "/"), (lower_sep z "/") by auto.
  - destruct s as [|x s]; [done|]. simpl. intros [= Hx Hs].
    destruct (IH s Hs) as (p' & a & -> & <- & <-). exists (String x p'), a. by rewrite <- Hx.
Qed.

Lemma ToLower_app s t : ToLower (s +:+ t) = ToLower s +:+ ToLower t.
Proof. induction s; simpl; congruence. Qed.

(** The endpoint is accepted exactly when it is a scheme, unix or tcp in any case, the
    separator and a nonempty address; these are read back as they are written. *)
Theorem parseEndpoint_spec ep p a :
  parseEndpoint ep = Ok (p, a) ↔
  ep = p +:+ "://" +:+ a ∧ a ≠ "" ∧ (ToLower p = "unix" ∨ ToLower p = "tcp").
Proof.
  assert (∀ q, q = "unix" ∨ q = "tcp" → HasPrefix (ToLower ep) (q +:+ "://") = true →
    ∃ p' a', ep = p' +:+ "://" +:+ a' ∧ ToLower p' = q ∧ split_scheme ep = Some (p', a')) as Hsplit.
  { intros q Hq [t Ht]%HasPrefix_inv. rewrite app_assoc_str in Ht.
    destruct (lower_split _ _ _ Ht) as (p' & a' & Hep & Hp & _). exists p', a'.
    split_and!; [done..|]. rewrite Hep. apply split_scheme_app, (lower_prefix_nocolon _ q Hp).
    by destruct Hq; subst. }
  assert (∀ q, (q = "unix" ∨ q = "tcp") → HasPrefix (ToLower ep) (q +:+ "://") = true →
    parseEndpoint ep = Ok (p, a) ↔ ep = p +:+ "://" +:+ a ∧ a ≠ "" ∧ ToLower p = q) as Hone.
  { intros q Hq Hpre. destruct (Hsplit q Hq Hpre) as (p' & a' & Hep & Hlow & Hs).
    unfold parseEndpoint. rewrite Hs.
    assert (HasPrefix (ToLower ep) "unix://" || HasPrefix (ToLower ep) "tcp://" = true) as ->.
    { apply orb_true_iff. destruct Hq; subst q; auto. }
    destruct (String.eqb_spec a' "") as [Ha|Ha]; cbn [negb].
    - split; [done|]. intros (Hep' & Hne & Hlp).
      rewrite Hep', split_scheme_app in Hs; [by simplify_eq|].
      apply (lower_prefix_nocolon _ q Hlp). by destruct Hq; subst.
    - split; [by intros [= <- <-]|]. intros (Hep' & Hne & Hlp).
      rewrite Hep', split_scheme_app in Hs; [by simplify_eq|].
      apply (lower_prefix_nocolon _ q Hlp). by destruct Hq; subst. }
  destruct (HasPrefix (ToLower ep) "unix://") eqn:Hu; [|destruct (HasPrefix (ToLower ep) "tcp://") eqn:Ht].
  - rewrite (Hone "unix") by auto. split; [naive_solver|]. intros (-> & Ha & [?|Hl]); [done|].
    rewrite !ToLower_app, Hl in Hu. done.
  - rewrite (Hone "tcp") by auto. split; [naive_solver|]. intros (-> & Ha & [Hl|?]); [|done].
    rewrite !ToLower_app, Hl in Ht. done.
  - unfold parseEndpoint. rewrite Hu, Ht. split; [done|]. intros (-> & _ & [Hl|Hl]);
      rewrite !ToLower_app, Hl in *; simpl in *; by destruct (ToLower a).
Qed.

(** A scheme in upper case passes the check and is handed to net.Listen as it is. *)
Lemma upper_case_scheme : parseEndpoint "UNIX://csi/csi.sock" = Ok ("UNIX", "csi/csi.sock").
Proof. done. Qed.

(** Without a commit that was compiled in, and without git, the version cannot be told. *)
Lemma short_commit_panics `{!BuildInfo} {S} (h : handler S) s e :
  Version ≠ "" → GitCommit = "" →
  po_err (h (CExec "git" ["rev-parse"; "--verify"; "HEAD"]) s).1 = Some e →
  (run h GetVersionDetails s).1 = OPanic "slice bounds out of range".
Proof.
  intros Hv%String.eqb_neq Hg He. unfold GetVersionDetails, version_Get, GetGitCommit.
  rewrite Hv, Hg. cbn in *. destruct (h _ s) as [po s1]. simpl in He. by rewrite He.
Qed.
