(* ===== verification/VolumeLock.v ===== *)
(** * The volume lock (pkg/driver/volume_lock.go)

    A set of locked names under a mutex, with a condition variable.  Goroutines
    interleave: the lock is a transition system with one step per operation on the
    mutex, the set and the condition variable, in the order of the code. *)

From S2P Require Import Prelude GoStr.

(** Where a goroutine is.  [Outside]: in no method.  The other constructors name
    the next operation of [LockVolume] ([L...]) and of the function it returns
    ([U...]). *)
Inductive pc :=
| Outside
| LEnter (n : string)   (* l.cond.L.Lock() *)
| LCheck (n : string)   (* if _, locked := l.locked[volume]; !locked *)
| LAsleep (n : string)  (* inside l.cond.Wait(), not signalled yet *)
| LAwake (n : string)   (* inside l.cond.Wait(), signalled: takes the mutex again *)
| LSet (n : string)     (* l.locked[volume] = struct{}{} *)
| LLeave (n : string)   (* the deferred l.cond.L.Unlock() *)
| UEnter (n : string)   (* l.cond.L.Lock() *)
| UDelete (n : string)  (* delete(l.locked, volume) *)
| UBroadcast (n : string) (* l.cond.Broadcast() *)
| ULeave (n : string).  (* the deferred l.cond.L.Unlock() *)

#[export] Instance pc_eq_dec : EqDecision pc.
Proof. solve_decision. Defined.

(** A goroutine, with the names it has locked and not begun to unlock twice. *)
Record thread := mkThread { t_pc : pc; t_held : gset string }.

Record volumeLock := mkLock {
  mutex : option nat;        (* who holds cond.L *)
  locked : gset string;
  threads : nat → thread;
}.

Definition newVolumeLock : volumeLock := mkLock None ∅ (λ _, mkThread Outside ∅).

Definition upd (i : nat) (t : thread) (f : nat → thread) : nat → thread :=
  λ j, if decide (i = j) then t else f j.

(** Move goroutine [i] to [p]. *)
Definition goto (i : nat) (p : pc) (s : volumeLock) : nat → thread :=
  upd i (mkThread p (t_held (threads s i))) (threads s).

(** [cond.Broadcast()] wakes every goroutine that is waiting. *)
Definition wake (t : thread) : thread :=
  match t_pc t with LAsleep n => mkThread (LAwake n) (t_held t) | _ => t end.

Definition pc_of (s : volumeLock) (i : nat) : pc := t_pc (threads s i).
Definition held_of (s : volumeLock) (i : nat) : gset string := t_held (threads s i).

(** One step of goroutine [i]. *)
Inductive step (i : nat) (s : volumeLock) : volumeLock → Prop :=
| s_call_lock n : pc_of s i = Outside →
    step i s (mkLock (mutex s) (locked s) (goto i (LEnter n) s))
| s_lock_enter n : pc_of s i = LEnter n → mutex s = None →
    step i s (mkLock (Some i) (locked s) (goto i (LCheck n) s))
| s_lock_free n : pc_of s i = LCheck n → n ∉ locked s →
    step i s (mkLock (mutex s) (locked s) (goto i (LSet n) s))
| s_lock_busy n : pc_of s i = LCheck n → n ∈ locked s →
    step i s (mkLock None (locked s) (goto i (LAsleep n) s))
| s_lock_awake n : pc_of s i = LAwake n → mutex s = None →
    step i s (mkLock (Some i) (locked s) (goto i (LCheck n) s))
| s_lock_set n : pc_of s i = LSet n →
    step i s (mkLock (mutex s) ({[n]} ∪ locked s) (goto i (LLeave n) s))
| s_lock_leave n : pc_of s i = LLeave n →
    step i s (mkLock None (locked s)
                (upd i (mkThread Outside ({[n]} ∪ held_of s i)) (threads s)))
| s_call_unlock n : pc_of s i = Outside → n ∈ held_of s i →
    step i s (mkLock (mutex s) (locked s) (goto i (UEnter n) s))
| s_unlock_enter n : pc_of s i = UEnter n → mutex s = None →
    step i s (mkLock (Some i) (locked s) (goto i (UDelete n) s))
| s_unlock_delete n : pc_of s i = UDelete n →
    step i s (mkLock (mutex s) (locked s ∖ {[n]}) (goto i (UBroadcast n) s))
| s_unlock_broadcast n : pc_of s i = UBroadcast n →
    step i s (mkLock (mutex s) (locked s) (λ j, wake (goto i (ULeave n) s j)))
| s_unlock_leave n : pc_of s i = ULeave n →
    step i s (mkLock None (locked s)
                (upd i (mkThread Outside (held_of s i ∖ {[n]})) (threads s))).

Inductive reachable : volumeLock → Prop :=
| r_init : reachable newVolumeLock
| r_step i s s' : reachable s → step i s s' → reachable s'.

(** ** The invariant *)

(** Between taking and releasing the mutex. *)
Definition critical (p : pc) : bool :=
  match p with
  | LCheck _ | LSet _ | LLeave _ | UDelete _ | UBroadcast _ | ULeave _ => true
  | _ => false
  end.

(** The goroutine owns the name: it has entered it in the set and not removed it. *)
Definition owns (t : thread) (n : string) : Prop :=
  t_pc t = LLeave n ∨ (n ∈ t_held t ∧ t_pc t ≠ UBroadcast n ∧ t_pc t ≠ ULeave n).

(** The name a goroutine is unlocking. *)
Definition unlocking (p : pc) : option string :=
  match p with UEnter n | UDelete n | UBroadcast n | ULeave n => Some n | _ => None end.

Record inv (s : volumeLock) : Prop := mkInv {
  (* the mutex protects the critical sections *)
  inv_mutex i : critical (pc_of s i) = true ↔ mutex s = Some i;
  (* the set holds the names that are owned, each by one goroutine *)
  inv_owned n : n ∈ locked s ↔ ∃ i, owns (threads s i) n;
  inv_unique i j n : owns (threads s i) n → owns (threads s j) n → i = j;
  (* nobody sleeps through the release of the name it waits for *)
  inv_asleep i n : pc_of s i = LAsleep n → n ∈ locked s ∨ ∃ j m, pc_of s j = UBroadcast m;
  inv_set i n : pc_of s i = LSet n → n ∉ locked s;
  inv_unlocking i n : unlocking (pc_of s i) = Some n → n ∈ held_of s i;
}.

(** *** Preservation *)

Lemma upd_eq i t f : upd i t f i = t.
Proof. unfold upd. by rewrite decide_True. Qed.

Lemma upd_ne i j t f : i ≠ j → upd i t f j = f j.
Proof. intros. unfold upd. by rewrite decide_False. Qed.

(** A goroutine other than [i] in a critical section has the mutex. *)
Lemma critical_mutex s i j p :
  inv s → pc_of s j = p → critical p = true → mutex s = Some i → i = j.
Proof.
  intros Hs <- Hp Hi. apply (inv_mutex s Hs) in Hp. congruence.
Qed.

Section update.
Context (s : volumeLock) (i : nat) (t : thread) (m : option nat) (L : gset string).
Context (Hs : inv s).
Hypothesis Hmutex : critical (t_pc t) = true ↔ m = Some i.
Hypothesis Hothers : ∀ j, j ≠ i → mutex s = Some j ↔ m = Some j.
Hypothesis Howned : ∀ n, n ∈ L ↔ owns t n ∨ ∃ j, j ≠ i ∧ owns (threads s j) n.
Hypothesis Hunique : ∀ j n, j ≠ i → owns (threads s j) n → ¬ owns t n.
Hypothesis Hasleep : ∀ n, t_pc t = LAsleep n → n ∈ L.
Hypothesis Hshrink : locked s ⊆ L ∨ ∃ n, t_pc t = UBroadcast n.
Hypothesis Hnobcast : ∀ n, pc_of s i ≠ UBroadcast n.
Hypothesis Hset : ∀ n, t_pc t = LSet n → n ∉ L.
Hypothesis Hgrow : L ⊆ locked s ∨ mutex s = Some i.
Hypothesis Hunlock : ∀ n, unlocking (t_pc t) = Some n → n ∈ t_held t.

Lemma inv_update : inv (mkLock m L (upd i t (threads s))).
Proof.
  split; simpl; unfold pc_of, held_of; simpl.
  - intros j. destruct (decide (i = j)) as [<-|Hj]; [by rewrite upd_eq|].
    rewrite upd_ne, <- Hothers by done. apply (inv_mutex s Hs).
  - intros n. rewrite Howned. split.
    + intros [Ho|(j & Hj & Ho)]; [exists i; by rewrite upd_eq|exists j; by rewrite upd_ne].
    + intros [j Ho]. destruct (decide (i = j)) as [<-|Hj]; [rewrite upd_eq in Ho; auto|].
      rewrite upd_ne in Ho by done. right. exists j. auto.
  - intros j k n. destruct (decide (i = j)) as [<-|Hj], (decide (i = k)) as [<-|Hk];
      rewrite ?upd_eq, ?upd_ne by done; intros H1 H2; try done.
    + by destruct (Hunique k n).
    + by destruct (Hunique j n).
    + by eapply (inv_unique s Hs).
  - intros j n. destruct (decide (i = j)) as [<-|Hj]; rewrite ?upd_eq, ?upd_ne by done; [auto|].
    intros Hp. destruct Hshrink as [Hsub|[n' Hb]].
    + destruct (inv_asleep s Hs j n Hp) as [Hin|(k & n' & Hk)]; [set_solver|].
      right. exists k, n'. rewrite upd_ne; [done|]. intros ->. by apply (Hnobcast n').
    + right. exists i, n'. by rewrite upd_eq.
  - intros j n. destruct (decide (i = j)) as [<-|Hj]; rewrite ?upd_eq, ?upd_ne by done; [auto|].
    intros Hp. destruct Hgrow as [Hsub|Hi]; [pose proof (inv_set s Hs j n Hp); set_solver|].
    exfalso. apply Hj. by eapply critical_mutex.
  - intros j n. destruct (decide (i = j)) as [<-|Hj]; rewrite ?upd_eq, ?upd_ne by done; [auto|].
    apply (inv_unlocking s Hs j n).
Qed.
End update.

(** The steps that change neither the set nor who owns what. *)
Lemma inv_move s i t m :
  inv s →
  (critical (t_pc t) = true ↔ m = Some i) → (∀ j, j ≠ i → mutex s = Some j ↔ m = Some j) →
  (∀ n, owns t n ↔ owns (threads s i) n) →
  (∀ n, t_pc t = LAsleep n → n ∈ locked s) →
  (∀ n, pc_of s i ≠ UBroadcast n) →
  (∀ n, t_pc t = LSet n → n ∉ locked s) →
  (∀ n, unlocking (t_pc t) = Some n → n ∈ t_held t) →
  inv (mkLock m (locked s) (upd i t (threads s))).
Proof.
  intros Hs Hm Ho Hown Has Hb Hset Hun. apply inv_update; auto.
  - intros n. rewrite (inv_owned s Hs n), Hown. split.
    + intros [j Hj]. destruct (decide (j = i)) as [->|]; eauto.
    + intros [?|(j & _ & ?)]; eauto.
  - intros j n Hj Hoj Hoi%Hown. apply Hj. by eapply (inv_unique s Hs).
Qed.

(** Facts about the mutex in each kind of step. *)
Lemma mutex_taken s i j : mutex s = None → j ≠ i → mutex s = Some j ↔ Some i = Some j.
Proof. intros -> Hj. split; [done|]. by intros [= ->]. Qed.

Lemma mutex_dropped s i j : mutex s = Some i → j ≠ i → mutex s = Some j ↔ None = Some j.
Proof. intros -> Hj. split; [|done]. by intros [= ->]. Qed.

Lemma mutex_mine s i p : inv s → pc_of s i = p → critical p = true → mutex s = Some i.
Proof. intros Hs <-. apply (inv_mutex s Hs). Qed.

Lemma mutex_not_mine s i p : inv s → pc_of s i = p → critical p = false → mutex s ≠ Some i.
Proof. intros Hs <- Hp Hm. apply (inv_mutex s Hs) in Hm. congruence. Qed.

(** Whether a goroutine owns a name does not depend on its place in a method, but
    for the last step of locking and the last two of unlocking. *)
Definition plain_pc (p : pc) : Prop :=
  match p with LLeave _ | UBroadcast _ | ULeave _ => False | _ => True end.

Lemma owns_plain p h n : plain_pc p → owns (mkThread p h) n ↔ n ∈ h.
Proof. unfold owns. simpl. destruct p; naive_solver. Qed.

Lemma owns_thread s i n : plain_pc (pc_of s i) → owns (threads s i) n ↔ n ∈ held_of s i.
Proof. unfold pc_of, held_of. destruct (threads s i) as [p h]. apply owns_plain. Qed.

(** A move to [p] with the mutex at [m], owning the same names as before. *)
Lemma inv_goto s i p m :
  inv s → plain_pc (pc_of s i) → plain_pc p →
  (critical p = true ↔ m = Some i) → (∀ j, j ≠ i → mutex s = Some j ↔ m = Some j) →
  (∀ n, p = LAsleep n → n ∈ locked s) → (∀ n, p = LSet n → (n ∉ locked s)) →
  (∀ n, unlocking p = Some n → n ∈ held_of s i) →
  inv (mkLock m (locked s) (goto i p s)).
Proof.
  intros Hs Hp0 Hp Hm Ho Ha Hset Hun. apply inv_move; simpl; auto.
  - intros n. rewrite owns_plain, owns_thread by done. done.
  - intros n Hb. by rewrite Hb in Hp0.
Qed.

(** Entering, staying in and leaving the critical section. *)
Lemma not_critical_iff s i p q :
  inv s → pc_of s i = p → critical p = false → critical q = false →
  critical q = true ↔ mutex s = Some i.
Proof.
  intros Hs Hp Hc ->. split; [done|]. intros Hm. by destruct (mutex_not_mine s i p).
Qed.

Lemma critical_iff s i p q :
  inv s → pc_of s i = p → critical p = true → critical q = true →
  critical q = true ↔ mutex s = Some i.
Proof. intros Hs Hp Hc ->. split; [|done]. intros _. by eapply mutex_mine. Qed.

Lemma inv_lock_set s i n :
  inv s → pc_of s i = LSet n → inv (mkLock (mutex s) ({[n]} ∪ locked s) (goto i (LLeave n) s)).
Proof.
  intros Hs Hp. pose proof (inv_set s Hs i n Hp) as Hn.
  assert (∀ k, owns (mkThread (LLeave n) (t_held (threads s i))) k ↔ k = n ∨ owns (threads s i) k)
    as Hown.
  { intros k. rewrite owns_thread by by rewrite Hp. unfold owns, held_of. simpl. naive_solver. }
  apply inv_update; simpl; try done.
  - split; [intros _; by eapply mutex_mine|done].
  - intros k. rewrite elem_of_union, elem_of_singleton, (inv_owned s Hs k), Hown. split.
    + intros [->|[j Hj]]; [auto|]. destruct (decide (j = i)) as [->|]; eauto.
    + intros [[->|?]|(j & _ & ?)]; eauto.
  - intros j k Hj Hoj [->|Hoi]%Hown.
    + apply Hn. apply (inv_owned s Hs). eauto.
    + apply Hj. by eapply (inv_unique s Hs).
  - left. set_solver.
  - intros k. by rewrite Hp.
  - right. by eapply mutex_mine.
Qed.

Lemma inv_unlock_delete s i n :
  inv s → pc_of s i = UDelete n →
  inv (mkLock (mutex s) (locked s ∖ {[n]}) (goto i (UBroadcast n) s)).
Proof.
  intros Hs Hp. assert (n ∈ held_of s i) as Hh by (apply (inv_unlocking s Hs); by rewrite Hp).
  assert (owns (threads s i) n) as Hmine by (rewrite owns_thread by (by rewrite Hp); done).
  assert (∀ k, owns (mkThread (UBroadcast n) (t_held (threads s i))) k ↔
               k ≠ n ∧ owns (threads s i) k) as Hown.
  { intros k. rewrite owns_thread by by rewrite Hp. unfold owns, held_of. simpl. naive_solver. }
  apply inv_update; simpl; try done.
  - split; [intros _; by eapply mutex_mine|done].
  - intros k. rewrite elem_of_difference, elem_of_singleton, (inv_owned s Hs k), Hown. split.
    + intros [[j Hj] Hk]. destruct (decide (j = i)) as [->|]; eauto.
    + intros [[? ?]|(j & Hj & Ho)]; [eauto|]. split; [eauto|]. intros ->. apply Hj.
      by eapply (inv_unique s Hs).
  - intros j k Hj Hoj [_ Hoi]%Hown. apply Hj. by eapply (inv_unique s Hs).
  - eauto.
  - intros k. by rewrite Hp.
  - left. set_solver.
  - by intros k [= <-].
Qed.

(** Waking changes no more than the place of the sleepers. *)
Lemma wake_owns t n : owns (wake t) n ↔ owns t n.
Proof. unfold wake, owns. destruct t as [[] h]; simpl; naive_solver. Qed.

Lemma wake_critical t : critical (t_pc (wake t)) = critical (t_pc t).
Proof. by destruct t as [[] h]. Qed.

Lemma inv_unlock_broadcast s i n :
  inv s → pc_of s i = UBroadcast n →
  inv (mkLock (mutex s) (locked s) (λ j, wake (goto i (ULeave n) s j))).
Proof.
  intros Hs Hp.
  assert (∀ j k, owns (wake (goto i (ULeave n) s j)) k ↔ owns (threads s j) k) as Hown.
  { intros j k. rewrite wake_owns. unfold goto. destruct (decide (i = j)) as [<-|Hj].
    - rewrite upd_eq. unfold pc_of in Hp. unfold owns. simpl. rewrite Hp. naive_solver.
    - by rewrite upd_ne. }
  split; simpl; unfold pc_of, held_of; simpl.
  - intros j. rewrite wake_critical. rewrite <- (inv_mutex s Hs j). unfold goto, pc_of in *.
    destruct (decide (i = j)) as [<-|Hj]; [by rewrite upd_eq, Hp|by rewrite upd_ne].
  - intros k. rewrite (inv_owned s Hs k). by setoid_rewrite Hown.
  - intros j k x. rewrite !Hown. apply (inv_unique s Hs).
  - intros j k Hk. exfalso. unfold wake in Hk. by destruct (goto _ _ _ _) as [[] h].
  - intros j k Hk. apply (inv_set s Hs j). unfold wake, goto, pc_of in *.
    destruct (decide (i = j)) as [<-|Hj]; [by rewrite upd_eq in Hk|].
    rewrite upd_ne in Hk by done. by destruct (threads s j) as [[] h].
  - intros j k Hk. unfold wake, goto, pc_of in *. destruct (decide (i = j)) as [<-|Hj].
    + rewrite upd_eq in *. simpl in *. simplify_eq. apply (inv_unlocking s Hs i).
      unfold pc_of. by rewrite Hp.
    + rewrite upd_ne in * by done. pose proof (inv_unlocking s Hs j k) as Hj'.
      unfold pc_of, held_of in Hj'. destruct (threads s j) as [[] h]; simpl in *; auto.
Qed.

Lemma inv_lock_leave s i n :
  inv s → pc_of s i = LLeave n →
  inv (mkLock None (locked s) (upd i (mkThread Outside ({[n]} ∪ held_of s i)) (threads s))).
Proof.
  intros Hs Hp. apply inv_move; simpl; try done.
  - intros j Hj. apply (mutex_dropped s i); [by eapply mutex_mine|done].
  - intros k. rewrite owns_plain by done. unfold pc_of, held_of in *.
    unfold owns. rewrite Hp. set_solver.
  - intros k. by rewrite Hp.
Qed.

Lemma inv_unlock_leave s i n :
  inv s → pc_of s i = ULeave n →
  inv (mkLock None (locked s) (upd i (mkThread Outside (held_of s i ∖ {[n]})) (threads s))).
Proof.
  intros Hs Hp. apply inv_move; simpl; try done.
  - intros j Hj. apply (mutex_dropped s i); [by eapply mutex_mine|done].
  - intros k. rewrite owns_plain by done. unfold pc_of, held_of in *.
    unfold owns. rewrite Hp. set_solver.
  - intros k. by rewrite Hp.
Qed.

Lemma inv_init : inv newVolumeLock.
Proof.
  split; simpl; try done.
  - intros n. split; [done|]. intros [i [?|[? _]]]; [done|]. set_solver.
  - intros i j n [?|[? _]]; [done|]. set_solver.
Qed.

Lemma inv_step i s s' : inv s → step i s s' → inv s'.
Proof.
  intros Hs Hstep.
  destruct Hstep as [n Hp|n Hp Hm|n Hp Hn|n Hp Hn|n Hp Hm|n Hp|n Hp|n Hp Hn|n Hp Hm|n Hp|n Hp|n Hp];
    eauto using inv_lock_set, inv_lock_leave, inv_unlock_delete, inv_unlock_broadcast, inv_unlock_leave;
    (apply inv_goto; [done|by rewrite Hp|done|..]; try done;
     try (by eapply not_critical_iff); try (by eapply critical_iff);
     try (by intros; apply mutex_taken); try (by intros k [= <-])).
  - intros j Hj. apply (mutex_dropped s i); [by eapply mutex_mine|done].
  - intros k Hk. apply (inv_unlocking s Hs i). by rewrite Hp.
Qed.

Lemma inv_reachable s : reachable s → inv s.
Proof. induction 1; eauto using inv_init, inv_step. Qed.

(** ** Goroutines that serve requests *)

(** What a handler asks of the lock: [LockVolume] and the functions it returns. *)
Inductive action := ALock (n : string) | AUnlock (n : string).

(** A handler takes the lock of its volume, or of its volume and its snapshot, and
    defers the release. *)
Inductive request :=
| RVolume (volume : string)
| RSnapshot (volume snapshot : string).

Definition LockVolumeWithSnapshot (volume snapshot : string) : list action * list action :=
  ([ALock volume; ALock snapshot], [AUnlock volume; AUnlock snapshot]).

Definition serve (r : request) : list action :=
  match r with
  | RVolume v => [ALock v; AUnlock v]
  | RSnapshot v s => let '(enter, leave) := LockVolumeWithSnapshot v s in enter ++ leave
  end.

(** The lock, and what each goroutine has still to do. *)
Record sys := mkSys { the_lock : volumeLock; todo : nat → list action }.

Definition entry (a : action) : pc :=
  match a with ALock n => LEnter n | AUnlock n => UEnter n end.

Definition upd_todo (i : nat) (l : list action) (f : nat → list action) : nat → list action :=
  λ j, if decide (i = j) then l else f j.

Inductive sys_step (i : nat) (s : sys) : sys → Prop :=
| ss_call a r l' : todo s i = a :: r → pc_of (the_lock s) i = Outside →
    step i (the_lock s) l' → pc_of l' i = entry a →
    sys_step i s (mkSys l' (upd_todo i r (todo s)))
| ss_inside l' : pc_of (the_lock s) i ≠ Outside → step i (the_lock s) l' →
    sys_step i s (mkSys l' (todo s)).

(** Goroutine [i] serves the [i]-th list of requests, in order. *)
Definition start (reqs : list (list request)) : sys :=
  mkSys newVolumeLock (λ i, concat (map serve (nth i reqs []))).

Inductive sys_reachable (reqs : list (list request)) : sys → Prop :=
| sr_init : sys_reachable reqs (start reqs)
| sr_step i s s' : sys_reachable reqs s → sys_step i s s' → sys_reachable reqs s'.

Definition finished (s : sys) : Prop :=
  ∀ i, pc_of (the_lock s) i = Outside ∧ todo s i = [].

Definition stuck (s : sys) : Prop := ∀ i s', ¬ sys_step i s s'.

(** *** The discipline: a snapshot's name is locked last, and only one *)

Section discipline.
Context (is_snap : string → bool).

(** The locks of [l] are taken in an order that cannot form a cycle, and are all
    released, by a goroutine that holds [h]. *)
Fixpoint orderly (h : gset string) (l : list action) : Prop :=
  match l with
  | [] => h = ∅
  | ALock n :: r =>
      (h = ∅ ∨ (is_snap n = true ∧ ∀ k, k ∈ h → is_snap k = false)) ∧
      orderly ({[n]} ∪ h) r
  | AUnlock n :: r => n ∈ h ∧ orderly (h ∖ {[n]}) r
  end.

(** What is left to do, counting the method the goroutine is in. *)
Definition resume (p : pc) (l : list action) : list action :=
  match p with
  | Outside => l
  | LEnter n | LCheck n | LAsleep n | LAwake n | LSet n | LLeave n => ALock n :: l
  | UEnter n | UDelete n | UBroadcast n | ULeave n => AUnlock n :: l
  end.

Definition request_ok (r : request) : Prop :=
  match r with
  | RVolume v => is_snap v = false
  | RSnapshot v s => is_snap v = false ∧ is_snap s = true
  end.

Lemma orderly_app l1 l2 : ∀ h, orderly h l1 → orderly ∅ l2 → orderly h (l1 ++ l2).
Proof.
  induction l1 as [|[n|n] l1 IH]; simpl; intros h H1 H2; [by subst|naive_solver..].
Qed.

Lemma serve_orderly r : request_ok r → orderly ∅ (serve r).
Proof.
  destruct r as [v|v sn]; simpl.
  - intros Hv. split; [by left|]. set_solver.
  - intros [Hv Hs]. split; [by left|]. split; [right; split; [done|set_solver]|].
    split; [set_solver|]. assert (v ≠ sn) by (intros ->; congruence). set_solver.
Qed.

Lemma serve_all_orderly rs : Forall request_ok rs → orderly ∅ (concat (map serve rs)).
Proof.
  induction 1 as [|r rs Hr _ IH]; simpl; [done|]. apply orderly_app; [by apply serve_orderly|done].
Qed.

Definition sys_inv (s : sys) : Prop :=
  reachable (the_lock s) ∧
  ∀ i, orderly (held_of (the_lock s) i) (resume (pc_of (the_lock s) i) (todo s i)).

Lemma start_inv reqs : Forall (Forall request_ok) reqs → sys_inv (start reqs).
Proof.
  intros Hr. split; [constructor|]. intros i. apply serve_all_orderly.
  destruct (nth_in_or_default i reqs []) as [Hin| ->]; [|done].
  rewrite Forall_forall in Hr. apply Hr. by apply list_elem_of_In.
Qed.

Lemma step_other i j s s' l :
  step i s s' → i ≠ j →
  held_of s' j = held_of s j ∧ resume (pc_of s' j) l = resume (pc_of s j) l.
Proof.
  intros [] Hj; unfold pc_of, held_of, goto, wake; simpl; rewrite ?upd_ne by done; try done.
  by destruct (threads s j) as [[] h].
Qed.

Lemma step_inside i s s' l :
  step i s s' → pc_of s i ≠ Outside → orderly (held_of s i) (resume (pc_of s i) l) →
  orderly (held_of s' i) (resume (pc_of s' i) l).
Proof.
  intros Hst Hp. destruct Hst as [n E|n E|n E|n E|n E|n E|n E|n E|n E|n E|n E|n E]; try done;
    rewrite E; unfold pc_of, held_of, goto, wake; simpl; rewrite ?upd_eq; simpl; tauto.
Qed.

Lemma step_call i s s' a :
  step i s s' → pc_of s i = Outside → pc_of s' i = entry a → held_of s' i = held_of s i.
Proof.
  intros Hst Hp. destruct Hst as [n E|n E|n E|n E|n E|n E|n E|n E|n E|n E|n E|n E];
    try congruence; intros _; unfold held_of, goto; simpl; by rewrite upd_eq.
Qed.

Lemma sys_inv_step i s s' : sys_inv s → sys_step i s s' → sys_inv s'.
Proof.
  intros [Hr Ho] Hstep. destruct Hstep as [a r l' Ht Hp Hst Ha|l' Hp Hst];
    (split; [by eapply r_step|]; intros j; simpl).
  - unfold upd_todo. destruct (decide (i = j)) as [<-|Hj].
    + specialize (Ho i). rewrite Hp, Ht in Ho. rewrite (step_call i _ _ a Hst Hp Ha), Ha.
      by destruct a.
    + destruct (step_other i j _ _ (todo s j) Hst Hj) as [-> ->]. apply Ho.
  - destruct (decide (i = j)) as [<-|Hj]; [by eapply step_inside|].
    destruct (step_other i j _ _ (todo s j) Hst Hj) as [-> ->]. apply Ho.
Qed.

Lemma sys_inv_reachable reqs s :
  Forall (Forall request_ok) reqs → sys_reachable reqs s → sys_inv s.
Proof. intros Hr. induction 1; eauto using start_inv, sys_inv_step. Qed.

(** *** Progress *)

(** A goroutine in a critical section, and one that wants a free mutex, can move. *)
Lemma can_move s i :
  critical (pc_of s i) = true ∨
  (mutex s = None ∧ pc_of s i ≠ Outside ∧ ∀ n, pc_of s i ≠ LAsleep n) →
  ∃ s', step i s s'.
Proof.
  intros H. destruct (pc_of s i) as [|n|n|n|n|n|n|n|n|n|n] eqn:E;
    try (by destruct H as [?|(? & ? & ?)]; naive_solver eauto using step);
    try (eexists; by eauto using step).
  destruct (decide (n ∈ locked s)); eexists; by eauto using step.
Qed.

(** In a stuck state every goroutine has finished or sleeps. *)
Lemma stuck_asleep s i :
  sys_inv s → stuck s →
  (pc_of (the_lock s) i = Outside ∧ todo s i = []) ∨ ∃ n, pc_of (the_lock s) i = LAsleep n.
Proof.
  intros [Hr Ho] Hstuck. pose proof (inv_reachable _ Hr) as Hinv.
  assert (mutex (the_lock s) = None) as Hm.
  { destruct (mutex (the_lock s)) as [j|] eqn:Hm; [|done]. exfalso.
    apply (inv_mutex _ Hinv) in Hm as Hc. destruct (can_move (the_lock s) j) as [l' Hl]; [auto|].
    apply (Hstuck j (mkSys l' (todo s))). apply ss_inside; [|done]. intros E. by rewrite E in Hc. }
  destruct (decide (pc_of (the_lock s) i = Outside)) as [E|E].
  - left. split; [done|]. specialize (Ho i). rewrite E in Ho. simpl in Ho.
    destruct (todo s i) as [|a r] eqn:Ht; [done|]. exfalso. destruct a as [n|n].
    + eapply (Hstuck i). eapply (ss_call i s (ALock n) r); [done..|by apply s_call_lock|].
      unfold pc_of, goto. simpl. by rewrite upd_eq.
    + eapply (Hstuck i). eapply (ss_call i s (AUnlock n) r); [done..|by apply s_call_unlock; [|apply Ho]|].
      unfold pc_of, goto. simpl. by rewrite upd_eq.
  - right. destruct (pc_of (the_lock s) i) as [|n|n|n|n|n|n|n|n|n|n] eqn:E'; eauto;
      exfalso; destruct (can_move (the_lock s) i) as [l' Hl]; try (rewrite E'; by auto);
      apply (Hstuck i (mkSys l' (todo s))); apply ss_inside; congruence.
Qed.

(** The owner of the name an asleep goroutine waits for, in a stuck state, is asleep
    too, and for a snapshot's name. *)
Lemma stuck_owner s i n :
  sys_inv s → stuck s → pc_of (the_lock s) i = LAsleep n →
  ∃ j m, pc_of (the_lock s) j = LAsleep m ∧ n ∈ held_of (the_lock s) j ∧
         is_snap n = false ∧ is_snap m = true.
Proof.
  intros Hsys Hstuck Hi. pose proof Hsys as [Hr Ho]. pose proof (inv_reachable _ Hr) as Hinv.
  destruct (inv_asleep _ Hinv i n Hi) as [Hin|(j & m & Hb)].
  2: { destruct (stuck_asleep s j Hsys Hstuck) as [[? ?]|[? ?]]; congruence. }
  apply (inv_owned _ Hinv) in Hin as [j Hown]. exists j.
  specialize (Ho j). destruct (stuck_asleep s j Hsys Hstuck) as [[Hp Ht]|[m Hp]].
  - rewrite Hp, Ht in Ho. simpl in Ho. destruct Hown as [E|[Hh _]]; unfold pc_of, held_of in *;
      [congruence|]. set_solver.
  - rewrite Hp in Ho. simpl in Ho. destruct Hown as [E|[Hh _]]; unfold pc_of, held_of in *;
      [congruence|]. exists m. destruct Ho as [[E|[Hm Hk]] _]; [set_solver|]. auto.
Qed.

Lemma stuck_finished s : sys_inv s → stuck s → finished s.
Proof.
  intros Hsys Hstuck i. destruct (stuck_asleep s i Hsys Hstuck) as [?|[n Hn]]; [done|].
  destruct (stuck_owner s i n Hsys Hstuck Hn) as (j & m & Hj & _ & _ & Hm).
  destruct (stuck_owner s j m Hsys Hstuck Hj) as (_ & _ & _ & _ & Hm' & _). congruence.
Qed.

Lemma finished_unlocked s : sys_inv s → finished s → locked (the_lock s) = ∅.
Proof.
  intros [Hr Ho] Hf. apply set_eq. intros n. split; [|set_solver].
  intros [i Hi]%(inv_owned _ (inv_reachable _ Hr)). specialize (Ho i).
  destruct (Hf i) as [Hp Ht]. rewrite Hp, Ht in Ho. simpl in Ho.
  destruct Hi as [E|[Hh _]]; unfold pc_of, held_of in *; [congruence|]. set_solver.
Qed.
End discipline.

(** *** Every schedule ends *)

Section measure.
Local Open Scope nat_scope.

(** The work left in a method; the loop of [LockVolume] is counted once. *)
Definition phase (p : pc) : nat :=
  match p with
  | Outside => 0
  | LEnter _ | LCheck _ | LAsleep _ | LAwake _ => 5
  | LSet _ => 4 | LLeave _ => 3
  | UEnter _ => 9 | UDelete _ => 8 | UBroadcast _ => 7 | ULeave _ => 6
  end.

(** The steps to the next sleep. *)
Definition retry (p : pc) : nat :=
  match p with LEnter _ | LAwake _ => 2 | LCheck _ => 1 | _ => 0 end.

Definition work (s : sys) (i : nat) : nat :=
  10 * length (todo s i) + phase (pc_of (the_lock s) i).

Definition measure (n : nat) (s : sys) : nat :=
  (2 * n + 1) * sum_list_with (work s) (seq 0 n)
  + sum_list_with (λ i, retry (pc_of (the_lock s) i)) (seq 0 n).

Lemma sum_le (f g : nat → nat) l :
  (∀ i, f i ≤ g i) → sum_list_with f l ≤ sum_list_with g l.
Proof. intros H. induction l as [|x l IH]; simpl; [lia|]. specialize (H x). lia. Qed.

Lemma sum_lt (f g : nat → nat) l k :
  (∀ i, f i ≤ g i) → f k < g k → k ∈ l → sum_list_with f l < sum_list_with g l.
Proof.
  intros H Hk. induction l as [|x l IH]; simpl; [by intros ?%not_elem_of_nil|].
  pose proof (H x). pose proof (sum_le f g l H).
  intros [->|Hin]%elem_of_cons; [lia|]. specialize (IH Hin). lia.
Qed.

Lemma sum_bound (f : nat → nat) b l : (∀ i, f i ≤ b) → sum_list_with f l ≤ b * length l.
Proof. intros H. induction l as [|x l IH]; simpl; [lia|]. specialize (H x). lia. Qed.

Lemma retry_le p : retry p ≤ 2.
Proof. destruct p; simpl; lia. Qed.

(** A step does some work, or is one step of its goroutine to its next sleep. *)
Lemma step_work i s s' :
  step i s s' → pc_of s i ≠ Outside →
  (∀ j, phase (pc_of s' j) ≤ phase (pc_of s j)) ∧
  (phase (pc_of s' i) < phase (pc_of s i) ∨
   (∀ j, retry (pc_of s' j) ≤ retry (pc_of s j)) ∧ retry (pc_of s' i) < retry (pc_of s i)).
Proof.
  intros Hst Hp. destruct Hst as [n E|n E|n E|n E|n E|n E|n E|n E|n E|n E|n E|n E]; try done;
    unfold pc_of, goto, wake in *; simpl; rewrite ?upd_eq; simpl; rewrite E; simpl;
    (split; [intros j; destruct (decide (i = j)) as [<-|]|];
     [rewrite upd_eq, ?E; simpl; lia|rewrite upd_ne by done; first [lia|by destruct (threads s j) as [[] h]]|]);
    first [left; lia|right; split; [|lia]; intros j; destruct (decide (i = j)) as [<-|];
      [rewrite upd_eq, ?E; simpl; lia|by rewrite upd_ne]].
Qed.

Lemma step_call_work i j s s' a :
  step i s s' → pc_of s i = Outside → pc_of s' i = entry a → i ≠ j → pc_of s' j = pc_of s j.
Proof.
  intros Hst Hp. destruct Hst as [n E|n E|n E|n E|n E|n E|n E|n E|n E|n E|n E|n E];
    try congruence; intros _ Hj; unfold pc_of, goto; simpl; by rewrite upd_ne.
Qed.

Lemma sys_step_work i s s' :
  sys_step i s s' →
  (∀ j, work s' j ≤ work s j) ∧
  (work s' i < work s i ∨
   (∀ j, retry (pc_of (the_lock s') j) ≤ retry (pc_of (the_lock s) j)) ∧
   retry (pc_of (the_lock s') i) < retry (pc_of (the_lock s) i)).
Proof.
  intros [a r l' Ht Hp Hst Ha|l' Hp Hst]; unfold work; simpl.
  - assert (phase (entry a) ≤ 9) by (destruct a; simpl; lia).
    split; [intros j|left]; unfold upd_todo.
    + destruct (decide (i = j)) as [<-|Hj]; [rewrite Ha, Ht, Hp; simpl; lia|].
      by rewrite (step_call_work i j _ _ a Hst Hp Ha Hj).
    + rewrite decide_True, Ha, Ht, Hp by done. simpl. lia.
  - destruct (step_work i _ _ Hst Hp) as [H1 H2]. split; [intros j; specialize (H1 j); lia|].
    destruct H2 as [?|?]; [left; lia|by right].
Qed.

Lemma sys_step_measure n i s s' : sys_step i s s' → i < n → measure n s' < measure n s.
Proof.
  intros Hst Hi. destruct (sys_step_work i s s' Hst) as [Hw Hd]. unfold measure.
  assert (i ∈ seq 0 n) as Hin by (apply elem_of_seq; lia).
  pose proof (sum_le _ _ (seq 0 n) Hw) as Hle.
  destruct Hd as [Hd|[Hr Hd]].
  - pose proof (sum_lt _ _ (seq 0 n) i Hw Hd Hin).
    pose proof (sum_bound (λ j, retry (pc_of (the_lock s') j)) 2 (seq 0 n)
      (λ j, retry_le _)) as Hb. rewrite length_seq in Hb. nia.
  - pose proof (sum_lt _ _ (seq 0 n) i Hr Hd Hin). nia.
Qed.

(** Only the goroutines that serve requests move. *)
Lemma idle_outside reqs s i :
  sys_reachable reqs s → length reqs ≤ i → pc_of (the_lock s) i = Outside ∧ todo s i = [].
Proof.
  intros Hr Hi. induction Hr as [|k s s' Hr [Hp Ht] Hst]; simpl.
  - by rewrite nth_overflow.
  - destruct Hst as [a r l' Ht' Hp' Hst Ha|l' Hp' Hst]; simpl;
      (destruct (decide (k = i)) as [->|Hk]; [congruence|]).
    + unfold upd_todo. rewrite decide_False by done. split; [|done].
      by rewrite (step_call_work k i _ _ a Hst Hp' Ha Hk).
    + split; [|done]. destruct (step_other k i _ _ [] Hst Hk) as [_ He]. rewrite Hp in He.
      by destruct (pc_of l' i).
Qed.

Lemma mover_in_range reqs s i s' : sys_reachable reqs s → sys_step i s s' → i < length reqs.
Proof.
  intros Hr Hst. destruct (decide (i < length reqs)) as [|Hi]; [done|]. exfalso.
  destruct (idle_outside reqs s i Hr ltac:(lia)) as [Hp Ht].
  destruct Hst as [a r l' Ht' _ _ _|l' Hp' _]; congruence.
Qed.

(** Runs, with their length. *)
Inductive runs : nat → sys → sys → Prop :=
| runs_refl s : runs 0 s s
| runs_step k i s1 s2 s3 : runs k s1 s2 → sys_step i s2 s3 → runs (S k) s1 s3.

Lemma runs_measure reqs k s :
  runs k (start reqs) s →
  sys_reachable reqs s ∧ k + measure (length reqs) s ≤ measure (length reqs) (start reqs).
Proof.
  remember (start reqs) as s0 eqn:E. induction 1 as [s|k i s1 s2 s3 Hr IH Hst]; subst.
  - split; [constructor|lia].
  - destruct (IH eq_refl) as [Hs2 Hm]. split; [by econstructor|].
    pose proof (sys_step_measure (length reqs) i s2 s3 Hst (mover_in_range _ _ _ _ Hs2 Hst)). lia.
Qed.
End measure.

(** ** Running a schedule *)

(** The step of a goroutine is determined by where it is. *)
Definition exec (i : nat) (s : volumeLock) : option volumeLock :=
  let go p := Some (mkLock (mutex s) (locked s) (goto i p s)) in
  let take p := match mutex s with
                | None => Some (mkLock (Some i) (locked s) (goto i p s))
                | Some _ => None
                end in
  match pc_of s i with
  | Outside | LAsleep _ => None
  | LEnter n | LAwake n => take (LCheck n)
  | LCheck n =>
      if decide (n ∈ locked s) then Some (mkLock None (locked s) (goto i (LAsleep n) s))
      else go (LSet n)
  | LSet n => Some (mkLock (mutex s) ({[n]} ∪ locked s) (goto i (LLeave n) s))
  | LLeave n =>
      Some (mkLock None (locked s)
              (upd i (mkThread Outside ({[n]} ∪ held_of s i)) (threads s)))
  | UEnter n => take (UDelete n)
  | UDelete n => Some (mkLock (mutex s) (locked s ∖ {[n]}) (goto i (UBroadcast n) s))
  | UBroadcast n => Some (mkLock (mutex s) (locked s) (λ j, wake (goto i (ULeave n) s j)))
  | ULeave n =>
      Some (mkLock None (locked s)
              (upd i (mkThread Outside (held_of s i ∖ {[n]})) (threads s)))
  end.

Lemma exec_step i s s' : exec i s = Some s' → step i s s'.
Proof.
  unfold exec. intros He.
  destruct (pc_of s i) as [|n|n|n|n|n|n|n|n|n|n] eqn:E; try done;
    try (destruct (mutex s) eqn:Em; [done|]); try (destruct (decide (n ∈ locked s)));
    simplify_eq; rewrite <- ?Em; by eauto using step.
Qed.

Definition sys_exec (i : nat) (s : sys) : option sys :=
  match pc_of (the_lock s) i, todo s i with
  | Outside, [] => None
  | Outside, ALock n :: r =>
      Some (mkSys (mkLock (mutex (the_lock s)) (locked (the_lock s)) (goto i (LEnter n) (the_lock s)))
                  (upd_todo i r (todo s)))
  | Outside, AUnlock n :: r =>
      if decide (n ∈ held_of (the_lock s) i) then
        Some (mkSys (mkLock (mutex (the_lock s)) (locked (the_lock s)) (goto i (UEnter n) (the_lock s)))
                    (upd_todo i r (todo s)))
      else None
  | _, _ => (λ l, mkSys l (todo s)) <$> exec i (the_lock s)
  end.

Lemma sys_exec_step i s s' : sys_exec i s = Some s' → sys_step i s s'.
Proof.
  unfold sys_exec. intros He.
  destruct (decide (pc_of (the_lock s) i = Outside)) as [E|E].
  - rewrite E in He. destruct (todo s i) as [|[n|n] r] eqn:Et; [done|..];
      [|destruct (decide _); [|done]]; simplify_eq;
      (eapply ss_call; [done..|by eauto using step|unfold pc_of, goto; simpl; by rewrite upd_eq]).
  - assert ((λ l, mkSys l (todo s)) <$> exec i (the_lock s) = Some s') as He'
      by (by destruct (pc_of (the_lock s) i)).
    apply fmap_Some in He' as (l' & Hl & ->). apply ss_inside; [done|by apply exec_step].
Qed.

Fixpoint schedule (sch : list nat) (s : sys) : option sys :=
  match sch with [] => Some s | i :: r => s' ← sys_exec i s; schedule r s' end.

Lemma schedule_runs sch s0 s s' k :
  runs k s0 s → schedule sch s = Some s' → runs (length sch + k) s0 s'.
Proof.
  revert s k. induction sch as [|i r IH]; simpl; intros s k Hr Hs; [by simplify_eq|].
  apply bind_Some in Hs as (s1 & He & Hs). rewrite <- Nat.add_succ_r.
  eapply IH; [|done]. econstructor; [done|by apply sys_exec_step].
Qed.

Lemma schedule_reachable reqs sch s :
  schedule sch (start reqs) = Some s → runs (length sch) (start reqs) s.
Proof.
  intros H. rewrite <- (Nat.add_0_r (length sch)). eapply schedule_runs; [constructor|done].
Qed.

Lemma asleep_waits i s s' n : pc_of (the_lock s) i = LAsleep n → ¬ sys_step i s s'.
Proof.
  intros Hp Hst. destruct Hst as [a r l' _ Hp' _ _|l' _ Hst]; [congruence|].
  destruct Hst; congruence.
Qed.

(** ** Theorems *)

(** C21: mutual exclusion.  In every interleaving, a name is in the set of the lock
    exactly while one goroutine owns it, and two goroutines never hold the same name
    between the return of [LockVolume] and the deletion of the name by the function
    it returned. *)
Theorem LockVolume_excludes s i j n :
  reachable s → n ∈ held_of s i → n ∈ held_of s j →
  unlocking (pc_of s i) ≠ Some n → unlocking (pc_of s j) ≠ Some n →
  i = j ∧ n ∈ locked s.
Proof.
  intros Hr Hi Hj Ui Uj. pose proof (inv_reachable _ Hr) as Hinv.
  assert (∀ k, n ∈ held_of s k → unlocking (pc_of s k) ≠ Some n → owns (threads s k) n) as Hown.
  { intros k Hk Uk. right. unfold pc_of, held_of in *. split_and!; [done|..];
      intros E; rewrite E in Uk; done. }
  split; [by eapply (inv_unique _ Hinv); apply Hown|].
  apply (inv_owned _ Hinv). exists i. by apply Hown.
Qed.

(** C20: every request is served.  When the names of snapshots are not names of
    volumes, goroutines that serve any lists of requests in any interleaving never
    deadlock and never run for ever: a run has at most [measure] steps, and when no
    goroutine can move all have finished and no name is locked. *)
Theorem every_request_served is_snap reqs k s :
  Forall (Forall (request_ok is_snap)) reqs → runs k (start reqs) s →
  (k ≤ measure (length reqs) (start reqs))%nat ∧
  (stuck s → finished s ∧ locked (the_lock s) = ∅).
Proof.
  intros Hok Hr. destruct (runs_measure reqs k s Hr) as [Hs Hm]. split; [lia|].
  intros Hst. pose proof (sys_inv_reachable is_snap reqs s Hok Hs) as Hinv.
  pose proof (stuck_finished is_snap s Hinv Hst) as Hf. split; [done|].
  by eapply finished_unlocked.
Qed.

(** The lock order matters.  [LockVolumeWithSnapshot] takes the two names in the
    order given: when a snapshot may have the name of a volume, two requests on
    crossed names reach a state in which neither goroutine can ever move again. *)
Theorem crossed_names_deadlock :
  ∃ k s, runs k (start [[RSnapshot "a" "b"]; [RSnapshot "b" "a"]]) s ∧ stuck s ∧ ¬ finished s.
Proof.
  set (sch := [0;0;0;0;0; 1;1;1;1;1; 0;0;0; 1;1;1]%nat).
  destruct (schedule sch (start [[RSnapshot "a" "b"]; [RSnapshot "b" "a"]])) as [s|] eqn:E;
    [|by vm_compute in E].
  exists (length sch), s. split; [by apply schedule_reachable|].
  pose proof (schedule_reachable _ _ _ E) as Hr.
  assert (pc_of (the_lock s) 0 = LAsleep "b" ∧ pc_of (the_lock s) 1 = LAsleep "a") as [H0 H1].
  { revert E. vm_compute. intros [= <-]. split; reflexivity. }
  split; [|intros Hf; by destruct (Hf 0%nat); congruence].
  intros i s'. destruct (runs_measure _ _ _ Hr) as [Hreach _].
  destruct i as [|[|i]]; [by eapply asleep_waits..|]. intros Hst.
  pose proof (mover_in_range _ _ _ _ Hreach Hst). simpl in *. lia.
Qed.

(** *** Witnesses *)

(** The state a schedule ends in, when each of its steps can be taken. *)
Definition after (reqs : list (list request)) (sch : list nat) : sys :=
  default (start reqs) (schedule sch (start reqs)).

Lemma after_runs reqs sch :
  (if schedule sch (start reqs) is Some _ then true else false) = true →
  runs (length sch) (start reqs) (after reqs sch).
Proof.
  intros H. apply schedule_reachable. unfold after. by destruct (schedule _ _).
Qed.

(** Goroutine 0 has locked "v". *)
Definition one_held : sys := after [[RVolume "v"]] [0;0;0;0;0]%nat.

Lemma one_held_reachable : reachable (the_lock one_held).
Proof.
  assert (runs 5 (start [[RVolume "v"]]) one_held) as Hr
    by (by apply (after_runs _ [0;0;0;0;0]%nat)).
  destruct (runs_measure _ _ _ Hr) as [Hs _].
  apply (sys_inv_reachable (λ _, false) [[RVolume "v"]]); [|done].
  repeat constructor.
Qed.

Lemma LockVolume_excludes_witness :
  "v" ∈ held_of (the_lock one_held) 0 ∧ "v" ∈ locked (the_lock one_held).
Proof.
  assert ("v" ∈ held_of (the_lock one_held) 0) as H
    by (apply (bool_decide_eq_true_1 _); by vm_compute).
  split; [done|]. eapply (LockVolume_excludes (the_lock one_held) 0 0 "v");
    [apply one_held_reachable|exact H|exact H|discriminate|discriminate].
Defined.

(** Two requests on one volume, one of them on a snapshot, run to their end. *)
Definition two_requests : list (list request) := [[RVolume "v"]; [RSnapshot "v" "s"]].

(** Goroutine 1 sleeps until goroutine 0 releases "v". *)
Definition two_schedule : list nat :=
  (replicate 5 0 ++ replicate 3 1 ++ replicate 5 0 ++ replicate 19 1)%nat.

Definition two_served : sys := after two_requests two_schedule.

Lemma two_served_stuck : stuck two_served.
Proof.
  intros i s' Hst. assert (runs 32 (start two_requests) two_served) as Hr
    by (apply (after_runs _ two_schedule); by vm_compute).
  destruct (runs_measure _ _ _ Hr) as [Hs _].
  pose proof (mover_in_range _ _ _ _ Hs Hst) as Hi. simpl in Hi.
  destruct i as [|[|i]]; [..|lia]; destruct Hst as [a r l' Ht _ _ _|l' Hp _];
    first [by vm_compute in Ht|by destruct Hp; vm_compute].
Qed.

Lemma every_request_served_witness :
  finished two_served ∧ locked (the_lock two_served) = ∅.
Proof.
  apply (every_request_served (λ n, bool_decide (n = "s")) two_requests 32 two_served).
  - repeat constructor.
  - apply (after_runs _ two_schedule). by vm_compute.
  - apply two_served_stuck.
Defined.
