(* ===== verification/Process.v ===== *)
(** * The process (cmd/main.go; pkg/driver: driver.go, grpc.go, NewController and init of controller.go)

    One binary is the controller and the agent.  The main goroutine reads its settings,
    makes the services of its type of plugin, starts the gRPC server and waits.  Two
    goroutines belong to the server: one serves, the other waits for a signal, stops the
    server and lets the main goroutine go.  The fields of the server that they share are
    read and written by commands, so that their steps interleave. *)

From S2P Require Import Prelude GoStr GoErr Api Csi Effects Kube ZfsArgs Builders VolumeOps ZfsOps Mount.
From S2P Require Import Scheduler Controller Reconcilers Wiring BackupGC Server VolumeLock.

Section process.
Context `{!BuildInfo} `{!GoRange} `{!Globals} `{!ErrorsFmt} `{!CacheKeys} `{!LabelSelectors}.

(** ** The controller *)

(** The pointer back to the driver is left out; an informer is nil until it is made. *)
Record controller := mkControllerServer {
  cs_capabilities : list rpc_type;
  cs_indexedLabel : string;
  cs_k8sNodeInformer : option unit;
  cs_zfsNodeInformer : option unit;
  cs_volumeLock : volumeLock;
}.

Definition ControllerGetCapabilities (cs : controller) : list rpc_type := cs_capabilities cs.

Definition controller_init (cs : controller) : prog controller :=
  _ ← wrap_err "failed to build kubeconfig" (up UKubeConfig);
  _ ← wrap_err "failed to build k8s clientset" (up UKubeClient);
  _ ← wrap_err "failed to build openebs clientset" (up UOpenEBSClient);
  _ ← up USetupSignalHandler;
  let cs := cs {{ cs_k8sNodeInformer := Some tt }} {{ cs_zfsNodeInformer := Some tt }} in
  _ ← wrap_err (Sprintf "failed to add index on label %v" [cs_indexedLabel cs])
        (up (UAddIndexers (Some KNode) [LabelIndexName (cs_indexedLabel cs)]));
  _ ← up (UGoInformer None);
  _ ← up (UGoInformer (Some KNode));
  _ ← (if GoogleAnalyticsEnabled =? "true" then
         _ ← up (USendInstall DefaultCASType);
         _ ← up (UGoPing DefaultCASType Ping false);
         up (UGoPing DefaultCASType Heartbeat true)
       else Ret tt);
  _ ← up (UWaitForCaches [None; Some KNode]);
  _ ← (if ZFSBackupGCEnabled then
         r ← attempt Initialize;
         match r with
         | Err err => Throw (ErrWrap err "failed to initialize backup garbage collector")
         | Ok _ => Ret tt
         end
       else Ret tt);
  Ret cs.

Definition NewController : prog controller :=
  r ← attempt (controller_init (mkControllerServer newControllerCapabilities "" None None newVolumeLock));
  match r with
  | Err err => Crash (Sprintf "init controller: %v" [Error err])
  | Ok cs => Ret cs
  end.

(** ** The node server

    The bodies of the five goroutines are [NewNode]. *)

Definition reconciler (fuel : nat) (k : kind) : prog unit :=
  let i := match k with KNode => 0 | KVol => 1 | KSnap => 2 | KBkp => 3 | KRstr => 4 end%nat in
  nth i (NewNode fuel) (Ret tt).

Definition NewNodeServer : prog unit :=
  _ ← up USetupSignalHandler;
  _ ← up (UGo (GoReconciler KNode));
  _ ← up (UGo (GoReconciler KVol));
  _ ← up (UGo (GoReconciler KSnap));
  _ ← up (UGo (GoReconciler KBkp));
  up (UGo (GoReconciler KRstr)).

(** ** The driver *)

Definition GetVolumeCapabilityAccessModes : list AccessMode := [SINGLE_NODE_WRITER].

(** A service that is not there is nil; those of identity and node have no state but
    the driver. *)
Record CSIDriver := mkCSIDriver {
  drv_config : Config;
  drv_ids : option unit;
  drv_ns : option unit;
  drv_cs : option controller;
  drv_cap : list AccessMode;
}.

Definition New (config : Config) : prog CSIDriver :=
  let driver := mkCSIDriver config None None None GetVolumeCapabilityAccessModes in
  driver ← (if cfg_PluginType config =? "controller" then
              cs ← NewController; Ret (driver {{ drv_cs := Some cs }})
            else if cfg_PluginType config =? "agent" then
              _ ← NewNodeServer; Ret (driver {{ drv_ns := Some tt }})
            else Ret driver);
  Ret (driver {{ drv_ids := Some tt }}).

(** ** The gRPC server *)

(** Which of the services are there. *)
Record nonBlockingGRPCServer := mkServer {
  srv_endpoint : string;
  srv_idntyServer : bool;
  srv_ctrlServer : bool;
  srv_agentServer : bool;
}.

Definition NewNonBlockingGRPCServer (ep : string) (ids cs ns : bool) : nonBlockingGRPCServer :=
  mkServer ep ids cs ns.

(** Calling a method of the field, which the other goroutine sets. *)
Definition with_server (f : prog unit) : prog unit :=
  set ← up ULoadServer;
  if (set : bool) then f else Crash "nil pointer dereference".

Definition Stop : prog unit := with_server (_ ← up UStopAccepting; up UDrained).

Definition ForceStop : prog unit := with_server (up UServerStop).

Definition Wait : prog unit := up UWgWait.

(** The goroutine of [Start] that waits for the signal. *)
Definition stop_on_signal : prog unit :=
  _ ← up URecvSignal; _ ← Stop; up UWgDone.

Definition grpc_Start (s : nonBlockingGRPCServer) : prog unit :=
  _ ← up UNotify;
  _ ← up UWgAdd;
  _ ← up (UGo GoStopOnSignal);
  up (UGo (GoServe (srv_endpoint s) (srv_idntyServer s) (srv_ctrlServer s) (srv_agentServer s))).

Definition register_if (present : bool) (svc : service) : prog unit :=
  if present then up (URegister svc) else Ret tt.

Definition ErrServerStopped : error := ErrText "grpc: the server has been stopped".

(** [server.Serve(listener)] *)
Definition Serve : prog (option error) :=
  started ← up UServe;
  if (started : bool) then up UServed else Ret (Some ErrServerStopped).

Definition serve (endpoint : string) (ids cs ns : bool) : prog unit :=
  _ ← serve_listen endpoint;
  _ ← up UNewServer;
  _ ← register_if ids IdentityServer;
  _ ← register_if cs ControllerServer;
  _ ← register_if ns NodeServer;
  err ← Serve;
  match err with Some err => Crash (Error err) | None => Ret tt end.

(** The server a driver is run with. *)
Definition server_of (d : CSIDriver) : nonBlockingGRPCServer :=
  NewNonBlockingGRPCServer (cfg_Endpoint (drv_config d)) (bool_decide (is_Some (drv_ids d)))
    (bool_decide (is_Some (drv_cs d))) (bool_decide (is_Some (drv_ns d))).

Definition driver_Run (d : CSIDriver) : prog unit :=
  let s := server_of d in
  _ ← grpc_Start s; Wait.

(** The body of a goroutine that is started. *)
Definition go_body (fuel : nat) (g : goroutine) : prog unit :=
  match g with
  | GoMain => Ret tt
  | GoReconciler k => reconciler fuel k
  | GoStopOnSignal => stop_on_signal
  | GoServe endpoint ids cs ns => serve endpoint ids cs ns
  end.

(** ** main *)

(** [run] up to the driver: the settings, and the format options it sets for the node
    service ([NodeConfig]).  The versions that are logged are read again. *)
Definition run_config (config : Config) : prog (Config * format_defaults) :=
  config ← (if cfg_Version config =? "" then v ← Current; Ret (config {{ cfg_Version := v }})
            else Ret config);
  _ ← Current;
  _ ← GetGitCommit;
  match SetDefaultFormatOptions (cfg_DefaultFormatOptions config) ∅ with
  | (_, Some err) => Crash (Error err)
  | (options, None) => Ret (config, options)
  end.

(** An error of [driver_Run] would end the process; it has none. *)
Definition main_run (config : Config) : prog unit :=
  settings ← run_config config;
  d ← New settings.1;
  r ← attempt (driver_Run d);
  match r with Err err => Crash (Error err) | Ok _ => Ret tt end.

(** The flags with their defaults; one more may be given several times.  Reading the
    command line is cobra's: an error, or the values; none when it showed the help. *)
Definition string_flags : list (string * string) :=
  [("nodename", NodeID); ("version", ""); ("endpoint", "unix://csi/csi.sock");
   ("name", "zfs.csi.openebs.io"); ("plugin", "csi-plugin")].

Definition array_flag := "default-format-options".

Class Cobra := cobra_Execute :
  list (string * string) → string → list string → result (option (smap * list string)).

Definition config_of (values : smap) (formats : list string) : Config :=
  let value name := default "" (values !! name) in
  {| cfg_DriverName := value "name"; cfg_PluginType := value "plugin";
     cfg_Version := value "version"; cfg_Endpoint := value "endpoint";
     cfg_Nodename := value "nodename"; cfg_DefaultFormatOptions := formats |}.

Definition main `{!Cobra} (args : list string) : prog unit :=
  match cobra_Execute string_flags array_flag args with
  | Err err => Crash (Error err)
  | Ok None => Ret tt
  | Ok (Some (values, formats)) => main_run (config_of values formats)
  end.
End process.
