(* ===== verification/ProcessSpec.v ===== *)
(** * How the process starts, serves and stops

    The goroutines of a process, the signals it gets and the requests it serves, as a
    transition system: each step is one command of one goroutine, or one of a signal, a
    request, an answer.  In every interleaving the process ends well only after a signal,
    with the server stopped and no request in it; it serves exactly the services of its
    type of plugin; once the server is there, a signal lets it end. *)

From S2P Require Import Prelude GoStr GoErr Api Csi Effects Kube ZfsArgs Builders VolumeOps ZfsOps Mount.
From S2P Require Import Scheduler Controller Reconcilers Wiring WiringSpec BackupGC Server VolumeLock Process Laws Sim Scenarios.

(** ** The state of a process *)

(** A gRPC server: not serving yet, serving, no longer taking requests, stopped. *)
Inductive phase := Fresh | Serving | Stopping | Stopped.

Record server_state := mkServerState {
  sv_services : list service;
  sv_phase : phase;
  sv_running : nat; (* requests being served *)
}.

(** controller-runtime's handler: the first signal closes the stop channel, the second
    ends the process. *)
Record stop_handler := mkStopHandler {
  sh_pending : nat;
  sh_cancelled : bool;
}.

Inductive exit := Clean | Failed.

Record process := mkProcess {
  ps_threads : goroutine → option (prog unit);
  ps_handler : option stop_handler;
  ps_channel : option bool; (* the channel of the gRPC server: whether it holds a signal *)
  ps_wg : nat;
  ps_server : option server_state;
  ps_signalled : bool;      (* whether a signal was ever sent *)
  ps_exit : option exit;
}.

Definition set_thread (g : goroutine) (p : prog unit) (f : goroutine → option (prog unit))
    : goroutine → option (prog unit) :=
  λ g', if decide (g = g') then Some p else f g'.

Definition cancelled (st : process) : bool :=
  match ps_handler st with Some h => sh_cancelled h | None => false end.

Definition fail (st : process) : process := st {{ ps_exit := Some Failed }}.

Definition on_server (f : server_state → server_state) (st : process) : process :=
  st {{ ps_server := f <$> ps_server st }}.

(** The first use of the handler; the second panics. *)
Definition setup_handler (st : process) : process :=
  match ps_handler st with
  | None => st {{ ps_handler := Some (mkStopHandler 0 false) }}
  | Some _ => fail st
  end.

(** Go's panic on a counter that gets negative. *)
Definition wg_done (st : process) : process :=
  match ps_wg st with O => fail st | S n => st {{ ps_wg := n }} end.

(** A signal goes to every channel that was registered; without one it ends the
    process.  Channels that are full drop it. *)
Definition signal (st : process) : process :=
  match ps_handler st, ps_channel st with
  | None, None => fail (st {{ ps_signalled := true }})
  | h, ch =>
    st {{ ps_handler := (λ h, h {{ sh_pending := Nat.min 2 (S (sh_pending h)) }}) <$> h }}
       {{ ps_channel := (λ _, true) <$> ch }} {{ ps_signalled := true }}
  end.

Section process.
Context `{!BuildInfo} `{!GoRange} `{!Globals} `{!ErrorsFmt} `{!CacheKeys} `{!LabelSelectors}.
Context (fuel : nat).

(** What a command of the process waits for and does. *)
Definition up_effect (c : up_cmd) : up_resp c → process → process → Prop :=
  match c as c return up_resp c → process → process → Prop with
  | USetupSignalHandler => λ _ st st', st' = setup_handler st
  | UWaitForCacheSync _ | UWaitForCaches _ | USelectTimer =>
    λ r st st', (r = false → cancelled st = true) ∧ st' = st
  | URecvStop => λ _ st st', cancelled st = true ∧ st' = st
  | UGo g => λ _ st st',
      ps_threads st g = None ∧
      st' = st {{ ps_threads := set_thread g (go_body fuel g) (ps_threads st) }}
  | UWgAdd => λ _ st st', st' = st {{ ps_wg := S (ps_wg st) }}
  | UWgDone => λ _ st st', st' = wg_done st
  | UWgWait => λ _ st st', ps_wg st = 0%nat ∧ st' = st
  | UNotify => λ _ st st', st' = st {{ ps_channel := Some false }}
  | URecvSignal => λ _ st st', ps_channel st = Some true ∧ st' = st {{ ps_channel := Some false }}
  | UNewServer => λ _ st st', st' = st {{ ps_server := Some (mkServerState [] Fresh 0) }}
  | ULoadServer => λ r st st', r = bool_decide (is_Some (ps_server st)) ∧ st' = st
  | URegister svc => λ _ st st',
      st' = on_server (λ sv, sv {{ sv_services := sv_services sv ++ [svc] }}) st
  | UServe => λ r st st',
      match ps_server st with
      | Some (mkServerState _ Fresh _) => r = true ∧ st' = on_server (λ sv, sv {{ sv_phase := Serving }}) st
      | Some _ => r = false ∧ st' = st
      | None => False
      end
  | UServed => λ r st st', st' = st ∧
      match sv_phase <$> ps_server st with
      | Some Serving => r ≠ None (* it failed *)
      | Some Stopped => r = None
      | _ => False
      end
  | UStopAccepting => λ _ st st', st' = on_server (λ sv, sv {{ sv_phase := Stopping }}) st
  | UDrained => λ _ st st', sv_running <$> ps_server st = Some 0%nat ∧
      st' = on_server (λ sv, sv {{ sv_phase := Stopped }}) st
  | UServerStop => λ _ st st', st' = on_server (λ sv, sv {{ sv_phase := Stopped }} {{ sv_running := 0%nat }}) st
  | _ => λ _ st st', st' = st
  end.

Definition effect (c : cmd) : resp c → process → process → Prop :=
  match c as c return resp c → process → process → Prop with
  | CUp c => up_effect c
  | _ => λ _ st st', st' = st
  end.

Inductive pstep (st : process) : process → Prop :=
| p_command g c k r st' :
    ps_exit st = None → ps_threads st g = Some (Vis c k) → effect c r st st' →
    pstep st (st' {{ ps_threads := set_thread g (k r) (ps_threads st') }})
| p_crash g why : ps_exit st = None → ps_threads st g = Some (Crash why) → pstep st (fail st)
| p_return : ps_exit st = None → ps_threads st GoMain = Some (Ret tt) →
    pstep st (st {{ ps_exit := Some Clean }})
| p_signal : ps_exit st = None → pstep st (signal st)
| p_cancel n : ps_exit st = None → ps_handler st = Some (mkStopHandler (S n) false) →
    pstep st (st {{ ps_handler := Some (mkStopHandler n true) }})
| p_second n : ps_exit st = None → ps_handler st = Some (mkStopHandler (S n) true) →
    pstep st (fail st)
| p_request svc sv : ps_exit st = None → ps_server st = Some sv → sv_phase sv = Serving →
    svc ∈ sv_services sv →
    pstep st (on_server (λ sv, sv {{ sv_running := S (sv_running sv) }}) st)
| p_answer sv n : ps_exit st = None → ps_server st = Some sv → sv_running sv = S n →
    pstep st (on_server (λ sv, sv {{ sv_running := n }}) st).

Context (config : Config).

Definition pinit : process :=
  mkProcess (set_thread GoMain (main_run config) (λ _, None)) None None 0 None false None.

Definition preachable : process → Prop := rtc pstep pinit.

(** The services of a type of plugin. *)
Definition has_cs : bool := cfg_PluginType config =? "controller".
Definition has_ns : bool := cfg_PluginType config =? "agent".

Definition services : list service :=
  IdentityServer :: (if has_cs then [ControllerServer] else []) ++
                    (if has_ns then [NodeServer] else []).

(** ** Where the goroutines are *)

(** The commands that start and stop the process. *)
Definition quiet (c : cmd) : bool :=
  match c with
  | CUp c =>
    match c with
    | USetupSignalHandler | UGo _ | UWgAdd | UWgDone | UWgWait | UNotify | URecvSignal
    | UNewServer | ULoadServer | URegister _ | UServe | UServed | UStopAccepting | UDrained
    | UServerStop => false
    | _ => true
    end
  | _ => true
  end.

Lemma quiet_effect c r st st' : quiet c = true → effect c r st st' → st' = st.
Proof.
  destruct c; cbn; intros Hq He; try exact He.
  match goal with c : up_cmd |- _ => destruct c end; naive_solver.
Qed.

Definition serve_goroutine : goroutine := GoServe (cfg_Endpoint config) true has_cs has_ns.

(** The goroutine that waits for the signal. *)
Inductive sig_at := SWaiting | SReceived | SLoaded | SStopping | SDrained | SDone | SCrashed.

Definition sig_prog (s : sig_at) : prog unit :=
  match s with
  | SWaiting => stop_on_signal
  | SReceived => _ ← Stop; up UWgDone
  | SLoaded => Vis (CUp UStopAccepting) (λ _, Vis (CUp UDrained) (λ _, up UWgDone))
  | SStopping => Vis (CUp UDrained) (λ _, up UWgDone)
  | SDrained => up UWgDone
  | SDone => Ret tt
  | SCrashed => Crash "nil pointer dereference"
  end.

(** The goroutine that serves: before the server is there, while it registers, and when
    it serves. *)
Inductive srv_at := VListening (p : prog unit) | VRegister (rest : list service) | VServing | VDone | VCrashed (why : string).

Definition served (err : option error) : prog unit :=
  match err with Some err => Crash (Error err) | None => Ret tt end.

Fixpoint register_prog (rest : list service) : prog unit :=
  match rest with
  | [] => err ← Serve; served err
  | svc :: rest => Vis (CUp (URegister svc)) (λ _, register_prog rest)
  end.

Definition srv_prog (v : srv_at) : prog unit :=
  match v with
  | VListening p => p
  | VRegister rest => register_prog rest
  | VServing => Vis (CUp UServed) served
  | VDone => Ret tt
  | VCrashed why => Crash why
  end.

(** Until the server is made the goroutine does nothing to the process. *)
Fixpoint listening (p : prog unit) : Prop :=
  match p with
  | Vis c k =>
    (c = CUp UNewServer ∧ ∀ r, k r = register_prog services) ∨
    (quiet c = true ∧ ∀ r, listening (k r))
  | Crash _ => True
  | _ => False
  end.

(** The main goroutine: while it starts, it has set up the handler or not and started
    some reconcilers; then it is on its way through [grpc_Start] and [Wait]. *)
Inductive main_at := MStarting (h : bool) (ks : list kind) (p : prog unit) | MNotified | MAdded | MSpawned | MWaiting | MDone.

Definition main_prog (m : main_at) : prog unit :=
  match m with
  | MStarting _ _ p => p
  | MNotified => Vis (CUp UWgAdd) (λ _, Vis (CUp (UGo GoStopOnSignal)) (λ _,
                   Vis (CUp (UGo serve_goroutine)) (λ _, Vis (CUp UWgWait) (λ _, Ret tt))))
  | MAdded => Vis (CUp (UGo GoStopOnSignal)) (λ _,
                Vis (CUp (UGo serve_goroutine)) (λ _, Vis (CUp UWgWait) (λ _, Ret tt)))
  | MSpawned => Vis (CUp (UGo serve_goroutine)) (λ _, Vis (CUp UWgWait) (λ _, Ret tt))
  | MWaiting => Vis (CUp UWgWait) (λ _, Ret tt)
  | MDone => Ret tt
  end.

Fixpoint starting_up (h : bool) (ks : list kind) (p : prog unit) : Prop :=
  match p with
  | Vis c k =>
    (c = CUp UNotify ∧ ∀ r, k r = main_prog MNotified) ∨
    (c = CUp USetupSignalHandler ∧ h = false ∧ ∀ r, starting_up true ks (k r)) ∨
    (∃ i, c = CUp (UGo (GoReconciler i)) ∧ (i ∉ ks) ∧ ∀ r, starting_up h (i :: ks) (k r)) ∨
    (quiet c = true ∧ ∀ r, starting_up h ks (k r))
  | Crash _ => True
  | _ => False
  end.

(** ** The programs are at these points *)

(** A part of the main goroutine before [UNotify], and what it may return. *)
Fixpoint setting_up {A} (h : bool) (ks : list kind) (p : prog A)
    (Q : bool → list kind → result A → Prop) : Prop :=
  match p with
  | Vis c k =>
    (c = CUp USetupSignalHandler ∧ h = false ∧ ∀ r, setting_up true ks (k r) Q) ∨
    (∃ i, c = CUp (UGo (GoReconciler i)) ∧ (i ∉ ks) ∧ ∀ r, setting_up h (i :: ks) (k r) Q) ∨
    (quiet c = true ∧ ∀ r, setting_up h ks (k r) Q)
  | Ret a => Q h ks (Ok a)
  | Throw e => Q h ks (Err e)
  | Crash _ => True
  | Spin => False
  end.

Lemma setting_up_bind {A} h ks (p : prog A) (f : A → prog unit) :
  setting_up h ks p (λ h ks r, match r with Ok a => starting_up h ks (f a) | Err _ => False end) →
  starting_up h ks (p ≫= f).
Proof.
  revert h ks. induction p as [a| | | |c k IH]; intros h ks; cbn; try done.
  intros [(-> & -> & Hk)|[(i & -> & Hi & Hk)|(Hq & Hk)]]; [naive_solver| |naive_solver].
  right; right; left. eauto.
Qed.

Lemma setting_seq {A B} h ks (p : prog A) (f : A → prog B) Q :
  setting_up h ks p (λ h ks r, match r with Ok a => setting_up h ks (f a) Q | Err e => Q h ks (Err e) end) →
  setting_up h ks (p ≫= f) Q.
Proof.
  revert h ks. induction p as [a| | | |c k IH]; intros h ks; cbn; try done.
  intros [(-> & -> & Hk)|[(i & -> & Hi & Hk)|(Hq & Hk)]]; [naive_solver| |naive_solver].
  right; left. eauto.
Qed.

Lemma setting_attempt {A} h ks (p : prog A) Q :
  setting_up h ks p (λ h ks r, Q h ks (Ok r)) → setting_up h ks (attempt p) Q.
Proof.
  revert h ks. induction p as [a| | | |c k IH]; intros h ks; cbn; try done.
  intros [(-> & -> & Hk)|[(i & -> & Hi & Hk)|(Hq & Hk)]]; [naive_solver| |naive_solver].
  right; left. eauto.
Qed.

Lemma setting_quiet h ks c Q :
  quiet (CUp c) = true → (∀ r, Q h ks (Ok r)) → setting_up h ks (up c) Q.
Proof. intros Hq HQ. right; right. split; [done|]. exact HQ. Qed.

Lemma setting_handler ks Q : Q true ks (Ok tt) → setting_up false ks (up USetupSignalHandler) Q.
Proof. intros HQ. left. split_and!; [done..|]. by intros []. Qed.

Lemma setting_go h ks k Q :
  k ∉ ks → Q h (k :: ks) (Ok tt) → setting_up h ks (up (UGo (GoReconciler k))) Q.
Proof. intros Hk HQ. right; left. exists k. split_and!; [done..|]. by intros []. Qed.

Lemma setting_ret {A} h ks (a : A) Q : Q h ks (Ok a) → setting_up h ks (Ret a) Q.
Proof. done. Qed.

Lemma setting_throw {A} h ks e Q : Q h ks (Err e) → setting_up (A := A) h ks (Throw e) Q.
Proof. done. Qed.

Ltac setting :=
  repeat first
    [ apply setting_seq | apply setting_attempt | apply setting_quiet; [reflexivity|intros ?]
    | apply setting_handler | apply setting_go; [set_solver|] | apply setting_ret
    | apply setting_throw | exact I | case_match ].

(** A program that only has quiet commands, by what it may return. *)
Fixpoint returns {A} (P : A → Prop) (p : prog A) : Prop :=
  match p with
  | Ret a => P a
  | Crash _ => True
  | Throw _ | Spin => False
  | Vis c k => quiet c = true ∧ ∀ r, returns P (k r)
  end.

Lemma returns_bind {A B} (P : A → Prop) (Q : B → Prop) (p : prog A) (f : A → prog B) :
  returns P p → (∀ a, P a → returns Q (f a)) → returns Q (p ≫= f).
Proof. intros Hp Hf. induction p; cbn in *; naive_solver. Qed.

Lemma returns_mono {A} (P Q : A → Prop) (p : prog A) :
  returns P p → (∀ a, P a → Q a) → returns Q p.
Proof. intros Hp Hf. induction p; cbn in *; naive_solver. Qed.

Lemma returns_setting {A} (P : A → Prop) h ks (p : prog A) Q :
  returns P p → (∀ a, P a → Q h ks (Ok a)) → setting_up h ks p Q.
Proof.
  intros Hp Hf. induction p as [| | | |c k IH]; cbn in *; [naive_solver..|].
  destruct Hp. right; right. naive_solver.
Qed.

Lemma returns_listening {A} (P : A → Prop) (p : prog A) (f : A → prog unit) :
  returns P p → (∀ a, P a → listening (f a)) → listening (p ≫= f).
Proof.
  intros Hp Hf. induction p as [| | | |c k IH]; cbn in *; [naive_solver..|].
  destruct Hp. right. naive_solver.
Qed.

Ltac solve_returns :=
  repeat first
    [ done | intros ? | progress (unfold call) | case_match
    | (eapply (returns_bind (λ _, True)); [|intros ? _]) | split; [done|intros ?] ].

Lemma Current_returns : returns (λ _, True) Current.
Proof. unfold Current, version_Get, repo_file. solve_returns. Qed.

Lemma GetGitCommit_returns : returns (λ _, True) GetGitCommit.
Proof. unfold GetGitCommit. solve_returns. Qed.

Lemma serve_listen_returns endpoint : returns (λ _, True) (serve_listen endpoint).
Proof. unfold serve_listen. solve_returns. Qed.

(** The settings that [run] passes on are those it was given, but for the version. *)
Definition same_plugin (c c' : Config) : Prop :=
  cfg_Endpoint c' = cfg_Endpoint c ∧ cfg_PluginType c' = cfg_PluginType c.

Lemma run_config_returns cfg : returns (λ s, same_plugin cfg s.1) (run_config cfg).
Proof.
  unfold run_config. apply (returns_bind (same_plugin cfg)).
  { case_match; [|done]. by eapply returns_bind; [apply Current_returns|]. }
  intros c Hc. eapply returns_bind; [apply Current_returns|]. intros _ _.
  eapply returns_bind; [apply GetGitCommit_returns|]. intros _ _. by repeat case_match.
Qed.

(** The driver is made with the services of its type. *)
Definition driver_made (h : bool) (ks : list kind) (r : result CSIDriver) : Prop :=
  match r with
  | Ok d => server_of d = mkServer (cfg_Endpoint config) true has_cs has_ns
  | Err _ => False
  end.

Lemma not_both : has_cs = true → has_ns = false.
Proof. unfold has_cs, has_ns. by intros ->%String.eqb_eq. Qed.

Lemma New_setting cfg : same_plugin config cfg → setting_up false [] (New cfg) driver_made.
Proof.
  intros [He Hp]. unfold New. rewrite Hp. fold has_cs has_ns.
  assert (∀ d, drv_config d = cfg → drv_ids d = Some tt →
    bool_decide (is_Some (drv_cs d)) = has_cs → bool_decide (is_Some (drv_ns d)) = has_ns →
    ∀ h ks, driver_made h ks (Ok d)) as Hmade.
  { intros d Hd Hi Hc Hn h ks. unfold driver_made, server_of. by rewrite Hd, Hi, Hc, Hn, He. }
  destruct has_cs eqn:Hcs; [apply not_both in Hcs as Hns|destruct has_ns eqn:Hns].
  - unfold NewController, controller_init, Initialize, wrap_err, setupIndexers,
      registerEventHandlers, startAndWaitForInformer, lift, field.
    setting; by apply Hmade; rewrite ?Hns.
  - unfold NewNodeServer. setting. by apply Hmade.
  - setting. by apply Hmade.
Qed.

Lemma setting_mono {A} h ks (p : prog A) (Q Q' : bool → list kind → result A → Prop) :
  setting_up h ks p Q → (∀ h ks r, Q h ks r → Q' h ks r) → setting_up h ks p Q'.
Proof.
  intros Hp HQ. revert h ks Hp. induction p as [a| | | |c k IH]; intros h ks; cbn; try done; [apply HQ..|].
  intros [(-> & -> & Hk)|[(i & -> & Hi & Hk)|(Hq & Hk)]]; [naive_solver| |naive_solver].
  right; left. eauto.
Qed.

(** The main goroutine gets to [grpc_Start], or crashes. *)
Lemma main_starting : starting_up false [] (main_run config).
Proof.
  unfold main_run. apply setting_up_bind. eapply returns_setting; [apply run_config_returns|].
  intros [cfg options] Hc. apply setting_up_bind.
  eapply setting_mono; [by apply New_setting|]. intros h ks [d|e]; [|done]. intros Hd.
  unfold driver_Run. rewrite Hd. cbn. left. split; [done|]. by intros [].
Qed.

Lemma serve_listening : listening (go_body fuel serve_goroutine).
Proof.
  cbn [go_body serve_goroutine]. unfold serve. eapply returns_listening; [apply serve_listen_returns|].
  intros _ _. left. split; [done|]. intros []. unfold services, register_if.
  by destruct has_cs, has_ns.
Qed.

(** The reconcilers do nothing to the process. *)
Lemma poll_quiet n c : only (λ c, quiet c = true) (poll n c).
Proof. induction n as [|n IH]; [done|]. cbn [poll]. unfold up, field. by solve_only. Qed.

Lemma workers_quiet k n : only (λ c, quiet c = true) (start_workers k n).
Proof. induction n as [|n IH]; [done|]. by split; [|intros []]. Qed.

Lemma reconciler_quiet k : only (λ c, quiet c = true) (reconciler fuel k).
Proof.
  pose proof poll_quiet. pose proof workers_quiet.
  destruct k; cbn [reconciler NewNode nth]; unfold start_or_fatal, ZV_Start, Snap_Start, Bkp_Start,
    Rstr_Start, Start, Node_Start, Controller_Run, Node_Run, connect, find_k8s_node, locked_build,
    wrap_err, withKubeClient, withOpenEBSClient, withSynced, withLister, withRecorder,
    withEventHandler, withPollInterval, withOwnerReference, withWorkqueueRateLimiting,
    Controller_Build, up, field; by solve_only.
Qed.

(** ** The invariant *)

Definition given {A} (o : option A) : bool := match o with Some _ => true | None => false end.

(** Where main is tells which of the others were started. *)
Definition is_starting (m : main_at) : bool :=
  match m with MStarting _ _ _ => true | _ => false end.

Definition sig_started (m : main_at) : bool :=
  match m with MSpawned | MWaiting | MDone => true | _ => false end.

Definition srv_started (m : main_at) : bool :=
  match m with MWaiting | MDone => true | _ => false end.

Definition wg_of (m : main_at) (s : option sig_at) : nat :=
  match m, s with
  | (MStarting _ _ _ | MNotified), _ | _, Some SDone => 0
  | _, _ => 1
  end.

(** Whether the goroutine has received the signal. *)
Definition received (s : sig_at) : bool := match s with SWaiting => false | _ => true end.

(** What the goroutine that stops the server knows of it. *)
Definition sig_server (s : option sig_at) (sv : option server_state) : Prop :=
  match s with
  | Some SStopping => ∃ x, sv = Some x ∧ sv_phase x = Stopping
  | Some (SDrained | SDone) => ∃ x, sv = Some x ∧ sv_phase x = Stopped ∧ sv_running x = 0%nat
  | Some SLoaded => ∃ x, sv = Some x ∧ (sv_phase x = Fresh ∨ sv_phase x = Serving)
  | _ => ∀ x, sv = Some x → sv_phase x = Fresh ∨ sv_phase x = Serving
  end.

(** What the goroutine that serves knows of it. *)
Definition srv_server (v : option srv_at) (sv : option server_state) : Prop :=
  match v with
  | None => sv = None
  | Some (VListening p) => listening p ∧ sv = None
  | Some (VRegister rest) =>
    ∃ x, sv = Some x ∧ sv_services x ++ rest = services ∧ sv_phase x ≠ Serving ∧ sv_running x = 0%nat
  | Some (VServing | VDone | VCrashed _) => ∃ x, sv = Some x ∧ sv_services x = services
  end.

Record pinv (m : main_at) (s : option sig_at) (v : option srv_at) (st : process) : Prop := mkPinv {
  pi_main : ps_threads st GoMain = Some (main_prog m);
  pi_sig : ps_threads st GoStopOnSignal = sig_prog <$> s;
  pi_srv : ps_threads st serve_goroutine = srv_prog <$> v;
  pi_other ep a b c : GoServe ep a b c ≠ serve_goroutine → ps_threads st (GoServe ep a b c) = None;
  pi_rec k p : ps_threads st (GoReconciler k) = Some p → only (λ c, quiet c = true) p;
  pi_starting h ks p : m = MStarting h ks p →
    starting_up h ks p ∧ (h = false → ps_handler st = None) ∧
    (∀ k, k ∉ ks → ps_threads st (GoReconciler k) = None);
  pi_channel : given (ps_channel st) = negb (is_starting m);
  pi_sigs : given s = sig_started m;
  pi_srvs : given v = srv_started m;
  pi_wg : ps_wg st = wg_of m s;
  pi_sigsv : sig_server s (ps_server st);
  pi_srvsv : srv_server v (ps_server st);
  pi_signalled : (ps_channel st = Some true ∨ cancelled st = true ∨
                  ∃ x, s = Some x ∧ received x = true) → ps_signalled st = true;
  pi_pending h : ps_handler st = Some h → (sh_pending h ≠ 0)%nat → ps_signalled st = true;
  pi_done : m = MDone → s = Some SDone;
  pi_exit : ps_exit st = Some Clean → m = MDone;
}.

Definition pinvariant (st : process) : Prop := ∃ m s v, pinv m s v st.

Lemma pinit_inv : pinvariant pinit.
Proof.
  exists (MStarting false [] (main_run config)), None, None. split; try done.
  - intros h ks p [= <- <- <-]. split; [apply main_starting|done].
  - by intros [?|[?|(? & ? & ?)]].
Qed.

(** Steps that no goroutine makes. *)
Lemma pinv_fail m s v st : pinv m s v st → pinv m s v (fail st).
Proof. intros []. split; try done. Qed.

Lemma pinv_signal m s v st : ps_exit st = None → pinv m s v st → pinv m s v (signal st).
Proof.
  intros Hx []. destruct st as [ts h ch wg sv sig ex]. unfold signal. cbn in *.
  destruct h as [h|], ch as [b|]; split; cbn in *; try done.
  all: intros h' ks p Hm; destruct (pi_starting0 h' ks p Hm) as (? & Hn & ?);
    split_and!; [done|intros Hf; by specialize (Hn Hf)|done].
Qed.

Lemma pinv_cancel m s v st n :
  ps_handler st = Some (mkStopHandler (S n) false) → pinv m s v st →
  pinv m s v (st {{ ps_handler := Some (mkStopHandler n true) }}).
Proof.
  intros Hh []. assert (ps_signalled st = true) as Hs by (by eapply pi_pending0).
  split; cbn in *; try done. intros h ks p Hm. destruct (pi_starting0 h ks p Hm) as (? & Hn & ?).
  split_and!; [done| |done]. intros Hf. by rewrite (Hn Hf) in Hh.
Qed.

(** Requests come and go while the server serves, go while it stops. *)
Lemma pinv_running m s v st sv n :
  ps_server st = Some sv → sv_phase sv = Serving ∨ sv_running sv ≠ 0%nat → pinv m s v st →
  pinv m s v (on_server (λ sv, sv {{ sv_running := n }}) st).
Proof.
  intros Hsv Hr []. destruct st as [ts h ch wg sv' sig ex]. cbn in *. subst sv'.
  split; cbn in *; try done.
  - unfold sig_server in *. destruct sv as [svcs ph run].
    destruct s as [[]|]; destruct_and?; cbn in *.
    all: try (destruct pi_sigsv0 as (x & [= <-] & Hp); cbn in *; eexists; split; [done|]; cbn).
    all: try (intros x [= <-]; by apply (pi_sigsv0 _ eq_refl)).
    all: try done. all: destruct Hp as [-> ->], Hr; congruence.
  - unfold srv_server in *. destruct sv as [svcs ph run].
    destruct v as [[]|]; cbn in *; try done.
    + by destruct pi_srvsv0.
    + destruct pi_srvsv0 as (x & [= <-] & _ & Hp & Hz); cbn in *. by destruct Hr.
    + destruct pi_srvsv0 as (x & [= <-] & Hp). by eexists.
    + destruct pi_srvsv0 as (x & [= <-] & Hp). by eexists.
    + destruct pi_srvsv0 as (x & [= <-] & Hp). by eexists.
Qed.

(** *** Steps of the goroutines *)

Lemma set_same g p f : set_thread g p f g = Some p.
Proof. unfold set_thread. by rewrite decide_True. Qed.

Lemma set_other g g' p f : g ≠ g' → set_thread g p f g' = f g'.
Proof. intros ?. unfold set_thread. by rewrite decide_False. Qed.

(** What is to be shown of a command, and of a program whose next command it is. *)
Definition step_ok (g : goroutine) (st : process) (c : cmd) (k : resp c → prog unit) : Prop :=
  ∀ r st', effect c r st st' →
  pinvariant (st' {{ ps_threads := set_thread g (k r) (ps_threads st') }}).

Lemma vis_step g st p c k :
  p = Vis c k → match p with Vis c k => step_ok g st c k | _ => True end → step_ok g st c k.
Proof. by intros ->. Qed.

#[local] Arguments go_body : simpl never.

Lemma not_started {A} (o : option A) : given o = false → o = None.
Proof. by destruct o. Qed.

Ltac threads := repeat first [rewrite set_same|rewrite set_other by (first [done|congruence])].

Lemma step_reconciler m s v st i c k r st' :
  pinv m s v st → ps_threads st (GoReconciler i) = Some (Vis c k) → effect c r st st' →
  pinv m s v (st' {{ ps_threads := set_thread (GoReconciler i) (k r) (ps_threads st') }}).
Proof.
  intros [] Hi He. destruct (pi_rec0 _ _ Hi) as [Hq Hk].
  apply quiet_effect in He as ->; [|done].
  destruct st as [ts h ch wg sv sig ex]. split; cbn in *; threads; try done.
  - intros k' p. destruct (decide (i = k')) as [<-|Hne]; threads; [|apply pi_rec0].
    intros [= <-]. apply Hk.
  - intros h' ks p Hm. destruct (pi_starting0 h' ks p Hm) as (? & ? & Hn).
    split_and!; [done..|]. intros k' Hk'. destruct (decide (i = k')) as [<-|Hne]; threads; [|by apply Hn].
    by rewrite Hn in Hi.
Qed.

Lemma step_starting s v st h ks p c k r st' :
  pinv (MStarting h ks p) s v st → ps_exit st = None → p = Vis c k → effect c r st st' →
  ∃ m, pinv m s v (st' {{ ps_threads := set_thread GoMain (k r) (ps_threads st') }}).
Proof.
  intros [] Hx -> He. destruct (pi_starting0 _ _ _ eq_refl) as (Hst & Hh & Hks).
  destruct st as [ts hd ch wg sv sig ex]. cbn in *.
  apply not_started in pi_sigs0 as ->. apply not_started in pi_srvs0 as ->.
  destruct Hst as [(-> & Hk)|[(-> & -> & Hk)|[(i & -> & Hi & Hk)|(Hq & Hk)]]].
  - cbn in He. subst st'. exists MNotified. specialize (Hk r).
    split; cbn in *; threads; try done; [by rewrite Hk| |congruence].
    + intros [?|[?|(? & ? & ?)]]; try done. by apply pi_signalled0; auto.
  - cbn in He. rewrite (Hh eq_refl) in *. cbn in He. subst st'. exists (MStarting true ks (k r)).
    split; cbn in *; threads; try done.
    all: try (by intros h' ks' p' [= <- <- <-]).
    all: try (by intros h' [= <-]).
    all: try congruence.
  - cbn in He. destruct He as [Hnone ->]. exists (MStarting h (i :: ks) (k r)).
    split; cbn in *; threads; try done.
    + intros k' p'. threads. destruct (decide (i = k')) as [<-|Hne]; threads; [|apply pi_rec0].
      intros [= <-]. apply reconciler_quiet.
    + intros h' ks' p' [= <- <- <-]. split_and!; [done..|]. intros k' [Hne Hk']%not_elem_of_cons.
      threads. by apply Hks.
    + congruence.
  - apply quiet_effect in He as ->; [|done]. exists (MStarting h ks (k r)).
    split; cbn in *; threads; try done.
    all: try (by intros h' ks' p' [= <- <- <-]).
    all: try congruence.
Qed.

Lemma step_main m s v st c k :
  pinv m s v st → ps_exit st = None → main_prog m = Vis c k → step_ok GoMain st c k.
Proof.
  intros Hi Hx Hm. destruct m as [h ks p| | | | |]; cbn [main_prog] in Hm.
  { intros r st' He. destruct (step_starting _ _ _ _ _ _ _ _ _ _ Hi Hx Hm He) as [m Hm'].
    unfold pinvariant. eauto. }
  all: apply (vis_step _ _ _ _ _ Hm); try exact I; intros r st' He; cbn in He.
  all: destruct Hi; destruct st as [ts hd ch wg sv sig ex]; cbn in *.
  all: try (apply not_started in pi_sigs0 as ->); try (apply not_started in pi_srvs0 as ->).
  - subst st'. exists MAdded, None, None. split; cbn in *; threads; try done; congruence.
  - destruct He as [Hnone ->]. exists MSpawned, (Some SWaiting), None.
    split; cbn in *; threads; try done; [|congruence].
    intros [?|[?|(x & [= <-] & ?)]]; try done; apply pi_signalled0; auto.
  - destruct He as [Hnone ->]. exists MWaiting, s, (Some (VListening (go_body fuel serve_goroutine))).
    split; cbn in *; threads; try done.
    + intros ep a b cs Hne. threads. by apply pi_other0.
    + split; [apply serve_listening|done].
    + congruence.
  - destruct He as [Hz ->]. exists MDone, s, v. split; cbn in *; threads; try done.
    intros _. rewrite pi_wg0 in Hz. by destruct s as [[]|].
Qed.

Lemma step_sig m s v st c k :
  pinv m (Some s) v st → ps_exit st = None → sig_prog s = Vis c k → step_ok GoStopOnSignal st c k.
Proof.
  intros Hi Hx Hs. destruct s; cbn [sig_prog] in Hs.
  all: apply (vis_step _ _ _ _ _ Hs); try exact I; intros r st' He; cbn in He.
  all: destruct Hi; destruct st as [ts hd ch wg sv sig ex]; cbn in *.
  all: try (assert (sig = true) as Hsig by (apply pi_signalled0; right; right; by eexists)).
  - destruct He as [-> ->]. exists m, (Some SReceived), v.
    split; cbn in *; threads; try done; [auto|by intros Hm%pi_done0].
  - destruct He as [-> ->]. destruct sv as [sv|].
    + exists m, (Some SLoaded), v. split; cbn in *; threads; try done; [|by intros Hm%pi_done0].
      exists sv. auto.
    + exists m, (Some SCrashed), v. split; cbn in *; threads; try done. by intros Hm%pi_done0.
  - subst st'. exists m, (Some SStopping), v.
    destruct pi_sigsv0 as (x & -> & Hp).
    split; cbn in *; threads; try done; [by eexists| |by intros Hm%pi_done0].
    destruct v as [[]|]; cbn in *; try done; [by destruct pi_srvsv0|..].
    all: destruct pi_srvsv0 as (x' & [= <-] & Hv); eexists; split; [done|]; cbn.
    all: naive_solver.
  - destruct He as [Hz ->]. exists m, (Some SDrained), v.
    destruct pi_sigsv0 as (x & -> & Hp). injection Hz as Hz.
    split; cbn in *; threads; try done; [by eexists| |by intros Hm%pi_done0].
    destruct v as [[]|]; cbn in *; try done; [by destruct pi_srvsv0|..].
    all: destruct pi_srvsv0 as (x' & [= <-] & Hv); eexists; split; [done|]; cbn.
    all: naive_solver.
  - subst st'. exists m, (Some SDone), v.
    assert (wg = 1%nat) as -> by (rewrite pi_wg0; by destruct m).
    split; cbn in *; threads; try done; [by destruct r|by destruct m].
Qed.

Ltac other := try (by intros; threads; eauto).

Lemma step_srv m s v st c k :
  pinv m s (Some v) st → ps_exit st = None → srv_prog v = Vis c k → step_ok serve_goroutine st c k.
Proof.
  intros Hi Hx Hv. destruct v as [p|[|svc rest]| | |]; cbn [srv_prog register_prog] in Hv.
  2-6: apply (vis_step _ _ _ _ _ Hv); try exact I.
  all: intros r st' He.
  all: destruct Hi; destruct st as [ts hd ch wg sv sig ex]; cbn in *.
  - subst p. destruct pi_srvsv0 as [[(-> & Hk)|(Hq & Hk)] ->].
    + cbn in He. subst st'. exists m, s, (Some (VRegister services)).
      split; cbn -[services] in *; threads; try done; other.
      all: first [by rewrite Hk|by eexists|destruct s as [[]|]; cbn in *; naive_solver].
    + apply quiet_effect in He as ->; [|done]. exists m, s, (Some (VListening (k r))).
      split; cbn in *; threads; try done; other.
  - destruct pi_srvsv0 as (x & -> & Hsvc & Hp & Hz). rewrite app_nil_r in Hsvc.
    destruct x as [svcs ph run]; cbn in *. destruct ph; destruct He as [-> ->]; try done.
    + exists m, s, (Some VServing). split; cbn in *; threads; try done; other.
      all: first [by eexists|destruct s as [[]|]; cbn in *; naive_solver].
    + exists m, s, (Some (VCrashed (Error ErrServerStopped))).
      by split; cbn in *; threads; other.
    + exists m, s, (Some (VCrashed (Error ErrServerStopped))).
      by split; cbn in *; threads; other.
  - subst st'. destruct pi_srvsv0 as (x & -> & Hsvc & Hp & Hz).
    exists m, s, (Some (VRegister rest)). split; cbn in *; threads; try done; other.
    all: first [eexists; split; [done|]; cbn; by rewrite <- (assoc_L (++))
               |destruct s as [[]|]; cbn in *; naive_solver].
  - destruct He as [-> He]. exists m, s, (Some (match r with Some e => VCrashed (Error e) | None => VDone end)).
    split; cbn in *; threads; try done; other; by destruct r.
Qed.

Lemma pinv_step st st' : pstep st st' → pinvariant st → pinvariant st'.
Proof.
  intros Hs (m & s & v & Hi). destruct Hs as [g c k r st' Hx Hg He|g why Hx Hg|Hx Hg|Hx|n Hx Hh|n Hx Hh|svc sv Hx Hsv Hp _|sv n Hx Hsv Hr].
  - destruct g as [|i| |ep a b d].
    + rewrite (pi_main _ _ _ _ Hi) in Hg. injection Hg as Hg. by eapply step_main.
    + exists m, s, v. by eapply step_reconciler.
    + rewrite (pi_sig _ _ _ _ Hi) in Hg. destruct s as [s|]; [|done]. injection Hg as Hg.
      by eapply step_sig.
    + destruct (decide (GoServe ep a b d = serve_goroutine)) as [Heq|Hne].
      * rewrite Heq in *. rewrite (pi_srv _ _ _ _ Hi) in Hg. destruct v as [v|]; [|done].
        injection Hg as Hg. by eapply step_srv.
      * by rewrite (pi_other _ _ _ _ Hi) in Hg.
  - exists m, s, v. by apply pinv_fail.
  - exists m, s, v. rewrite (pi_main _ _ _ _ Hi) in Hg. injection Hg as Hg.
    assert (m = MDone) as -> by (by destruct m as [h ks p| | | | |]; try done;
      cbn in Hg; subst p; destruct (pi_starting _ _ _ _ Hi _ _ _ eq_refl)).
    destruct Hi. by split.
  - exists m, s, v. by apply pinv_signal.
  - exists m, s, v. by eapply pinv_cancel.
  - exists m, s, v. by apply pinv_fail.
  - exists m, s, v. eapply (pinv_running _ _ _ _ _ (S (sv_running sv))) in Hi; [|done|by left].
    unfold on_server in *. by rewrite Hsv in *.
  - exists m, s, v. eapply pinv_running; [done| |done]. right. by rewrite Hr.
Qed.

Lemma preachable_inv st : preachable st → pinvariant st.
Proof.
  unfold preachable. generalize pinit_inv. generalize pinit. intros st0 H0' Hr.
  induction Hr as [|x y z Hs _ IH]; [done|]. apply IH. by eapply pinv_step.
Qed.

(** ** What holds of every process *)

(** A goroutine that is about to be started is not there yet. *)
Lemma pinv_go st g g' k :
  pinvariant st → ps_threads st g = Some (Vis (CUp (UGo g')) k) → ps_threads st g' = None.
Proof.
  intros (m & s & v & Hi) Hg. destruct g as [|i| |ep a b d].
  - rewrite (pi_main _ _ _ _ Hi) in Hg. injection Hg as Hg.
    destruct m as [h ks p| | | | |]; cbn in Hg; try done.
    + subst p. destruct (pi_starting _ _ _ _ Hi _ _ _ eq_refl) as (Hst & _ & Hks).
      destruct Hst as [[? _]|[[? _]|[(i & [= ->] & Hi' & _)|[? _]]]]; try done. by apply Hks.
    + injection Hg as <-. rewrite (pi_sig _ _ _ _ Hi).
      by rewrite (not_started s) by apply (pi_sigs _ _ _ _ Hi).
    + injection Hg as <-. change (GoServe _ _ _ _) with serve_goroutine.
      rewrite (pi_srv _ _ _ _ Hi). by rewrite (not_started v) by apply (pi_srvs _ _ _ _ Hi).
  - by destruct (pi_rec _ _ _ _ Hi _ _ Hg).
  - rewrite (pi_sig _ _ _ _ Hi) in Hg. by destruct s as [[]|].
  - destruct (decide (GoServe ep a b d = serve_goroutine)) as [Heq|Hne].
    + rewrite Heq, (pi_srv _ _ _ _ Hi) in Hg.
      destruct v as [[p|[]| | |]|]; cbn in Hg; try done. injection Hg as Hg. subst p.
      by destruct (pi_srvsv _ _ _ _ Hi) as [[[? _]|[? _]] _].
    + by rewrite (pi_other _ _ _ _ Hi) in Hg.
Qed.

(** C12: in every interleaving of the goroutines of a process, of signals and of requests:
    the process ends well only after a signal, with the server stopped and no request left
    in it; requests are served only when exactly the services of the type of plugin are
    registered; no goroutine is started twice. *)
Theorem process_stops_after_signal st :
  preachable st →
  (ps_exit st = Some Clean →
     ps_signalled st = true ∧
     ∃ sv, ps_server st = Some sv ∧ sv_phase sv = Stopped ∧ sv_running sv = 0%nat) ∧
  (∀ sv, ps_server st = Some sv → sv_phase sv = Serving ∨ sv_running sv ≠ 0%nat →
     sv_services sv = services) ∧
  (∀ g g' k, ps_threads st g = Some (Vis (CUp (UGo g')) k) → ps_threads st g' = None).
Proof.
  intros Hr%preachable_inv. split_and!; [| |intros g g' k; by apply pinv_go].
  - destruct Hr as (m & s & v & Hi). intros Hx.
    pose proof (pi_done _ _ _ _ Hi (pi_exit _ _ _ _ Hi Hx)) as ->. split.
    + apply (pi_signalled _ _ _ _ Hi). right; right. by exists SDone.
    + by destruct (pi_sigsv _ _ _ _ Hi) as (sv & ? & ? & ?); exists sv.
  - destruct Hr as (m & s & v & Hi). intros sv Hsv Hp. pose proof (pi_srvsv _ _ _ _ Hi) as Hv.
    rewrite Hsv in Hv. destruct v as [[]|]; cbn in Hv; try done; [naive_solver|..].
    all: destruct Hv as (x & [= <-] & Hv); naive_solver.
Qed.

(** ** A signal lets the process end *)

Definition can_end (n : nat) (st : process) : Prop :=
  ∃ k st', (k ≤ n)%nat ∧ nsteps pstep k st st' ∧ ps_exit st' = Some Clean.

Lemma can_end_step n st st' : pstep st st' → can_end n st' → can_end (S n) st.
Proof.
  intros Hs (k & st'' & Hk & Hn & Hx). exists (S k), st''. split_and!; [lia| |done].
  by eapply nsteps_l.
Qed.

(** The main goroutine waits; the other one is at [s], with [n] requests being served. *)
Record stopping (s : sig_at) (n : nat) (st : process) : Prop := mkStopping {
  so_exit : ps_exit st = None;
  so_main : ps_threads st GoMain = Some (main_prog MWaiting);
  so_sig : ps_threads st GoStopOnSignal = Some (sig_prog s);
  so_wg : ps_wg st = wg_of MWaiting (Some s);
  so_server : sv_running <$> ps_server st = Some n;
}.

Lemma stopping_SDone n st : stopping SDone n st → can_end 2 st.
Proof.
  intros []. destruct st as [ts hd ch wg sv sig ex]; cbn in *. eapply can_end_step.
  { eapply (p_command _ GoMain (CUp UWgWait) _ tt); [done|exact so_main0|by split]. }
  eapply can_end_step; [apply p_return; [done|by cbn; rewrite set_same]|].
  eexists 0%nat, _. split_and!; [lia|by constructor|done].
Qed.

Lemma stopping_SDrained n st : stopping SDrained n st → can_end 3 st.
Proof.
  intros []. destruct st as [ts hd ch wg sv sig ex]; cbn in *. subst wg.
  eapply can_end_step.
  { eapply (p_command _ GoStopOnSignal (CUp UWgDone) _ tt); [done|exact so_sig0|done]. }
  apply (stopping_SDone n). by split; cbn; threads.
Qed.

Lemma stopping_SStopping n st : stopping SStopping n st → can_end (n + 4) st.
Proof.
  revert st. induction n as [|n IH]; intros st []; destruct st as [ts hd ch wg sv sig ex]; cbn in *.
  - eapply can_end_step.
    { eapply (p_command _ GoStopOnSignal (CUp UDrained) _ tt); [done|exact so_sig0|by split]. }
    apply (stopping_SDrained 0). split; cbn; threads; try done. by destruct sv.
  - destruct sv as [sv|]; [|done]. injection so_server0 as Hn. eapply can_end_step.
    { by eapply p_answer. }
    apply IH. by split.
Qed.

(** The way from where the goroutine is. *)
Definition steps_left (s : sig_at) : nat :=
  match s with
  | SWaiting => 7 | SReceived => 6 | SLoaded => 5 | SStopping => 4 | SDrained => 3 | _ => 2
  end.

Lemma stopping_ends s n st :
  stopping s n st → s ≠ SCrashed → (s = SWaiting → ps_channel st = Some true) →
  can_end (n + steps_left s) st.
Proof.
  assert (∀ st, stopping SLoaded n st → can_end (n + 5) st) as HL.
  { intros st' []. destruct st' as [ts hd ch wg sv sig ex]; cbn in *.
    rewrite Nat.add_succ_r. eapply can_end_step.
    { eapply (p_command _ GoStopOnSignal (CUp UStopAccepting) _ tt); [done|exact so_sig0|done]. }
    apply stopping_SStopping. split; cbn; threads; try done. by destruct sv. }
  assert (∀ st, stopping SReceived n st → can_end (n + 6) st) as HR.
  { intros st' []. destruct st' as [ts hd ch wg [sv|] sig ex]; cbn in *; [|done].
    rewrite Nat.add_succ_r. eapply can_end_step.
    { eapply (p_command _ GoStopOnSignal (CUp ULoadServer) _ true); [done|exact so_sig0|by split]. }
    apply HL. by split; cbn; threads. }
  intros Hs Hc Hch. destruct s; cbn [steps_left]; auto.
  - destruct Hs. specialize (Hch eq_refl). destruct st as [ts hd ch wg sv sig ex]; cbn in *.
    rewrite Nat.add_succ_r. eapply can_end_step.
    { eapply (p_command _ GoStopOnSignal (CUp URecvSignal) _ tt); [done|exact so_sig0|by split]. }
    apply HR. by split; cbn; threads.
  - by apply stopping_SStopping.
  - destruct (stopping_SDrained _ _ Hs) as (k & st' & ? & ?). exists k, st'. split; [lia|done].
  - destruct (stopping_SDone _ _ Hs) as (k & st' & ? & ?). exists k, st'. split; [lia|done].
  - done.
Qed.

End process.

(** ** Signals that come too early *)

Section early.

Definition some_build : BuildInfo := {| GitCommit := "0123456789"; Version := "2.9.0"; VersionMeta := "" |}.
Definition some_globals : Globals :=
  {| OpenEBSNamespace := "openebs"; NodeID := "node-1"; GoogleAnalyticsEnabled := "false";
     ZFSBackupGCEnabled := false |}.
#[local] Existing Instances some_build some_globals.

Definition some_config (plugin : string) : Config :=
  mkConfig "zfs.csi.openebs.io" plugin "2.9.0" "unix://csi/csi.sock" "node-1" [].

(** One command of goroutine [g], with the answer [r]. *)
Ltac go g c r := eapply rtc_l; [eapply (p_command _ _ g c _ r); [reflexivity|reflexivity|by cbn]|].

(** A signal that comes before the server is made: the goroutine that is to stop it
    finds the field nil, and the process panics. *)
Lemma early_signal_panics :
  ∃ st, preachable 0 (some_config "csi-plugin") st ∧ ps_exit st = Some Failed ∧
        ps_threads st GoStopOnSignal = Some (Crash "nil pointer dereference").
Proof.
  eexists. split.
  - go GoMain (CUp UNotify) tt. go GoMain (CUp UWgAdd) tt. go GoMain (CUp (UGo GoStopOnSignal)) tt.
    eapply rtc_l; [by apply p_signal|].
    go GoStopOnSignal (CUp URecvSignal) tt. go GoStopOnSignal (CUp ULoadServer) false.
    eapply rtc_l; [eapply (p_crash _ _ GoStopOnSignal); reflexivity|]. apply rtc_refl.
  - done.
Qed.

(** A signal that comes while the controller waits for its caches: the wait gives up, and
    its result is not looked at.  The process goes on to serve on caches that are stopped,
    and the signal never gets to the goroutine that stops the server. *)
Lemma signal_during_start_is_lost :
  ∃ st sv, preachable 0 (some_config "controller") st ∧ ps_exit st = None ∧
    cancelled st = true ∧ ps_server st = Some sv ∧ sv_phase sv = Serving ∧
    ps_threads st GoStopOnSignal = Some stop_on_signal ∧ ps_channel st = Some false.
Proof.
  eexists _, _. split.
  - go GoMain (CUp UKubeConfig) (Ok tt : result unit). go GoMain (CUp UKubeClient) (Ok tt : result unit).
    go GoMain (CUp UOpenEBSClient) (Ok tt : result unit). go GoMain (CUp USetupSignalHandler) tt.
    go GoMain (CUp (UAddIndexers (Some KNode) ["l:"])) (Ok tt : result unit).
    go GoMain (CUp (UGoInformer None)) tt. go GoMain (CUp (UGoInformer (Some KNode))) tt.
    eapply rtc_l; [by apply p_signal|]. eapply rtc_l; [by eapply p_cancel|].
    go GoMain (CUp (UWaitForCaches [None; Some KNode])) false.
    go GoMain (CUp UNotify) tt. go GoMain (CUp UWgAdd) tt. go GoMain (CUp (UGo GoStopOnSignal)) tt.
    go GoMain (CUp (UGo (serve_goroutine (some_config "controller")))) tt.
    go (serve_goroutine (some_config "controller")) (CRemove "/csi/csi.sock") (Ok tt : result unit).
    go (serve_goroutine (some_config "controller")) (CListen "unix" "/csi/csi.sock") (Ok tt : result unit).
    go (serve_goroutine (some_config "controller")) (CUp UNewServer) tt.
    go (serve_goroutine (some_config "controller")) (CUp (URegister IdentityServer)) tt.
    go (serve_goroutine (some_config "controller")) (CUp (URegister ControllerServer)) tt.
    go (serve_goroutine (some_config "controller")) (CUp UServe) true.
    apply rtc_refl.
  - done.
Qed.
(** A process that serves, gets a signal with a request being served, and ends. *)
Ltac start_serving plugin :=
  go GoMain (CUp UNotify) tt; go GoMain (CUp UWgAdd) tt; go GoMain (CUp (UGo GoStopOnSignal)) tt;
  go GoMain (CUp (UGo (serve_goroutine (some_config plugin)))) tt;
  go (serve_goroutine (some_config plugin)) (CRemove "/csi/csi.sock") (Ok tt : result unit);
  go (serve_goroutine (some_config plugin)) (CListen "unix" "/csi/csi.sock") (Ok tt : result unit);
  go (serve_goroutine (some_config plugin)) (CUp UNewServer) tt;
  go (serve_goroutine (some_config plugin)) (CUp (URegister IdentityServer)) tt;
  go (serve_goroutine (some_config plugin)) (CUp UServe) true.


Lemma process_stops_witness : ∃ st, ps_exit st = Some Clean ∧ ps_signalled st = true.
Proof.
  eexists. split; [|refine (proj1 (proj1 (process_stops_after_signal 0 (some_config "csi-plugin") _ _) _))].
  2: { start_serving "csi-plugin".
    eapply rtc_l; [by apply p_signal|].
    go GoStopOnSignal (CUp URecvSignal) tt. go GoStopOnSignal (CUp ULoadServer) true.
    go GoStopOnSignal (CUp UStopAccepting) tt. go GoStopOnSignal (CUp UDrained) tt.
    go GoStopOnSignal (CUp UWgDone) tt. go GoMain (CUp UWgWait) tt.
    eapply rtc_l; [by apply p_return|]. apply rtc_refl. }
  all: reflexivity.
Defined.
End early.
