(* ===== verification/Witnesses.v ===== *)
(** * The theorems at work

    Each theorem that has hypotheses, applied to a concrete input on which they
    hold: the simulated environment of [Sim] and [Scenarios] for the laws of the
    services, the literal regular expressions of [RegexpSim] for those of the
    regexp package. *)

From S2P Require Import Prelude GoStr GoErr Api Csi Effects Kube ZfsArgs ZfsArgsSpec Builders VolumeOps ZfsOps.
From S2P Require Import Laws Sim ZfsOpsSpec PipeSpec PoolSpec Reconcilers ReconcilersSpec Scheduler RegexpSim SchedulerSpec Controller ControllerSpec Scenarios.
From S2P Require Import Mount NodeService MountSpec BackupGC BackupGCSpec Wiring WiringSpec.

(** ** Inputs *)

(** A thick dataset with a refquota and an encrypted sparse zvol. *)
Definition thick_fs : ZFSVolume :=
  asked_vol {{ vol_Spec := (vol_Spec asked_vol) {{ QuotaType := "refquota" }}
                             {{ ThinProvision := "no" }} {{ Compression := "lz4" }} }}.

Definition sparse_zvol : ZFSVolume :=
  asked_vol {{ vol_Spec := (vol_Spec asked_vol) {{ VolumeType := "ZVOL" }} {{ FsType := "ext4" }}
                             {{ ThinProvision := "yes" }} {{ Encryption := "on" }} }}.

Definition clone_vol : ZFSVolume :=
  thick_fs {{ vol_Meta := emptyMeta {{ Name := "pvc-2" }} {{ Labels := {[ZFSSrcVolKey := "pvc-1"]} }} }}
           {{ vol_Spec := (vol_Spec thick_fs) {{ SnapName := "pvc-1@pvc-2" }} }}.

Definition restore1 : ZFSRestore :=
  mkZFSRestore (emptyMeta {{ Name := "r1" }})
    (mkZFSRestoreSpec "pvc-1" "node-1" "10.0.0.1:9010") (vol_Spec thick_fs) RSTZFSStatusInit.

(** The node with the volume created, and it being deleted. *)
Definition provisioned : sim := (run sim_handler (agent_vol "pvc-1")
  (cluster {{ sim_vols := {["pvc-1" := asked_vol]} }})).2.

Definition deleted_vol : ZFSVolume :=
  ready_vol {{ vol_Meta := (vol_Meta ready_vol) {{ DeletionTimestamp := Some 5%Z }} }}.

(** ** Command lines *)

Lemma buildZvolCreateArgs_witness :
  ∃ props, read_args (tail (buildZvolCreateArgs sparse_zvol)) =
    Some (mkCmdline ["-s"] [("-V", "1073741824")] props ["zpool/pvc-1"]) ∧
  ("encryption", "on") ∈ props.
Proof.
  assert (Validate (vol_Spec sparse_zvol) = None) as Hv by (vm_compute; reflexivity).
  destruct (buildZvolCreateArgs_spec sparse_zvol Hv eq_refl)
    as (args & props & Ha & Hr & _ & Hp). rewrite Ha.
  exists props. split; [exact Hr|]. apply Hp. right. left. by constructor.
Defined.

Lemma buildDatasetCreateArgs_witness :
  ∃ props, read_args (tail (buildDatasetCreateArgs thick_fs)) =
    Some (mkCmdline [] [] props ["zpool/pvc-1"]) ∧
  ("refreservation", "1073741824") ∈ props.
Proof.
  assert (Validate (vol_Spec thick_fs) = None) as Hv by (vm_compute; reflexivity).
  destruct (buildDatasetCreateArgs_spec thick_fs Hv eq_refl)
    as (args & props & Ha & Hr & _ & Hp). rewrite Ha.
  exists props. split; [exact Hr|]. apply Hp. left. by apply (fp_reservation "refreservation").
Defined.

Lemma buildCloneCreateArgs_witness :
  ∃ props, read_args (tail (buildCloneCreateArgs clone_vol)) =
    Some (mkCmdline [] [] props ["zpool/pvc-1@pvc-2"; "zpool/pvc-2"]).
Proof.
  assert (Validate (vol_Spec clone_vol) = None) as Hv by (vm_compute; reflexivity).
  destruct (buildCloneCreateArgs_spec clone_vol Hv eq_refl)
    as (args & props & Ha & Hr & _ & Hp). rewrite Ha. exists props. exact Hr.
Defined.

Lemma PropertyChanged_witness :
  buildVolumeSetArgs thick_fs =
  buildVolumeSetArgs (thick_fs {{ vol_Spec := (vol_Spec thick_fs) {{ Capacity := "5" }} }}).
Proof. apply PropertyChanged_complete; vm_compute; reflexivity. Defined.

Lemma buildVolumeRestoreArgs_witness :
  ∃ args props, buildVolumeRestoreArgs restore1 = inl (["-w"; "3"; "10.0.0.1"; "9010"], "recv" :: args) ∧
    read_args args = Some (mkCmdline ["-F"] [] props ["zpool/pvc-1"]).
Proof.
  destruct (buildVolumeRestoreArgs_spec restore1 "10.0.0.1" "9010" eq_refl eq_refl ltac:(by vm_compute) ltac:(by vm_compute))
    as (args & props & Ha & Hr & _).
  exists args, props. split; [exact Ha|exact Hr].
Defined.

(** ** Dataset operations *)

Lemma CreateVolume_witness :
  let r := run sim_handler (ZfsOps.CreateVolume thick_fs) cluster in
  r.1 = ORet tt ∧ sim_ds r.2 = {["zpool/pvc-1"]} ∪ {["zpool"]}.
Proof.
  pose proof (CreateVolume_ensures sim_env sim_ds thick_fs cluster) as Hw.
  apply wp_run in Hw as [Hens _]. split; [by vm_compute|exact Hens].
Defined.

Lemma CreateClone_witness :
  let r := run sim_handler (CreateClone clone_vol) provisioned in
  r.1 = ORet tt ∧ sim_ds r.2 = {["zpool/pvc-2"]} ∪ {["zpool/pvc-1@pvc-2"]} ∪ sim_ds provisioned.
Proof.
  pose proof (CreateClone_ensures sim_env sim_ds clone_vol provisioned) as Hw.
  apply wp_run in Hw as [_ Hens]. split; [by vm_compute|exact Hens].
Defined.


Lemma snapshot_roundtrip_witness :
  let r := run sim_handler (_ ← ZfsOps.CreateSnapshot (snap_of "s1"); DestroySnapshot (snap_of "s1")) in_use in
  r.1 = ORet tt ∧ sim_ds r.2 = sim_ds in_use.
Proof.
  assert (snap_dataset (snap_of "s1") ∉ sim_ds in_use) as Hn
    by (apply (bool_decide_eq_true_1 _); by vm_compute).
  pose proof (snapshot_roundtrip sim_env sim_ds (snap_of "s1") in_use Hn) as Hw.
  apply wp_run in Hw. split; [by vm_compute|exact Hw].
Defined.

(** The device never appears: the wait ends after its five seconds. *)
Lemma getDevice_witness :
  let r := run sim_handler (getDevice 6 "zpool/pvc-1") cluster in
  r.1 = OErr (Errorf "zfs: not able to get the device: %s" ["/dev/zvol/zpool/pvc-1"]) ∧
  sim_now r.2 = 5%Z.
Proof.
  pose proof (getDevice_terminates sim_env sim_now 6 "zpool/pvc-1" cluster (le_n 6)) as Hw.
  apply wp_run in Hw. split; [|by vm_compute].
  destruct (run sim_handler (getDevice 6 "zpool/pvc-1") cluster) as [o s] eqn:E.
  destruct o; simpl in *; [|by f_equal|done..]. exfalso. by vm_compute in E.
Defined.

Lemma checkVolCreation_witness :
  let r := run sim_handler (checkVolCreation 11 "pvc-1") provisioned in
  r.1 = ORet (false, None) ∧ wait_result sim_env "pvc-1" r.1.
Proof.
  pose proof (checkVolCreation_terminates sim_env sim_now 11 "pvc-1" provisioned (le_n 11)) as Hw.
  apply wp_run in Hw. split; [by vm_compute|exact Hw].
Defined.

(** ** Pools *)

Lemma decodeListOutput_witness :
  decodeListOutput (render [pool1; mkPool "zpool/pvc-1" "2" 5 6]) = Ret [pool1].
Proof.
  apply (decodeListOutput_roundtrip [pool1; mkPool "zpool/pvc-1" "2" 5 6]).
  assert (∀ z, (0 <= z <= 200 * Gi)%Z → in_int64 z) as Hi
    by (unfold in_int64, int64_min, int64_max, Gi; lia).
  repeat constructor; simpl; try done; apply Hi; unfold Gi; lia.
Defined.

(** ** Reconcilers *)


Lemma processNextWorkItem_witness :
  wp sim_env (processNextWorkItem ZV_syncHandler) (λ o s', o = ORet false) cluster.
Proof.
  eapply wp_mono; [|eapply (processNextWorkItem_settles sim_env ZV_syncHandler (λ _ _, True) (λ _ _, True))].
  - intros o s' [[-> _]|(_ & s1 & [(key & Hget & _)|(s2 & s3 & e & Hget & _)])]; [done|..];
      by injection Hget.
  - intros key s1. apply (wp_mono sim_env _ (λ o _, returned o)); [by intros []|].
    apply total_wp. unfold ZV_syncHandler, syncHandler. simpl.
    destruct (Split "/" key) as [|a [|b [|c l]]]; simpl; try done;
      intros [zv|e]; try apply total_syncZV; by case_match.
Defined.

Lemma added_volume_witness :
  addZV (DObj (k:=KVol) (asked_vol {{ vol_Meta := emptyMeta {{ Name := "pvc-1" }} {{ Namespace := "openebs" }} }}))
  = call (CQueueAdd "openebs/pvc-1").
Proof.
  set (zv := asked_vol {{ vol_Meta := _ }}).
  destruct (added_volume_is_synced zv ltac:(done) eq_refl eq_refl) as [_ Hown].
  destruct (Hown eq_refl) as (key & Hadd & _). rewrite Hadd. by injection Hadd as <-.
Defined.

(** ** The scheduler *)

Definition pool2 : Pool := mkPool "zpool2" "2" (200 * Gi) 0.

Definition node2 : ZFSNode :=
  mkZFSNode (emptyMeta {{ Name := "node-2" }} {{ Namespace := "openebs" }}) [pool1; pool2].

(** Every pool whose name has "zpool" in it. *)
Definition zpools : regex := Within "zpool".

Lemma pools_named : named [pool1; pool2].
Proof. intros p Hp. rewrite !elem_of_cons, elem_of_nil in Hp. by destruct Hp as [->|[->|[]]]. Qed.

Lemma nodes_pools node p :
  node ∈ [node1; node2] → p ∈ node_Pools node →
  pool_Name p ≠ "" ∧ (0 <= pool_Free p <= int64_max)%Z.
Proof.
  rewrite !elem_of_cons, elem_of_nil. intros [->|[->|[]]]; simpl; rewrite ?elem_of_cons, elem_of_nil;
    intros Hp; destruct_or?; subst; try done; split; try done; vm_compute; intuition congruence.
Qed.

Lemma maxFreePool_witness : maxFreePool [pool1; pool2] zpools = ("zpool2", (200 * Gi)%Z) ∧
  ∃ p, first_least (matches zpools) (λ p, - pool_Free p)%Z [pool1; pool2] p ∧ pool_Name p = "zpool2".
Proof.
  destruct (maxFreePool_correct [pool1; pool2] zpools pools_named) as [[E _]|(p & E & Hp)];
    [by vm_compute in E|].
  split; [by vm_compute|]. exists p. split; [exact Hp|].
  assert (maxFreePool [pool1; pool2] zpools = ("zpool2", (200 * Gi)%Z)) as E' by by vm_compute.
  congruence.
Defined.

(** The least weight wins among the pools with the room: the second pool. *)
Lemma poolForNode_witness :
  ∃ p, poolForNode [pool1; pool2] zpools (150 * Gi) {["zpool2" := 7%Z]} = pool_Name p ∧
       first_least (qualifies zpools (150 * Gi)) (λ p, zget {["zpool2" := 7%Z]} (pool_Name p))
         [pool1; pool2] p.
Proof.
  destruct (poolForNode_correct [pool1; pool2] zpools (150 * Gi) {["zpool2" := 7%Z]} pools_named)
    as [[E _]|(p & E & Hp)]; [by vm_compute in E|]. exists p. split; [exact E|exact Hp].
Defined.

Lemma suitable_node_witness :
  ∃ node p, node ∈ [node1; node2] ∧ k8sNodeName node = "node-2" ∧ p ∈ node_Pools node ∧
            (150 * Gi < pool_Free p)%Z.
Proof.
  destruct (suitable_node_has_pool [node1; node2] zpools (150 * Gi) "node-2" ∅)
    as (node & p & Hin & Hname & Hp & _ & _ & Hfree).
  - intros node Hin p Hp. by eapply nodes_pools.
  - apply (bool_decide_eq_true_1 _). by vm_compute.
  - exists node, p. split_and!; try done. by apply Hfree.
Defined.

Lemma volumeWeightedMap_witness :
  zget (volumeWeightedMap [asked_vol; ready_vol] [node1; node2] zpools) "node-1" = 2%Z.
Proof.
  rewrite (volumeWeightedMap_counts [asked_vol; ready_vol] [node1; node2] zpools "node-1");
    [by vm_compute|unfold int64_max; simpl; lia].
Defined.

Lemma spaceWeightedMap_witness :
  ∃ w1 w2, spaceWeightedMap [node1; node2] zpools !! "node-1" = Some w1 ∧
           spaceWeightedMap [node1; node2] zpools !! "node-2" = Some w2 ∧ (w2 < w1)%Z.
Proof.
  destruct (spaceWeightedMap_order [node1; node2] zpools node2 node1)
    as (w2 & w1 & H2 & H1 & _ & Hlt).
  - apply (bool_decide_eq_true_1 _). by vm_compute.
  - apply nodes_pools.
  - right. left.
  - left.
  - vm_compute. reflexivity.
  - vm_compute. reflexivity.
  - exists w1, w2. split_and!; [exact H1|exact H2|]. apply Hlt. by vm_compute.
Defined.

(** The dot of a pool's name is literal. *)
Lemma parsePoolParams_witness :
  ∃ re, parsePoolParams "tank.1/sub" "" = Ret re ∧ MatchString re "tank.1" = true ∧
        MatchString re "tankx1" = false.
Proof.
  pose proof (parsePoolParams_correct "tank.1/sub" "" ltac:(by vm_compute)) as Hp.
  destruct (parsePoolParams "tank.1/sub" "") as [re|e|m| |] eqn:E; try by vm_compute in E.
  destruct Hp as [(_ & _ & Hm)|(_ & ? & _)]; [|done]. exists re. rewrite !Hm. by vm_compute.
Defined.

Lemma reservesSpace_witness :
  reservesSpace "DATASET" "no" = true ∧
  ∃ args cl, buildDatasetCreateArgs thick_fs = ZFSCreateArg :: args ∧ read_args args = Some cl ∧
             create_reserves thick_fs cl.
Proof.
  assert (Validate (vol_Spec thick_fs) = None) as Hv by (vm_compute; reflexivity).
  destruct (reservesSpace_correct thick_fs Hv eq_refl) as (args & cl & Ha & Hr & Hiff).
  split; [done|]. exists args, cl. split_and!; [exact Ha|exact Hr|]. by apply Hiff.
Defined.

(** ** The controller *)



(** ** The node service *)

#[export] Instance node1_config : NodeConfig :=
  {| Nodename := "node-1"; defaultFormatOptions := ∅ |}.

Definition node_vols : gmap string ZFSVolume := {["pvc-1" := ready_vol]}.

Definition publish_at (path : string) : NodePublishVolumeRequest :=
  mkNodePublishVolumeRequest "PVC-1" path
    (Some (mkVolumeCapability SINGLE_NODE_WRITER (Some (AccessMount "zfs" [])))) false ∅.

Definition unpublish_at (path : string) : NodeUnpublishVolumeRequest :=
  mkNodeUnpublishVolumeRequest "pvc-1" path.

Lemma node_vols_lookup n v : node_vols !! n = Some v → v = ready_vol.
Proof. unfold node_vols. by intros [_ <-]%lookup_singleton_Some. Qed.




(** ** The garbage collection of backups *)


(** ** The start of the agent *)

(** The goroutines are there, and the volume controller has got its configuration. *)
Definition one_configured : starting :=
  mkStarting (<[1%nat := match NewNode 5 !! 1%nat with
                         | Some (Vis (CUp UKubeConfig) k) => k (Ok tt)
                         | _ => Spin
                         end]> (NewNode 5)) None.

Lemma one_configured_reachable : up_reachable 5 one_configured.
Proof.
  eapply up_more; [apply up_init|].
  refine (up_command (mkStarting (NewNode 5) None) 1 (CUp UKubeConfig) _ (Ok tt) eq_refl _). done.
Qed.


(** A node whose label differs from its name. *)
Definition labelled_nodes : list (k8s_node * smap) :=
  [ (mkK8sNode "worker-1" "u-1", {[ZFSTopologyKey := "rack-7"]}); (mkK8sNode "worker-2" "u-2", ∅) ].

Definition agent_environ (name : string) : string :=
  if name =? "OPENEBS_NODE_NAME" then "worker-1" else "openebs".

Lemma labelled_nodes_laws :
  ClusterLaws (cluster_env labelled_nodes agent_environ) labelled_nodes agent_environ.
Proof. apply cluster_env_laws. by repeat constructor; vm_compute. Qed.

Lemma owner_is_own_node_witness :
  let r := run (cluster_handler labelled_nodes agent_environ)
             (G ← init; node ← find_k8s_node; Ret (owner_of node)) cluster in
  r.1 = ORet (mkOwnerReference "v1" "Node" "worker-1" "u-1" (Some true)) ∧
  match r.1 with ORet ref => ref_Name ref = "worker-1" | _ => False end.
Proof.
  pose proof (@owner_is_own_node sim (cluster_env labelled_nodes agent_environ) sim_selectors
    labelled_nodes agent_environ labelled_nodes_laws cluster) as Hw.
  apply wp_run in Hw; [|done].
  split; [by vm_compute|]. exact (proj2 Hw).
Defined.
